(* ===== verification/_CoqProject ===== *)
-Q . S2P
Prelude.v
Containers.v
Keccak.v
KeccakSpec.v
Common.v
History.v
JamTypes.v
Authorizations.v
Crypto.v
Disputes.v
DisputesSpec.v
Chains.v
Safrole.v
SafroleSpec.v
Murmur.v
Parsers.v
StateManager.v
StateManagerSpec.v
StateManagerRace.v
ShutdownWait.v
OrderedMap.v
Storage.v
InMemory.v
InMemorySpec.v
RocksDb.v
RocksDbSpec.v
RocksDbWitness.v
FdLimit.v
Watchdog.v
Scheduler.v
Subscription.v
SubscriptionSpec.v
Dispatcher.v
Locks.v
Channel.v
ChannelSpec.v
ChannelRace.v
Configurator.v
ConfiguratorSpec.v
Utils.v
Sync.v
Logging.v
Modules.v
Loaders.v
LoadersSpec.v
EngineBus.v
RequestsSpec.v
Delivery.v
DeliveryRace.v
Teardown.v
ChainSpec.v
Node.v
NodeSpec.v
Dylib.v
MetricsRegistry.v
MetricsServer.v
Threads.v
MetricsSpec.v
ExposerSpec.v
Injector.v
App.v
Serving.v
TestVectors.v
Harness.v
Diagnostics.v
