(* ===== verification/Prelude.v ===== *)
(** * A verification of the JAM node

    The program (C++, under [src/]) is a blockchain node in the making: the state
    transitions of the JAM protocol, checked against published test vectors, and the
    node that will run them.  This development translates its components into
    executable definitions and proves what they compute.  This file, the prelude, holds
    the shared vocabulary: outcomes of C++ code, machine integers, generic lemmas.

    ** The parts of the program and the files that model them

    _State transitions_ ([src/test-vectors/]).  [Common], [History], [Authorizations],
    [Disputes] and [Safrole] model [common.hpp] and the four [transition] functions,
    statement by statement; [JamTypes] has the generated types as records and the
    protocol constants; [Containers] has the ordered sets and multimaps they use, with
    the iteration order of hash tables as a parameter; [Crypto] and [Keccak] have the
    cryptography of [src/src/crypto/]: the Keccak sponge is modelled bit for bit, the
    foreign libraries (blake2b, ed25519, bandersnatch) are parameters of a class.
    [DisputesSpec], [SafroleSpec] and [KeccakSpec] hold the specifications and proofs,
    [Chains] what holds over any number of blocks.

    _Life cycle_ ([src/src/app/]).  [StateManager] is the state machine of
    [state_manager_impl.cpp] in a state-and-exception monad, with callbacks that call
    back into the manager; whether somebody requests a shutdown while the manager waits is
    a parameter of [run], and without a request the run is still waiting; [StateManagerRace] interleaves [shutdown] with [run], and
    [ShutdownWait] has the wait in between with its mutex, its condition variable and
    the signals.
    [Watchdog] is [watchdog.hpp]; [Configurator] is [configurator.cpp] over a class of
    the YAML, option, file-system and address libraries; [ChainSpec] is
    [chain_spec_impl.cpp].  [Node] composes them: [ApplicationImpl::run], [run_node]
    and [main] of [executable/jam_node.cpp].  [Injector] is the graph of bindings and
    constructor parameters of [injector/node_injector.cpp]; [App] constructs and runs the
    application with its metrics server; [Teardown] is the end of [run_node], loaders and
    injector going while the handler thread still works and tasks are still posted.  [Dylib] is the launcher
    [executable/dlopen.cpp], over a heap of bytes.

    _Storage_ ([src/src/storage/]).  [Storage] states the interfaces of [face/] as type
    classes of operations with laws; [InMemory] (over [OrderedMap]) and [RocksDb] (over
    a parameter that answers every library call, failures included) model the two
    implementations, and the [Spec] files discharge the laws.

    _Events and threads_ ([src/src/se/], [src/src/utils/channel.hpp]).  [Scheduler] is the
    task queue and worker loop, [Dispatcher] the routing of tasks to workers,
    [Subscription] the engine with its linked lists and weak pointers over a shared
    store, [Sync] the event and the guarded object as step relations over any number of
    threads, [Channel] and [ChannelRace] the two-ended channel.  [Threads] has what the
    owner of a thread relies on: the worker loop returns, disposing of the manager joins
    every worker, the watcher's thread ends.  [Locks] has the mutexes: which operation of
    subscribers, engines, manager, dispatcher and schedulers takes which of them, in which
    order, what it touches under them or without one, and which threads it waits for.  [Murmur] is the hash behind identifiers.

    _Modules_ ([src/src/modules/], [src/src/loaders/]).  [Modules] is the search for
    module libraries; [Loaders] the loaders and the example, networking and synchronizer
    modules, written against the interface [EventBus]; [EngineBus] shows that the
    subscription engine implements the interface, so that the theorems of [LoadersSpec]
    and [RequestsSpec] hold of the engine.  [Delivery] replaces the abstract list of
    pending callbacks by the dispatcher and the scheduler, [DeliveryRace] lets the main
    and the handler thread interleave.  [Teardown] also has the instance that each module
    library keeps, the base class of the loaders and the exports of the three libraries.

    _Metrics_ ([src/src/metrics/], [src/src/utils/tuner.cpp]).  [MetricsRegistry] has families
    and metrics by type over the interface [Prometheus] and the handler of requests;
    [MetricsServer] the choice of a port, the HTTP session, the exposer and the watcher;
    [ExposerSpec] runs the exposer under the state manager; [Serving] has the accept loop
    and all sessions on one context.

    _The rest_.  [Parsers], [Logging], [Utils], [FdLimit] and [Diagnostics] model the
    utilities of the same names, clocks and formatters; [TestVectors] the harness of the
    transitions: the comparison of values, the choice of files, coding with a
    configuration; [Harness] the suites and the two tests that the macros define.

    ** How definitions correspond to code

    A definition carries the name of the function, method or type it translates, a
    record has its members as fields, and a comment gives the C++ name where they
    differ.  A body ends in one of the four outcomes of [run] below; state is passed
    explicitly or through a monad, or changes by steps of a relation where threads
    interleave.  Integers are [Z], reduced with [u8] to [u64] where the code has unsigned
    types.  An assertion that fails, a read out of range and a null dereference are
    [Undef], so a theorem that a call is [Done] includes that they do not happen.
    Libraries are classes or section variables; what is assumed of them is a law of the
    class (the laws of the database speak of calls that succeed and say nothing of what a
    failed call leaves behind), and a concrete instance satisfies the laws in the samples.

    ** What the theorems show

    Equivalence and refinement: the hash computes the Keccak function on bit lists; the
    disputes and Safrole transitions accept exactly the inputs their specifications
    accept and compute the specified state; both storages behave like a map under the
    interface; the dispatcher and the scheduler implement a plain list of pending
    callbacks.  Functional behaviour: history, authorizations, verdicts, the answer of the
    configurator, which subscribers are notified, the order of scheduled tasks, which
    modules are loaded, when [main] succeeds, the life of the node from injection to the
    joined threads or to the wait for a shutdown, the erasure of a storage space, what the connections to the metrics server read.  Invariants: verdicts
    and authorization pools over a chain of blocks, sorted and distinct tickets,
    the chain of entropy, responses that answer requests.  Termination and liveness: [run]
    of the state manager once a shutdown is requested, with every shutdown callback
    executed, the worker loop, the end of [run_node] against the handler
    thread, delivery under every interleaving, the request to shut down, operations of the
    subscriptions without deadlock (unless a worker disposes of its own manager), the end of a channel, wake-ups.  Safety: no use of
    freed nodes in the engine, races only on the three kinds of variables that are written
    without a mutex, libraries closed after their subscribers are gone, independence of
    hash-table order, a single shutdown under interleaving.  Types: metrics of the type of
    their family.  Round trips: directives for the logging system, vectors sized by the configuration.  Bounds: the
    buffers of the launcher.  Further
    theorems, about single operations and about behaviour the code can hardly mean, stand
    beside them in the files: tasks that are never early, one pending operation per
    session, the ports that are tried, serialised accesses, distinct request identifiers,
    batches of writes, an existing database that is never opened, a mutex that is unlocked
    after it was destroyed, a signal handler that waits for its own thread,
    a graph of constructors without circles, what a passing test vector means.

    ** Bounds and fuel

    Loops that are not structural take fuel, and theorems give an amount that suffices:
    the weight of the registered callbacks for [StateManager.run], the number of callbacks
    a task can lead to for [Loaders.drain], the tolerance plus one for
    [acceptOnFreePort], the number of entries for queues and searches, four callbacks for
    the run of the application.  A wait that nothing ends is an outcome of its own
    ([StillWaiting], [Node.Running]), not a lack of fuel.  Where the code loops forever ([checkLoop], worker threads, accept loops) the model is a step that is
    iterated over any list of events.

    ** Not modelled

    The C++ types generated from ASN.1 and their coders, which are not in the repository
    (the records of [JamTypes] stand for what the transitions use of them), and the
    scripts that generate them; how the dependency-injection library searches and shares
    objects ([bind_by_lambda.hpp] extends it and nothing uses that); text of log messages,
    colours and layout of printed differences; memory ordering weaker than interleaving;
    headers that only declare interfaces or forward to a library.  Data races on variables
    outside of the subscriptions are only treated where a file says so.  The bytes on a
    connection are not modelled: a request arrives as a whole.  Several handler threads
    delivering at once are covered by [Locks] but not by [Delivery] and [Teardown], since the program
    configures one ([kHandlersCount]). *)

From stdpp Require Export base tactics decidable list numbers option strings gmap sorting.
From Stdlib Require Export ZArith Lia.

#[global] Open Scope Z_scope.

(** ** Outcomes of C++ code

    A C++ function body ends in one of four ways: it reaches its final
    [return] ([Done]); it takes one of the early [return error(e)] exits
    ([Fail e]); an exception leaves it ([Raise]); or it performs an operation
    the language leaves undefined, or trips an [assert] ([Undef]). *)

Inductive run (E A : Type) : Type :=
| Done (a : A)
| Fail (e : E)
| Raise (what : string)
| Undef.
Arguments Done {E A} a.
Arguments Fail {E A} e.
Arguments Raise {E A} what.
Arguments Undef {E A}.

#[export] Instance run_eq_dec {E A} `{EqDecision E, EqDecision A} : EqDecision (run E A).
Proof. solve_decision. Defined.

#[export] Instance run_ret {E} : MRet (run E) := fun A a => Done a.

#[export] Instance run_bind {E} : MBind (run E) := fun A B k m =>
  match m with
  | Done a => k a
  | Fail e => Fail e
  | Raise w => Raise w
  | Undef => Undef
  end.

(** [if (b) return error(e);] *)
Definition fail_if {E} (b : bool) (e : E) : run E unit :=
  if b then Fail e else Done tt.

(** [if (b) throw ...;] *)
Definition raise_if {E} (b : bool) (w : string) : run E unit :=
  if b then Raise w else Done tt.

(** A precondition of the language or the standard library, or an [assert]. *)
Definition require {E} (b : bool) : run E unit :=
  if b then Done tt else Undef.

(** [v[i]] on a [std::vector]: reading outside is undefined. *)
Definition at_idx {E A} (l : list A) (i : Z) : run E A :=
  match (if decide (0 <= i) then l !! Z.to_nat i else None) with
  | Some a => Done a
  | None => Undef
  end.

(** [opt.value()]: throws on an empty optional (or an error result). *)
Definition value {E A} (o : option A) (w : string) : run E A :=
  match o with Some a => Done a | None => Raise w end.

(** A range-for loop whose body may leave the function. *)
Fixpoint foldM {E S A} (f : S -> A -> run E S) (s : S) (l : list A) : run E S :=
  match l with
  | [] => Done s
  | a :: l => s' ← f s a; foldM f s' l
  end.

(** ** Machine integers: a [w]-bit unsigned value is a [Z], reduced on overflow. *)

Definition wrap (w x : Z) : Z := x mod 2 ^ w.
Abbreviation u8 := (wrap 8).
Abbreviation u16 := (wrap 16).
Abbreviation u32 := (wrap 32).
Abbreviation u64 := (wrap 64).

(** ** Little-endian numbers *)

(** [n] bytes of [x], least significant first. *)
Fixpoint le_bytes (n : nat) (x : Z) : list Z :=
  match n with
  | O => []
  | S n => x mod 256 :: le_bytes n (x / 256)
  end.

(** The number a sequence of bytes stands for. *)
Fixpoint le_value (bs : list Z) : Z :=
  match bs with
  | [] => 0
  | b :: bs => b + 256 * le_value bs
  end.

Definition is_byte (b : Z) : Prop := 0 <= b < 256.

(** ** Automation

    The hint database [jam] carries the facts that close the routine side
    conditions of the components' proofs. *)

Create HintDb jam.

(** *** Outcomes *)

Section run_lemmas.
Context {E A B : Type}.
Implicit Types (m : run E A) (k : A -> run E B) (e : E) (b : bool).

Lemma bind_Done m k y : m ≫= k = Done y <-> exists x, m = Done x /\ k x = Done y.
Proof. destruct m; cbn; naive_solver. Qed.

Lemma bind_Fail m k e :
  m ≫= k = Fail e <-> m = Fail e \/ exists x, m = Done x /\ k x = Fail e.
Proof. destruct m; cbn; naive_solver. Qed.

Lemma bind_Raise m k w :
  m ≫= k = Raise w <-> m = Raise w \/ exists x, m = Done x /\ k x = Raise w.
Proof. destruct m; cbn; naive_solver. Qed.

Lemma bind_Undef m k :
  m ≫= k = Undef <-> m = Undef \/ exists x, m = Done x /\ k x = Undef.
Proof. destruct m; cbn; naive_solver. Qed.

Lemma bind_ext m k k' : (forall x, k x = k' x) -> m ≫= k = m ≫= k'.
Proof. intros Hk. destruct m; cbn; [apply Hk|done..]. Qed.

Lemma fail_if_Done b e u : fail_if b e = Done u <-> b = false.
Proof. destruct b, u; cbn; naive_solver. Qed.

Lemma fail_if_Fail b e e' : fail_if b e = Fail e' <-> b = true /\ e = e'.
Proof. destruct b; cbn; naive_solver. Qed.

Lemma raise_if_Done b w u : @raise_if E b w = Done u <-> b = false.
Proof. destruct b, u; cbn; naive_solver. Qed.

Lemma require_Done b u : @require E b = Done u <-> b = true.
Proof. destruct b, u; cbn; naive_solver. Qed.

Lemma at_idx_Done (l : list A) i x :
  @at_idx E A l i = Done x <-> 0 <= i /\ l !! Z.to_nat i = Some x.
Proof.
  unfold at_idx. case_decide; [destruct (l !! _) eqn:Hl|]; naive_solver.
Qed.

Lemma at_idx_inside (l : list A) i :
  0 <= i < Z.of_nat (length l) -> exists x, l !! Z.to_nat i = Some x /\ @at_idx E A l i = Done x.
Proof.
  intros Hi. destruct (lookup_lt_is_Some_2 l (Z.to_nat i)) as [x Hx]; [lia|].
  exists x. split; [done|]. apply at_idx_Done. split; [lia|done].
Qed.

Lemma value_Done (o : option A) w x : @value E A o w = Done x <-> o = Some x.
Proof. destruct o; cbn; naive_solver. Qed.

End run_lemmas.

(** Reduce every hypothesis about the outcome of a sequence of statements to
    facts about the single statements. *)
Ltac run_inv :=
  repeat match goal with
  | H : Done _ = Done _ |- _ => injection H as H; try subst
  | H : Fail _ = Done _ |- _ => discriminate H
  | H : Raise _ = Done _ |- _ => discriminate H
  | H : Undef = Done _ |- _ => discriminate H
  | H : mret _ = Done _ |- _ => unfold mret, run_ret in H
  | H : _ ≫= _ = Done _ |- _ => apply bind_Done in H as (? & ? & ?)
  | H : fail_if _ _ = Done _ |- _ => apply fail_if_Done in H
  | H : raise_if _ _ = Done _ |- _ => apply raise_if_Done in H
  | H : require _ = Done _ |- _ => apply require_Done in H
  | H : at_idx _ _ = Done _ |- _ => apply at_idx_Done in H as [? ?]
  | H : value _ _ = Done _ |- _ => apply value_Done in H
  end.

Section foldM_lemmas.
Context {E S A : Type} (f : S -> A -> run E S).
Implicit Types (s t : S) (l : list A).

Lemma foldM_app s l1 l2 : foldM f s (l1 ++ l2) = (t ← foldM f s l1; foldM f t l2).
Proof.
  revert s. induction l1 as [|a l1 IH]; intros s; cbn; [done|].
  destruct (f s a) eqn:Hf; cbn; [apply IH|done..].
Qed.

(** The loop invariant rule: an invariant relating the processed prefix to the
    state, established before the loop and preserved by the body, holds of the
    state the loop ends in. *)
Lemma foldM_inv (P : list A -> S -> Prop) s0 l t :
  P [] s0 ->
  (forall l1 a l2 s s', l = l1 ++ a :: l2 -> P l1 s -> f s a = Done s' -> P (l1 ++ [a]) s') ->
  foldM f s0 l = Done t -> P l t.
Proof.
  intros H0 Hstep.
  enough (forall l2 l1 s, l = l1 ++ l2 -> P l1 s -> foldM f s l2 = Done t -> P l t) as Hgen.
  { intros Hrun. by apply (Hgen l [] s0). }
  induction l2 as [|a l2 IH]; intros l1 s Hl HP Hrun; cbn in Hrun.
  - run_inv. by rewrite app_nil_r.
  - run_inv. eapply (IH (l1 ++ [a])); [by rewrite <-(assoc_L (++))|by eapply Hstep|done].
Qed.

End foldM_lemmas.

(** *** Outcomes inside the language: a normal or an error return *)

Definition returns {E A} (m : run E A) : Prop :=
  match m with Done _ | Fail _ => True | Raise _ | Undef => False end.

Lemma returns_bind {E A B} (m : run E A) (k : A -> run E B) :
  returns m -> (forall x, m = Done x -> returns (k x)) -> returns (m ≫= k).
Proof. destruct m; cbn; auto. Qed.

Lemma returns_ret {E A} (a : A) : returns (mret a : run E A).
Proof. done. Qed.

Lemma returns_fail_if {E} b (e : E) : returns (fail_if b e).
Proof. by destruct b. Qed.

Lemma returns_require {E} b : b = true -> returns (require b : run E unit).
Proof. by intros ->. Qed.

Lemma returns_raise_if {E} b w : b = false -> returns (raise_if b w : run E unit).
Proof. by intros ->. Qed.

Lemma returns_at_idx {E A} (l : list A) i :
  0 <= i < Z.of_nat (length l) -> returns (at_idx l i : run E A).
Proof. intros Hi. by destruct (@at_idx_inside E A l i Hi) as (x & _ & ->). Qed.

Lemma returns_value {E A} (o : option A) w : is_Some o -> returns (value o w : run E A).
Proof. by intros [x ->]. Qed.

Lemma returns_foldM {E S A} (f : S -> A -> run E S) s l :
  (forall s a, a ∈ l -> returns (f s a)) -> returns (foldM f s l).
Proof.
  revert s. induction l as [|a l IH]; intros s Hf; cbn; [done|].
  apply returns_bind; [apply Hf; left|]. intros s' _. apply IH. intros. apply Hf. by right.
Qed.

#[export] Hint Resolve returns_ret returns_fail_if : jam.

(** Step through a sequence of statements, leaving the ones that may not return. *)
Ltac run_returns :=
  repeat (intros; match goal with
  | |- returns (_ ≫= _) => apply returns_bind
  | |- returns (let '(_, _) := ?p in _) => destruct p
  | |- returns (if ?b then _ else _) => destruct b
  | |- returns _ => by auto with jam
  end).

(** A loop that rejects an element unless it passes a check and exceeds the
    previous one accepts exactly the sorted sequences of passing elements. *)
Lemma foldM_chain {E S A K} (R : relation K) `{!Transitive R} (key : A -> K) (prev : S -> option K)
    (ok : A -> Prop) (next : S -> A -> S) (body : S -> A -> run E S) :
  (forall s a, prev (next s a) = Some (key a)) ->
  (forall s a s', body s a = Done s' <->
    ok a /\ (forall p, prev s = Some p -> R p (key a)) /\ s' = next s a) ->
  forall s0 l t, prev s0 = None ->
  foldM body s0 l = Done t <->
  Forall ok l /\ StronglySorted (fun a b => R (key a) (key b)) l /\ t = foldl next s0 l.
Proof.
  intros Hnext Hbody s0 l t Hs0.
  enough (forall s, foldM body s l = Done t <-> Forall ok l /\ Sorted (fun a b => R (key a) (key b)) l
      /\ (forall p a, prev s = Some p -> head l = Some a -> R p (key a)) /\ t = foldl next s l) as Hgen.
  { rewrite (Hgen s0), Hs0. split.
    - intros (? & Hl & _ & ?). split_and!; [done| |done].
      apply Sorted_StronglySorted; [intros ???; by apply transitivity|done].
    - intros (? & Hl & ?). split_and!; [done| |done|done]. by apply StronglySorted_Sorted. }
  induction l as [|a l IH]; intros s; cbn; [split; [intros [= <-]; split_and!; naive_solver|naive_solver]|].
  rewrite bind_Done. split.
  - intros (s' & (Hok & Hp & ->)%Hbody & (Hall & Hl & Hhd & ->)%IH). split_and!; [by constructor| | |done].
    + constructor; [done|]. destruct l; constructor. by apply Hhd.
    + intros p ? Hps [= <-]. auto.
  - intros ([Hok Hall]%Forall_cons & [Hl Hhd]%Sorted_inv & Hp & ->). exists (next s a).
    split; [apply Hbody; split_and!; [done| |done]; intros p Hps; by apply Hp|].
    apply IH. split_and!; [done..| |done]. intros p b. rewrite Hnext. intros [= <-] Hb.
    destruct l; [done|]. inversion Hhd. by injection Hb as ->.
Qed.

(** *** Lists *)

Lemma filter_all {A} (P : A -> Prop) `{!forall x, Decision (P x)} (l : list A) :
  Forall P l -> filter P l = l.
Proof. induction 1 as [|x l Hx Hl IH]; [done|]. rewrite filter_cons, decide_True by done. by rewrite IH. Qed.

Lemma filter_none {A} (P : A -> Prop) `{!forall x, Decision (P x)} (l : list A) :
  Forall (fun x => ¬ P x) l -> filter P l = [].
Proof. induction 1 as [|x l Hx Hl IH]; [done|]. rewrite filter_cons, decide_False by done. done. Qed.

Lemma sorted_filter {A} (R : relation A) (P : A -> Prop) `{!forall x, Decision (P x)} (l : list A) :
  StronglySorted R l -> StronglySorted R (filter P l).
Proof.
  induction 1 as [|x l Hl IH Hx]; [constructor|]. rewrite filter_cons. case_decide; [|done].
  constructor; [done|]. rewrite Forall_forall in Hx |- *. intros y [_ Hy]%list_elem_of_filter. auto.
Qed.

(** *** Machine integers *)

Lemma wrap_range w x : 0 <= w -> 0 <= wrap w x < 2 ^ w.
Proof. intros. unfold wrap. apply Z.mod_pos_bound. by apply Z.pow_pos_nonneg. Qed.

Lemma wrap_id w x : 0 <= x < 2 ^ w -> wrap w x = x.
Proof. intros. unfold wrap. by apply Z.mod_small. Qed.

#[export] Hint Resolve wrap_range : jam.

(** A number stays below [2 ^ n] exactly when its bits from [n] on are clear. *)
Lemma range_bits n x :
  0 <= n -> 0 <= x < 2 ^ n <-> 0 <= x /\ forall i, n <= i -> Z.testbit x i = false.
Proof.
  intros Hn. split.
  - intros [H0 Hx]. split; [done|]. intros i Hi.
    rewrite <-(Z.mod_small x (2 ^ n)) by done. by apply Z.mod_pow2_bits_high.
  - intros [H0 Hbits].
    assert (x = x mod 2 ^ n) as ->; [|apply Z.mod_pos_bound, Z.pow_pos_nonneg; lia].
    apply Z.bits_inj'. intros i Hi. destruct (decide (i < n)).
    + by rewrite Z.mod_pow2_bits_low.
    + rewrite Z.mod_pow2_bits_high by lia. apply Hbits. lia.
Qed.

Lemma lxor_range n a b :
  0 <= n -> 0 <= a < 2 ^ n -> 0 <= b < 2 ^ n -> 0 <= Z.lxor a b < 2 ^ n.
Proof.
  intros Hn [Ha0 Ha]%range_bits [Hb0 Hb]%range_bits; [|done..]. apply range_bits; [done|].
  split; [by apply Z.lxor_nonneg|]. intros i Hi. by rewrite Z.lxor_spec, Ha, Hb.
Qed.

Lemma land_range n a b : 0 <= n -> 0 <= a -> 0 <= b < 2 ^ n -> 0 <= Z.land a b < 2 ^ n.
Proof.
  intros Hn Ha0 [Hb0 Hb]%range_bits; [|done]. apply range_bits; [done|].
  split; [apply Z.land_nonneg; lia|]. intros i Hi. rewrite Z.land_spec, Hb by done. apply andb_false_r.
Qed.

Lemma lor_range n a b :
  0 <= n -> 0 <= a < 2 ^ n -> 0 <= b < 2 ^ n -> 0 <= Z.lor a b < 2 ^ n.
Proof.
  intros Hn [Ha0 Ha]%range_bits [Hb0 Hb]%range_bits; [|done..]. apply range_bits; [done|].
  split; [by apply Z.lor_nonneg|]. intros i Hi. by rewrite Z.lor_spec, Ha, Hb.
Qed.

Lemma shiftr_range n a i : 0 <= i -> 0 <= a < 2 ^ n -> 0 <= Z.shiftr a i < 2 ^ n.
Proof.
  intros Hi Ha. rewrite Z.shiftr_div_pow2 by done.
  assert (0 < 2 ^ i) by (by apply Z.pow_pos_nonneg).
  split; [apply Z.div_pos; lia|].
  eapply Z.le_lt_trans; [apply Z.div_le_upper_bound with (q := a); [done|nia]|lia].
Qed.

(** The bits of a multiple of [2 ^ n] and of a number below it do not meet. *)
Lemma land_disjoint n a b :
  0 <= n -> a mod 2 ^ n = 0 -> 0 <= b < 2 ^ n -> Z.land a b = 0.
Proof.
  intros Hn Ha [_ Hb]%range_bits; [|done]. apply Z.bits_inj'. intros i Hi.
  rewrite Z.land_spec, Z.bits_0. destruct (decide (i < n)).
  - rewrite <-(Z.mod_pow2_bits_low a n i), Ha, Z.bits_0 by done. done.
  - rewrite Hb by lia. apply andb_false_r.
Qed.

#[export] Hint Resolve lxor_range land_range lor_range shiftr_range : jam.

(** *** Little-endian numbers *)

Lemma length_le_bytes n x : length (le_bytes n x) = n.
Proof. revert x. induction n; intros; cbn; auto. Qed.

Lemma le_bytes_bytes n x : Forall is_byte (le_bytes n x).
Proof.
  revert x. induction n; intros x; cbn; constructor; [|done].
  by apply Z.mod_pos_bound.
Qed.

Lemma le_value_bytes n x : le_value (le_bytes n x) = x mod 256 ^ Z.of_nat n.
Proof.
  revert x. induction n as [|n IH]; intros x; cbn [le_bytes le_value]; [by rewrite Z.mod_1_r|].
  rewrite IH, Nat2Z.inj_succ, Z.pow_succ_r by lia.
  rewrite Z.rem_mul_r by (try apply Z.pow_pos_nonneg; lia). done.
Qed.

Lemma le_value_range bs :
  Forall is_byte bs -> 0 <= le_value bs < 256 ^ Z.of_nat (length bs).
Proof.
  induction 1 as [|b bs Hb Hbs IH]; cbn [le_value length]; [done|].
  rewrite Nat2Z.inj_succ, Z.pow_succ_r by lia. unfold is_byte in Hb. lia.
Qed.

Lemma le_bytes_value bs : Forall is_byte bs -> le_bytes (length bs) (le_value bs) = bs.
Proof.
  induction 1 as [|b bs Hb Hbs IH]; cbn [le_value le_bytes length]; [done|].
  unfold is_byte in Hb. rewrite Z.mul_comm, Z.mod_add, Z.mod_small by lia.
  rewrite Z.div_add, Z.div_small, Z.add_0_l by lia. by rewrite IH.
Qed.

Lemma le_value_app bs cs :
  le_value (bs ++ cs) = le_value bs + 256 ^ Z.of_nat (length bs) * le_value cs.
Proof.
  induction bs as [|b bs IH]; cbn [le_value app length]; [lia|].
  rewrite IH, Nat2Z.inj_succ, Z.pow_succ_r by lia. lia.
Qed.
