(* ===== verification/Containers.v ===== *)
(** * Containers: the ordered containers of the C++ standard library

    [std::set] and [std::multimap] as the sorted sequences they iterate over,
    with the lemmas the consensus components share: insertion keeps the
    sequence sorted, membership after insertion, uniqueness of the sorted
    representation, and the grouping of a multimap by key. *)

From S2P Require Import Prelude.

(** ** Ordered containers

    [std::set<T, Less>] is its in-order sequence: a list kept strictly sorted
    by the comparator.  [insert]/[emplace] leave the container unchanged when
    an equivalent element is present. *)

Section ordered.
Context {A : Type} (R : relation A) `{!RelDecision R}.

Fixpoint set_emplace (x : A) (s : list A) : list A :=
  match s with
  | [] => [x]
  | y :: s' =>
      if decide (R x y) then x :: s
      else if decide (R y x) then y :: set_emplace x s'
      else s
  end.

(** [set.insert(first, last)], one element after the other. *)
Definition set_insert_range (s l : list A) : list A :=
  foldl (fun s x => set_emplace x s) s l.

(** [std::set(r.begin(), r.end())] *)
Definition as_set (l : list A) : list A := set_insert_range [] l.

(** [set.contains(x)]: some element is equivalent to [x]. *)
Definition set_contains (x : A) (s : list A) : bool :=
  existsb (fun y => bool_decide (¬ R x y ∧ ¬ R y x)) s.

End ordered.

(** [std::multimap<K, V>] is its in-order sequence of pairs, sorted by key;
    [emplace] puts the pair at the upper bound of its key's range. *)

Section multimap.
Context {K V : Type} (R : relation K) `{!RelDecision R}.

Fixpoint mm_emplace (k : K) (v : V) (m : list (K * V)) : list (K * V) :=
  match m with
  | [] => [(k, v)]
  | (k', v') :: m' =>
      if decide (R k k') then (k, v) :: m else (k', v') :: mm_emplace k v m'
  end.

(** [multimap.count(k)]: the pairs whose key is equivalent to [k]. *)
Definition mm_count (k : K) (m : list (K * V)) : Z :=
  Z.of_nat (length (filter (fun p => ¬ R k p.1 ∧ ¬ R p.1 k) m)).

(** [m.upper_bound(k)] within a suffix of the map, as the split of the suffix
    at that iterator. *)
Fixpoint mm_upper_bound (k : K) (m : list (K * V)) : list (K * V) * list (K * V) :=
  match m with
  | [] => ([], [])
  | p :: m' =>
      if decide (R k p.1) then ([], m)
      else let '(l, r) := mm_upper_bound k m' in (p :: l, r)
  end.

(** [MultimapGroups]: from [begin], one group per step, up to the upper bound
    of the key at [begin].  Every step consumes at least one pair, so the
    length of the map bounds the number of groups. *)
Fixpoint mm_groups_from (n : nat) (m : list (K * V)) : list (K * list V) :=
  match n, m with
  | S n, p :: _ =>
      let '(g, rest) := mm_upper_bound p.1 m in
      (p.1, g.*2) :: mm_groups_from n rest
  | _, _ => []
  end.

Definition MultimapGroups (m : list (K * V)) : list (K * list V) :=
  mm_groups_from (length m) m.

End multimap.

Section set_lemmas.
Context {A K : Type} (key : A -> K) (R : relation K)
  `{!RelDecision R, !StrictOrder R, !Trichotomy R}.

(** The comparator of the container looks at the key of an element only. *)
Abbreviation lt := (fun x y : A => R (key x) (key y)).
Implicit Types (x y : A) (s l : list A).

#[local] Instance lt_dec : RelDecision lt := fun x y => RelDecision0 (key x) (key y).

#[local] Instance lt_trans : Transitive lt.
Proof. intros x y z. by apply (transitivity (R := R)). Qed.

Lemma key_incomparable x y : ¬ lt x y -> ¬ lt y x -> key x = key y.
Proof. intros. by destruct (trichotomy R (key x) (key y)) as [|[|]]. Qed.

Lemma elem_of_set_emplace_inv x y s : y ∈ set_emplace lt x s -> y = x \/ y ∈ s.
Proof.
  induction s as [|z s IH]; cbn; [set_solver|].
  repeat case_decide; set_solver.
Qed.

Lemma elem_of_set_emplace_old x y s : y ∈ s -> y ∈ set_emplace lt x s.
Proof.
  induction s as [|z s IH]; cbn; [set_solver|].
  repeat case_decide; set_solver.
Qed.

Lemma elem_of_set_emplace_keys x k s :
  k ∈ key <$> set_emplace lt x s <-> k = key x \/ k ∈ key <$> s.
Proof.
  induction s as [|z s IH]; cbn; [set_solver|].
  repeat case_decide; rewrite ?fmap_cons, ?elem_of_cons, ?IH; [naive_solver..|].
  rewrite (key_incomparable x z) by done. naive_solver.
Qed.

Lemma elem_of_set_emplace_new x s : key x ∉ key <$> s -> x ∈ set_emplace lt x s.
Proof.
  induction s as [|z s IH]; cbn; [set_solver|]. intros Hx.
  repeat case_decide; [set_solver..|].
  rewrite (key_incomparable x z) in Hx by done. set_solver.
Qed.

Lemma set_emplace_sorted x s : StronglySorted lt s -> StronglySorted lt (set_emplace lt x s).
Proof.
  induction 1 as [|z s Hs IH Hall]; cbn; [by repeat constructor|].
  case_decide as Hxz; [|case_decide as Hzx].
  - constructor; [by constructor|]. constructor; [done|].
    eapply Forall_impl; [done|]. intros y Hzy. by trans (key z).
  - constructor; [done|]. rewrite Forall_forall in Hall |- *.
    intros y [->|Hy]%elem_of_set_emplace_inv; auto.
  - by constructor.
Qed.

Lemma set_insert_range_sorted s l :
  StronglySorted lt s -> StronglySorted lt (set_insert_range lt s l).
Proof.
  revert s. induction l as [|x l IH]; intros s Hs; cbn; [done|].
  by apply IH, set_emplace_sorted.
Qed.

Lemma as_set_sorted l : StronglySorted lt (as_set lt l).
Proof. apply set_insert_range_sorted. constructor. Qed.

Lemma elem_of_set_insert_range_keys k s l :
  k ∈ key <$> set_insert_range lt s l <-> k ∈ key <$> s \/ k ∈ key <$> l.
Proof.
  revert s. induction l as [|x l IH]; intros s; cbn; [set_solver|].
  unfold set_insert_range in IH. rewrite IH, elem_of_set_emplace_keys, elem_of_cons. tauto.
Qed.

(** Emplacing an element already present changes nothing. *)
Lemma set_emplace_present x s :
  StronglySorted lt s -> key x ∈ key <$> s -> set_emplace lt x s = s.
Proof.
  induction 1 as [|z s Hs IH Hall]; cbn; [by rewrite elem_of_nil|].
  rewrite elem_of_cons. intros Hx.
  case_decide as Hxz; [|case_decide as Hzx; [|done]].
  - exfalso. destruct Hx as [Hx|Hx].
    + rewrite Hx in Hxz. destruct (irreflexivity R _ Hxz).
    + apply list_elem_of_fmap in Hx as (y & Hxy & Hy).
      rewrite Forall_forall in Hall. specialize (Hall y Hy).
      rewrite Hxy in Hxz. apply (irreflexivity R (key z)). by trans (key y).
  - f_equal. apply IH. destruct Hx as [Hx|Hx]; [|done].
    rewrite Hx in Hzx. destruct (irreflexivity R _ Hzx).
Qed.

Lemma length_set_emplace x s : (length (set_emplace lt x s) <= S (length s))%nat.
Proof. induction s as [|z s IH]; cbn; [lia|]. repeat case_decide; cbn; lia. Qed.

Lemma set_emplace_fresh x s : key x ∉ key <$> s -> set_emplace lt x s ≡ₚ x :: s.
Proof.
  induction s as [|z s IH]; cbn; [done|].
  rewrite elem_of_cons. intros Hx. repeat case_decide; [done| |].
  - rewrite IH by tauto. constructor.
  - destruct Hx. left. by apply key_incomparable.
Qed.

(** Truncation to the [n] least elements can be done before or after an
    insertion. *)
Lemma take_set_emplace n x s :
  take n (set_emplace lt x (take n s)) = take n (set_emplace lt x s).
Proof.
  revert n. induction s as [|z s IH]; intros n; [by rewrite take_nil|].
  destruct n as [|n]; [done|]. cbn.
  case_decide; [|case_decide; cbn; [by rewrite IH|]].
  - cbn. f_equal. destruct n as [|n]; [done|]. cbn. f_equal. rewrite take_take.
    f_equal. lia.
  - rewrite take_take. do 2 f_equal. lia.
Qed.

(** Building a set from a sorted sequence keeps the sequence. *)
Lemma set_emplace_last x s :
  Forall (fun y => lt y x) s -> set_emplace lt x s = s ++ [x].
Proof.
  induction 1 as [|y s Hy Hs IH]; cbn; [done|].
  rewrite decide_False; [|intros Hxy; apply (irreflexivity R (key x)); by trans (key y)].
  rewrite decide_True by done. by rewrite IH.
Qed.

Lemma as_set_of_sorted s : StronglySorted lt s -> as_set lt s = s.
Proof.
  induction s as [|x s IH] using rev_ind; [done|]. intros Hs.
  assert (StronglySorted lt s) by by eapply StronglySorted_app_1_l.
  unfold as_set, set_insert_range in *. rewrite foldl_snoc, IH by done.
  apply set_emplace_last. rewrite Forall_forall. intros y Hy.
  apply (StronglySorted_app_1_elem_of lt s [x] y x Hs Hy). left.
Qed.

Lemma sorted_take n s : StronglySorted lt s -> StronglySorted lt (take n s).
Proof. intros Hs. rewrite <-(take_drop n s) in Hs. by eapply StronglySorted_app_1_l. Qed.

Lemma sorted_keys_NoDup s : StronglySorted lt s -> NoDup (key <$> s).
Proof.
  induction 1 as [|x s Hs IH Hall]; cbn; constructor; [|done].
  intros (y & Hy & Hys)%list_elem_of_fmap. rewrite Forall_forall in Hall.
  specialize (Hall y Hys). rewrite Hy in Hall. by apply (irreflexivity R _ Hall).
Qed.

End set_lemmas.

(** Two strictly sorted sequences with the same elements are equal. *)
Lemma sorted_ext {A} (R : relation A) `{!StrictOrder R} (s t : list A) :
  StronglySorted R s -> StronglySorted R t -> (forall x, x ∈ s <-> x ∈ t) -> s = t.
Proof.
  intros Hs. revert t. induction Hs as [|x s Hs IH Hx]; intros t Ht Heq.
  - destruct t as [|y t]; [done|]. pose proof (proj2 (Heq y)). set_solver.
  - destruct Ht as [|y t Ht Hy]; [pose proof (proj1 (Heq x)); set_solver|].
    rewrite Forall_forall in Hx, Hy.
    assert (x = y) as <-.
    { assert (x ∈ y :: t) as Hxt by (apply Heq; left).
      assert (y ∈ x :: s) as Hys by (apply Heq; left).
      apply elem_of_cons in Hxt as [->|Hxt]; [done|].
      apply elem_of_cons in Hys as [->|Hys]; [done|].
      exfalso. apply (irreflexivity R x). trans y; auto. }
    assert (x ∉ s) by (intros ?%Hx; by apply (irreflexivity R x)).
    assert (x ∉ t) by (intros ?%Hy; by apply (irreflexivity R x)).
    f_equal. apply IH; [done|]. intros z. specialize (Heq z). set_solver.
Qed.

(** Sets of keys: the elements are their own keys. *)
Section key_sets.
Context {A : Type} (R : relation A) `{!RelDecision R, !StrictOrder R, !Trichotomy R}.
Implicit Types (x y : A) (s l : list A).

Lemma elem_of_as_set x l : x ∈ as_set R l <-> x ∈ l.
Proof.
  pose proof (elem_of_set_insert_range_keys id R x [] l) as Hx.
  rewrite !list_fmap_id in Hx. unfold as_set. etrans; [exact Hx|]. set_solver.
Qed.

Lemma as_set_sorted_id l : StronglySorted R (as_set R l).
Proof. exact (as_set_sorted id R l). Qed.

Lemma as_set_snoc l x : as_set R (l ++ [x]) = set_emplace R x (as_set R l).
Proof. unfold as_set, set_insert_range. by rewrite foldl_snoc. Qed.

Lemma as_set_app l l' : as_set R (l ++ l') = set_insert_range R (as_set R l) l'.
Proof. unfold as_set, set_insert_range. by rewrite foldl_app. Qed.

(** A set depends on the elements only, not on their order or multiplicity. *)
Lemma as_set_ext l l' : (forall x, x ∈ l <-> x ∈ l') -> as_set R l = as_set R l'.
Proof.
  intros Hl. apply (sorted_ext R); [apply as_set_sorted_id..|].
  intros x. by rewrite !elem_of_as_set.
Qed.

Lemma set_contains_elem x s : set_contains R x s = true <-> x ∈ s.
Proof.
  unfold set_contains. rewrite existsb_exists. split.
  - intros (y & Hy & [Hxy Hyx]%bool_decide_eq_true). apply list_elem_of_In in Hy.
    by destruct (trichotomy R x y) as [|[->|]].
  - intros Hx. exists x. split; [by apply list_elem_of_In|].
    apply bool_decide_eq_true. split; apply irreflexivity, _.
Qed.

End key_sets.

Section multimap_lemmas.
Context {K V : Type} (R : relation K) `{!RelDecision R, !StrictOrder R, !Trichotomy R}.
Implicit Types (k : K) (v : V) (m : list (K * V)).

(** In-order sequences of a multimap never decrease. *)
Abbreviation mm_le := (fun p q : K * V => ¬ R q.1 p.1).

Lemma mm_emplace_perm k v m : mm_emplace R k v m ≡ₚ (k, v) :: m.
Proof.
  induction m as [|[k' v'] m IH]; cbn; [done|].
  case_decide; [done|]. rewrite IH. constructor.
Qed.

Lemma mm_emplace_sorted k v m :
  StronglySorted mm_le m -> StronglySorted mm_le (mm_emplace R k v m).
Proof.
  induction 1 as [|[k' v'] m Hm IH Hall]; cbn; [by repeat constructor|].
  case_decide as Hk.
  - constructor; [by constructor|]. constructor; cbn in *.
    + intros ?. apply (irreflexivity R k). by trans k'.
    + eapply Forall_impl; [exact Hall|]. intros [k'' v''] Hk''; cbn in *.
      intros ?. apply Hk''. by trans k.
  - constructor; [done|]. rewrite mm_emplace_perm. by constructor.
Qed.

Lemma mm_count_pos k m : 0 < mm_count R k m <-> k ∈ m.*1.
Proof.
  unfold mm_count. induction m as [|[k' v'] m IH]; [cbn; set_solver by lia|].
  rewrite filter_cons. cbn. rewrite elem_of_cons, <-IH. case_decide as Hk; cbn.
  - split; [|lia]. intros _. left. destruct (trichotomy R k k') as [|[|]]; naive_solver.
  - split; [auto|]. intros [->|?]; [|done]. exfalso. apply Hk. cbn. split; apply irreflexivity, _.
Qed.

Lemma mm_upper_bound_app k m l r : mm_upper_bound R k m = (l, r) -> m = l ++ r.
Proof.
  revert l r. induction m as [|p m IH]; intros l r; cbn; [by intros [= <- <-]|].
  case_decide; [by intros [= <- <-]|].
  destruct (mm_upper_bound R k m) as [l' r']. intros [= <- <-]. cbn. f_equal. by apply IH.
Qed.

Lemma mm_upper_bound_left k m l r :
  mm_upper_bound R k m = (l, r) -> Forall (fun p => ¬ R k p.1) l.
Proof.
  revert l r. induction m as [|p m IH]; intros l r; cbn; [intros [= <- <-]; constructor|].
  case_decide; [intros [= <- <-]; constructor|].
  destruct (mm_upper_bound R k m) as [l' r'] eqn:Hm. intros [= <- <-].
  constructor; [done|]. by eapply IH.
Qed.

Lemma mm_upper_bound_head p m l r :
  mm_upper_bound R p.1 (p :: m) = (l, r) -> exists l', l = p :: l' /\ m = l' ++ r.
Proof.
  intros Hl. pose proof (mm_upper_bound_app _ _ _ _ Hl) as Happ. cbn in Hl.
  rewrite decide_False in Hl by apply irreflexivity, _.
  destruct (mm_upper_bound R p.1 m) as [l' r']. injection Hl as <- <-.
  exists l'. split; [done|]. by injection Happ.
Qed.

(** Every element is in exactly one group, and the groups keep the order. *)
Lemma mm_groups_values m : concat (MultimapGroups R m).*2 = m.*2.
Proof.
  unfold MultimapGroups. assert (length m <= length m)%nat as Hn by done. revert Hn.
  generalize (length m) at 2 3. intros n. revert m.
  induction n as [|n IH]; intros [|p m] Hn; cbn [length mm_groups_from] in Hn |- *; [done|lia|done|].
  destruct (mm_upper_bound R p.1 (p :: m)) as [l r] eqn:Hl. cbn.
  destruct (mm_upper_bound_head p m l r Hl) as (l' & -> & ->).
  rewrite IH; [by rewrite <-fmap_app|]. rewrite length_app in Hn. lia.
Qed.

(** The group keys are the keys of the map. *)
Lemma mm_groups_keys k m :
  StronglySorted mm_le m -> k ∈ (MultimapGroups R m).*1 <-> k ∈ m.*1.
Proof.
  unfold MultimapGroups. assert (length m <= length m)%nat as Hn by done. revert Hn.
  generalize (length m) at 2 3. intros n. revert m.
  induction n as [|n IH]; intros [|p m] Hn Hs; cbn [length mm_groups_from] in Hn |- *; [done|lia|done|].
  destruct (mm_upper_bound R p.1 (p :: m)) as [l r] eqn:Hl. cbn.
  destruct (mm_upper_bound_head p m l r Hl) as (l' & -> & ->).
  apply mm_upper_bound_left in Hl. apply StronglySorted_inv in Hs as [Hs Hp].
  assert (forall q, q ∈ l' -> q.1 = p.1) as Hkey.
  { intros q Hq. rewrite Forall_forall in Hl, Hp.
    destruct (trichotomy R p.1 q.1) as [Hlt|[?|Hlt]]; [|done|]; exfalso.
    - by apply (Hl q); [right|].
    - by apply (Hp q); [apply elem_of_app; left|]. }
  rewrite elem_of_cons, fmap_app, elem_of_cons, elem_of_app, IH; cycle 1.
  { rewrite length_app in Hn. lia. }
  { by apply StronglySorted_app_1_r in Hs. }
  split; [tauto|]. intros [?|[(q & -> & ?)%list_elem_of_fmap|?]]; [tauto| |tauto].
  left. by apply Hkey.
Qed.

End multimap_lemmas.
