(* ===== verification/KeccakSpec.v ===== *)
(** * KeccakSpec: what the hash function computes

    Keccak-256 as the sponge construction defines it: the permutation
    Keccak-f[1600] by its five step mappings with the tabulated round
    constants and the triangular-number rotation offsets, applied block by
    block to the padded message.  [hash_correct] shows that the byte-at-a-time
    object of [Keccak] computes this function on every message. *)

From S2P Require Import Prelude Keccak.
Import Keccak.

Module KeccakSpec.

(** A state given lane by lane. *)
Definition tab (f : nat -> nat -> Z) : lanes :=
  (fun x => (fun y => f x y) <$> seq 0 5) <$> seq 0 5.

(** Rotation of a 64-bit word to the left. *)
Definition rol (x n : Z) : Z := (x * 2 ^ n) mod 2 ^ 64 + x / 2 ^ (64 - n).

(** The offset of lane [(x, y)]: the walk [(x, y) := (y, 2x + 3y)] from
    [(1, 0)] meets it after [t] steps, and it is the triangular number
    [(t + 1)(t + 2) / 2]; lane [(0, 0)] does not move. *)
Fixpoint rho_walk (n t x y : nat) : list (nat * nat * Z) :=
  match n with
  | O => []
  | S n => (x, y, (Z.of_nat ((t + 1) * (t + 2)) / 2) mod 64)
             :: rho_walk n (S t) y ((2 * x + 3 * y) mod 5)
  end.

Definition rho_offset (x y : nat) : Z :=
  match list_find (fun p => p.1 = (x, y)) (rho_walk 24 0 1 0) with
  | Some (_, (_, n)) => n
  | None => 0
  end.

Definition RC : list Z :=
  [0x0000000000000001; 0x0000000000008082; 0x800000000000808A; 0x8000000080008000;
   0x000000000000808B; 0x0000000080000001; 0x8000000080008081; 0x8000000000008009;
   0x000000000000008A; 0x0000000000000088; 0x0000000080008009; 0x000000008000000A;
   0x000000008000808B; 0x800000000000008B; 0x8000000000008089; 0x8000000000008003;
   0x8000000000008002; 0x8000000000000080; 0x000000000000800A; 0x800000008000000A;
   0x8000000080008081; 0x8000000000008080; 0x0000000080000001; 0x8000000080008008].

Definition column (a : lanes) (x : nat) : Z :=
  Z.lxor (Z.lxor (Z.lxor (Z.lxor (lane a x 0) (lane a x 1)) (lane a x 2)) (lane a x 3)) (lane a x 4).

Definition theta_spec (a : lanes) : lanes :=
  tab (fun x y => Z.lxor (lane a x y)
    (Z.lxor (column a ((x + 4) mod 5)) (rol (column a ((x + 1) mod 5)) 1))).

Definition rho_pi_spec (a : lanes) : lanes :=
  tab (fun x y => let x' := ((x + 3 * y) mod 5)%nat in rol (lane a x' x) (rho_offset x' x)).

Definition chi_spec (b : lanes) : lanes :=
  tab (fun x y => Z.lxor (lane b x y)
    (Z.land (2 ^ 64 - 1 - lane b ((x + 1) mod 5) y) (lane b ((x + 2) mod 5) y))).

Definition iota_spec (rc : Z) (a : lanes) : lanes :=
  tab (fun x y => if decide (x = 0 /\ y = 0)%nat then Z.lxor (lane a x y) rc else lane a x y).

Definition round_spec (a : lanes) (rc : Z) : lanes :=
  iota_spec rc (chi_spec (rho_pi_spec (theta_spec a))).

Definition keccak_f (a : lanes) : lanes := foldl round_spec a RC.

(** The block is xored into the first lanes, eight bytes to a lane. *)
Definition word (bs : list Z) (j : nat) : Z := le_value (take 8 (drop (8 * j) bs)).

Definition xor_bytes (a : lanes) (bs : list Z) : lanes :=
  tab (fun x y => Z.lxor (lane a x y) (word bs (x + 5 * y))).

Definition absorb_block (a : lanes) (block : list Z) : lanes := keccak_f (xor_bytes a block).

Definition rate : nat := 136.

Fixpoint chunks (n : nat) (l : list Z) : list (list Z) :=
  match n with
  | O => []
  | S n => take rate l :: chunks n (drop rate l)
  end.

(** The whole blocks of a message, and what is left over. *)
Definition blocks (l : list Z) : list (list Z) := chunks (length l / rate) l.
Definition remainder (l : list Z) : list Z := drop (rate * (length l / rate)) l.

(** The padding that completes a message of [n] bytes: [0x01], zeros, [0x80],
    the two ends in one byte when only one byte is missing. *)
Definition padding (n : nat) : list Z :=
  let q := (rate - n mod rate)%nat in
  if decide (q = 1%nat) then [0x81] else [0x01] ++ replicate (q - 2) 0 ++ [0x80].

Definition squeeze (a : lanes) : list Z :=
  le_bytes 8 (lane a 0 0) ++ le_bytes 8 (lane a 1 0)
    ++ le_bytes 8 (lane a 2 0) ++ le_bytes 8 (lane a 3 0).

Definition zero_state : lanes := tab (fun _ _ => 0).

Definition keccak256 (m : list Z) : list Z :=
  squeeze (foldl absorb_block zero_state (blocks (m ++ padding (length m)))).

#[global] Arguments keccak_f : simpl never.
#[global] Arguments absorb_block : simpl never.

(** Well-formed states: five by five lanes of 64 bits. *)
Definition wf (a : lanes) : Prop :=
  length a = 5%nat /\ Forall (fun row => length row = 5%nat /\ Forall (fun v => 0 <= v < 2 ^ 64) row) a.

(** ** Lanes *)

Lemma wf_tab f : (forall x y, (x < 5)%nat -> (y < 5)%nat -> 0 <= f x y < 2 ^ 64) -> wf (tab f).
Proof.
  intros Hf. split; [done|]. apply Forall_fmap, Forall_seq. intros x Hx.
  split; [done|]. apply Forall_fmap, Forall_seq. intros y Hy. apply Hf; lia.
Qed.

Lemma wf_lane a x y : wf a -> (x < 5)%nat -> (y < 5)%nat -> 0 <= lane a x y < 2 ^ 64.
Proof.
  intros [Hlen Ha] Hx Hy. unfold lane.
  destruct (lookup_lt_is_Some_2 a x) as [row Hrow]; [lia|].
  rewrite (list_lookup_total_correct _ _ _ Hrow).
  rewrite Forall_lookup in Ha. destruct (Ha x row Hrow) as [Hl Hr].
  destruct (lookup_lt_is_Some_2 row y) as [v Hv]; [lia|].
  rewrite (list_lookup_total_correct _ _ _ Hv).
  rewrite Forall_lookup in Hr. by apply (Hr y).
Qed.

(** A statement about all lanes of all states needs checking on 25 variables. *)
Lemma wf_shape a : wf a -> exists f, a = tab f.
Proof.
  intros Ha. exists (lane a). destruct Ha as [Hlen Ha].
  repeat (destruct a as [|? a]; [discriminate Hlen|]). destruct a; [|discriminate Hlen].
  repeat match goal with
  | H : Forall _ (_ :: _) |- _ => apply Forall_cons in H as [[? _] H]
  end.
  repeat match goal with
  | H : length ?l = 5%nat |- _ =>
      repeat (destruct l as [|? l]; [discriminate H|]); destruct l; [|discriminate H]; clear H
  end.
  reflexivity.
Qed.

Lemma lane_tab f x y : (x < 5)%nat -> (y < 5)%nat -> lane (tab f) x y = f x y.
Proof. intros Hx Hy. do 5 (destruct x as [|x]; [do 5 (destruct y as [|y]; [done|]); lia|]). lia. Qed.

Lemma tab_ext f g : (forall x y, (x < 5)%nat -> (y < 5)%nat -> f x y = g x y) -> tab f = tab g.
Proof.
  intros Hfg. unfold tab. apply list_fmap_ext. intros i x Hi. apply lookup_seq in Hi as [-> Hi].
  apply list_fmap_ext. intros j y Hj. apply lookup_seq in Hj as [-> Hj]. apply Hfg; lia.
Qed.

Lemma mod5_lt n : (n mod 5 < 5)%nat.
Proof. by apply Nat.mod_upper_bound. Qed.

(** Close the index conditions of lanes. *)
Ltac idx := first [done | apply mod5_lt | lia].

Section permutation.
Context `{HT : Target64}.

(** The loops of the code, with the index arithmetic carried out. *)
Lemma theta_tab f :
  theta (tab f) = tab (fun x y => Z.lxor (f x y)
    (Z.lxor (column (tab f) ((x + 4) mod 5)) (rotl64 (column (tab f) ((x + 1) mod 5)) 1))).
Proof. reflexivity. Qed.

Lemma rho_pi_tab b0 f :
  rho_pi (tab b0) (tab f) =
  tab (fun x y => let x' := ((x + 3 * y) mod 5)%nat in rotl64 (f x' x) (lane ROTATION x' x)).
Proof. reflexivity. Qed.

Lemma chi_tab b f :
  chi (tab b) (tab f) =
  tab (fun x y => Z.lxor (b x y) (Z.land (u64 (Z.lnot (b ((x + 1) mod 5)%nat y))) (b ((x + 2) mod 5)%nat y))).
Proof. reflexivity. Qed.

(** The seven bits the LFSR contributes to one round, and its next value. *)
Definition round_bits (r : Z) : list Z :=
  (fun j => shl64 (Z.land (Nat.iter j lfsr r) 1) (Z.shiftl 1 (Z.of_nat j) - 1)) <$> seq 0 7.

Definition round_constant (r : Z) : Z := foldr Z.lxor 0 (round_bits r).

Lemma iota_tab f r :
  iota (tab f, r) = (iota_spec (round_constant r) (tab f), Nat.iter 7 lfsr r).
Proof.
  unfold iota_spec, round_constant, round_bits, iota.
  generalize lfsr; intros next. generalize shl64; intros shl.
  cbn -[Z.lxor Z.shiftl Z.land Z.of_nat Z.sub]. by rewrite !Z.lxor_assoc, Z.lxor_0_r.
Qed.

Context `{HTok : !Target64Ok}.

Lemma rotl64_rol x n : 0 <= x < 2 ^ 64 -> 0 <= n < 64 -> rotl64 x n = rol x n.
Proof.
  intros Hx Hn. unfold rotl64, rol, shl64, shr64, wrap. rewrite Z.shiftl_mul_pow2 by lia.
  destruct (decide (n = 0)) as [->|Hn0].
  - change (64 - 0 <? 64) with false. cbv iota.
    rewrite Z.mul_1_r, Z.mod_small, shr_overlong_absorbed by done.
    change (2 ^ (64 - 0)) with (2 ^ 64). rewrite Z.div_small by done. lia.
  - rewrite (proj2 (Z.ltb_lt _ _)), Z.shiftr_div_pow2 by lia.
    rewrite <-Z.add_lor_land, (land_disjoint n); [lia|lia| |].
    + replace (2 ^ 64) with (2 ^ n * 2 ^ (64 - n)) by (rewrite <-Z.pow_add_r by lia; f_equal; lia).
      rewrite Z.mul_comm, Z.mul_mod_distr_l by (apply Z.pow_nonzero; lia).
      rewrite Z.mul_comm. apply Z.mod_mul, Z.pow_nonzero; lia.
    + split; [apply Z.div_pos; [lia|apply Z.pow_pos_nonneg; lia]|].
      apply Z.div_lt_upper_bound; [apply Z.pow_pos_nonneg; lia|].
      rewrite <-Z.pow_add_r by lia. replace (64 - n + n) with 64 by lia. lia.
Qed.

Lemma rol_range x n : 0 <= x < 2 ^ 64 -> 0 <= n < 64 -> 0 <= rol x n < 2 ^ 64.
Proof.
  intros Hx Hn. rewrite <-rotl64_rol by done. unfold rotl64, shl64, shr64.
  apply lor_range; [lia|by apply wrap_range|].
  destruct (64 - n <? 64) eqn:Hlt; [apply shiftr_range; lia|].
  apply Z.ltb_ge in Hlt. replace (64 - n) with 64 by lia.
  pose proof (shr_overlong_absorbed x Hx) as Habs.
  apply range_bits; [lia|]. apply range_bits in Hx as [Hx0 Hx]; [|lia]. split.
  - apply (proj2 (proj1 (Z.lor_nonneg x (shr_overlong x 64)) ltac:(rewrite Habs; lia))).
  - intros i Hi. assert (Z.testbit (Z.lor x (shr_overlong x 64)) i = false) as Hxi
      by (rewrite Habs; auto).
    rewrite Z.lor_spec in Hxi. apply orb_false_iff in Hxi as [_ Hxi]. done.
Qed.

Lemma lnot64 x : 0 <= x < 2 ^ 64 -> u64 (Z.lnot x) = 2 ^ 64 - 1 - x.
Proof.
  intros Hx. rewrite Z.lnot_eq_pred_opp. unfold wrap.
  rewrite <-(Z.mod_add _ 1), Z.mod_small by lia. lia.
Qed.

(** The table of the code is the walk of the definition. *)
Lemma rotation_offset x y : (x < 5)%nat -> (y < 5)%nat ->
  lane ROTATION x y = rho_offset x y /\ 0 <= rho_offset x y < 64.
Proof.
  intros Hx Hy.
  do 5 (destruct x as [|x]; [do 5 (destruct y as [|y]; [repeat split; vm_compute; (reflexivity || discriminate)|]); lia|]). lia.
Qed.

Lemma column_range a x : wf a -> (x < 5)%nat -> 0 <= column a x < 2 ^ 64.
Proof. intros Ha Hx. unfold column. repeat apply lxor_range; (idx || apply wf_lane; idx). Qed.

Lemma theta_correct a : wf a -> theta a = theta_spec a.
Proof.
  intros Ha. destruct (wf_shape a Ha) as [f ->]. rewrite theta_tab. apply tab_ext. intros x y Hx Hy.
  rewrite lane_tab, rotl64_rol by (idx || apply column_range; idx). done.
Qed.

Lemma theta_wf a : wf a -> wf (theta_spec a).
Proof.
  intros Ha. apply wf_tab. intros x y Hx Hy.
  apply lxor_range; [lia|by apply wf_lane|].
  apply lxor_range; [lia|apply column_range|apply rol_range; [apply column_range|lia]]; idx.
Qed.

Lemma rho_pi_correct f a : wf a -> rho_pi (tab f) a = rho_pi_spec a.
Proof.
  intros Ha. destruct (wf_shape a Ha) as [g ->]. rewrite rho_pi_tab. apply tab_ext. intros x y Hx Hy.
  cbv zeta. assert (((x + 3 * y) mod 5) < 5)%nat by idx.
  destruct (rotation_offset ((x + 3 * y) mod 5) x) as [-> ?]; [done..|].
  rewrite lane_tab by done. apply rotl64_rol; [|done].
  pose proof (wf_lane _ ((x + 3 * y) mod 5) x Ha) as Hl. rewrite lane_tab in Hl by done. auto.
Qed.

Lemma rho_pi_wf a : wf a -> wf (rho_pi_spec a).
Proof.
  intros Ha. apply wf_tab. intros x y Hx Hy. cbv zeta.
  assert (((x + 3 * y) mod 5) < 5)%nat by idx.
  apply rol_range; [by apply wf_lane|by apply rotation_offset].
Qed.

Lemma chi_correct f b : wf b -> chi b (tab f) = chi_spec b.
Proof.
  intros Hb. destruct (wf_shape b Hb) as [g ->]. rewrite chi_tab. apply tab_ext. intros x y Hx Hy.
  pose proof (wf_lane _ ((x + 1) mod 5) y Hb) as Hl.
  rewrite !lane_tab in * by idx. rewrite lnot64; [done|]. apply Hl; idx.
Qed.

Lemma chi_wf b : wf b -> wf (chi_spec b).
Proof.
  intros Hb. apply wf_tab. intros x y Hx Hy.
  pose proof (wf_lane b ((x + 1) mod 5) y Hb ltac:(idx) Hy).
  apply lxor_range; [lia|by apply wf_lane|]. apply land_range; [lia|lia|apply wf_lane; idx].
Qed.

Lemma iota_wf rc a : 0 <= rc < 2 ^ 64 -> wf a -> wf (iota_spec rc a).
Proof.
  intros Hrc Ha. apply wf_tab. intros x y Hx Hy. pose proof (wf_lane a x y Ha Hx Hy).
  case_decide; [by apply lxor_range|done].
Qed.

Lemma round_correct f a r :
  wf a -> round (tab f) (a, r) = (round_spec a (round_constant r), Nat.iter 7 lfsr r).
Proof.
  intros Ha. unfold round, round_spec. rewrite theta_correct by done.
  rewrite rho_pi_correct by by apply theta_wf.
  destruct (wf_shape (theta_spec a)) as [g Hg]; [by apply theta_wf|].
  rewrite Hg at 2. rewrite chi_correct by by apply rho_pi_wf, theta_wf.
  destruct (wf_shape (chi_spec (rho_pi_spec (theta_spec a)))) as [h Hh];
    [by apply chi_wf, rho_pi_wf, theta_wf|].
  rewrite Hh. apply iota_tab.
Qed.

Lemma round_wf a rc : 0 <= rc < 2 ^ 64 -> wf a -> wf (round_spec a rc).
Proof. intros. by apply iota_wf, chi_wf, rho_pi_wf, theta_wf. Qed.

Lemma RC_range : Forall (fun rc => 0 <= rc < 2 ^ 64) RC.
Proof. apply (bool_decide_unpack _). vm_compute. exact I. Qed.

Lemma rounds_wf l a : Forall (fun rc => 0 <= rc < 2 ^ 64) l -> wf a -> wf (foldl round_spec a l).
Proof. intros Hl. revert a. induction Hl; intros a Ha; cbn; [done|]. by apply IHHl, round_wf. Qed.

Lemma keccak_f_wf a : wf a -> wf (keccak_f a).
Proof. apply rounds_wf, RC_range. Qed.

Lemma round_constants :
  RC = round_constant <$> ((fun i => Nat.iter i (Nat.iter 7 lfsr) 1) <$> seq 0 24).
Proof. vm_compute. reflexivity. Qed.

Lemma RC_lookup n :
  (n < 24)%nat -> RC !! n = Some (round_constant (Nat.iter n (Nat.iter 7 lfsr) 1)).
Proof. intros Hn. rewrite round_constants, !list_lookup_fmap, lookup_seq_lt by done. reflexivity. Qed.

Lemma rounds_correct n a :
  wf a -> (n <= 24)%nat ->
  Nat.iter n (round uninit) (a, 1) =
  (foldl round_spec a (take n RC), Nat.iter n (Nat.iter 7 lfsr) 1).
Proof.
  intros Ha. induction n as [|n IH]; intros Hn; [done|].
  rewrite !(Nat.iter_succ n), IH by lia.
  change uninit with (tab (fun _ _ => 0)). rewrite round_correct.
  - by rewrite (take_S_r RC n _ (RC_lookup n Hn)), foldl_app.
  - apply rounds_wf; [apply Forall_take, RC_range|done].
Qed.

(** [absorb()] is the permutation Keccak-f[1600]. *)
Lemma absorb_keccak_f a : wf a -> absorb a = keccak_f a.
Proof. intros Ha. unfold absorb, NUM_ROUNDS. by rewrite rounds_correct. Qed.

End permutation.

(** ** Absorbing bytes *)

Lemma set_lane_tab f x y v : (x < 5)%nat -> (y < 5)%nat ->
  set_lane (tab f) x y v = tab (fun x' y' => if decide (x' = x /\ y' = y) then v else f x' y').
Proof. intros Hx Hy. do 5 (destruct x as [|x]; [do 5 (destruct y as [|y]; [done|]); lia|]). lia. Qed.

(** Appending a byte changes the one word it falls into. *)
Lemma word_snoc bs b j : Forall is_byte bs -> is_byte b ->
  word (bs ++ [b]) j =
  if decide (j = length bs / 8)%nat
  then Z.lxor (word bs j) (b * 2 ^ (8 * Z.of_nat (length bs mod 8))) else word bs j.
Proof.
  intros Hbs Hb. unfold word.
  pose proof (Nat.div_mod_eq (length bs) 8). pose proof (Nat.mod_upper_bound (length bs) 8 ltac:(done)).
  destruct (decide (8 * j <= length bs)%nat) as [Hj|Hj]; cycle 1.
  { rewrite decide_False by lia. rewrite !drop_ge by (rewrite ?length_app; cbn [length]; lia). done. }
  rewrite drop_app_le by done. set (d := drop (8 * j) bs).
  assert (length d = length bs - 8 * j)%nat as Hd by apply length_drop.
  assert (Forall is_byte d) by by apply Forall_drop.
  case_decide as Hjl.
  - rewrite !take_ge by (rewrite ?length_app; cbn [length]; lia). rewrite le_value_app. cbn [le_value].
    assert (2 ^ (8 * Z.of_nat (length bs mod 8)) = 256 ^ Z.of_nat (length d)) as Hpow.
    { rewrite (Z.pow_mul_r 2 8) by lia. by replace (length d) with (length bs mod 8)%nat by lia. }
    rewrite Hpow, <-Z.add_nocarry_lxor; [lia|].
    rewrite Z.land_comm. apply (land_disjoint (8 * Z.of_nat (length bs mod 8))); [lia| |].
    + rewrite Hpow. apply Z.mod_mul, Z.pow_nonzero; lia.
    + rewrite Hpow. by apply le_value_range.
  - by rewrite take_app_le by lia.
Qed.

Lemma word_range bs j : Forall is_byte bs -> 0 <= word bs j < 2 ^ 64.
Proof.
  intros Hbs. unfold word.
  pose proof (le_value_range (take 8 (drop (8 * j) bs)) ltac:(by apply Forall_take, Forall_drop)) as Hr.
  split; [lia|]. eapply Z.lt_le_trans; [apply Hr|].
  change (2 ^ 64) with (256 ^ 8). apply Z.pow_le_mono_r; [lia|]. rewrite length_take. lia.
Qed.

Lemma xor_bytes_wf a bs : wf a -> Forall is_byte bs -> wf (xor_bytes a bs).
Proof.
  intros Ha Hbs. apply wf_tab. intros x y Hx Hy.
  apply lxor_range; [lia|by apply wf_lane|by apply word_range].
Qed.

Lemma xor_bytes_nil a : wf a -> xor_bytes a [] = a.
Proof.
  intros Ha. destruct (wf_shape a Ha) as [f ->]. apply tab_ext. intros x y Hx Hy.
  unfold word. rewrite drop_nil, lane_tab by done. apply Z.lxor_0_r.
Qed.

Lemma xor_bytes_zero a bs : Forall is_byte bs -> xor_bytes a (bs ++ [0]) = xor_bytes a bs.
Proof.
  intros Hbs. apply tab_ext. intros x y Hx Hy. rewrite word_snoc by done.
  case_decide; [|done]. by rewrite Z.mul_0_l, Z.lxor_0_r.
Qed.

Lemma rate_nonzero : rate <> 0%nat.
Proof. discriminate. Qed.

Lemma blocks_short l : (length l < rate)%nat -> blocks l = [] /\ remainder l = l.
Proof.
  intros Hl. unfold blocks, remainder. rewrite Nat.div_small by done. by rewrite Nat.mul_0_r.
Qed.

Lemma blocks_cons b l :
  length b = rate -> blocks (b ++ l) = b :: blocks l /\ remainder (b ++ l) = remainder l.
Proof.
  intros Hb. unfold blocks, remainder.
  assert (length (b ++ l) / rate = S (length l / rate))%nat as ->.
  { rewrite length_app, Hb. replace (rate + length l)%nat with (length l + 1 * rate)%nat by lia.
    rewrite Nat.div_add by apply rate_nonzero. lia. }
  cbn [chunks]. rewrite take_app_length', drop_app_length' by done. split; [done|].
  rewrite Nat.mul_succ_r, Nat.add_comm, <-drop_drop, drop_app_length' by done. done.
Qed.

Lemma remainder_spec l : l = concat (blocks l) ++ remainder l /\ (length (remainder l) < rate)%nat.
Proof.
  split; cycle 1.
  { unfold remainder. rewrite length_drop.
    pose proof (Nat.div_mod_eq (length l) rate). pose proof (Nat.mod_upper_bound (length l) rate rate_nonzero). lia. }
  unfold blocks, remainder. generalize (length l / rate)%nat. intros n. revert l.
  induction n as [|n IH]; intros l; [done|]. cbn [chunks concat].
  rewrite <-(assoc_L (++)), Nat.mul_succ_r, Nat.add_comm, <-drop_drop, <-IH. by rewrite take_drop.
Qed.

Section absorbing.
Context `{HT : Target64, HTok : !Target64Ok}.

(** One byte xored in at its offset, as [update] and [finalize] do it. *)
Definition xor_at (st : lanes) (off b : Z) : lanes :=
  xor_lane st (Z.shiftr off 3) (shl64 b (Z.shiftl (Z.land off 7) 3)).

Lemma xor_at_snoc a bs b :
  Forall is_byte bs -> is_byte b -> (length bs < rate)%nat ->
  xor_at (xor_bytes a bs) (Z.of_nat (length bs)) b = xor_bytes a (bs ++ [b]).
Proof.
  intros Hbs Hb Hlen. unfold xor_at, xor_lane, rate in *.
  set (n := length bs) in *.
  rewrite Z.shiftr_div_pow2, (Z.land_ones _ 3), Z.shiftl_mul_pow2 by lia.
  change (2 ^ 3) with (Z.of_nat 8). rewrite <-Nat2Z.inj_div, <-Nat2Z.inj_mod.
  pose proof (Nat.mod_upper_bound n 8 ltac:(done)).
  assert (n / 8 < 17)%nat by (apply Nat.Div0.div_lt_upper_bound; lia).
  change 5 with (Z.of_nat 5). rewrite <-Nat2Z.inj_div, <-Nat2Z.inj_mod, !Nat2Z.id.
  assert (n / 8 / 5 < 5)%nat by (apply Nat.Div0.div_lt_upper_bound; lia).
  unfold xor_bytes at 1. rewrite set_lane_tab by idx. apply tab_ext. intros x y Hx Hy.
  rewrite word_snoc by done. fold n.
  pose proof (Nat.div_mod_eq (n / 8) 5). pose proof (mod5_lt (n / 8)).
  case_decide as Hxy; [|case_decide; [|done]].
  - destruct Hxy as [-> ->]. rewrite decide_True by lia.
    unfold xor_bytes. rewrite lane_tab, <-Z.lxor_assoc by idx. f_equal.
    unfold shl64. rewrite Z.shiftl_mul_pow2, (Z.mul_comm (Z.of_nat (n mod 8))) by lia.
    apply wrap_id.
    unfold is_byte in Hb. split; [apply Z.mul_nonneg_nonneg; [lia|apply Z.pow_nonneg; lia]|].
    apply Z.lt_le_trans with (256 * 2 ^ (Z.of_nat 8 * Z.of_nat (n mod 8))).
    + apply Z.mul_lt_mono_pos_r; [apply Z.pow_pos_nonneg; lia|lia].
    + change 256 with (2 ^ 8). rewrite <-Z.pow_add_r by lia. apply Z.pow_le_mono_r; lia.
  - exfalso. apply Hxy. lia.
Qed.

Lemma absorb_block_wf a bs : wf a -> Forall is_byte bs -> wf (absorb_block a bs).
Proof. intros. apply keccak_f_wf. by apply xor_bytes_wf. Qed.

Lemma absorb_blocks_wf a l : wf a -> Forall (Forall is_byte) l -> wf (foldl absorb_block a l).
Proof. intros Ha Hl. revert a Ha. induction Hl; intros a Ha; cbn [foldl]; auto using absorb_block_wf. Qed.

(** The object after a sequence of bytes: the whole blocks are absorbed, and
    the rest is xored into the state. *)
Lemma update_blocks m a rest :
  wf a -> Forall is_byte rest -> Forall is_byte m -> (length rest < rate)%nat ->
  update (Mk (xor_bytes a rest) (Z.of_nat (length rest))) m =
  let l := rest ++ m in
  Mk (xor_bytes (foldl absorb_block a (blocks l)) (remainder l)) (Z.of_nat (length (remainder l))).
Proof.
  intros Ha Hrest Hm. revert a rest Ha Hrest.
  induction Hm as [|b m Hb Hm IH]; intros a rest Ha Hrest Hlen; cbv zeta.
  { rewrite app_nil_r. by destruct (blocks_short rest Hlen) as [-> ->]. }
  unfold update. cbn [foldl]. unfold update_byte at 2. cbn [state blockOff].
  change (xor_lane _ _ _) with (xor_at (xor_bytes a rest) (Z.of_nat (length rest)) b).
  rewrite xor_at_snoc by done. rewrite (cons_middle b rest m), (assoc_L (++)).
  assert (length (rest ++ [b]) = S (length rest)) as Hlen' by (rewrite length_app; cbn [length]; lia).
  assert (Forall is_byte (rest ++ [b])) by (apply Forall_app; auto).
  change BLOCK_SIZE with (Z.of_nat rate).
  destruct (Z.of_nat (length rest) + 1 =? Z.of_nat rate) eqn:Hfull.
  - apply Z.eqb_eq in Hfull. destruct (blocks_cons (rest ++ [b]) m) as [-> ->]; [lia|].
    rewrite absorb_keccak_f by by apply xor_bytes_wf. fold (absorb_block a (rest ++ [b])).
    rewrite <-(xor_bytes_nil (absorb_block a (rest ++ [b]))) at 1 by by apply absorb_block_wf.
    apply (IH (absorb_block a (rest ++ [b])) []); [by apply absorb_block_wf|constructor|unfold rate; cbn; lia].
  - apply Z.eqb_neq in Hfull.
    replace (Z.of_nat (length rest) + 1) with (Z.of_nat (length (rest ++ [b]))) by lia.
    apply IH; [done|done|lia].
Qed.

Lemma xor_bytes_zeros a bs n :
  Forall is_byte bs -> xor_bytes a (bs ++ replicate n 0) = xor_bytes a bs.
Proof.
  intros Hbs. induction n as [|n IH]; [by rewrite app_nil_r|].
  rewrite replicate_S_end, (assoc_L (++)), xor_bytes_zero; [done|].
  apply Forall_app. split; [done|]. apply Forall_replicate. done.
Qed.

(** The last byte of a block is the top byte of lane [(1, 3)]. *)
Lemma xor_at_last f c :
  xor_at (tab f) (BLOCK_SIZE - 1) c =
  tab (fun x y => if decide (x = 1 /\ y = 3)%nat then Z.lxor (f x y) (shl64 c 56) else f x y).
Proof.
  change (xor_at (tab f) (BLOCK_SIZE - 1) c)
    with (set_lane (tab f) 1 3 (Z.lxor (lane (tab f) 1 3) (shl64 c 56))).
  rewrite set_lane_tab by lia. apply tab_ext. intros x y Hx Hy.
  case_decide as Hxy; [|done]. destruct Hxy as [-> ->]. by rewrite lane_tab.
Qed.

(** The two bytes [finalize] xores in complete the last block. *)
Lemma finalize_padding a rest :
  Forall is_byte rest -> (length rest < rate)%nat ->
  xor_at (xor_at (xor_bytes a rest) (Z.of_nat (length rest)) 0x01) (BLOCK_SIZE - 1) 0x80 =
  xor_bytes a (rest ++ padding (length rest)).
Proof.
  intros Hrest Hlen. unfold padding. rewrite Nat.mod_small by done. unfold rate in *.
  case_decide as Hq.
  - rewrite <-xor_at_snoc by (unfold rate; (done || lia)).
    replace (Z.of_nat (length rest)) with (BLOCK_SIZE - 1) by (change (BLOCK_SIZE - 1) with 135; lia).
    unfold xor_bytes. rewrite !xor_at_last. apply tab_ext. intros x y Hx Hy.
    case_decide; [|done]. by rewrite Z.lxor_assoc.
  - rewrite xor_at_snoc by (unfold rate; (done || lia)).
    assert (Forall is_byte (rest ++ [0x01])) by (apply Forall_app; split; [done|by repeat constructor]).
    rewrite <-(xor_bytes_zeros a (rest ++ [0x01]) (136 - length rest - 2)) by done.
    replace (BLOCK_SIZE - 1) with (Z.of_nat (length ((rest ++ [0x01]) ++ replicate (136 - length rest - 2) 0))).
    + rewrite xor_at_snoc; [by rewrite <-!(assoc_L (++))| |done|].
      * apply Forall_app. split; [done|]. by apply Forall_replicate.
      * unfold rate. rewrite !length_app, length_replicate. cbn [length]. lia.
    + rewrite !length_app, length_replicate. change (BLOCK_SIZE - 1) with 135. cbn [length]. lia.
Qed.

Lemma squeeze_lanes st :
  (fun i => let i := Z.of_nat i in let j := Z.shiftr i 3 in
     u8 (shr64 (lane st (Z.to_nat (j mod 5)) (Z.to_nat (j / 5)))
               (Z.shiftl (Z.land i 7) 3))) <$> seq 0 (Z.to_nat HASH_LEN) = squeeze st.
Proof.
  transitivity ((fun i => lane st (i / 8) 0 / 256 ^ Z.of_nat (i mod 8) mod 256) <$> seq 0 32).
  - apply list_fmap_ext. intros i n Hi. apply lookup_seq in Hi as [-> Hi]. cbn [Nat.add]. cbv zeta.
    change (Z.to_nat HASH_LEN) with 32%nat in Hi.
    rewrite Z.shiftr_div_pow2, (Z.land_ones _ 3), Z.shiftl_mul_pow2 by lia.
    change (2 ^ 3) with (Z.of_nat 8). rewrite <-Nat2Z.inj_div, <-Nat2Z.inj_mod.
    pose proof (Nat.mod_upper_bound i 8 ltac:(done)).
    assert (i / 8 < 4)%nat by (apply Nat.Div0.div_lt_upper_bound; lia).
    rewrite Z.mod_small, Z.div_small, Nat2Z.id by lia.
    unfold shr64. rewrite (proj2 (Z.ltb_lt _ _)), Z.shiftr_div_pow2 by lia.
    rewrite (Z.mul_comm (Z.of_nat (i mod 8))), (Z.pow_mul_r 2 (Z.of_nat 8)) by lia. done.
  - unfold squeeze. cbn -[lane Z.div Z.modulo Z.pow].
    rewrite !Z.div_div by lia. rewrite !Z.div_1_r. reflexivity.
Qed.

Lemma length_padding n : (length (padding n) = rate - n mod rate)%nat.
Proof.
  unfold padding. pose proof (Nat.mod_upper_bound n rate rate_nonzero).
  case_decide as Hq; [by rewrite Hq|].
  rewrite !length_app, length_replicate. cbn [length]. lia.
Qed.

Lemma chunks_lengths n l : (rate * n <= length l)%nat -> Forall (fun b => length b = rate) (chunks n l).
Proof.
  revert l. induction n as [|n IH]; intros l Hn; cbn [chunks]; constructor.
  - rewrite length_take. lia.
  - apply IH. rewrite length_drop. lia.
Qed.

Lemma blocks_concat bs l :
  Forall (fun b => length b = rate) bs -> blocks (concat bs ++ l) = bs ++ blocks l.
Proof.
  induction 1 as [|b bs Hb Hbs IH]; [done|]. cbn [concat app].
  rewrite <-(assoc_L (++)). destruct (blocks_cons b (concat bs ++ l) Hb) as [-> _]. by rewrite IH.
Qed.

Lemma blocks_padded m :
  blocks (m ++ padding (length m)) = blocks m ++ [remainder m ++ padding (length (remainder m))].
Proof.
  destruct (remainder_spec m) as [Hm Hr].
  assert (length (remainder m) = length m mod rate)%nat as Hlen.
  { unfold remainder. rewrite length_drop. pose proof (Nat.div_mod_eq (length m) rate). lia. }
  assert (padding (length (remainder m)) = padding (length m)) as ->.
  { unfold padding. rewrite Hlen, Nat.Div0.mod_mod. done. }
  rewrite Hm at 1. rewrite <-(assoc_L (++)), blocks_concat.
  - f_equal. destruct (blocks_cons (remainder m ++ padding (length m)) []) as [Hb _].
    { rewrite length_app, length_padding, Hlen. pose proof (Nat.mod_upper_bound (length m) rate rate_nonzero). lia. }
    by rewrite app_nil_r in Hb.
  - apply chunks_lengths. pose proof (Nat.div_mod_eq (length m) rate). lia.
Qed.

Lemma chunks_bytes n l : Forall is_byte l -> Forall (Forall is_byte) (chunks n l).
Proof.
  revert l. induction n as [|n IH]; intros l Hl; cbn [chunks]; constructor;
    [by apply Forall_take|by apply IH, Forall_drop].
Qed.

Lemma padding_bytes n : Forall is_byte (padding n).
Proof.
  unfold padding. case_decide; [by repeat constructor|].
  apply Forall_app. split; [by repeat constructor|].
  apply Forall_app. split; [by apply Forall_replicate|by repeat constructor].
Qed.

Lemma zero_state_wf : wf zero_state.
Proof. by apply wf_tab. Qed.

(** C1: the hash object computes Keccak-256.  For every message, feeding it
    byte by byte through [update] (lanes selected by [j % 5], [j / 5], a
    permutation whenever the offset reaches the block size) and then
    [finalize] gives the digest of the sponge construction over the padded
    blocks of the message, on every target that makes a rotation by zero the
    identity. *)
Theorem hash_correct m : Forall is_byte m -> hash m = keccak256 m.
Proof.
  intros Hm. unfold hash, keccak256. rewrite blocks_padded, foldl_app. cbn [foldl].
  change init with (Mk zero_state (Z.of_nat (length (@nil Z)))).
  rewrite <-(xor_bytes_nil zero_state zero_state_wf) at 1.
  rewrite update_blocks by
    (done || apply zero_state_wf || apply Forall_nil_2 || (unfold rate; cbn [length]; lia)).
  cbv zeta. cbn [app]. destruct (remainder_spec m) as [_ Hr].
  assert (Forall is_byte (remainder m)) by by apply Forall_drop.
  assert (wf (foldl absorb_block zero_state (blocks m)))
    by (apply absorb_blocks_wf; [apply zero_state_wf|by apply chunks_bytes]).
  unfold hash_of, finalize. cbn [state blockOff].
  pose proof (finalize_padding (foldl absorb_block zero_state (blocks m)) (remainder m)) as Hpad.
  unfold xor_at in Hpad. rewrite squeeze_lanes, Hpad by done. f_equal. apply absorb_keccak_f.
  apply xor_bytes_wf; [done|]. apply Forall_app. split; [done|apply padding_bytes].
Qed.

End absorbing.

(** The digest of the empty message, and of a message longer than one block. *)
Lemma hash_correct_witness :
  @hash masking_target [] = keccak256 []
  /\ @hash flushing_target (replicate 140 0x61) = keccak256 (replicate 140 0x61).
Proof.
  split.
  - apply (@hash_correct masking_target masking_target_ok). constructor.
  - apply (@hash_correct flushing_target flushing_target_ok). by apply Forall_replicate.
Defined.

(** The digest depends on an operation the language leaves undefined: the
    rho step rotates lane [(0, 0)] by zero and so shifts a 64-bit word by 64.
    On a target where that shift yields a stray bit the digest of the empty
    message is wrong. *)
Theorem hash_overlong_shift_matters :
  (forall T x, @rotl64 T x 0 = Z.lor (u64 x) (@shr_overlong T x 64))
  /\ @hash (fun _ _ => 1) [] <> keccak256 [].
Proof.
  split; [|vm_compute; discriminate].
  intros T x. unfold rotl64, shl64, shr64. by rewrite Z.shiftl_0_r.
Qed.

(** [keccak256("")] as published. *)
Example keccak256_empty : keccak256 [] =
  [0xc5; 0xd2; 0x46; 0x01; 0x86; 0xf7; 0x23; 0x3c; 0x92; 0x7e; 0x7d; 0xb2; 0xdc; 0xc7; 0x03; 0xc0;
   0xe5; 0x00; 0xb6; 0x53; 0xca; 0x82; 0x27; 0x3b; 0x7b; 0xfa; 0xd8; 0x04; 0x5d; 0x85; 0xa4; 0x70].
Proof. vm_compute. reflexivity. Qed.

End KeccakSpec.
