(* ===== verification/Common.v ===== *)
(** * Common: byte strings and the shared functions of the test-vector code

    [src/test-vectors/common.hpp] (gray-paper notation: sequence indexing,
    concatenation, fixed-width little-endian numbers, the two hash functions)
    over byte strings in their lexicographic order.  The Blake2b hash and the
    configuration constants come from outside the sources and are parameters. *)

From S2P Require Import Prelude Containers Keccak.

(** [qtils::ByteArr<N>], [qtils::ByteVec]: sequences of bytes. *)
Abbreviation Bytes := (list Z).

(** [operator<] of byte arrays: lexicographic. *)
Fixpoint bytes_lt (x y : Bytes) : Prop :=
  match x, y with
  | _, [] => False
  | [], _ :: _ => True
  | a :: x, b :: y => a < b \/ (a = b /\ bytes_lt x y)
  end.

#[export] Instance bytes_lt_dec : RelDecision bytes_lt.
Proof.
  refine (fix go x y : Decision (bytes_lt x y) :=
    match x, y with
    | _, [] => right _
    | [], _ :: _ => left _
    | a :: x, b :: y =>
        match Z_lt_dec a b with
        | left H => left (or_introl H)
        | right H =>
            match Z.eq_dec a b with
            | left E => match go x y with left L => left (or_intror (conj E L)) | right L => right _ end
            | right E => right _
            end
        end
    end); clear go; cbn; try done; try tauto; intros [?|[? ?]]; tauto.
Defined.

(** [prev >= x] with [std::optional<T> prev]: false when [prev] is empty. *)
Definition opt_ge {A} (R : relation A) `{!RelDecision R} (prev : option A) (x : A) : bool :=
  match prev with
  | None => false
  | Some p => bool_decide (¬ R p x)
  end.

(** [first_bytes<N>(bytes)] *)
Definition first_bytes {E} (n : nat) (bytes : Bytes) : run E Bytes :=
  raise_if (bool_decide (length bytes < n)%nat) "first_bytes";;
  mret (take n bytes).

(** [s[i % s.size()]]: the remainder by zero is undefined. *)
Definition circlearrowleft {E A} (s : list A) (i : Z) : run E A :=
  require (negb (Z.of_nat (length s) =? 0));;
  at_idx s (i mod Z.of_nat (length s)).

Definition frown (x y : Bytes) : Bytes := x ++ y.

Definition doubleplus (x : Bytes) (i : Z) : Bytes := frown x [i].

(** [endian_store<uint64_t, N, little>] and [endian_load]. *)
Definition mathcal_E (n : nat) (x : Z) : Bytes := le_bytes n (u64 x).

Definition de (x : Bytes) : Z := le_value x.

Definition mathcal_H_K `{Target64} (m : Bytes) : Bytes := Keccak.hash m.

(** ** The order of byte strings *)

#[export] Instance bytes_lt_strict : StrictOrder bytes_lt.
Proof.
  split.
  - intros x. unfold complement. induction x as [|a x IH]; cbn; [done|]. intros [?|[_ ?]]; [lia|auto].
  - intros x. induction x as [|a x IH]; intros [|b y] [|c z]; cbn; try done.
    intros [?|[-> ?]] [?|[-> ?]]; [left; lia|left; lia|left; lia|right; split; [done|eauto]].
Qed.

#[export] Instance bytes_lt_trichotomy : Trichotomy bytes_lt.
Proof.
  intros x. induction x as [|a x IH]; intros [|b y]; cbn; [tauto..|].
  destruct (Z.lt_trichotomy a b) as [?|[->|?]]; [tauto| |tauto].
  destruct (IH y) as [?|[->|?]]; auto.
Qed.

(** [prev < x] for the whole chain of a loop that exits on [prev >= x]. *)
Lemma opt_ge_false {A} (R : relation A) `{!RelDecision R} prev x :
  opt_ge R prev x = false <-> forall p, prev = Some p -> R p x.
Proof.
  destruct prev as [p|]; cbn; [|naive_solver].
  rewrite bool_decide_eq_false. destruct (decide (R p x)); naive_solver.
Qed.

(** ** Properties *)

(** The fixed-width little-endian encoding decodes to the number modulo its
    width: [de (mathcal_E n x)] loses exactly the high bytes. *)
Lemma de_mathcal_E n x :
  (n <= 8)%nat -> de (mathcal_E n x) = x mod 256 ^ Z.of_nat n.
Proof.
  intros Hn. unfold de, mathcal_E, wrap. rewrite le_value_bytes.
  change (2 ^ 64) with (256 ^ 8). replace 8 with (Z.of_nat n + Z.of_nat (8 - n)) by lia.
  rewrite Z.pow_add_r, Z.rem_mul_r by (try apply Z.pow_nonzero; lia).
  rewrite (Z.mul_comm (256 ^ Z.of_nat n)), Z.mod_add, Z.mod_mod by (apply Z.pow_nonzero; lia). done.
Qed.
