(* ===== verification/History.v ===== *)
(** * History: recent block history and the accumulation log

    [src/test-vectors/history/history.hpp]: the Merkle mountain range append
    [mathcal_A] and the state transition that keeps the last [H] blocks.  The
    mountain range is related to the list of all leaves ever appended, and the
    history to the list of all blocks ever imported. *)

From S2P Require Import Prelude Common Keccak.

Module History.
Section with_target.
Context `{HT : Target64}.

(** [reported] is carried through unread; its element type is a parameter. *)
Context {Reported : Type}.

Definition OpaqueHash : Type := Bytes.

Record Mmr : Type := MkMmr { peaks : list (option OpaqueHash) }.

Record BlockInfo : Type := MkBlockInfo {
  header_hash : Bytes;
  mmr : Mmr;
  state_root : Bytes;
  reported : Reported
}.

Record State : Type := MkState { beta : list BlockInfo }.

Record Input : Type := MkInput {
  input_header_hash : Bytes;
  parent_state_root : Bytes;
  accumulate_root : OpaqueHash;
  work_packages : Reported
}.

(** The size of recent history, in blocks. *)
Definition H : nat := 8.

(** The loop of [mathcal_A] from position [n] on: an empty peak takes the
    carried hash and ends the call; an occupied one is emptied and merged. *)
Fixpoint append_from (r : list (option OpaqueHash)) (l : OpaqueHash) : list (option OpaqueHash) :=
  match r with
  | [] => [Some l]
  | None :: r => Some l :: r
  | Some r_n :: r => None :: append_from r (mathcal_H_K (frown r_n l))
  end.

Definition mathcal_A (r : Mmr) (l : OpaqueHash) : Mmr := MkMmr (append_from (peaks r) l).

(** [types::StateRoot{}]: a zeroed hash. *)
Definition zero_root : Bytes := replicate 32 0.

(** [beta_tick.back().state_root = root] on a non-empty vector. *)
Fixpoint set_last_root (b : list BlockInfo) (root : Bytes) : list BlockInfo :=
  match b with
  | [] => []
  | [i] => [MkBlockInfo (header_hash i) (mmr i) root (reported i)]
  | i :: b => i :: set_last_root b root
  end.

Definition transition (state : State) (input : Input) : State :=
  let beta_tick := if decide (H <= length (beta state))%nat then drop 1 (beta state) else beta state in
  let beta_tick :=
    if decide (beta_tick = []) then beta_tick
    else set_last_root beta_tick (parent_state_root input) in
  let mmr0 := match last (beta state) with Some i => mmr i | None => MkMmr [] end in
  let mmr_tick := mathcal_A mmr0 (accumulate_root input) in
  MkState (beta_tick ++
    [MkBlockInfo (input_header_hash input) mmr_tick zero_root (work_packages input)]).

(** ** What the log and the history stand for *)

(** The root of the perfect binary tree over [2 ^ k] leaves. *)
Fixpoint tree_root (k : nat) (ls : list OpaqueHash) : OpaqueHash :=
  match k with
  | O => default [] (head ls)
  | S k => mathcal_H_K (frown (tree_root k (take (2 ^ k) ls)) (tree_root k (drop (2 ^ k) ls)))
  end.

(** With [n] leaves, peak [k] exists when bit [k] of [n] is set; it covers the
    [2 ^ k] leaves after the last multiple of [2 ^ (k + 1)]. *)
Definition peak_leaves (k : nat) (ls : list OpaqueHash) : list OpaqueHash :=
  take (2 ^ k) (drop (2 ^ S k * (length ls / 2 ^ S k)) ls).

Definition peak_of (k : nat) (ls : list OpaqueHash) : option OpaqueHash :=
  if Nat.odd (length ls / 2 ^ k) then Some (tree_root k (peak_leaves k ls)) else None.

Definition bit_length (n : nat) : nat := match n with O => O | S _ => S (Nat.log2 n) end.

Definition mmr_of (ls : list OpaqueHash) : Mmr :=
  MkMmr ((fun k => peak_of k ls) <$> seq 0 (bit_length (length ls))).

(** The record of every block imported so far: block [i] of [inputs] with the
    log of the first [i + 1] accumulation roots and the state root its
    successor reported for it. *)
Definition info_of (inputs : list Input) (i : nat) (x : Input) : BlockInfo :=
  MkBlockInfo (input_header_hash x) (mmr_of (accumulate_root <$> take (S i) inputs))
    (match inputs !! S i with Some y => parent_state_root y | None => zero_root end)
    (work_packages x).

Definition full_history (inputs : list Input) : list BlockInfo := imap (info_of inputs) inputs.

(** ** The mountain range *)

(** [ps], as the peaks from level [k] on, holds the leaves [ls]: each occupied
    level contributes a perfect tree, and there is no empty level on top. *)
Inductive holds : nat -> list (option OpaqueHash) -> list OpaqueHash -> Prop :=
| holds_nil k : holds k [] []
| holds_none k ps ls : ps <> [] -> holds (S k) ps ls -> holds k (None :: ps) ls
| holds_some k ps ls t : length t = (2 ^ k)%nat -> holds (S k) ps ls ->
    holds k (Some (tree_root k t) :: ps) (ls ++ t).

Lemma append_from_holds k ps ls t :
  holds k ps ls -> length t = (2 ^ k)%nat -> holds k (append_from ps (tree_root k t)) (ls ++ t).
Proof.
  intros Hps. revert t. induction Hps as [k|k ps ls Hne Hps IH|k ps ls t0 Ht0 Hps IH]; intros t Ht; cbn.
  - apply (holds_some k [] []); [done|constructor].
  - by constructor.
  - rewrite <-(assoc_L (++)). constructor; [by destruct ps as [|[]]|].
    replace (mathcal_H_K _) with (tree_root (S k) (t0 ++ t)).
    + apply IH. rewrite length_app, Ht0, Ht. cbn. lia.
    + cbn [tree_root]. by rewrite take_app_length', drop_app_length'.
Qed.

Lemma holds_multiple k ps ls : holds k ps ls -> exists c, length ls = (c * 2 ^ k)%nat.
Proof.
  induction 1 as [k|k ps ls _ _ [c Hc]|k ps ls t Ht _ [c Hc]].
  - by exists 0%nat.
  - exists (2 * c)%nat. rewrite Hc. cbn [Nat.pow]. lia.
  - exists (2 * c + 1)%nat. rewrite length_app, Hc, Ht. cbn [Nat.pow]. lia.
Qed.

(** The leaf count below level [k] on, in units of [2 ^ k]. *)
Lemma holds_units k ps ls : holds (S k) ps ls ->
  exists c, length ls = (c * 2 ^ S k)%nat /\ (length ls / 2 ^ S k = c)%nat
    /\ (length ls / 2 ^ k = 2 * c)%nat /\ ((length ls + 2 ^ k) / 2 ^ k = 2 * c + 1)%nat
    /\ ((length ls + 2 ^ k) / 2 ^ S k = c)%nat.
Proof.
  intros [c Hc]%holds_multiple. exists c. rewrite Hc.
  assert (2 ^ k <> 0)%nat by (apply Nat.pow_nonzero; lia).
  assert (2 ^ S k = 2 * 2 ^ k)%nat as HS by done. rewrite HS.
  split; [done|]. split; [|split; [|split]]; symmetry.
  - apply (Nat.div_unique _ _ _ 0); lia.
  - apply (Nat.div_unique _ _ _ 0); lia.
  - apply (Nat.div_unique _ _ _ 0); lia.
  - apply (Nat.div_unique _ _ _ (2 ^ k)); lia.
Qed.

Lemma bit_length_double n : n <> 0%nat -> bit_length (2 * n) = S (bit_length n).
Proof.
  intros Hn. destruct n as [|n]; [done|]. unfold bit_length.
  change (2 * S n)%nat with (S (n + S (n + 0)))%nat at 1. rewrite Nat.log2_double by lia. done.
Qed.

Lemma bit_length_double_1 n : bit_length (2 * n + 1) = S (bit_length n).
Proof.
  destruct n as [|n]; [done|]. unfold bit_length at 1.
  replace (2 * S n + 1)%nat with (S (2 * S n)) at 1 by lia. by rewrite Nat.log2_succ_double by lia.
Qed.

Lemma holds_length k ps ls : holds k ps ls -> length ps = bit_length (length ls / 2 ^ k).
Proof.
  induction 1 as [k|k ps ls Hne Hps IH|k ps ls t Ht Hps IH]; cbn [length].
  - by rewrite Nat.Div0.div_0_l.
  - destruct (holds_units _ _ _ Hps) as (c & _ & Hc & Hc2 & _). rewrite Hc in IH. rewrite Hc2.
    rewrite bit_length_double; [by f_equal|]. intros ->. by destruct ps.
  - destruct (holds_units _ _ _ Hps) as (c & _ & Hc & _ & Hc2 & _). rewrite Hc in IH.
    by rewrite length_app, Ht, Hc2, bit_length_double_1, IH.
Qed.

(** Leaves above the last whole tree of level [k] do not concern a higher peak. *)
Lemma peak_of_app j k c ls t :
  (k < j)%nat -> length ls = (c * 2 ^ S k)%nat -> length t = (2 ^ k)%nat ->
  peak_of j (ls ++ t) = peak_of j ls.
Proof.
  intros Hj Hls Ht.
  assert (forall i, k < i -> (length ls + length t) / 2 ^ i = length ls / 2 ^ i)%nat as Hdiv.
  { intros i Hi. replace i with (S k + (i - S k))%nat by lia.
    rewrite Nat.pow_add_r, <-!Nat.Div0.div_div, Hls, Ht. f_equal.
    assert (2 ^ k <> 0)%nat by (apply Nat.pow_nonzero; lia).
    rewrite Nat.div_mul by (apply Nat.pow_nonzero; lia).
    symmetry. apply (Nat.div_unique _ _ _ (2 ^ k)); cbn [Nat.pow]; lia. }
  unfold peak_of, peak_leaves. rewrite length_app, (Hdiv j), (Hdiv (S j)) by lia.
  destruct (Nat.odd _) eqn:Hodd; [|done]. do 2 f_equal.
  apply Nat.odd_spec in Hodd as [q Hq].
  assert (2 ^ j <> 0)%nat by (apply Nat.pow_nonzero; lia).
  pose proof (Nat.div_mod_eq (length ls) (2 ^ j)) as Hmod. rewrite Hq in Hmod.
  assert (length ls / 2 ^ S j = q)%nat as ->.
  { symmetry. apply (Nat.div_unique _ _ _ (2 ^ j + length ls mod 2 ^ j)); cbn [Nat.pow]; [|lia].
    pose proof (Nat.mod_upper_bound (length ls) (2 ^ j)). lia. }
  rewrite drop_app_le by (cbn [Nat.pow]; lia).
  apply take_app_le. rewrite length_drop. cbn [Nat.pow]. lia.
Qed.

Lemma holds_peak k ps ls i : holds k ps ls -> (i < length ps)%nat -> ps !! i = Some (peak_of (k + i) ls).
Proof.
  intros Hps. revert i.
  induction Hps as [k|k ps ls Hne Hps IH|k ps ls t Ht Hps IH]; intros [|i] Hi; cbn [length] in Hi;
    try lia; cbn [lookup list_lookup]; rewrite ?Nat.add_0_r, ?Nat.add_succ_r.
  - destruct (holds_units _ _ _ Hps) as (c & _ & _ & Hc & _). unfold peak_of.
    by rewrite Hc, Nat.odd_mul.
  - by rewrite IH by lia.
  - destruct (holds_units _ _ _ Hps) as (c & Hls & _ & _ & Hc & Hc').
    unfold peak_of, peak_leaves. rewrite length_app, Ht, Hc, Hc', Nat.odd_add, Nat.odd_mul. cbn [xorb negb].
    rewrite drop_app_length' by lia. by rewrite take_ge by lia.
  - destruct (holds_units _ _ _ Hps) as (c & Hls & _). rewrite IH by lia.
    rewrite (peak_of_app _ k c) by (try exact Hls; try exact Ht; lia). exact eq_refl.
Qed.

Lemma holds_mmr_of ps ls : holds 0 ps ls -> MkMmr ps = mmr_of ls.
Proof.
  intros Hps. unfold mmr_of. f_equal. pose proof (holds_length _ _ _ Hps) as Hlen.
  rewrite Nat.pow_0_r, Nat.div_1_r in Hlen. apply list_eq. intros i.
  rewrite list_lookup_fmap. destruct (decide (i < length ps)%nat).
  - rewrite lookup_seq_lt by lia. by apply (holds_peak 0).
  - rewrite lookup_ge_None_2, lookup_seq_ge by lia. done.
Qed.

Lemma mmr_of_holds ls : holds 0 (peaks (mmr_of ls)) ls.
Proof.
  enough (exists ps, holds 0 ps ls) as [ps Hps].
  { by rewrite <-(holds_mmr_of ps ls Hps). }
  induction ls as [|x ls [ps Hps]] using rev_ind; [exists []; constructor|].
  exists (append_from ps (tree_root 0 [x])). by apply append_from_holds.
Qed.

Lemma mathcal_A_mmr_of ls x : mathcal_A (mmr_of ls) x = mmr_of (ls ++ [x]).
Proof.
  apply holds_mmr_of. apply (append_from_holds 0 _ _ [x]); [apply mmr_of_holds|done].
Qed.

(** ** The history *)

Lemma set_last_root_snoc b i root :
  set_last_root (b ++ [i]) root = b ++ [MkBlockInfo (header_hash i) (mmr i) root (reported i)].
Proof. induction b as [|j [|k b] IH]; cbn in *; [done..|]. by rewrite IH. Qed.

Lemma length_full_history inputs : length (full_history inputs) = length inputs.
Proof. apply length_imap. Qed.

Lemma info_of_app inputs inputs' i z :
  (S i < length inputs)%nat -> info_of (inputs ++ inputs') i z = info_of inputs i z.
Proof. intros Hi. unfold info_of. by rewrite take_app_le, lookup_app_l by lia. Qed.

Lemma imap_info_of_app inputs y l l' :
  imap (info_of (inputs ++ y :: l)) inputs = imap (info_of (inputs ++ y :: l')) inputs.
Proof.
  apply imap_ext. intros i z Hi%lookup_lt_Some.
  assert (forall k, info_of (inputs ++ y :: k) i z = info_of (inputs ++ [y]) i z) as Hk; [|by rewrite Hk, (Hk l')].
  intros k. rewrite (cons_middle y inputs k), (assoc_L (++)).
  apply info_of_app. rewrite length_app. cbn. lia.
Qed.

(** One more block: the previous last entry gets its state root, everything
    older is unchanged. *)
Lemma full_history_snoc2 inputs y x :
  full_history (inputs ++ [y; x]) =
  set_last_root (full_history (inputs ++ [y])) (parent_state_root x)
    ++ [info_of (inputs ++ [y; x]) (S (length inputs)) x].
Proof.
  unfold full_history. rewrite !imap_app. cbn [imap]. rewrite set_last_root_snoc.
  rewrite (imap_info_of_app inputs y [x] []), <-(assoc_L (++)). f_equal. cbn.
  rewrite Nat.add_0_r, Nat.add_1_r. f_equal. unfold info_of. cbn [header_hash mmr reported]. f_equal.
  - rewrite !take_app_ge by lia. replace (S (length inputs) - length inputs)%nat with 1%nat by lia. done.
  - rewrite lookup_app_r by lia.
    by replace (S (length inputs) - length inputs)%nat with 1%nat by lia.
Qed.

Lemma full_history_last inputs y : exists pre,
  length pre = length inputs /\
  full_history (inputs ++ [y]) = pre ++ [info_of (inputs ++ [y]) (length inputs) y].
Proof.
  unfold full_history. rewrite imap_app. cbn. rewrite Nat.add_0_r.
  eexists. split; [|done]. apply length_imap.
Qed.

(** The window before an import, with room made for one more block. *)
Lemma window_shift (b : list BlockInfo) n :
  length b = n ->
  (if decide (H <= length (drop (n - H) b))%nat then drop 1 (drop (n - H) b) else drop (n - H) b)
  = drop (S n - H) b.
Proof.
  intros <-. rewrite length_drop, drop_drop. unfold H. case_decide; f_equal; lia.
Qed.

(** ** Properties *)

(** Appending the leaves [ls] one after the other to an empty mountain range
    gives, for the binary representation of [length ls], one peak per set bit,
    at the position of the bit, and each peak is the Keccak Merkle root of its
    own [2 ^ k] consecutive leaves. *)
Theorem mathcal_A_peaks ls : foldl mathcal_A (MkMmr []) ls = mmr_of ls.
Proof.
  change (MkMmr []) with (mmr_of []). induction ls as [|x ls IH] using rev_ind; [done|].
  rewrite foldl_snoc. rewrite IH. apply mathcal_A_mmr_of.
Qed.

(** C5: after importing any sequence of blocks from an empty history, the state
    holds exactly the last [H] blocks in order; each carries the mountain range
    over the accumulation roots of all blocks up to it, and the state root
    reported by its successor (zero for the newest). *)
Theorem transition_history inputs :
  foldl transition (MkState []) inputs =
  MkState (drop (length inputs - H) (full_history inputs)).
Proof.
  induction inputs as [|x inputs IH] using rev_ind; [done|].
  rewrite foldl_snoc, IH. clear IH.
  destruct inputs as [|y inputs _] using rev_ind; [done|].
  rewrite <-(assoc_L (++)). cbn [app]. rewrite full_history_snoc2.
  unfold transition. cbn [beta]. rewrite window_shift by apply length_full_history.
  destruct (full_history_last inputs y) as (pre & Hpre & Hfh). rewrite Hfh.
  rewrite !length_app. cbn [length]. rewrite set_last_root_snoc, <-!Hpre.
  rewrite !drop_app_le by (rewrite ?length_app; cbn; unfold H; lia).
  rewrite (decide_False (P := _ = [])) by (intros [_ ?]%app_nil; done).
  rewrite set_last_root_snoc, last_snoc. f_equal. f_equal; [do 2 f_equal; lia|].
  unfold info_of. cbn [header_hash mmr reported]. rewrite mathcal_A_mmr_of, Hpre. do 2 f_equal.
  - rewrite !take_ge by (rewrite length_app; cbn; lia). rewrite !fmap_app. cbn.
    by rewrite <-(assoc_L (++)).
  - rewrite lookup_ge_None_2; [done|]. rewrite length_app. cbn. lia.
Qed.

End with_target.
End History.
