(* ===== verification/JamTypes.v ===== *)
(** * JamTypes: protocol constants and generated types

    [test_vectors::Config] holds the protocol parameters the state transitions
    read.  The struct is generated at build time; the fields below are the ones
    the sources name, all of them 32-bit unsigned. *)

From S2P Require Import Prelude Common.

Record Config : Type := MkConfig {
  epoch_length : Z;
  validators_super_majority : Z;
  validators_count : Z;
  tickets_per_validator : Z;
  cores_count : Z;
  auth_pool_max_size : Z;
  auth_queue_size : Z
}.

(** The "tiny" parameter set the test vectors are published for. *)
Definition config_tiny : Config := MkConfig 12 5 6 3 2 8 80.

(** [types::ValidatorData]: the sources read two keys and value-initialise the
    struct; its other fields are carried along. *)
Class ValidatorTypes : Type := {
  ValidatorData : Type;
  bandersnatch_of : ValidatorData -> Bytes;
  ed25519_of : ValidatorData -> Bytes;
  ValidatorData_default : ValidatorData
}.

(** [encode_with_config(value, config)]: the generated encoder, which may return
    an error. *)
Class EncodeWithConfig (Report : Type) : Type :=
  encode_with_config : Report -> Config -> option Bytes.
