(* ===== verification/Authorizations.v ===== *)
(** * Authorizations: the per-core authorizer pools

    [src/test-vectors/authorizations/authorizations.hpp]: [transition] updates
    the pools of all cores with four loops over shared arrays.  The loops are
    translated one by one; the theorems reduce them to an independent function
    of each core's pool and compare that with the rule the comments state. *)

From S2P Require Import Prelude Common JamTypes.

Module Authorizations.

Abbreviation AuthorizerHash := Bytes.

(** A pool: the authorizers usable on a core, oldest first. *)
Abbreviation Pool := (list AuthorizerHash).

Record State : Type := MkState {
  auth_pools : list Pool;
  auth_queues : list (list AuthorizerHash)
}.

Record Auth : Type := MkAuth { core : Z; auth_hash : AuthorizerHash }.

Record Input : Type := MkInput { slot : Z; auths : list Auth }.

Abbreviation step := (run Empty_set).

(** [for (CoreIndex core = 0; core < config.cores_count; ++core)] *)
Definition cores (config : Config) : list Z := seqZ 0 (cores_count config).

(** [pools[core] = pool] inside the bounds of the vector. *)
Definition set_idx {A} (l : list A) (i : Z) (x : A) : step (list A) :=
  _ ← at_idx l i; mret (<[Z.to_nat i := x]> l).

(** The local [pools]: a copy of the pools of every core. *)
Definition copy_pools (config : Config) (state : State) : step (list Pool) :=
  foldM (fun pools c =>
      pool ← at_idx (auth_pools state) c;
      require (Z.of_nat (length pool) <=? auth_pool_max_size config);;
      set_idx pools c pool)
    (replicate (Z.to_nat (cores_count config)) []) (cores config).

(** [erase(pool, authorizer)]: drop every equal element, count them. *)
Definition erase (pool : Pool) (a : AuthorizerHash) : Pool * nat :=
  (filter (.≠ a) pool, length (filter (.= a) pool)).

(** [state.auth_queues[core][input.slot % config.auth_queue_size]] under its
    [assert]. *)
Definition queueing (config : Config) (state : State) (input : Input) (c : Z) : step AuthorizerHash :=
  queue ← at_idx (auth_queues state) c;
  require (Z.of_nat (length queue) =? auth_queue_size config);;
  require (negb (auth_queue_size config =? 0));;
  at_idx queue (slot input mod auth_queue_size config).

(** The loop over [input.auths], on [pools] and [deleted]. *)
Definition consume (config : Config) (state : State) (input : Input)
    (s : list Pool * list bool) (a : Auth) : step (list Pool * list bool) :=
  let '(pools, deleted) := s in
  pool ← at_idx pools (core a);
  let '(pool, n) := erase pool (auth_hash a) in
  if (n =? 0)%nat then mret s
  else
    deleted ← set_idx deleted (core a) true;
    q ← queueing config state input (core a);
    pools ← set_idx pools (core a) (pool ++ [q]);
    mret (pools, deleted).

(** The loop that removes the oldest authorizer of an untouched full pool;
    [pop_front] on an empty list is undefined. *)
Definition make_room (config : Config) (deleted : list bool) (pools : list Pool) (c : Z) : step (list Pool) :=
  d ← at_idx deleted c;
  if (d : bool) then mret pools
  else
    pool ← at_idx pools c;
    if Z.of_nat (length pool) =? auth_pool_max_size config then
      require (negb (length pool =? 0)%nat);;
      set_idx pools c (drop 1 pool)
    else mret pools.

(** The loop that draws authorizers from the queues. *)
Definition draw (config : Config) (state : State) (input : Input) (pools : list Pool) (c : Z) : step (list Pool) :=
  pool ← at_idx pools c;
  if Z.of_nat (length pool) <? auth_pool_max_size config then
    q ← queueing config state input c;
    set_idx pools c (pool ++ [q])
  else mret pools.

Definition transition (config : Config) (state : State) (input : Input) : step State :=
  pools ← copy_pools config state;
  '(pools, deleted) ← foldM (consume config state input)
    (pools, replicate (Z.to_nat (cores_count config)) false) (auths input);
  pools ← foldM (make_room config deleted) pools (cores config);
  pools ← foldM (draw config state input) pools (cores config);
  mret (MkState pools (auth_queues state)).

(** ** Reference definitions *)

(** The state and input the function is meant for: one pool and one queue per
    core, pools within the limit, queues of the configured size. *)
Record wf (config : Config) (state : State) : Prop := {
  wf_cores : 0 <= cores_count config;
  wf_max : 0 < auth_pool_max_size config;
  wf_queue : 0 < auth_queue_size config;
  wf_pools : Z.of_nat (length (auth_pools state)) = cores_count config;
  wf_queues : Z.of_nat (length (auth_queues state)) = cores_count config;
  wf_pool : Forall (fun p : Pool => Z.of_nat (length p) <= auth_pool_max_size config) (auth_pools state);
  wf_queue_size : Forall (fun q => Z.of_nat (length q) = auth_queue_size config) (auth_queues state)
}.

Definition wf_input (config : Config) (input : Input) : Prop :=
  0 <= slot input /\ Forall (fun a => 0 <= core a < cores_count config) (auths input).

(** The authorizers used on one core, in input order. *)
Definition used (input : Input) (c : Z) : list AuthorizerHash :=
  auth_hash <$> filter (fun a => core a = c) (auths input).

(** What the loops do to the pool of one core, given the queued item [q]. *)
Definition use (q : AuthorizerHash) (s : Pool * bool) (a : AuthorizerHash) : Pool * bool :=
  if decide (a ∈ s.1) then (filter (.≠ a) s.1 ++ [q], true) else s.

Definition refill (max : Z) (q : AuthorizerHash) (s : Pool * bool) : Pool :=
  let pool := if negb s.2 && (Z.of_nat (length s.1) =? max) then drop 1 s.1 else s.1 in
  if Z.of_nat (length pool) <? max then pool ++ [q] else pool.

Definition core_pool (max : Z) (q : AuthorizerHash) (us : list AuthorizerHash) (pool : Pool) : Pool :=
  refill max q (foldl (use q) (pool, false) us).

Definition queue_item (config : Config) (state : State) (input : Input) (c : nat) : AuthorizerHash :=
  default [] (auth_queues state !! c ≫= (.!! Z.to_nat (slot input mod auth_queue_size config))).

(** The rule of the protocol: the used authorizer leaves the pool, the queued
    one is appended, and the newest [max] remain. *)
Fixpoint remove_first (a : AuthorizerHash) (pool : Pool) : Pool :=
  match pool with
  | [] => []
  | b :: pool => if decide (a = b) then pool else b :: remove_first a pool
  end.

Definition lastn (n : nat) (pool : Pool) : Pool := drop (length pool - n) pool.

Definition gp_pool (max : Z) (q : AuthorizerHash) (u : option AuthorizerHash) (pool : Pool) : Pool :=
  lastn (Z.to_nat max) (match u with Some a => remove_first a pool | None => pool end ++ [q]).

(** ** The loops, one core at a time *)

Lemma set_idx_inside {A} (l : list A) (i : nat) x :
  (i < length l)%nat -> set_idx l (Z.of_nat i) x = Done (<[i := x]> l).
Proof.
  intros Hi. unfold set_idx. destruct (@at_idx_inside Empty_set A l (Z.of_nat i)) as (y & _ & ->); [lia|].
  cbn. by rewrite Nat2Z.id.
Qed.

Lemma at_idx_nat {A} (l : list A) (i : nat) x : l !! i = Some x -> at_idx l (Z.of_nat i) = (Done x : step A).
Proof. intros Hx. apply at_idx_Done. rewrite Nat2Z.id. split; [lia|done]. Qed.

Lemma imap_insert_next {A} (f : nat -> A -> A) (l : list A) k x :
  l !! k = Some x ->
  <[k := f k x]> (imap (fun i y => if decide (i < k)%nat then f i y else y) l)
  = imap (fun i y => if decide (i < S k)%nat then f i y else y) l.
Proof.
  intros Hx. assert (k < length l)%nat by by eapply lookup_lt_Some.
  apply list_eq. intros i. destruct (decide (i = k)) as [->|Hi].
  - rewrite list_lookup_insert_eq by (by rewrite length_imap).
    rewrite list_lookup_imap, Hx. cbn. by rewrite decide_True by lia.
  - rewrite list_lookup_insert_ne, !list_lookup_imap by done. destruct (l !! i); cbn; [|done].
    f_equal. repeat case_decide; done || lia.
Qed.

(** A loop over the cores whose body rewrites the entry of its own core
    rewrites every entry. *)
Lemma foldM_cores {A} (body : list A -> Z -> step (list A)) (f : nat -> A -> A) (l : list A) :
  (forall l' i x, length l' = length l -> l' !! i = Some x ->
    body l' (Z.of_nat i) = Done (<[i := f i x]> l')) ->
  foldM body l (seqZ 0 (Z.of_nat (length l))) = Done (imap f l).
Proof.
  intros Hbody.
  enough (forall k, (k <= length l)%nat -> foldM body l (seqZ 0 (Z.of_nat k)) =
      Done (imap (fun i y => if decide (i < k)%nat then f i y else y) l)) as Hk.
  { rewrite Hk by done. f_equal. apply imap_ext. intros i x Hi%lookup_lt_Some. by rewrite decide_True. }
  induction k as [|k IH]; intros Hk.
  - change (foldM body l (seqZ 0 (Z.of_nat 0))) with (Done l : step (list A)).
    f_equal. symmetry. apply list_eq. intros i. rewrite list_lookup_imap.
    destruct (l !! i); cbn; [|done]. by rewrite decide_False by lia.
  - rewrite seqZ_S, foldM_app, IH, Z.add_0_l by lia. cbn [mbind run_bind foldM].
    destruct (lookup_lt_is_Some_2 l k) as [x Hx]; [lia|].
    erewrite Hbody; [|by rewrite length_imap|rewrite list_lookup_imap, Hx; cbn; by rewrite decide_False by lia].
    cbn. by rewrite imap_insert_next.
Qed.

Section transition.
Context (config : Config) (state : State) (input : Input).
Context (Hwf : wf config state) (Hin : wf_input config input).

Abbreviation q := (queue_item config state input).
Abbreviation n_cores := (Z.to_nat (cores_count config)).

Lemma queueing_item c : (c < n_cores)%nat -> queueing config state input (Z.of_nat c) = Done (q c).
Proof.
  destruct Hwf as [Hc _ Hq _ Hqs _ Hsize], Hin as [Hslot _]. intros Hlt. unfold queueing, queue_item.
  destruct (lookup_lt_is_Some_2 (auth_queues state) c) as [queue Hqueue]; [lia|].
  rewrite (at_idx_nat _ _ _ Hqueue). cbn [mbind run_bind]. rewrite Hqueue. cbn.
  rewrite Forall_lookup in Hsize. specialize (Hsize _ _ Hqueue). rewrite Hsize, Z.eqb_refl. cbn.
  rewrite (proj2 (Z.eqb_neq _ 0)) by lia. cbn.
  pose proof (Z.mod_pos_bound (slot input) (auth_queue_size config) Hq).
  destruct (@at_idx_inside Empty_set _ queue (slot input mod auth_queue_size config))
    as (x & Hx & ->); [lia|]. by rewrite Hx.
Qed.

Lemma copy_pools_id : copy_pools config state = Done (auth_pools state).
Proof.
  destruct Hwf as [Hc _ _ Hp _ Hmax _].
  set (f i (_ : Pool) := default [] (auth_pools state !! i)).
  unfold copy_pools, cores.
  replace (cores_count config) with (Z.of_nat (length (replicate n_cores ([] : Pool)))) at 2
    by (rewrite length_replicate; lia).
  rewrite (foldM_cores _ f).
  - f_equal. apply list_eq. intros i. rewrite list_lookup_imap. destruct (decide (i < n_cores)%nat).
    + rewrite lookup_replicate_2 by done. cbn. unfold f.
      by destruct (lookup_lt_is_Some_2 (auth_pools state) i) as [? ->]; [lia|].
    + rewrite !lookup_ge_None_2; rewrite ?length_replicate; [done|lia..].
  - intros l' i x Hl Hx. apply lookup_lt_Some in Hx. rewrite Hl, length_replicate in Hx.
    destruct (lookup_lt_is_Some_2 (auth_pools state) i) as [p Hpi]; [lia|].
    rewrite (at_idx_nat _ _ _ Hpi). cbn. rewrite Forall_lookup in Hmax. specialize (Hmax _ _ Hpi).
    rewrite (proj2 (Z.leb_le _ _)) by done. cbn.
    rewrite set_idx_inside by (rewrite Hl, length_replicate; lia). unfold f. by rewrite Hpi.
Qed.

(** One iteration of the loop over the used authorizers. *)
Lemma consume_use (st : list (Pool * bool)) c a s :
  length st = n_cores -> st !! c = Some s ->
  consume config state input (st.*1, st.*2) (MkAuth (Z.of_nat c) a) =
  Done ((<[c := use (q c) s a]> st).*1, (<[c := use (q c) s a]> st).*2).
Proof.
  intros Hlen Hs. assert (c < n_cores)%nat by (rewrite <-Hlen; by eapply lookup_lt_Some).
  unfold consume. cbn [core auth_hash].
  rewrite (at_idx_nat _ c s.1) by (by rewrite list_lookup_fmap, Hs). cbn.
  unfold use. case_decide as Ha.
  - assert (a ∈ filter (.= a) s.1) as Hf by (by apply list_elem_of_filter).
    destruct (filter (.= a) s.1) as [|b l]; [by apply not_elem_of_nil in Hf|]. cbn.
    rewrite set_idx_inside by (rewrite length_fmap; lia). cbn.
    rewrite queueing_item by done. cbn.
    rewrite set_idx_inside by (rewrite length_fmap; lia). cbn. by rewrite !list_fmap_insert.
  - assert (filter (.= a) s.1 = []) as ->.
    { apply elem_of_nil_inv. by intros b [-> ?]%list_elem_of_filter. }
    cbn. by rewrite list_insert_id.
Qed.

Lemma consume_all (as_ : list Auth) (st : list (Pool * bool)) :
  length st = n_cores -> Forall (fun a => 0 <= core a < cores_count config) as_ ->
  foldM (consume config state input) (st.*1, st.*2) as_ =
  let st' := imap (fun c s => foldl (use (q c)) s
    (auth_hash <$> filter (fun a => core a = Z.of_nat c) as_)) st in
  Done (st'.*1, st'.*2).
Proof.
  revert st. induction as_ as [|[c a] as_ IH]; intros st Hlen Hall; cbn zeta.
  - cbn. by rewrite (imap_const id), list_fmap_id.
  - apply Forall_cons in Hall as [Hc Hall]. cbn [core] in Hc. cbn [foldM].
    destruct (lookup_lt_is_Some_2 st (Z.to_nat c)) as [s Hs]; [lia|].
    rewrite <-(Z2Nat.id c) at 1 by lia. rewrite (consume_use st _ a s) by done. cbn [mbind run_bind].
    rewrite IH by (rewrite ?length_insert; done). cbn zeta. f_equal.
    match goal with |- (?l.*1, ?l.*2) = (?m.*1, ?m.*2) => enough (l = m) as -> by done end.
    apply list_eq. intros i. rewrite !list_lookup_imap, filter_cons. cbn [core].
    destruct (decide (i = Z.to_nat c)) as [->|Hi].
    + rewrite list_lookup_insert_eq, Hs, decide_True by lia. done.
    + rewrite list_lookup_insert_ne, decide_False by lia. done.
Qed.

Lemma make_room_all (st : list (Pool * bool)) :
  length st = n_cores ->
  foldM (make_room config st.*2) st.*1 (cores config) =
  Done ((fun s : Pool * bool => if negb s.2 && (Z.of_nat (length s.1) =? auth_pool_max_size config)
          then drop 1 s.1 else s.1) <$> st).
Proof.
  destruct Hwf as [Hc Hmax _ _ _ _ _]. intros Hlen. unfold cores.
  replace (cores_count config) with (Z.of_nat (length st.*1)) by (rewrite length_fmap; lia).
  erewrite (foldM_cores _ (fun i p => if negb (default true (st.*2 !! i)) &&
    (Z.of_nat (length p) =? auth_pool_max_size config) then drop 1 p else p)).
  - f_equal. apply list_eq. intros i. rewrite list_lookup_imap, !list_lookup_fmap.
    by destruct (st !! i).
  - intros l i p Hl Hp. rewrite length_fmap in Hl. assert (i < length l)%nat by by eapply lookup_lt_Some.
    destruct (lookup_lt_is_Some_2 st i) as [s Hs]; [lia|]. unfold make_room.
    rewrite (at_idx_nat _ i s.2) by (by rewrite list_lookup_fmap, Hs). cbn [mbind run_bind].
    rewrite list_lookup_fmap, Hs. cbn.
    destruct (s.2); cbn; [by rewrite list_insert_id|]. rewrite (at_idx_nat _ _ _ Hp). cbn.
    destruct (Z.eqb_spec (Z.of_nat (length p)) (auth_pool_max_size config));
      [|cbn; by rewrite list_insert_id].
    destruct p; [cbn in *; lia|]. cbn. by apply set_idx_inside.
Qed.

Lemma draw_all (pools : list Pool) :
  length pools = n_cores ->
  foldM (draw config state input) pools (cores config) =
  Done (imap (fun c p => if Z.of_nat (length p) <? auth_pool_max_size config then p ++ [q c] else p) pools).
Proof.
  destruct Hwf as [Hc _ _ _ _ _ _]. intros Hlen. unfold cores.
  replace (cores_count config) with (Z.of_nat (length pools)) by lia.
  apply foldM_cores. intros l i p Hl Hp. assert (i < length l)%nat by by eapply lookup_lt_Some.
  unfold draw. rewrite (at_idx_nat _ _ _ Hp). cbn [mbind run_bind].
  destruct (_ <? _); [|cbn; by rewrite list_insert_id].
  rewrite queueing_item by lia. cbn. by apply set_idx_inside.
Qed.

Lemma transition_pools :
  transition config state input = Done (MkState
    (imap (fun c => core_pool (auth_pool_max_size config) (q c) (used input (Z.of_nat c))) (auth_pools state))
    (auth_queues state)).
Proof.
  destruct Hwf as [Hc _ _ Hp _ _ _]. unfold transition.
  rewrite copy_pools_id. cbn [mbind run_bind].
  set (st := (fun p : Pool => (p, false)) <$> auth_pools state).
  assert (length st = n_cores) as Hst by (unfold st; rewrite length_fmap; lia).
  replace (auth_pools state, replicate n_cores false) with (st.*1, st.*2).
  2: { unfold st. rewrite <-!list_fmap_compose. f_equal; [by apply list_fmap_id|].
       cbn. rewrite (const_fmap _ _ false) by done. f_equal. lia. }
  rewrite consume_all by (try apply Hin; done). cbn zeta. cbn [mbind run_bind].
  rewrite make_room_all by (by rewrite length_imap). cbn [mbind run_bind].
  rewrite draw_all by (by rewrite length_fmap, length_imap). cbn. do 2 f_equal.
  apply list_eq. intros i. rewrite !list_lookup_imap, list_lookup_fmap, list_lookup_imap.
  unfold st. rewrite list_lookup_fmap. by destruct (auth_pools state !! i).
Qed.

End transition.

(** ** The update of one pool *)

Lemma length_filter_removed (a : AuthorizerHash) (pool : Pool) :
  a ∈ pool -> (length (filter (.≠ a) pool) < length pool)%nat.
Proof.
  induction pool as [|b pool IH]; [by intros ?%not_elem_of_nil|]. rewrite filter_cons, elem_of_cons.
  intros [->|Ha].
  - rewrite decide_False by naive_solver. cbn. pose proof (length_filter (.≠ b) pool). lia.
  - specialize (IH Ha). case_decide; cbn; lia.
Qed.

Lemma length_use q us s : (length (foldl (use q) s us).1 <= length s.1)%nat.
Proof.
  revert s. induction us as [|a us IH]; intros s; cbn; [done|].
  etrans; [apply IH|]. unfold use. case_decide as Ha; cbn; [|done].
  rewrite length_app. cbn. pose proof (length_filter_removed a s.1 Ha). lia.
Qed.

Lemma use_unused q us s : Forall (.∉ s.1) us -> foldl (use q) s us = s.
Proof.
  induction us as [|a us IH]; cbn; [done|]. intros [Ha Hus]%Forall_cons.
  unfold use at 2. rewrite decide_False by done. by apply IH.
Qed.

Lemma remove_first_filter (a : AuthorizerHash) (pool : Pool) : NoDup pool -> remove_first a pool = filter (.≠ a) pool.
Proof.
  induction 1 as [|b pool Hb Hnd IH]; [done|]. rewrite filter_cons. cbn [remove_first].
  case_decide as Hab; case_decide; try naive_solver; [|by rewrite IH].
  subst. symmetry. apply filter_all. rewrite Forall_forall. by intros c Hc ->.
Qed.

Lemma length_core_pool max q us (pool : Pool) :
  0 < max -> Z.of_nat (length pool) <= max ->
  0 < Z.of_nat (length (core_pool max q us pool)) <= max.
Proof.
  intros Hmax Hpool. unfold core_pool, refill.
  pose proof (length_use q us (pool, false)) as Hlen. cbn in Hlen.
  destruct (foldl (use q) (pool, false) us) as [p d]. cbn in *.
  destruct d; cbn; [|destruct (Z.eqb_spec (Z.of_nat (length p)) max)];
    destruct (Z.ltb_spec (Z.of_nat (length (drop 1 p))) max) as [?|?];
    destruct (Z.ltb_spec (Z.of_nat (length p)) max) as [?|?];
    rewrite ?length_app, ?length_drop in *; cbn; lia.
Qed.

Lemma core_pool_gp max q (pool : Pool) :
  0 < max -> Z.of_nat (length pool) <= max ->
  (forall us, Forall (.∉ pool) us -> core_pool max q us pool = gp_pool max q None pool)
  /\ (forall a, NoDup pool -> a ∈ pool -> Z.of_nat (length pool) = max ->
       core_pool max q [a] pool = gp_pool max q (Some a) pool).
Proof.
  intros Hmax Hpool. split.
  - intros us Hus. unfold core_pool. rewrite use_unused by done. unfold refill, gp_pool, lastn. cbn [fst snd negb].
    rewrite length_app. cbn [length andb].
    destruct (Z.eqb_spec (Z.of_nat (length pool)) max).
    + rewrite length_drop, (proj2 (Z.ltb_lt _ _)) by lia.
      rewrite drop_app_le by lia. do 2 f_equal. lia.
    + rewrite (proj2 (Z.ltb_lt _ _)) by lia.
      replace (length pool + 1 - Z.to_nat max)%nat with 0%nat by lia. done.
  - intros a Hnd Ha Hfull. unfold core_pool, gp_pool, lastn. cbn. unfold use. cbn [fst].
    rewrite decide_True, remove_first_filter by done. unfold refill. cbn [fst snd negb andb].
    assert (length pool = S (length (filter (.≠ a) pool))) as Hlen.
    { clear - Hnd Ha. rewrite <-(remove_first_filter a pool Hnd).
      induction pool as [|b pool IH]; [by apply not_elem_of_nil in Ha|]. cbn.
      apply NoDup_cons in Hnd as [_ Hnd]. apply elem_of_cons in Ha.
      case_decide; [done|]. cbn. f_equal. apply IH; naive_solver. }
    rewrite length_app. cbn [length].
    rewrite (proj2 (Z.ltb_ge _ _)) by lia.
    replace (_ + 1 - Z.to_nat max)%nat with 0%nat by lia. done.
Qed.

Lemma core_pool_twice max q (pool : Pool) a :
  NoDup pool -> a ∈ pool -> Z.of_nat (length pool) < max ->
  core_pool max q [a] pool = filter (.≠ a) pool ++ [q; q]
  /\ gp_pool max q (Some a) pool = filter (.≠ a) pool ++ [q].
Proof.
  intros Hnd Ha Hlt. pose proof (length_filter_removed a pool Ha).
  unfold core_pool, gp_pool, lastn. cbn. unfold use. cbn [fst].
  rewrite decide_True, remove_first_filter by done. unfold refill. cbn [fst snd negb andb].
  rewrite length_app. cbn [length]. split.
  - rewrite (proj2 (Z.ltb_lt _ _)) by lia. by rewrite <-(assoc_L (++)).
  - replace (_ + 1 - Z.to_nat max)%nat with 0%nat by lia. done.
Qed.

(** ** Properties *)

(** C6: on a well-formed state and input [transition] returns (no assertion
    fails, no index leaves its vector, [pop_front] never meets an empty list),
    leaves the queues alone, and gives every core the pool computed from its own
    pool, its own queue item and the authorizers used on it: the shared arrays
    and the order of the input across cores have no influence. *)
Theorem transition_per_core config state input :
  wf config state -> wf_input config input ->
  transition config state input = Done (MkState
    (imap (fun c => core_pool (auth_pool_max_size config) (queue_item config state input c)
      (used input (Z.of_nat c))) (auth_pools state))
    (auth_queues state)).
Proof. apply transition_pools. Qed.

(** [transition] maps well-formed states to well-formed states, so every pool
    stays within [auth_pool_max_size] over any number of blocks, and afterwards
    no pool is empty. *)
Theorem transition_wf config state input :
  wf config state -> wf_input config input ->
  exists state', transition config state input = Done state' /\ wf config state'
    /\ Forall (fun p : Pool => p <> []) (auth_pools state').
Proof.
  intros Hwf Hin. eexists. split; [by apply transition_pools|].
  assert (forall p, p ∈ imap (fun c => core_pool (auth_pool_max_size config)
      (queue_item config state input c) (used input (Z.of_nat c))) (auth_pools state) ->
      0 < Z.of_nat (length p) <= auth_pool_max_size config) as Hall.
  { intros p (c & pool & -> & Hc)%elem_of_lookup_imap. apply length_core_pool; [apply Hwf|].
    eapply (Forall_lookup_1 _ _ _ _ (wf_pool _ _ Hwf)); done. }
  split; [split; try apply Hwf; cbn [auth_pools auth_queues]|].
  - rewrite length_imap. apply Hwf.
  - rewrite Forall_forall. intros p Hp. apply Hall. done.
  - cbn [auth_pools]. rewrite Forall_forall. intros p Hp ->. specialize (Hall _ Hp). cbn in Hall. lia.
Qed.

(** Where the protocol rule and the code agree. On a core where no listed
    authorizer is in the pool, and on a core with a full duplicate-free pool of
    which one authorizer is used, [transition] makes the new pool the old one
    without the used authorizer, with the queued item appended, cut to the newest
    [auth_pool_max_size]. *)
Theorem transition_protocol config state input c pool :
  wf config state -> wf_input config input -> auth_pools state !! c = Some pool ->
  let max := auth_pool_max_size config in
  let q := queue_item config state input c in
  exists state' pool', transition config state input = Done state' /\ auth_pools state' !! c = Some pool'
    /\ (Forall (.∉ pool) (used input (Z.of_nat c)) -> pool' = gp_pool max q None pool)
    /\ (forall a, used input (Z.of_nat c) = [a] -> NoDup pool -> a ∈ pool -> Z.of_nat (length pool) = max ->
          pool' = gp_pool max q (Some a) pool).
Proof.
  intros Hwf Hin Hc max q. do 2 eexists. split; [by apply transition_pools|].
  split; [cbn [auth_pools]; rewrite list_lookup_imap, Hc; cbn; reflexivity|].
  destruct (core_pool_gp max q pool) as [Hnone Hone]; [apply Hwf|by apply (Forall_lookup_1 _ _ _ _ (wf_pool _ _ Hwf) Hc)|].
  split; [apply Hnone|]. intros a ->. apply Hone.
Qed.

(** Where they differ. If one authorizer of a pool that is not full is used,
    [transition] appends the same queue item twice (when the used authorizer is
    removed, and again in the loop that fills pools below the limit), although a
    block is to place one new authorization into the pool. *)
Theorem transition_draws_twice config state input c pool a :
  wf config state -> wf_input config input -> auth_pools state !! c = Some pool ->
  used input (Z.of_nat c) = [a] -> NoDup pool -> a ∈ pool ->
  Z.of_nat (length pool) < auth_pool_max_size config ->
  let q := queue_item config state input c in
  exists state', transition config state input = Done state'
    /\ auth_pools state' !! c = Some (filter (.≠ a) pool ++ [q; q])
    /\ gp_pool (auth_pool_max_size config) q (Some a) pool = filter (.≠ a) pool ++ [q].
Proof.
  intros Hwf Hin Hc Hus Hnd Ha Hlt q. eexists. split; [by apply transition_pools|].
  destruct (core_pool_twice (auth_pool_max_size config) q pool a) as [Htwice Hgp]; [done..|].
  split; [|done]. cbn [auth_pools]. rewrite list_lookup_imap, Hc. cbn. rewrite Hus. f_equal. exact Htwice.
Qed.

(** ** Witnesses *)

(** Two cores; the pool of core 0 holds two authorizers of at most three. *)
Definition sample_config : Config := MkConfig 12 5 6 3 2 3 2.
Definition sample_state : State := MkState [[[1]; [2]]; [[3]; [4]; [5]]] [[[6]; [7]]; [[8]; [9]]].
Definition sample_input : Input := MkInput 5 [MkAuth 1 [4]; MkAuth 0 [9]].

Lemma sample_wf : wf sample_config sample_state.
Proof. split; cbn; try lia; repeat constructor; cbn; lia. Qed.

Lemma sample_wf_input : wf_input sample_config sample_input.
Proof. split; cbn; [lia|]. repeat constructor; cbn; lia. Qed.

Lemma transition_per_core_witness :
  transition sample_config sample_state sample_input =
  Done (MkState [[[1]; [2]; [7]]; [[3]; [5]; [9]]] (auth_queues sample_state)).
Proof.
  rewrite (transition_per_core _ _ _ sample_wf sample_wf_input). vm_compute. reflexivity.
Defined.

Lemma transition_wf_witness :
  exists state', transition sample_config sample_state sample_input = Done state'
    /\ wf sample_config state' /\ Forall (fun p : Pool => p <> []) (auth_pools state').
Proof. exact (transition_wf _ _ _ sample_wf sample_wf_input). Defined.

Lemma transition_protocol_witness :
  exists state' pool', transition sample_config sample_state sample_input = Done state'
    /\ auth_pools state' !! 1%nat = Some pool' /\ pool' = gp_pool 3 [9] (Some [4]) [[3]; [4]; [5]].
Proof.
  destruct (transition_protocol sample_config sample_state sample_input 1 [[3]; [4]; [5]]
    sample_wf sample_wf_input eq_refl) as (state' & pool' & Hrun & Hpool & _ & Hone).
  exists state', pool'. split; [exact Hrun|]. split; [exact Hpool|].
  apply (Hone [4]); [reflexivity| | |reflexivity]; apply (bool_decide_unpack _); vm_compute; exact I.
Defined.

Lemma transition_draws_twice_witness :
  exists state', transition sample_config sample_state (MkInput 5 [MkAuth 0 [1]]) = Done state'
    /\ auth_pools state' !! 0%nat = Some [[2]; [7]; [7]]
    /\ gp_pool 3 [7] (Some [1]) [[1]; [2]] = [[2]; [7]].
Proof.
  refine (transition_draws_twice sample_config sample_state (MkInput 5 [MkAuth 0 [1]]) 0 [[1]; [2]] [1]
    sample_wf _ _ _ _ _ _); [|reflexivity|reflexivity| | |reflexivity].
  - split; cbn; [lia|]. repeat constructor; cbn; lia.
  - apply (bool_decide_unpack _). vm_compute. exact I.
  - apply (bool_decide_unpack _). vm_compute. exact I.
Defined.

End Authorizations.
