(* ===== verification/Crypto.v ===== *)
(** * Crypto: the wrappers over the foreign cryptography

    [src/src/crypto/blake.hpp], [ed25519.hpp], [bandersnatch.hpp].  The C and
    Rust libraries behind them are type classes of functions; the wrappers (the
    checks on sizes and result codes, the copy that makes [hash() const]
    repeatable) are translated. *)

From S2P Require Import Prelude Common.

(** ** Blake2b *)

(** [blake2.h] *)
Class Blake2b : Type := {
  blake2b_state : Type;
  blake2b_init : Z -> blake2b_state;
  blake2b_update : blake2b_state -> Bytes -> blake2b_state;
  blake2b_final : blake2b_state -> Z -> Bytes
}.

(** The digest is a byte string of the requested length. *)
Class Blake2bOk `(B : Blake2b) : Prop := {
  blake2b_final_length s n : 0 <= n -> Z.of_nat (length (blake2b_final s n)) = n;
  blake2b_final_bytes s n : Forall is_byte (blake2b_final s n)
}.

Module Blake.
Section with_blake.
Context `{B : Blake2b}.

Definition sizeof_Hash : Z := 32.

Record t : Type := MkBlake { state : blake2b_state }.

Definition init : t := MkBlake (blake2b_init sizeof_Hash).

Definition update (b : t) (input : Bytes) : t := MkBlake (blake2b_update (state b) input).

(** [hash() const] finalises a copy of the state. *)
Definition finalize (b : t) : Bytes := blake2b_final (state b) sizeof_Hash.

Definition hash (input : Bytes) : Bytes := finalize (update init input).

End with_blake.
End Blake.

(** [mathcal_H] of [src/test-vectors/common.hpp]. *)
Definition mathcal_H `{Blake2b} (m : Bytes) : Bytes := Blake.hash m.

(** ** Ed25519 *)

(** [schnorrkel.h]: a result code, and for [sign] the signature buffer. *)
Class Ed25519 : Type := {
  ED25519_RESULT_OK : Z;
  ffi_ed25519_sign : Bytes -> Bytes -> Z * Bytes;
  ffi_ed25519_verify : Bytes -> Bytes -> Bytes -> Z
}.

Module Ed25519.
Section with_ed25519.
Context `{F : Ed25519}.

Definition sign (keypair message : Bytes) : option Bytes :=
  let '(res, sig) := ffi_ed25519_sign keypair message in
  if negb (res =? ED25519_RESULT_OK) then None else Some sig.

Definition verify (signature message public_key : Bytes) : bool :=
  ffi_ed25519_verify signature public_key message =? ED25519_RESULT_OK.

End with_ed25519.
End Ed25519.

(** ** Bandersnatch ring VRF *)

(** [ark_vrf.h]: the fallible calls return a flag and fill an output buffer. *)
Class ArkVrf : Type := {
  JamBandersnatchRing : Type;
  JamBandersnatchRingVerifier : Type;
  jam_bandersnatch_output : Bytes -> bool * Bytes;
  jam_bandersnatch_ring_new : Z -> JamBandersnatchRing;
  jam_bandersnatch_ring_commitment : JamBandersnatchRing -> list Bytes -> Bytes;
  jam_bandersnatch_ring_verifier_new : JamBandersnatchRing -> Bytes -> JamBandersnatchRingVerifier;
  jam_bandersnatch_ring_verifier_verify : JamBandersnatchRingVerifier -> Bytes -> Bytes -> bool * Bytes
}.

Module Bandersnatch.
Section with_ark.
Context `{V : ArkVrf}.

Definition output (signature : Bytes) : option Bytes :=
  let '(ok, output) := jam_bandersnatch_output signature in
  if negb ok then None else Some output.

Record Ring : Type := MkRing { count : Z; ffi : JamBandersnatchRing }.

Definition ring_new (count : Z) : Ring := MkRing count (jam_bandersnatch_ring_new count).

(** [pks[0]] of an empty span is undefined. *)
Definition commitment {E} (r : Ring) (pks : list Bytes) : run E (option Bytes) :=
  if negb (Z.of_nat (length pks) =? count r) then mret None
  else
    require (negb (length pks =? 0)%nat);;
    mret (Some (jam_bandersnatch_ring_commitment (ffi r) pks)).

Record RingVerifier : Type := MkRingVerifier { verifier_ffi : JamBandersnatchRingVerifier }.

Definition verifier (r : Ring) (commitment : Bytes) : RingVerifier :=
  MkRingVerifier (jam_bandersnatch_ring_verifier_new (ffi r) commitment).

Definition verify (v : RingVerifier) (input signature : Bytes) : option Bytes :=
  let '(ok, output) := jam_bandersnatch_ring_verifier_verify (verifier_ffi v) input signature in
  if negb ok then None else Some output.

End with_ark.
End Bandersnatch.

(** ** Facts the components use *)

Section blake_lemmas.
Context `{HB : Blake2bOk}.

Lemma length_mathcal_H m : length (mathcal_H m) = 32%nat.
Proof.
  unfold mathcal_H, Blake.hash, Blake.finalize, Blake.sizeof_Hash.
  match goal with |- context [blake2b_final ?s _] => pose proof (blake2b_final_length s 32) end. lia.
Qed.

Lemma mathcal_H_bytes m : Forall is_byte (mathcal_H m).
Proof. apply blake2b_final_bytes. Qed.

End blake_lemmas.
