(* ===== verification/Disputes.v ===== *)
(** * Disputes: verdicts, culprits and faults

    [src/test-vectors/disputes/disputes.hpp].  The checks over the three lists of
    the extrinsic, the count of votes, the classification of each verdict and
    the update of the four sets and of the pending reports, phase by phase in
    the order of the code. *)

From S2P Require Import Prelude Containers Common Crypto JamTypes.

(** Iteration over a [std::unordered_map] or [std::unordered_multimap] visits
    every entry once, in an order the standard library does not specify. *)
Class HashOrder : Type := hash_order : forall V : Type, list (Bytes * V) -> list (Bytes * V).

Class HashOrderOk (O : HashOrder) : Prop :=
  hash_order_perm : forall V (l : list (Bytes * V)), hash_order V l ≡ₚ l.

Module Disputes.

Abbreviation WorkReportHash := Bytes.
Abbreviation Ed25519Public := Bytes.

Section types.
Context `{VT : ValidatorTypes} {Report : Type}.

Record Judgement : Type := MkJudgement { vote : bool; index : Z; judgement_signature : Bytes }.

Record Verdict : Type := MkVerdict { target : WorkReportHash; age : Z; votes : list Judgement }.

Record Culprit : Type := MkCulprit {
  culprit_target : WorkReportHash; culprit_key : Ed25519Public; culprit_signature : Bytes }.

Record Fault : Type := MkFault {
  fault_target : WorkReportHash; fault_vote : bool; fault_key : Ed25519Public; fault_signature : Bytes }.

(** [DisputesExtrinsic] *)
Record Extrinsic : Type := MkExtrinsic {
  verdicts : list Verdict; culprits : list Culprit; faults : list Fault }.

(** [DisputesRecords] *)
Record Records : Type := MkRecords {
  good : list WorkReportHash;
  bad : list WorkReportHash;
  wonky : list WorkReportHash;
  offenders : list Ed25519Public
}.

(** An entry of [rho]: a report pending on its core, and since when. *)
Record Assignment : Type := MkAssignment { report : Report; timeout : Z }.

Record State : Type := MkState {
  psi : Records;
  rho : list (option Assignment);
  tau : Z;
  kappa : list ValidatorData;
  lambda : list ValidatorData
}.

Inductive Error : Type :=
| already_judged
| bad_vote_split
| verdicts_not_sorted_unique
| judgements_not_sorted_unique
| culprits_not_sorted_unique
| faults_not_sorted_unique
| not_enough_culprits
| not_enough_faults
| culprits_verdict_not_bad
| fault_verdict_wrong
| offender_already_reported
| bad_judgement_age
| bad_validator_index
| bad_signature.

#[export] Instance Error_eq_dec : EqDecision Error.
Proof. solve_decision. Defined.

#[export] Instance Judgement_eq_dec : EqDecision Judgement.
Proof. solve_decision. Defined.

#[export] Instance Verdict_eq_dec : EqDecision Verdict.
Proof. solve_decision. Defined.

(** [types::disputes::Output]: an error code or the offenders mark. *)
Inductive Output : Type :=
| OutputErr (e : Error)
| OutputOk (offenders_mark : list Ed25519Public).

End types.

Section operations.
Context `{VT : ValidatorTypes, F : Ed25519, B : Blake2b, O : HashOrder}.
Context {Report : Type} `{EncodeWithConfig Report}.

(** The ASCII codes of ["jam_valid"], ["jam_invalid"] and ["jam_guarantee"]. *)
Definition kJamValid : Bytes := [106; 97; 109; 95; 118; 97; 108; 105; 100].
Definition kJamInvalid : Bytes := [106; 97; 109; 95; 105; 110; 118; 97; 108; 105; 100].
Definition kJamGuarantee : Bytes := [106; 97; 109; 95; 103; 117; 97; 114; 97; 110; 116; 101; 101].

Definition ed25519_verify (sig pub X work_report : Bytes) : bool :=
  let payload := X ++ work_report in
  Ed25519.verify sig payload pub.

(** [vote ? kJamValid : kJamInvalid] *)
Definition vote_context (vote : bool) : Bytes := if vote then kJamValid else kJamInvalid.

(** [ranges::contains] over a sequence of byte arrays. *)
Definition contains (s : list Bytes) (x : Bytes) : bool := bool_decide (x ∈ s).

(** The membership of [validator_key] in the current validator set. *)
Definition is_validator (set : list ValidatorData) (key : Ed25519Public) : bool :=
  existsb (fun val => bool_decide (ed25519_of val = key)) set.

Abbreviation step := (run Error).

(** *** Check verdicts *)

(** The body of the loop over [judgements], on [prev_validator_index]. *)
Definition check_judgement (work_report : WorkReportHash) (validators_set : list ValidatorData)
    (prev_validator_index : option Z) (j : Judgement) : step (option Z) :=
  fail_if (opt_ge Z.lt prev_validator_index (index j)) judgements_not_sorted_unique;;
  fail_if (Z.of_nat (length validators_set) <=? index j) bad_validator_index;;
  validator ← at_idx validators_set (index j);
  fail_if (negb (ed25519_verify (judgement_signature j) (ed25519_of validator)
    (vote_context (vote j)) work_report)) bad_signature;;
  mret (Some (index j)).

(** [prev_work_report], [verdicts_registry], [judgements_registry] *)
Definition VerdictLoop : Type :=
  option WorkReportHash * list Verdict * list (WorkReportHash * Judgement).

Definition check_verdict (config : Config) (state : State (Report := Report))
    (current_epoch previous_epoch : Z) (s : VerdictLoop) (verdict : Verdict) : step VerdictLoop :=
  let '(prev_work_report, verdicts_registry, judgements_registry) := s in
  let work_report := target verdict in
  let epoch := age verdict in
  fail_if (negb (epoch =? current_epoch) && negb (epoch =? previous_epoch)) bad_judgement_age;;
  fail_if (opt_ge bytes_lt prev_work_report work_report) verdicts_not_sorted_unique;;
  fail_if (Z.of_nat (length (votes verdict)) <? validators_super_majority config) not_enough_culprits;;
  let validators_set := if epoch =? current_epoch then kappa state else lambda state in
  foldM (check_judgement work_report validators_set) None (votes verdict);;
  let in_good := contains (good (psi state)) work_report in
  let in_bad := contains (bad (psi state)) work_report in
  let in_wonky := contains (wonky (psi state)) work_report in
  if negb in_bad && negb in_good && negb in_wonky then
    mret (Some work_report, verdicts_registry ++ [verdict],
      judgements_registry ++ (pair work_report <$> votes verdict))
  else mret (Some work_report, verdicts_registry, judgements_registry).

(** *** Check culprits *)

(** [prev_validator_key], [culprits_registry] *)
Definition CulpritLoop : Type := option Ed25519Public * list (WorkReportHash * Culprit).

Definition check_culprit (state : State (Report := Report)) (s : CulpritLoop) (culprit : Culprit) : step CulpritLoop :=
  let '(prev_validator_key, culprits_registry) := s in
  let work_report := culprit_target culprit in
  let validator_key := culprit_key culprit in
  fail_if (negb (ed25519_verify (culprit_signature culprit) validator_key kJamGuarantee work_report))
    bad_signature;;
  fail_if (contains (bad (psi state)) work_report) already_judged;;
  fail_if (negb (is_validator (kappa state) validator_key)) bad_validator_index;;
  fail_if (opt_ge bytes_lt prev_validator_key validator_key) culprits_not_sorted_unique;;
  fail_if (contains (offenders (psi state)) validator_key) offender_already_reported;;
  mret (Some validator_key, mm_emplace bytes_lt work_report culprit culprits_registry).

(** *** Check faults *)

Definition FaultLoop : Type := option Ed25519Public * list (WorkReportHash * Fault).

Definition check_fault (state : State (Report := Report)) (s : FaultLoop) (fault : Fault) : step FaultLoop :=
  let '(prev_validator_key, faults_registry) := s in
  let work_report := fault_target fault in
  let vote := fault_vote fault in
  let validator_key := fault_key fault in
  fail_if (contains (wonky (psi state)) work_report) already_judged;;
  let in_good := contains (good (psi state)) work_report in
  let in_bad := contains (bad (psi state)) work_report in
  fail_if ((negb vote && in_bad) || (vote && in_good)) fault_verdict_wrong;;
  fail_if (negb (is_validator (kappa state) validator_key)) bad_validator_index;;
  fail_if (negb (ed25519_verify (fault_signature fault) validator_key (vote_context vote) work_report))
    bad_signature;;
  fail_if (opt_ge bytes_lt prev_validator_key validator_key) faults_not_sorted_unique;;
  fail_if (contains (offenders (psi state)) validator_key) offender_already_reported;;
  mret (Some validator_key, mm_emplace bytes_lt work_report fault faults_registry).

(** *** Count votes *)

(** [vote_count_by_judgements]: 16-bit counts for and against per report. *)
Abbreviation VoteCount := (gmap WorkReportHash (Z * Z)).

Definition count_vote (m : VoteCount) (p : WorkReportHash * Judgement) : VoteCount :=
  let '(voted_for, voted_against) := default (0, 0) (m !! p.1) in
  <[p.1 := if vote p.2 then (u16 (voted_for + 1), voted_against) else (voted_for, u16 (voted_against + 1))]> m.

Definition count_votes (judgements_registry : list (WorkReportHash * Judgement)) : VoteCount :=
  foldl count_vote ∅ (hash_order _ judgements_registry).

(** The second look at the culprits: their report has a verdict, with at least
    one vote against. *)
Definition recheck_culprit (counts : VoteCount) (_ : unit) (work_report : WorkReportHash) : step unit :=
  match counts !! work_report with
  | None => Fail culprits_verdict_not_bad
  | Some (_, voted_against) => fail_if (voted_against =? 0) culprits_verdict_not_bad
  end.

(** *** Analyse verdicts *)

Inductive Judged : Type := Bad | Good | Wonky.

#[global] Instance Judged_eq_dec : EqDecision Judged.
Proof. solve_decision. Defined.

Definition judge (config : Config) (counts : Z * Z) : step Judged :=
  let '(voted_for, voted_against) := counts in
  if voted_against =? validators_super_majority config then mret Bad
  else if voted_for =? validators_super_majority config then mret Good
  else if (voted_for =? validators_super_majority config / 2) && negb (voted_against =? 0) then mret Wonky
  else Fail bad_vote_split.

(** The loop over [vote_count_by_judgements], on [new_wonky_set]. *)
Definition analyse_verdict (config : Config)
    (culprits_registry : list (WorkReportHash * Culprit)) (faults_registry : list (WorkReportHash * Fault))
    (new_wonky_set : list WorkReportHash) (p : WorkReportHash * (Z * Z)) : step (list WorkReportHash) :=
  let '(work_report, counts) := p in
  verdict ← judge config counts;
  match verdict with
  | Bad =>
      fail_if (mm_count bytes_lt work_report culprits_registry <? 2) not_enough_culprits;;
      mret new_wonky_set
  | Good =>
      fail_if (negb (mm_count bytes_lt work_report culprits_registry =? 0)) culprits_verdict_not_bad;;
      fail_if (mm_count bytes_lt work_report faults_registry <? 1) not_enough_faults;;
      mret new_wonky_set
  | Wonky => mret (set_emplace bytes_lt work_report new_wonky_set)
  end.

(** *** Analyse culprits and faults *)

(** [offenders_mark], [new_punish_set] and the set the report joins *)
Definition OffenderLoop : Type := list Ed25519Public * list Ed25519Public * list WorkReportHash.

Definition analyse_culprits (s : OffenderLoop) (g : WorkReportHash * list Culprit) : OffenderLoop :=
  let '(offenders_mark, new_punish_set, new_bad_set) := s in
  let '(offenders_mark, new_punish_set) := foldl (fun '(mark, punish) culprit =>
      (mark ++ [culprit_key culprit], set_emplace bytes_lt (culprit_key culprit) punish))
    (offenders_mark, new_punish_set) (snd g) in
  (offenders_mark, new_punish_set, set_emplace bytes_lt (fst g) new_bad_set).

Definition analyse_faults (s : OffenderLoop) (g : WorkReportHash * list Fault) : step OffenderLoop :=
  let '(offenders_mark, new_punish_set, new_good_set) := s in
  '(offenders_mark, new_punish_set) ← foldM (fun '(mark, punish) fault =>
      fail_if (fault_vote fault) fault_verdict_wrong;;
      mret (mark ++ [fault_key fault], set_emplace bytes_lt (fault_key fault) punish))
    (offenders_mark, new_punish_set) (snd g);
  mret (offenders_mark, new_punish_set, set_emplace bytes_lt (fst g) new_good_set).

(** *** Clear reports *)

Definition clear_report (config : Config) (new_bad_set new_wonky_set : list WorkReportHash)
    (row : option (Assignment (Report := Report))) : step (option Assignment) :=
  match row with
  | None => mret None
  | Some a =>
      encoded ← value (encode_with_config (report a) config) "bad expected access";
      let work_report := mathcal_H encoded in
      if set_contains bytes_lt work_report new_bad_set || set_contains bytes_lt work_report new_wonky_set
      then mret None else mret row
  end.

Definition clear_reports (config : Config) (new_bad_set new_wonky_set : list WorkReportHash)
    (rho : list (option (Assignment (Report := Report)))) : step (list (option Assignment)) :=
  foldM (fun rows row => row ← clear_report config new_bad_set new_wonky_set row; mret (rows ++ [row])) [] rho.

(** *** The transition *)

(** The checks of the extrinsic: the registries they leave behind. *)
Definition check_extrinsic (config : Config) (state : State (Report := Report)) (ext : Extrinsic) :
    step (list (WorkReportHash * Judgement) * list (WorkReportHash * Culprit) * list (WorkReportHash * Fault)) :=
  require (negb (epoch_length config =? 0));;
  let current_epoch := tau state / epoch_length config in
  let previous_epoch := if current_epoch =? 0 then 0 else current_epoch - 1 in
  '(_, _, judgements_registry) ←
    foldM (check_verdict config state current_epoch previous_epoch) (None, [], []) (verdicts ext);
  '(_, culprits_registry) ← foldM (check_culprit state) (None, []) (culprits ext);
  '(_, faults_registry) ← foldM (check_fault state) (None, []) (faults ext);
  mret (judgements_registry, culprits_registry, faults_registry).

(** [state_tick]: the new records and reports, the rest of the state as it was. *)
Definition state_tick (state : State (Report := Report)) (good_ bad_ wonky_ : list WorkReportHash) (punish : list Ed25519Public)
    (work_reports : list (option (Assignment (Report := Report)))) :
    State (Report := Report) :=
  MkState (MkRecords good_ bad_ wonky_ punish) work_reports (tau state) (kappa state) (lambda state).

Definition transition_run (config : Config) (state : State (Report := Report)) (ext : Extrinsic) :
    step (State (Report := Report) * list Ed25519Public) :=
  '(judgements_registry, culprits_registry, faults_registry) ← check_extrinsic config state ext;
  let counts := count_votes judgements_registry in
  foldM (recheck_culprit counts) tt (culprits_registry.*1);;
  let new_good_set := as_set bytes_lt (good (psi state)) in
  let new_bad_set := as_set bytes_lt (bad (psi state)) in
  let new_wonky_set := as_set bytes_lt (wonky (psi state)) in
  let new_punish_set := as_set bytes_lt (offenders (psi state)) in
  new_wonky_set ← foldM (analyse_verdict config culprits_registry faults_registry) new_wonky_set
    (hash_order _ (map_to_list counts));
  let '(offenders_mark, new_punish_set, new_bad_set) :=
    foldl analyse_culprits ([], new_punish_set, new_bad_set) (MultimapGroups bytes_lt culprits_registry) in
  '(offenders_mark, new_punish_set, new_good_set) ←
    foldM analyse_faults (offenders_mark, new_punish_set, new_good_set) (MultimapGroups bytes_lt faults_registry);
  work_reports ← clear_reports config new_bad_set new_wonky_set (rho state);
  mret (state_tick state new_good_set new_bad_set new_wonky_set new_punish_set work_reports, offenders_mark).

(** [error(e)] returns the unchanged state with the error code. *)
Definition transition (config : Config) (state : State (Report := Report)) (ext : Extrinsic) :
    run Empty_set (State (Report := Report) * Output) :=
  match transition_run config state ext with
  | Done (state_tick, offenders_mark) => Done (state_tick, OutputOk offenders_mark)
  | Fail e => Done (state, OutputErr e)
  | Raise w => Raise w
  | Undef => Undef
  end.

End operations.
End Disputes.
