(* ===== verification/DisputesSpec.v ===== *)
(** * DisputesSpec: what the disputes transition accepts and computes

    A declarative account of [src/test-vectors/disputes/disputes.hpp]: which
    extrinsics are accepted, and the state and mark an accepted extrinsic leads
    to, neither of which mentions the loops, the registries or the iteration
    order of the hash tables.  The theorems relate it to [Disputes.transition]. *)

From S2P Require Import Prelude Containers Common Crypto JamTypes Disputes.

Module DisputesSpec.
Import Disputes.

Section spec.
Context `{VT : ValidatorTypes, F : Ed25519, B : Blake2b}.
Context {Report : Type} `{EW : EncodeWithConfig Report}.

Abbreviation DState := (State (Report := Report)).

Section defs.
Context (config : Config) (state : DState) (ext : Extrinsic).

Definition current_epoch : Z := tau state / epoch_length config.
Definition previous_epoch : Z := if current_epoch =? 0 then 0 else current_epoch - 1.

(** The validators who may judge in a verdict of age [e]. *)
Definition judges (e : Z) : list ValidatorData := if e =? current_epoch then kappa state else lambda state.

Definition judgement_ok (wr : WorkReportHash) (set : list ValidatorData) (j : Judgement) : Prop :=
  0 <= index j /\ exists v, set !! Z.to_nat (index j) = Some v
    /\ ed25519_verify (judgement_signature j) (ed25519_of v) (vote_context (vote j)) wr = true.

Definition verdict_ok (v : Verdict) : Prop :=
  (age v = current_epoch \/ age v = previous_epoch)
  /\ validators_super_majority config <= Z.of_nat (length (votes v))
  /\ StronglySorted (fun a b => index a < index b) (votes v)
  /\ Forall (judgement_ok (target v) (judges (age v))) (votes v).

Definition active (key : Ed25519Public) : Prop := key ∈ ed25519_of <$> kappa state.

Definition culprit_ok (c : Culprit) : Prop :=
  ed25519_verify (culprit_signature c) (culprit_key c) kJamGuarantee (culprit_target c) = true
  /\ culprit_target c ∉ bad (psi state)
  /\ active (culprit_key c)
  /\ culprit_key c ∉ offenders (psi state).

Definition fault_ok (f : Fault) : Prop :=
  fault_target f ∉ wonky (psi state)
  /\ ¬ (fault_vote f = false /\ fault_target f ∈ bad (psi state))
  /\ ¬ (fault_vote f = true /\ fault_target f ∈ good (psi state))
  /\ active (fault_key f)
  /\ ed25519_verify (fault_signature f) (fault_key f) (vote_context (fault_vote f)) (fault_target f) = true
  /\ fault_key f ∉ offenders (psi state).

(** The three lists of the extrinsic, each on its own. *)
Record lists_ok : Prop := {
  ok_epoch : epoch_length config <> 0;
  ok_verdicts : Forall verdict_ok (verdicts ext);
  ok_verdicts_sorted : StronglySorted (fun a b => bytes_lt (target a) (target b)) (verdicts ext);
  ok_culprits : Forall culprit_ok (culprits ext);
  ok_culprits_sorted : StronglySorted (fun a b => bytes_lt (culprit_key a) (culprit_key b)) (culprits ext);
  ok_faults : Forall fault_ok (faults ext);
  ok_faults_sorted : StronglySorted (fun a b => bytes_lt (fault_key a) (fault_key b)) (faults ext)
}.

(** A verdict counts unless its report was judged before. *)
Definition fresh (v : Verdict) : Prop :=
  target v ∉ bad (psi state) /\ target v ∉ good (psi state) /\ target v ∉ wonky (psi state).

#[global] Instance fresh_dec v : Decision (fresh v).
Proof. apply _. Defined.

Definition fresh_verdicts : list Verdict := filter fresh (verdicts ext).

(** Votes for and against, in the 16-bit counters of the code. *)
Definition tally (js : list Judgement) : Z * Z :=
  (u16 (Z.of_nat (length (filter (fun j => vote j = true) js))),
   u16 (Z.of_nat (length (filter (fun j => vote j = false) js)))).

Definition culprits_for (wr : WorkReportHash) : list Culprit := filter (fun c => culprit_target c = wr) (culprits ext).
Definition faults_for (wr : WorkReportHash) : list Fault := filter (fun f => fault_target f = wr) (faults ext).

(** What a verdict requires of the other two lists. *)
Definition supported (v : Verdict) : Prop :=
  match judge config (tally (votes v)) with
  | Done Bad => (2 <= length (culprits_for (target v)))%nat
  | Done Good => culprits_for (target v) = [] /\ faults_for (target v) <> []
  | Done Wonky => True
  | _ => False
  end.

Record accepted : Prop := {
  acc_lists : lists_ok;
  acc_culprits : Forall (fun c => exists v, v ∈ fresh_verdicts /\ target v = culprit_target c
    /\ (tally (votes v)).2 <> 0) (culprits ext);
  acc_verdicts : Forall (fun v => votes v <> [] -> supported v) fresh_verdicts;
  acc_faults : Forall (fun f => fault_vote f = false) (faults ext);
  acc_rho : Forall (fun r => forall a, r = Some a -> is_Some (encode_with_config (report a) config)) (rho state)
}.

Definition wonky_verdicts : list Verdict :=
  filter (fun v => votes v <> [] /\ judge config (tally (votes v)) = Done Wonky) fresh_verdicts.

Definition new_records : Records := MkRecords
  (as_set bytes_lt (good (psi state) ++ (fault_target <$> faults ext)))
  (as_set bytes_lt (bad (psi state) ++ (culprit_target <$> culprits ext)))
  (as_set bytes_lt (wonky (psi state) ++ (target <$> wonky_verdicts)))
  (as_set bytes_lt (offenders (psi state) ++ (culprit_key <$> culprits ext) ++ (fault_key <$> faults ext))).

(** The hash a pending report is known by. *)
Definition report_hash (a : Assignment (Report := Report)) : WorkReportHash :=
  mathcal_H (default [] (encode_with_config (report a) config)).

Definition new_rho : list (option (Assignment (Report := Report))) :=
  (fun row => a ← row;
     if decide (report_hash a ∈ bad new_records \/ report_hash a ∈ wonky new_records) then None else Some a)
  <$> rho state.

Definition new_state : DState := MkState new_records new_rho (tau state) (kappa state) (lambda state).

(** The offenders mark: culprits, then faults, each ordered by report and within
    a report as submitted. *)
Definition registry {X} (t : X -> WorkReportHash) (l : list X) : list (WorkReportHash * X) :=
  foldl (fun m x => mm_emplace bytes_lt (t x) x m) [] l.

Definition mark : list Ed25519Public :=
  (culprit_key <$> (registry culprit_target (culprits ext)).*2)
  ++ (fault_key <$> (registry fault_target (faults ext)).*2).

End defs.

(** ** The checks of the extrinsic *)

Section checks.
Context (config : Config) (state : DState).

Lemma contains_false s x : contains s x = false <-> x ∉ s.
Proof. apply bool_decide_eq_false. Qed.

Lemma contains_true s x : contains s x = true <-> x ∈ s.
Proof. apply bool_decide_eq_true. Qed.

Lemma is_validator_active key : is_validator (kappa state) key = true <-> active state key.
Proof.
  unfold is_validator, active. rewrite existsb_exists, list_elem_of_fmap. split.
  - intros (v & Hv & Hk%bool_decide_eq_true). exists v. split; [done|]. by apply list_elem_of_In.
  - intros (v & -> & Hv). exists v. split; [by apply list_elem_of_In|]. by apply bool_decide_eq_true.
Qed.

Lemma check_judgement_Done wr set prev j s :
  check_judgement wr set prev j = Done s <->
  judgement_ok wr set j /\ (forall p, prev = Some p -> p < index j) /\ s = Some (index j).
Proof.
  unfold check_judgement, judgement_ok. split.
  - intros Hrun. run_inv. rewrite opt_ge_false in *. rewrite negb_false_iff in *. split_and!; [done| |done|done].
    by eexists.
  - intros ([Hi (v & Hv & Hsig)] & Hprev & ->). rewrite (proj2 (opt_ge_false _ _ _)) by done.
    pose proof (lookup_lt_Some _ _ _ Hv). rewrite (proj2 (Z.leb_gt _ _)) by lia. cbn.
    rewrite (proj2 (at_idx_Done _ _ _)) by done. cbn. by rewrite Hsig.
Qed.

Lemma check_judgements wr set js s :
  foldM (check_judgement wr set) None js = Done s <->
  Forall (judgement_ok wr set) js /\ StronglySorted (fun a b => index a < index b) js
  /\ s = foldl (fun _ j => Some (index j)) None js.
Proof. by apply (foldM_chain Z.lt index id); [|apply check_judgement_Done|]. Qed.

Definition verdict_next (s : VerdictLoop) (v : Verdict) : VerdictLoop :=
  let '(_, vr, jr) := s in
  if decide (fresh state v) then (Some (target v), vr ++ [v], jr ++ (pair (target v) <$> votes v))
  else (Some (target v), vr, jr).

Lemma check_verdict_Done s v s' :
  check_verdict config state (current_epoch config state) (previous_epoch config state) s v = Done s' <->
  verdict_ok config state v /\ (forall p, s.1.1 = Some p -> bytes_lt p (target v)) /\ s' = verdict_next s v.
Proof.
  destruct s as [[prev vr] jr]. unfold check_verdict, verdict_ok. cbn [fst].
  assert (negb (contains (bad (psi state)) (target v)) && negb (contains (good (psi state)) (target v))
    && negb (contains (wonky (psi state)) (target v)) = bool_decide (fresh state v)) as ->.
  { apply eq_true_iff_eq. rewrite bool_decide_eq_true, !andb_true_iff, !negb_true_iff, !contains_false.
    unfold fresh. tauto. }
  unfold verdict_next.
  assert (forall X (a b : X), (if bool_decide (fresh state v) then a else b) = if decide (fresh state v) then a else b)
    as Hif by (intros X a b; case_bool_decide; [by rewrite decide_True|by rewrite decide_False]). rewrite (Hif (run Error VerdictLoop)).
  split.
  - intros Hrun. run_inv. rewrite opt_ge_false in *. rewrite Z.ltb_ge, andb_false_iff, !negb_false_iff, !Z.eqb_eq in *.
    match goal with H : foldM _ _ _ = _ |- _ => apply check_judgements in H as (? & ? & _) end.
    split_and!; try done. case_decide; run_inv; done.
  - intros ((Hage & Hmaj & Hsort & Hall) & Hprev & ->).
    rewrite (proj2 (opt_ge_false _ _ _)), (proj2 (Z.ltb_ge _ _)) by done.
    replace (_ && _) with false by (symmetry; apply andb_false_iff; rewrite !negb_false_iff, !Z.eqb_eq; done).
    cbn. unfold judges in Hall. rewrite (proj2 (check_judgements _ _ _ _)) by done. cbn. by case_decide.
Qed.

Definition offender_next {X} (k t : X -> Bytes) (s : option Bytes * list (Bytes * X)) (x : X) :
    option Bytes * list (Bytes * X) :=
  (Some (k x), mm_emplace bytes_lt (t x) x s.2).

Lemma check_culprit_Done s c s' :
  check_culprit state s c = Done s' <->
  culprit_ok state c /\ (forall p, s.1 = Some p -> bytes_lt p (culprit_key c))
  /\ s' = offender_next culprit_key culprit_target s c.
Proof.
  destruct s as [prev reg]. unfold check_culprit, culprit_ok. cbn [fst snd]. split.
  - intros Hrun. run_inv. rewrite opt_ge_false in *. rewrite contains_false, negb_false_iff in *.
    rewrite <-is_validator_active. done.
  - rewrite <-is_validator_active. intros ((-> & Hbad%contains_false & -> & Hoff%contains_false) & Hprev & ->).
    by rewrite Hbad, Hoff, (proj2 (opt_ge_false _ _ _)).
Qed.

Lemma check_fault_Done s f s' :
  check_fault state s f = Done s' <->
  fault_ok state f /\ (forall p, s.1 = Some p -> bytes_lt p (fault_key f))
  /\ s' = offender_next fault_key fault_target s f.
Proof.
  destruct s as [prev reg]. unfold check_fault, fault_ok. cbn [fst snd].
  rewrite <-is_validator_active, <-!contains_false, <-!contains_true.
  generalize (contains (wonky (psi state)) (fault_target f)), (contains (bad (psi state)) (fault_target f)),
    (contains (good (psi state)) (fault_target f)), (contains (offenders (psi state)) (fault_key f)).
  intros w b g o. split.
  - intros Hrun. run_inv. rewrite opt_ge_false in *. rewrite negb_false_iff in *.
    destruct (fault_vote f), b, g; cbn in *; split_and!; naive_solver.
  - intros ((-> & Hb & Hg & -> & -> & ->) & Hprev & ->).
    rewrite (proj2 (opt_ge_false _ _ _)) by done. destruct (fault_vote f), b, g; cbn; naive_solver.
Qed.

Definition verdict_judgements (v : Verdict) : list (WorkReportHash * Judgement) := pair (target v) <$> votes v.

Lemma foldl_verdict_next s l :
  (foldl verdict_next s l).2 = s.2 ++ (filter (fresh state) l ≫= verdict_judgements).
Proof.
  revert s. induction l as [|v l IH]; intros s; [by rewrite app_nil_r|].
  rewrite filter_cons. cbn [foldl]. rewrite IH. unfold verdict_next.
  destruct s as [[prev vr] jr]. case_decide; cbn; [|done]. by rewrite <-(assoc_L (++)).
Qed.

Lemma foldl_registry {X} (k t : X -> Bytes) s (l : list X) :
  (foldl (offender_next k t) s l).2
  = foldl (fun m x => mm_emplace bytes_lt (t x) x m) s.2 l.
Proof. revert s. induction l as [|x l IH]; intros s; cbn; [done|]. by rewrite IH. Qed.

Lemma check_extrinsic_Done ext r :
  check_extrinsic config state ext = Done r <->
  lists_ok config state ext
  /\ r = (fresh_verdicts state ext ≫= verdict_judgements,
          registry culprit_target (culprits ext), registry fault_target (faults ext)).
Proof.
  assert (forall t, foldM (check_verdict config state (current_epoch config state) (previous_epoch config state))
      (None, [], []) (verdicts ext) = Done t <-> _) as Hv
    by (intros t; apply (foldM_chain bytes_lt target (fun s : VerdictLoop => s.1.1) (verdict_ok config state) verdict_next);
      [intros [[??]?] ?; unfold verdict_next; by case_decide|apply check_verdict_Done|done]).
  assert (forall t, foldM (check_culprit state) (None, []) (culprits ext) = Done t <-> _) as Hc
    by (intros t; apply (foldM_chain bytes_lt culprit_key (fun s : CulpritLoop => s.1) (culprit_ok state)
      (offender_next culprit_key culprit_target));
      [done|apply check_culprit_Done|done]).
  assert (forall t, foldM (check_fault state) (None, []) (faults ext) = Done t <-> _) as Hf
    by (intros t; apply (foldM_chain bytes_lt fault_key (fun s : FaultLoop => s.1) (fault_ok state)
      (offender_next fault_key fault_target));
      [done|apply check_fault_Done|done]).
  unfold check_extrinsic. split.
  - intros Hrun. apply bind_Done in Hrun as (? & He%require_Done & Hrun).
    apply bind_Done in Hrun as ([[p vr] jr] & (? & ? & Hs1)%Hv & Hrun).
    apply bind_Done in Hrun as ([p1 cr] & (? & ? & Hs2)%Hc & Hrun).
    apply bind_Done in Hrun as ([p2 fr] & (? & ? & Hs3)%Hf & Hrun). run_inv.
    rewrite negb_true_iff, Z.eqb_neq in He. split; [done|].
    apply (f_equal snd) in Hs1, Hs2, Hs3. rewrite foldl_verdict_next in Hs1.
    rewrite (foldl_registry culprit_key) in Hs2. rewrite (foldl_registry fault_key) in Hs3. cbn in *. by subst.
  - intros [[He ? ? ? ? ? ?] ->]. rewrite (proj2 (Z.eqb_neq (epoch_length config) 0)) by done. cbn [negb require mbind run_bind].
    fold (current_epoch config state). fold (previous_epoch config state).
    rewrite (proj2 (Hv _)) by done. cbn [mbind run_bind].
    pose proof (foldl_verdict_next (None, [], []) (verdicts ext)) as Hs1.
    destruct (foldl verdict_next _ _) as [[p vr] jr]. cbn in Hs1. subst jr.
    rewrite (proj2 (Hc _)), (proj2 (Hf _)) by done. cbn [mbind run_bind].
    clear Hv Hc Hf. unfold CulpritLoop, FaultLoop.
    pose proof (foldl_registry culprit_key culprit_target (None, []) (culprits ext)) as Hs2.
    pose proof (foldl_registry fault_key fault_target (None, []) (faults ext)) as Hs3.
    destruct (foldl (offender_next culprit_key _) _ _) as [p1 cr], (foldl (offender_next fault_key _) _ _) as [p2 fr].
    cbn in Hs2, Hs3. by subst.
Qed.

End checks.
(** ** The vote counts *)

Lemma tally_snoc js j :
  tally (js ++ [j]) = let '(f, a) := tally js in
    if vote j then (u16 (f + 1), a) else (f, u16 (a + 1)).
Proof.
  unfold tally. rewrite !filter_app, !length_app. destruct (vote j) eqn:Hj.
  - rewrite (filter_singleton_True _ j []) by done. rewrite (filter_singleton_False _ j []) by congruence.
    cbn [length]. rewrite Nat.add_0_r, Nat2Z.inj_add. unfold wrap. by rewrite Zplus_mod_idemp_l.
  - rewrite (filter_singleton_False _ j []) by congruence. rewrite (filter_singleton_True _ j []) by done.
    cbn [length]. rewrite Nat.add_0_r, Nat2Z.inj_add. unfold wrap. by rewrite Zplus_mod_idemp_l.
Qed.

Lemma tally_perm js js' : js ≡ₚ js' -> tally js = tally js'.
Proof. intros Hp. unfold tally. by rewrite Hp. Qed.

Definition tally_at (reg : list (WorkReportHash * Judgement)) (k : WorkReportHash) : option (Z * Z) :=
  let js := (filter (fun p => p.1 = k) reg).*2 in if decide (js = []) then None else Some (tally js).

Lemma count_vote_tally l k : foldl count_vote ∅ l !! k = tally_at l k.
Proof.
  induction l as [|[k' j] l IH] using rev_ind; [done|].
  rewrite foldl_snoc. unfold count_vote at 1, tally_at. rewrite filter_app, fmap_app. cbn [fst snd].
  destruct (decide (k' = k)) as [->|Hk].
  - rewrite IH. unfold tally_at. rewrite (filter_singleton_True _ _ []) by done. cbn.
    rewrite (decide_False (P := (filter _ l).*2 ++ [j] = [])) by (intros [_ ?]%app_nil; done). rewrite tally_snoc.
    case_decide as Hjs; [rewrite Hjs|].
    + cbn -[wrap]. rewrite lookup_insert_eq. by destruct (vote j).
    + cbn -[wrap tally]. destruct (tally _) as [f a]. rewrite lookup_insert_eq. by destruct (vote j).
  - rewrite (filter_singleton_False _ _ []) by done. rewrite app_nil_r.
    destruct (default _ _) as [f a]. rewrite lookup_insert_ne by done. exact IH.
Qed.

Lemma count_votes_lookup `{HO : HashOrderOk} reg k : count_votes reg !! k = tally_at reg k.
Proof.
  unfold count_votes. rewrite count_vote_tally. unfold tally_at.
  pose proof (hash_order_perm _ reg) as Hp.
  assert ((filter (fun p => p.1 = k) (hash_order _ reg)).*2 ≡ₚ (filter (fun p => p.1 = k) reg).*2) as Hq
    by (by rewrite Hp).
  rewrite (tally_perm _ _ Hq). case_decide as H1; case_decide as H2; [done| | |done]; exfalso.
  - rewrite H1 in Hq. by apply Permutation_nil_l in Hq.
  - rewrite H2 in Hq. by apply Permutation_nil_r in Hq.
Qed.

Lemma judgements_of vs v :
  NoDup (target <$> vs) -> v ∈ vs ->
  (filter (fun p => p.1 = target v) (vs ≫= verdict_judgements)).*2 = votes v.
Proof.
  assert (forall w, (filter (fun p => p.1 = target v) (verdict_judgements w)).*2 =
      if decide (target w = target v) then votes w else []) as Hone.
  { intros w. unfold verdict_judgements. case_decide as Hw.
    - rewrite filter_all by (apply Forall_fmap, Forall_true; intros; done).
      rewrite <-list_fmap_compose. by apply list_fmap_id.
    - rewrite (elem_of_nil_inv (filter _ _)); [done|].
      intros p [Hp (j & -> & _)%list_elem_of_fmap]%list_elem_of_filter. done. }
  induction vs as [|w vs IH]; [by intros _ ?%not_elem_of_nil|]. cbn.
  rewrite NoDup_cons, elem_of_cons, filter_app, fmap_app, Hone. intros [Hw Hnd] [->|Hv].
  - rewrite decide_True by done. rewrite (elem_of_nil_inv (filter _ _)); [by rewrite app_nil_r|].
    intros p [Hp (x & (j & -> & _)%list_elem_of_fmap & Hx)%list_elem_of_bind]%list_elem_of_filter.
    apply Hw. cbn in Hp. rewrite <-Hp. by apply list_elem_of_fmap_2.
  - rewrite decide_False by (intros Heq; apply Hw; rewrite Heq; by apply list_elem_of_fmap_2). by apply IH.
Qed.

Section counts.
Context `{HO : HashOrderOk} (vs : list Verdict) (Hnd : NoDup (target <$> vs)).

Lemma counts_Some k c :
  count_votes (vs ≫= verdict_judgements) !! k = Some c <->
  exists v, v ∈ vs /\ target v = k /\ votes v <> [] /\ c = tally (votes v).
Proof.
  rewrite count_votes_lookup. unfold tally_at. split.
  - case_decide as Hjs; [done|]. intros [= <-].
    destruct (filter (fun p => p.1 = k) (vs ≫= verdict_judgements)) as [|p l] eqn:Hl; [done|].
    assert (p ∈ filter (fun p => p.1 = k) (vs ≫= verdict_judgements)) as Hp by (rewrite Hl; left).
    apply list_elem_of_filter in Hp as [<- (v & (j & -> & Hj)%list_elem_of_fmap & Hv)%list_elem_of_bind].
    exists v. cbn [fst] in *. pose proof (judgements_of vs v Hnd Hv) as Hvotes. rewrite Hl in Hvotes.
    split_and!; [done|done| |by rewrite Hvotes]. intros Hnil. rewrite Hnil in Hj. by apply not_elem_of_nil in Hj.
  - intros (v & Hv & <- & Hne & ->). rewrite judgements_of by done. by rewrite decide_False.
Qed.

End counts.

(** ** The registries *)

Section registries.
Context {X : Type} (t : X -> WorkReportHash).
Implicit Types (l : list X).

Lemma registry_perm l : registry t l ≡ₚ (fun x => (t x, x)) <$> l.
Proof.
  unfold registry. induction l as [|x l IH] using rev_ind; [done|].
  rewrite foldl_snoc, mm_emplace_perm, IH, fmap_app. cbn. by rewrite Permutation_app_comm.
Qed.

Lemma registry_sorted l : StronglySorted (fun p q : WorkReportHash * X => ¬ bytes_lt q.1 p.1) (registry t l).
Proof.
  unfold registry. induction l as [|x l IH] using rev_ind; [constructor|].
  rewrite foldl_snoc. by apply mm_emplace_sorted; try apply _.
Qed.

Lemma registry_values l : (registry t l).*2 ≡ₚ l.
Proof. rewrite registry_perm, <-list_fmap_compose. by rewrite list_fmap_id. Qed.

Lemma registry_keys l k : k ∈ (registry t l).*1 <-> k ∈ t <$> l.
Proof. by rewrite registry_perm, <-list_fmap_compose. Qed.

Lemma registry_count l k :
  mm_count bytes_lt k (registry t l) = Z.of_nat (length (filter (fun x => t x = k) l)).
Proof.
  unfold mm_count. f_equal. rewrite registry_perm. induction l as [|x l IH]; [done|].
  rewrite fmap_cons, !filter_cons. cbn [fst].
  destruct (decide (t x = k)) as [->|Hk].
  - rewrite decide_True by (split; apply irreflexivity, _). cbn. by rewrite IH.
  - rewrite decide_False; [done|]. intros [? ?]. by destruct (trichotomy bytes_lt (t x) k) as [|[|]].
Qed.

End registries.

(** ** The analysis loops *)

Lemma recheck_Done counts ks u :
  foldM (recheck_culprit counts) tt ks = Done u <->
  Forall (fun k => exists c, counts !! k = Some c /\ c.2 <> 0) ks.
Proof.
  destruct u. induction ks as [|k ks IH]; cbn; [by split; [constructor|]|].
  rewrite bind_Done, Forall_cons. unfold recheck_culprit at 1.
  destruct (counts !! k) as [[f a]|]; [|naive_solver]. split.
  - intros ([] & Ha%fail_if_Done%Z.eqb_neq & ?%IH). split; [|done]. by exists (f, a).
  - intros [(c & [= <-] & Ha) ?%IH]. exists tt. split; [|done]. cbn in Ha. by rewrite (proj2 (Z.eqb_neq _ _)).
Qed.

Definition verdict_supported config (cr : list (WorkReportHash * Culprit)) (fr : list (WorkReportHash * Fault))
    (p : WorkReportHash * (Z * Z)) : Prop :=
  match judge config p.2 with
  | Done Bad => 2 <= mm_count bytes_lt p.1 cr
  | Done Good => mm_count bytes_lt p.1 cr = 0 /\ 1 <= mm_count bytes_lt p.1 fr
  | Done Wonky => True
  | _ => False
  end.

Lemma analyse_verdicts_Done config cr fr W l s :
  foldM (analyse_verdict config cr fr) (as_set bytes_lt W) l = Done s <->
  Forall (verdict_supported config cr fr) l
  /\ s = as_set bytes_lt (W ++ (filter (fun p => judge config p.2 = Done Wonky) l).*1).
Proof.
  revert W. induction l as [|[k c] l IH]; intros W; cbn [foldM].
  { rewrite app_nil_r. split; [intros [= <-]; by split; [constructor|]|naive_solver]. }
  rewrite bind_Done, Forall_cons, filter_cons. unfold verdict_supported at 1, analyse_verdict at 1. cbn [fst snd].
  destruct (judge config c) as [[]|e|w|] eqn:Hj; cbn [mbind run_bind]; [..|naive_solver|naive_solver|naive_solver].
  - rewrite decide_False by done. split.
    + intros (s' & Hrun & Hl). run_inv. apply IH in Hl as [? ?]. by apply Z.ltb_ge in H.
    + intros [[Hc Hall] ->]. exists (as_set bytes_lt W). rewrite (proj2 (Z.ltb_ge _ _)) by done.
      split; [done|]. by apply IH.
  - rewrite decide_False by done. split.
    + intros (s' & Hrun & Hl). run_inv. apply IH in Hl as [? ?].
      rewrite negb_false_iff, Z.eqb_eq in *. by rewrite Z.ltb_ge in *.
    + intros [[[Hc Hf] Hall] ->]. exists (as_set bytes_lt W). rewrite Hc, (proj2 (Z.ltb_ge _ _)) by done.
      split; [done|]. by apply IH.
  - rewrite decide_True by done. cbn. rewrite cons_middle, (assoc_L (++)). split.
    + intros (s' & [= <-] & Hl). rewrite <-as_set_snoc in Hl. apply IH in Hl as [? ?]. done.
    + intros [[_ Hall] ->]. eexists. split; [done|]. rewrite <-as_set_snoc. by apply IH.
Qed.

(** Both offender loops add the keys of a group to the mark and the punish set. *)
Lemma offenders_fold {X} (k : X -> Ed25519Public) M P (xs : list X) :
  foldl (fun '(mark, punish) x => (mark ++ [k x], set_emplace bytes_lt (k x) punish)) (M, as_set bytes_lt P) xs
  = (M ++ (k <$> xs), as_set bytes_lt (P ++ (k <$> xs))).
Proof.
  revert M P. induction xs as [|x xs IH]; intros M P; cbn; [by rewrite !app_nil_r|].
  rewrite <-as_set_snoc, IH. by rewrite <-!(assoc_L (++)).
Qed.

Lemma analyse_culprits_all M P S (gs : list (WorkReportHash * list Culprit)) :
  foldl analyse_culprits (M, as_set bytes_lt P, as_set bytes_lt S) gs =
  (M ++ (culprit_key <$> concat gs.*2), as_set bytes_lt (P ++ (culprit_key <$> concat gs.*2)),
   as_set bytes_lt (S ++ gs.*1)).
Proof.
  revert M P S. induction gs as [|[k xs] gs IH]; intros M P S; cbn; [by rewrite !app_nil_r|].
  rewrite offenders_fold, <-as_set_snoc, IH, fmap_app. by rewrite <-!(assoc_L (++)).
Qed.

Lemma faults_group_Done M P (xs : list Fault) r :
  foldM (fun '(mark, punish) fault =>
      fail_if (fault_vote fault) fault_verdict_wrong;;
      mret (mark ++ [fault_key fault], set_emplace bytes_lt (fault_key fault) punish)) (M, P) xs = Done r <->
  Forall (fun f => fault_vote f = false) xs
  /\ r = foldl (fun '(mark, punish) x => (mark ++ [fault_key x], set_emplace bytes_lt (fault_key x) punish)) (M, P) xs.
Proof.
  revert M P. induction xs as [|x xs IH]; intros M P; cbn [foldM foldl].
  { split; [intros [= <-]; by split; [constructor|]|naive_solver]. }
  rewrite Forall_cons. destruct (fault_vote x); cbn [fail_if mbind run_bind mret run_ret]; [naive_solver|].
  rewrite IH. tauto.
Qed.

Lemma analyse_faults_Done M P S (gs : list (WorkReportHash * list Fault)) r :
  foldM analyse_faults (M, as_set bytes_lt P, as_set bytes_lt S) gs = Done r <->
  Forall (fun f => fault_vote f = false) (concat gs.*2)
  /\ r = (M ++ (fault_key <$> concat gs.*2), as_set bytes_lt (P ++ (fault_key <$> concat gs.*2)),
          as_set bytes_lt (S ++ gs.*1)).
Proof.
  revert M P S. induction gs as [|[k xs] gs IH]; intros M P S; cbn [foldM].
  { cbn. rewrite !app_nil_r. split; [intros [= <-]; by split; [constructor|]|naive_solver]. }
  rewrite bind_Done. cbn [fmap list_fmap fst snd concat]. rewrite Forall_app, fmap_app. unfold analyse_faults at 1.
  split.
  - intros ([[M' P'] S'] & Hg & Hgs). cbn [snd fst] in Hg. apply bind_Done in Hg as ([M1 P1] & Hg & Hr).
    apply faults_group_Done in Hg as [Hxs Hr1]. rewrite offenders_fold in Hr1. injection Hr1 as -> ->.
    injection Hr as <- <- <-. rewrite <-as_set_snoc in Hgs. apply IH in Hgs as [? ->].
    by rewrite <-!(assoc_L (++)).
  - intros [[Hxs Hall] ->]. eexists. split.
    + apply bind_Done. eexists. split; [apply faults_group_Done; split; [exact Hxs|done]|].
      cbn [fst snd]. rewrite offenders_fold. reflexivity.
    + rewrite <-as_set_snoc. apply IH. split; [done|]. by rewrite <-!(assoc_L (++)).
Qed.

Lemma set_contains_decide k S : set_contains bytes_lt k S = bool_decide (k ∈ S).
Proof. apply eq_true_iff_eq. by rewrite set_contains_elem, bool_decide_eq_true by apply _. Qed.

Lemma if_or_decide {E X} (P Q : Prop) `{!Decision P, !Decision Q} (a : X) :
  (if bool_decide P || bool_decide Q then mret None else mret (Some a) : run E (option X))
  = Done (if decide (P \/ Q) then None else Some a).
Proof. repeat case_bool_decide; case_decide; first [done|exfalso; tauto]. Qed.

Lemma clear_reports_Done config Bd W (rho : list (option (Assignment (Report := Report)))) rows :
  clear_reports config Bd W rho = Done rows <->
  Forall (fun r => forall a, r = Some a -> is_Some (encode_with_config (report a) config)) rho
  /\ rows = (fun row => a ← row;
       if decide (report_hash config a ∈ Bd \/ report_hash config a ∈ W) then None else Some a) <$> rho.
Proof.
  unfold clear_reports.
  assert (forall acc, foldM (fun rows row => row ← clear_report config Bd W row; mret (rows ++ [row])) acc rho = Done rows <->
    Forall (fun r => forall a, r = Some a -> is_Some (encode_with_config (report a) config)) rho
    /\ rows = acc ++ ((fun row => a ← row;
         if decide (report_hash config a ∈ Bd \/ report_hash config a ∈ W) then None else Some a) <$> rho)) as Hgen;
    [|apply (Hgen [])].
  induction rho as [|row rho IH]; intros acc; cbn [foldM fmap list_fmap].
  { rewrite app_nil_r. split; [intros [= <-]; by split; [constructor|]|naive_solver]. }
  rewrite Forall_cons, bind_Done. destruct row as [a|]; cbn [clear_report mbind run_bind].
  - destruct (encode_with_config (report a) config) as [enc|] eqn:He.
    + assert (mathcal_H enc = report_hash config a) as Hrh by (unfold report_hash; by rewrite He).
      cbn [value mbind run_bind]. rewrite !set_contains_decide, if_or_decide, Hrh.
      cbn [mbind run_bind option_bind mret run_ret]. split.
      * intros (acc' & [= <-] & [? ->]%IH). rewrite <-(assoc_L (++)). split; [|done]. split; [|done].
        intros ? [= <-]. by rewrite He.
      * intros [[_ Hall] ->]. eexists. split; [done|]. apply IH. by rewrite <-(assoc_L (++)).
    + cbn. split; [naive_solver|]. intros [[Ha _] _]. specialize (Ha a eq_refl). rewrite He in Ha. by destruct Ha.
  - cbn. split.
    + intros (acc' & [= <-] & [? ->]%IH). rewrite <-(assoc_L (++)). split; [|done]. by split.
    + intros [[_ Hall] ->]. eexists. split; [done|]. apply IH. by rewrite <-(assoc_L (++)).
Qed.

(** ** The whole transition *)

Section whole.
Context `{HO : HashOrderOk} (config : Config) (state : DState) (ext : Extrinsic).

Abbreviation cr := (registry culprit_target (culprits ext)).
Abbreviation fr := (registry fault_target (faults ext)).
Abbreviation counts := (count_votes (fresh_verdicts state ext ≫= verdict_judgements)).

Lemma verdict_supported_iff v :
  verdict_supported config cr fr (target v, tally (votes v)) <-> supported config ext v.
Proof.
  unfold verdict_supported, supported. cbn [fst snd]. rewrite !registry_count. unfold culprits_for, faults_for.
  destruct (judge config (tally (votes v))) as [[]|e|w|]; [lia| |tauto..].
  assert (forall X (l : list X), Z.of_nat (length l) = 0 <-> l = []) as Hnil
    by (intros X [|]; cbn; split; done || lia). rewrite (Hnil Culprit).
  assert (forall X (l : list X), 1 <= Z.of_nat (length l) <-> l <> []) as Hne
    by (intros X [|]; cbn; split; done || lia). by rewrite (Hne Fault).
Qed.

Lemma fresh_NoDup : lists_ok config state ext -> NoDup (target <$> fresh_verdicts state ext).
Proof.
  intros Hok. apply (sorted_keys_NoDup target bytes_lt).
  apply sorted_filter. apply Hok.
Qed.

Context (Hok : lists_ok config state ext).

Lemma counts_entries (Q : WorkReportHash * (Z * Z) -> Prop) :
  Forall Q (hash_order _ (map_to_list counts)) <->
  Forall (fun v => votes v <> [] -> Q (target v, tally (votes v))) (fresh_verdicts state ext).
Proof.
  rewrite hash_order_perm, !Forall_forall. split.
  - intros HQ v Hv Hne. apply HQ, elem_of_map_to_list, counts_Some; [by apply fresh_NoDup|]. by exists v.
  - intros HQ [k c] Hkc%elem_of_map_to_list. apply counts_Some in Hkc; [|by apply fresh_NoDup].
    destruct Hkc as (v & Hv & <- & Hne & ->). by apply HQ.
Qed.

Lemma recheck_iff u :
  foldM (recheck_culprit counts) tt cr.*1 = Done u <->
  Forall (fun c => exists v, v ∈ fresh_verdicts state ext /\ target v = culprit_target c
    /\ (tally (votes v)).2 <> 0) (culprits ext).
Proof.
  rewrite recheck_Done, !Forall_forall. split.
  - intros Hk c Hc. destruct (Hk (culprit_target c)) as (n & Hn & Hne).
    { apply registry_keys. by apply list_elem_of_fmap_2. }
    apply counts_Some in Hn as (v & Hv & Ht & _ & ->); [|by apply fresh_NoDup]. by exists v.
  - intros Hc k Hk. apply (registry_keys culprit_target) in Hk. apply list_elem_of_fmap in Hk as (c & -> & Hcin).
    destruct (Hc c Hcin) as (v & Hv & Ht & Hne). exists (tally (votes v)). split; [|done].
    apply counts_Some; [by apply fresh_NoDup|]. exists v. split_and!; [done..| |done].
    intros Hnil. by rewrite Hnil in Hne.
Qed.

Lemma wonky_iff W :
  as_set bytes_lt (W ++ (filter (fun p => judge config p.2 = Done Wonky) (hash_order _ (map_to_list counts))).*1)
  = as_set bytes_lt (W ++ (target <$> wonky_verdicts config state ext)).
Proof.
  apply as_set_ext; [apply _..|]. intros k. rewrite !elem_of_app. f_equiv.
  rewrite !list_elem_of_fmap. split.
  - intros ([k' c] & -> & [Hj Hin]%list_elem_of_filter). rewrite hash_order_perm in Hin.
    apply elem_of_map_to_list, counts_Some in Hin; [|by apply fresh_NoDup].
    destruct Hin as (v & Hv & <- & Hne & ->). exists v. split; [done|]. by apply list_elem_of_filter.
  - intros (v & -> & [[Hne Hj] Hv]%list_elem_of_filter). exists (target v, tally (votes v)). split; [done|].
    apply list_elem_of_filter. split; [done|]. rewrite hash_order_perm.
    apply elem_of_map_to_list, counts_Some; [by apply fresh_NoDup|]. by exists v.
Qed.

Lemma groups_set {X} (t : X -> WorkReportHash) S (l : list X) :
  as_set bytes_lt (S ++ (MultimapGroups bytes_lt (registry t l)).*1) = as_set bytes_lt (S ++ (t <$> l)).
Proof.
  apply as_set_ext; [apply _..|]. intros k. rewrite !elem_of_app. f_equiv.
  rewrite mm_groups_keys by (try apply _; apply registry_sorted). apply registry_keys.
Qed.

Lemma punish_set :
  as_set bytes_lt ((offenders (psi state) ++ (culprit_key <$> cr.*2)) ++ (fault_key <$> fr.*2))
  = offenders (new_records config state ext).
Proof.
  cbn. apply as_set_ext; [apply _..|]. intros k. rewrite <-(assoc_L (++)), !elem_of_app.
  by rewrite !registry_values.
Qed.

End whole.

Lemma transition_run_Done `{HO : HashOrderOk} config state ext r :
  transition_run config state ext = Done r <->
  accepted config state ext /\ r = (new_state config state ext, mark ext).
Proof.
  unfold transition_run. rewrite bind_Done. split.
  - intros (regs & [Hok ->]%check_extrinsic_Done & Hrun).
    apply bind_Done in Hrun as (u & Hcul & Hrun). apply (recheck_iff config state ext Hok) in Hcul.
    apply bind_Done in Hrun as (W & [Hver ->]%analyse_verdicts_Done & Hrun).
    rewrite counts_entries in Hver by done. rewrite wonky_iff in Hrun by done.
    rewrite analyse_culprits_all, mm_groups_values, groups_set in Hrun by apply _. cbn [app] in Hrun.
    apply bind_Done in Hrun as (s & [Hf ->]%analyse_faults_Done & Hrun).
    rewrite mm_groups_values, groups_set, (punish_set config) in Hrun by apply _.
    apply bind_Done in Hrun as (rows & [Hrho ->]%clear_reports_Done & Hrun). run_inv.
    rewrite mm_groups_values in Hf by apply _. rewrite registry_values in Hf.
    split; [|done]. split; [done..| |done|done].
    eapply Forall_impl; [exact Hver|]. intros v Hv Hne. by apply verdict_supported_iff, Hv.
  - intros [[Hok Hcul Hver Hf Hrho] ->]. eexists. split; [by apply check_extrinsic_Done|]. cbn beta iota zeta.
    rewrite (proj2 (recheck_iff config state ext Hok tt)) by done. cbn [mbind run_bind].
    erewrite (proj2 (analyse_verdicts_Done _ _ _ _ _ _)).
    2: { split; [|reflexivity]. apply (counts_entries config state ext Hok). eapply Forall_impl; [exact Hver|].
         intros v Hv Hne. by apply verdict_supported_iff, Hv. }
    cbn [mbind run_bind]. rewrite wonky_iff by done.
    rewrite analyse_culprits_all, mm_groups_values, groups_set by apply _. cbn [app].
    erewrite (proj2 (analyse_faults_Done _ _ _ _ _)).
    2: { split; [|reflexivity]. rewrite mm_groups_values by apply _. by rewrite registry_values. }
    cbn [mbind run_bind]. rewrite mm_groups_values, groups_set, (punish_set config) by apply _.
    erewrite (proj2 (clear_reports_Done _ _ _ _ _)) by done. done.
Qed.

(** The machine types of the input: judgement indices are unsigned. *)
Definition typed (ext : Extrinsic) : Prop :=
  Forall (fun v => Forall (fun j => 0 <= index j) (votes v)) (verdicts ext).

Definition encodable (config : Config) (state : DState) : Prop :=
  Forall (fun r => forall a, r = Some a -> is_Some (encode_with_config (report a) config)) (rho state).

Lemma check_extrinsic_returns config (state : DState) ext :
  epoch_length config <> 0 -> typed ext -> returns (check_extrinsic config state ext).
Proof.
  intros He Hty. unfold check_extrinsic. apply returns_bind.
  { apply returns_require. by rewrite (proj2 (Z.eqb_neq _ 0)). }
  intros _ _. apply returns_bind.
  { apply returns_foldM. intros [[p vr] jr] v Hv. unfold check_verdict.
    unfold typed in Hty. rewrite Forall_forall in Hty. specialize (Hty v Hv). rewrite Forall_forall in Hty.
    repeat (apply returns_bind; [by auto with jam|intros ? ?]). apply returns_bind; [|run_returns].
    apply returns_foldM. intros s j Hj. unfold check_judgement.
    repeat (apply returns_bind; [by auto with jam|intros ? ?]). apply returns_bind; [|run_returns].
    apply returns_at_idx. specialize (Hty j Hj). run_inv. rewrite Z.leb_gt in *. lia. }
  intros [[p vr] jr] _. apply returns_bind.
  { apply returns_foldM. intros [p1 r] c _. unfold check_culprit. run_returns. }
  intros [p1 r] _. apply returns_bind; [|run_returns].
  apply returns_foldM. intros [p2 r2] f _. unfold check_fault. run_returns.
Qed.

Lemma transition_run_returns {O : HashOrder} config state ext :
  epoch_length config <> 0 -> typed ext -> encodable config state -> returns (transition_run config state ext).
Proof.
  intros He Hty Henc. unfold transition_run.
  apply returns_bind; [by apply check_extrinsic_returns|]. intros [[jr cr] fr] _. cbn beta iota zeta.
  apply returns_bind.
  { apply returns_foldM. intros u k _. unfold recheck_culprit. destruct (_ !! k) as [[f a]|]; run_returns; done. }
  intros _ _. apply returns_bind.
  { apply returns_foldM. intros W [k [f a]] _. unfold analyse_verdict, judge.
    apply returns_bind; [run_returns; done|]. intros [] _; run_returns. }
  intros W _. destruct (foldl analyse_culprits _ _) as [[M P] Bd]. apply returns_bind.
  { apply returns_foldM. intros [[M' P'] S'] g _. unfold analyse_faults. apply returns_bind; [|run_returns].
    apply returns_foldM. intros [M1 P1] f _. run_returns. }
  intros [[M' P'] S'] _. apply returns_bind; [|run_returns].
  unfold clear_reports. apply returns_foldM. intros rows row Hrow. apply returns_bind; [|run_returns].
  destruct row as [a|]; cbn; [|done]. apply returns_bind; [|run_returns].
  apply returns_value. unfold encodable in Henc. rewrite Forall_forall in Henc. by apply (Henc _ Hrow).
Qed.

Lemma transition_cases `{HO : HashOrderOk} config state ext :
  epoch_length config <> 0 -> typed ext -> encodable config state ->
  (accepted config state ext
    /\ transition config state ext = Done (new_state config state ext, OutputOk (mark ext)))
  \/ (¬ accepted config state ext
    /\ exists e, transition config state ext = Done (state, OutputErr e)).
Proof.
  intros He Hty Henc. pose proof (transition_run_returns config state ext He Hty Henc) as Hret.
  pose proof (fun r => transition_run_Done config state ext r) as Hiff. unfold transition.
  destruct (transition_run config state ext) as [r|e|w|]; [left|right|done..].
  - destruct (proj1 (Hiff r) eq_refl) as [Hacc ->]. done.
  - split; [|by exists e]. intros Hacc.
    discriminate (proj2 (Hiff (new_state config state ext, mark ext)) (conj Hacc eq_refl)).
Qed.

Lemma new_records_sorted config state ext :
  let psi' := new_records config state ext in
  StronglySorted bytes_lt (good psi') /\ StronglySorted bytes_lt (bad psi')
  /\ StronglySorted bytes_lt (wonky psi') /\ StronglySorted bytes_lt (offenders psi').
Proof. cbn. split_and!; apply as_set_sorted_id; apply _. Qed.

(** The three verdict sets exclude each other. *)
Definition exclusive (r : Records) : Prop :=
  (forall x, x ∈ good r -> x ∈ bad r -> False)
  /\ (forall x, x ∈ good r -> x ∈ wonky r -> False)
  /\ (forall x, x ∈ bad r -> x ∈ wonky r -> False).

(** Every proof of an offence is about a report this block judges accordingly. *)
Definition offences_match (config : Config) (state : DState) (ext : Extrinsic) : Prop :=
  Forall (fun c => exists v, v ∈ fresh_verdicts state ext /\ target v = culprit_target c
    /\ judge config (tally (votes v)) = Done Bad) (culprits ext)
  /\ Forall (fun f => exists v, v ∈ fresh_verdicts state ext /\ target v = fault_target f
    /\ judge config (tally (votes v)) = Done Good) (faults ext).

Lemma fresh_verdict_unique config state ext v w :
  lists_ok config state ext -> v ∈ fresh_verdicts state ext -> w ∈ fresh_verdicts state ext ->
  target v = target w -> v = w.
Proof.
  intros Hok%fresh_NoDup (i & Hi)%list_elem_of_lookup (j & Hj)%list_elem_of_lookup Ht.
  assert (i = j) as ->; [|naive_solver].
  eapply (NoDup_lookup (target <$> _)); [exact Hok|..]; rewrite list_lookup_fmap; [by rewrite Hi|].
  rewrite Hj. cbn. by rewrite Ht.
Qed.

(** Where a member of a new set comes from: the old set, or a new verdict of
    that kind. *)
Lemma new_record_origin config state ext x :
  offences_match config state ext ->
  let origin old k := x ∈ old \/ exists v, v ∈ fresh_verdicts state ext /\ target v = x
    /\ judge config (tally (votes v)) = Done k in
  (x ∈ good (new_records config state ext) -> origin (good (psi state)) Good)
  /\ (x ∈ bad (new_records config state ext) -> origin (bad (psi state)) Bad)
  /\ (x ∈ wonky (new_records config state ext) -> origin (wonky (psi state)) Wonky).
Proof.
  intros [Hc Hf] origin. rewrite Forall_forall in Hc. rewrite Forall_forall in Hf. cbn. unfold origin.
  rewrite !elem_of_as_set, !elem_of_app by apply _. split_and!; (intros [?|Hx]; [by left|right]);
    apply list_elem_of_fmap in Hx as (y & -> & Hy).
  - destruct (Hf y Hy) as (v & ? & ? & ?). by exists v.
  - destruct (Hc y Hy) as (v & ? & ? & ?). by exists v.
  - apply list_elem_of_filter in Hy as [[? ?] ?]. by exists y.
Qed.

(** Sets that exclude each other stay so. *)
Lemma exclusive_kept `{HO : HashOrderOk} config state ext state' m :
  transition config state ext = Done (state', OutputOk m) ->
  exclusive (psi state) -> offences_match config state ext -> exclusive (psi state').
Proof.
  unfold transition. destruct (transition_run config state ext) as [r|e|w|] eqn:Hrun; try done.
  apply transition_run_Done in Hrun as [Hacc ->]. intros [= <- <-] (Hgb & Hgw & Hbw) Hmatch.
  assert (forall v, v ∈ fresh_verdicts state ext -> fresh state v) as Hfresh
    by (intros v Hv; apply list_elem_of_filter in Hv as [? _]; done).
  assert (forall v w k k', v ∈ fresh_verdicts state ext -> w ∈ fresh_verdicts state ext -> target v = target w ->
    judge config (tally (votes v)) = Done k -> judge config (tally (votes w)) = Done k' -> k = k') as Huniq.
  { intros v w k k' Hv Hw Ht. rewrite (fresh_verdict_unique _ _ _ v w (acc_lists _ _ _ Hacc) Hv Hw Ht). congruence. }
  split_and!; intros x H1 H2; destruct (new_record_origin config state ext x Hmatch) as (Hg & Hb & Hw);
    [specialize (Hg H1); specialize (Hb H2); destruct Hg as [Ho1|(v & Hv & Hvx & Hj)], Hb as [Ho2|(w & Hw' & Hwx & Hj')]
    |specialize (Hg H1); specialize (Hw H2); destruct Hg as [Ho1|(v & Hv & Hvx & Hj)], Hw as [Ho2|(w & Hw' & Hwx & Hj')]
    |specialize (Hb H1); specialize (Hw H2); destruct Hb as [Ho1|(v & Hv & Hvx & Hj)], Hw as [Ho2|(w & Hw' & Hwx & Hj')]];
    try by eauto.
  all: try (destruct (Hfresh _ Hw') as (? & ? & ?); congruence).
  all: try (destruct (Hfresh _ Hv) as (? & ? & ?); congruence).
  all: assert (target v = target w) as Ht by congruence; discriminate (Huniq v w _ _ Hv Hw' Ht Hj Hj').
Qed.

(** ** Properties *)

(** C2: for every iteration order of the hash tables, [transition] either accepts
    and returns exactly the state and offenders mark of the declarative rule, or
    rejects with an error code and the unchanged state; it accepts exactly the
    extrinsics satisfying the rule. It never throws and never leaves the defined
    behaviour when the epoch length is not zero, indices are unsigned and the
    pending reports can be encoded. *)
Theorem transition_accepts `{HO : HashOrderOk} config state ext :
  epoch_length config <> 0 -> typed ext -> encodable config state ->
  (accepted config state ext
    /\ transition config state ext = Done (new_state config state ext, OutputOk (mark ext)))
  \/ (¬ accepted config state ext
    /\ exists e, transition config state ext = Done (state, OutputErr e)).
Proof. apply transition_cases. Qed.

(** C19: the iteration order of the unordered containers is not observable in an
    accepted block, and does not decide acceptance: under any two orders the
    transition gives the same state and mark, or an error in both. *)
Theorem transition_order_independent (O1 O2 : HashOrder) `{!HashOrderOk O1, !HashOrderOk O2} config state ext :
  epoch_length config <> 0 -> typed ext -> encodable config state ->
  transition (O := O1) config state ext = transition (O := O2) config state ext
  \/ exists e1 e2, transition (O := O1) config state ext = Done (state, OutputErr e1)
       /\ transition (O := O2) config state ext = Done (state, OutputErr e2).
Proof.
  intros He Hty Henc.
  destruct (transition_cases (O0 := O1) config state ext He Hty Henc) as [[? ->]|[? [e1 ->]]],
    (transition_cases (O0 := O2) config state ext He Hty Henc) as [[? ->]|[? [e2 ->]]]; try done; [by left|].
  right. by exists e1, e2.
Qed.

(** An accepted block never forgets a judgement or an offender, its four
    sequences come out strictly sorted, every reported key is punished, and no
    report pending on a core afterwards is one judged bad or wonky. *)
Theorem transition_records `{HO : HashOrderOk} config state ext state' m :
  transition config state ext = Done (state', OutputOk m) ->
  (forall x, x ∈ good (psi state) -> x ∈ good (psi state'))
  /\ (forall x, x ∈ bad (psi state) -> x ∈ bad (psi state'))
  /\ (forall x, x ∈ wonky (psi state) -> x ∈ wonky (psi state'))
  /\ (forall x, x ∈ offenders (psi state') <-> x ∈ offenders (psi state) \/ x ∈ m)
  /\ StronglySorted bytes_lt (good (psi state')) /\ StronglySorted bytes_lt (bad (psi state'))
  /\ StronglySorted bytes_lt (wonky (psi state')) /\ StronglySorted bytes_lt (offenders (psi state'))
  /\ length (rho state') = length (rho state)
  /\ (forall i a, rho state' !! i = Some (Some a) ->
       rho state !! i = Some (Some a)
       /\ report_hash config a ∉ bad (psi state') /\ report_hash config a ∉ wonky (psi state')).
Proof.
  unfold transition. destruct (transition_run config state ext) as [r|e|w|] eqn:Hrun; try done.
  apply transition_run_Done in Hrun as [Hacc ->]. intros [= <- <-].
  pose proof (new_records_sorted config state ext) as (Hg & Hb & Hw & Ho). cbn [psi new_state rho].
  assert (forall S T (x : Bytes), x ∈ as_set bytes_lt (S ++ T) <-> x ∈ S \/ x ∈ T) as Hset
    by (intros; by rewrite elem_of_as_set, elem_of_app by apply _).
  split_and!; [..|done|done|done|done|by apply length_fmap|].
  - intros x Hx. apply Hset. by left.
  - intros x Hx. apply Hset. by left.
  - intros x Hx. apply Hset. by left.
  - intros x. cbn. rewrite Hset. unfold mark. by rewrite !registry_values.
  - intros i a. unfold new_rho. rewrite list_lookup_fmap. destruct (rho state !! i) as [[a'|]|]; cbn [fmap option_fmap option_map mbind option_bind]; try done.
    case_decide as Hin; [done|]. intros [= <-]. split; [done|]. tauto.
Qed.

(** No new verdict of an accepted block is lost: the report of every verdict
    with votes is afterwards in the good, bad or wonky set, the one its votes
    decide, with the offenders the rule demands for it. *)
Theorem transition_judges `{HO : HashOrderOk} config state ext state' m v :
  transition config state ext = Done (state', OutputOk m) ->
  v ∈ verdicts ext -> fresh state v -> votes v <> [] ->
  (judge config (tally (votes v)) = Done Bad /\ target v ∈ bad (psi state')
    /\ (2 <= length (culprits_for ext (target v)))%nat)
  \/ (judge config (tally (votes v)) = Done Good /\ target v ∈ good (psi state')
    /\ culprits_for ext (target v) = [])
  \/ (judge config (tally (votes v)) = Done Wonky /\ target v ∈ wonky (psi state')).
Proof.
  unfold transition. destruct (transition_run config state ext) as [r|e|w|] eqn:Hrun; try done.
  apply transition_run_Done in Hrun as [Hacc ->]. intros [= <- <-] Hv Hfresh Hne.
  assert (v ∈ fresh_verdicts state ext) as Hvf by (by apply list_elem_of_filter).
  pose proof (acc_verdicts _ _ _ Hacc) as Hsup. rewrite Forall_forall in Hsup. specialize (Hsup v Hvf Hne).
  unfold supported in Hsup. cbn [psi new_state new_records good bad wonky].
  destruct (judge config (tally (votes v))) as [[]|e|w|] eqn:Hj; [left|right; left|do 2 right|done..].
  - split_and!; [done| |done]. apply elem_of_as_set, elem_of_app; [apply _..|]. right.
    destruct (culprits_for ext (target v)) as [|c l] eqn:Hc; [cbn in Hsup; lia|].
    assert (c ∈ culprits_for ext (target v)) as [<- ?]%list_elem_of_filter by (rewrite Hc; left).
    by apply list_elem_of_fmap_2.
  - destruct Hsup as [Hc Hf]. split_and!; [done| |done]. apply elem_of_as_set, elem_of_app; [apply _..|]. right.
    destruct (faults_for ext (target v)) as [|f l] eqn:Hfs; [done|].
    assert (f ∈ faults_for ext (target v)) as [<- ?]%list_elem_of_filter by (rewrite Hfs; left).
    by apply list_elem_of_fmap_2.
  - split; [done|]. apply elem_of_as_set, elem_of_app; [apply _..|]. right.
    apply list_elem_of_fmap_2, list_elem_of_filter. done.
Qed.

(** If the three verdict sets exclude each other and each culprit and each
    fault of an accepted block concerns a report that the same block judges bad,
    respectively good, then the new sets exclude each other too. *)
Theorem transition_exclusive `{HO : HashOrderOk} config state ext state' m :
  transition config state ext = Done (state', OutputOk m) ->
  exclusive (psi state) -> offences_match config state ext -> exclusive (psi state').
Proof. apply exclusive_kept. Qed.

End spec.

(** ** Concrete blocks *)

Module Samples.

#[local] Instance sample_types : ValidatorTypes :=
  {| ValidatorData := Bytes; bandersnatch_of := id; ed25519_of := id; ValidatorData_default := [] |}.

(** A signature is the key followed by the message. *)
#[local] Instance sample_ed25519 : Ed25519 := {|
  ED25519_RESULT_OK := 0;
  ffi_ed25519_sign kp msg := (0, kp ++ msg);
  ffi_ed25519_verify sig pub msg := if decide (sig = pub ++ msg) then 0 else 1
|}.

#[local] Instance sample_blake : Blake2b := {|
  blake2b_state := Bytes;
  blake2b_init _ := [];
  blake2b_update s x := s ++ x;
  blake2b_final s _ := s
|}.

#[local] Instance sample_encode : EncodeWithConfig Z := fun r _ => Some [r].

#[local] Instance forward_order : HashOrder := fun _ l => l.
#[local] Instance forward_order_ok : HashOrderOk forward_order.
Proof. by intros V l. Qed.

Definition backward_order : HashOrder := fun _ l => reverse l.
Lemma backward_order_ok : HashOrderOk backward_order.
Proof. intros V l. apply reverse_Permutation. Qed.

(** Four validators, a super majority of three. *)
Definition config : Config := MkConfig 12 3 4 2 2 8 80.

Definition state : State (Report := Z) := MkState (MkRecords [[1]] [] [[2]] [[40]])
  [Some (MkAssignment 9 3); None; Some (MkAssignment 5 1)] 20 [[10]; [20]; [30]; [40]] [[11]; [21]; [31]; [41]].

Definition judgement (k : Bytes) (i : Z) (b : bool) (wr : Bytes) : Judgement :=
  MkJudgement b i (k ++ vote_context b ++ wr).
Definition culprit (k wr : Bytes) : Culprit := MkCulprit wr k (k ++ kJamGuarantee ++ wr).
Definition fault (k : Bytes) (b : bool) (wr : Bytes) : Fault := MkFault wr b k (k ++ vote_context b ++ wr).

(** Report 6 good, report 7 bad, report 9 wonky, each with the proofs it needs. *)
Definition block : Extrinsic := MkExtrinsic
  [MkVerdict [6] 0 [judgement [11] 0 true [6]; judgement [21] 1 true [6]; judgement [31] 2 true [6]];
   MkVerdict [7] 1 [judgement [10] 0 false [7]; judgement [20] 1 false [7]; judgement [40] 3 false [7]];
   MkVerdict [9] 1 [judgement [10] 0 true [9]; judgement [20] 1 false [9]; judgement [30] 2 false [9]]]
  [culprit [10] [7]; culprit [20] [7]] [fault [30] false [6]].

Definition block_state : State (Report := Z) := MkState (MkRecords [[1]; [6]] [[7]] [[2]; [9]] [[10]; [20]; [30]; [40]])
  [None; None; Some (MkAssignment 5 1)] 20 [[10]; [20]; [30]; [40]] [[11]; [21]; [31]; [41]].

Lemma block_typed : typed block.
Proof. repeat constructor; cbn; lia. Qed.

Lemma state_encodable : encodable config state.
Proof. repeat constructor; intros a Ha; try done; by eexists. Qed.

Lemma block_run : transition config state block = Done (block_state, OutputOk [[10]; [20]; [30]]).
Proof. vm_compute. reflexivity. Qed.

Lemma transition_accepts_witness :
  exists st m, accepted config state block /\ transition config state block = Done (st, OutputOk m).
Proof.
  destruct (transition_accepts config state block) as [[Hacc Hrun]|[_ [e Hrun]]];
    [by vm_compute|exact block_typed|exact state_encodable| |].
  - do 2 eexists. split; [exact Hacc|exact Hrun].
  - rewrite block_run in Hrun. discriminate.
Defined.

Lemma transition_order_independent_witness :
  transition (O := forward_order) config state block = transition (O := backward_order) config state block.
Proof.
  destruct (transition_order_independent forward_order backward_order (HashOrderOk1 := backward_order_ok)
    config state block) as [Heq|(e1 & _ & Hrun & _)];
    [by vm_compute|exact block_typed|exact state_encodable|exact Heq|].
  rewrite block_run in Hrun. discriminate.
Defined.

Lemma transition_records_witness : [6] ∈ good (psi block_state) /\ [10] ∈ offenders (psi block_state).
Proof.
  destruct (transition_records _ _ _ _ _ block_run) as (_ & _ & _ & Hoff & _).
  split; [apply (bool_decide_unpack _); vm_compute; exact I|]. apply Hoff. right. left.
Defined.

Lemma transition_judges_witness : [7] ∈ bad (psi block_state).
Proof.
  destruct (transition_judges config state block _ _ (nth 1 (verdicts block) (MkVerdict [] 0 [])) block_run)
    as [(_ & Hin & _)|[[Hj _]|[Hj _]]].
  - apply (bool_decide_unpack _). vm_compute. exact I.
  - apply (bool_decide_unpack _). vm_compute. exact I.
  - discriminate.
  - exact Hin.
  - vm_compute in Hj. discriminate.
  - vm_compute in Hj. discriminate.
Defined.

Lemma transition_exclusive_witness : exclusive (psi block_state).
Proof.
  apply (transition_exclusive _ _ _ _ _ block_run).
  - split_and!; intros x; cbn; set_solver.
  - split; repeat constructor.
    + exists (nth 1 (verdicts block) (MkVerdict [] 0 [])).
      split_and!; [apply (bool_decide_unpack _); vm_compute; exact I|reflexivity|vm_compute; reflexivity].
    + exists (nth 1 (verdicts block) (MkVerdict [] 0 [])).
      split_and!; [apply (bool_decide_unpack _); vm_compute; exact I|reflexivity|vm_compute; reflexivity].
    + exists (nth 0 (verdicts block) (MkVerdict [] 0 [])).
      split_and!; [apply (bool_decide_unpack _); vm_compute; exact I|reflexivity|vm_compute; reflexivity].
Defined.

(** Report 9 wonky with a culprit; a fault about report 8, which has no verdict. *)
Definition overlapping_block : Extrinsic := MkExtrinsic
  [MkVerdict [9] 1 [judgement [10] 0 true [9]; judgement [20] 1 false [9]; judgement [30] 2 false [9]]]
  [culprit [10] [9]] [fault [30] false [8]].

(** Without that condition the sets may overlap: [transition] accepts a
    culprit of a report judged wonky (the second look at the culprits only asks
    for one vote against), which puts the report in the wonky and the bad set,
    and accepts a fault about a report without any verdict, which puts that
    report in the good set. *)
Theorem overlapping_accepted :
  exclusive (psi state) /\
  exists state' m, transition config state overlapping_block = Done (state', OutputOk m)
    /\ [9] ∈ bad (psi state') /\ [9] ∈ wonky (psi state')
    /\ [8] ∈ good (psi state') /\ [8] ∉ target <$> verdicts overlapping_block.
Proof.
  split; [split_and!; intros x; cbn; set_solver|].
  eexists _, _. split; [vm_compute; reflexivity|].
  split_and!; apply (bool_decide_unpack _); vm_compute; exact I.
Qed.

End Samples.
End DisputesSpec.
