(* ===== verification/Chains.v ===== *)
(** * Chains: transitions over many blocks

    What the disputes and the authorizations transitions
    ([src/test-vectors/disputes/disputes.hpp],
    [src/test-vectors/authorizations/authorizations.hpp]) guarantee over sequences of
    blocks, derived from what they do in one. *)

From S2P Require Import Prelude Containers Common Crypto JamTypes Disputes DisputesSpec Authorizations.

(** ** Disputes *)

Module DisputesChain.
Import Disputes DisputesSpec.

Section chain.
Context `{VT : ValidatorTypes, F : Ed25519, B : Blake2b}.
Context {Report : Type} `{EW : EncodeWithConfig Report} `{HO : HashOrderOk}.
Context (config : Config).

(** An accepted block: the state it was applied to, its extrinsic, its mark. *)
Record Block : Type := MkBlock { before : State (Report := Report); extrinsic : Extrinsic; marked : list Ed25519Public }.

(** Between two blocks the time, the validators and the pending reports change; the
    records are changed by nothing else than this transition. *)
Inductive chain : Records -> list Block -> Records -> Prop :=
| chain_nil r : chain r [] r
| chain_cons state ext state' m bs r :
    transition config state ext = Done (state', OutputOk m) ->
    chain (psi state') bs r -> chain (psi state) (MkBlock state ext m :: bs) r.

Lemma mark_unpunished state ext state' m x :
  transition config state ext = Done (state', OutputOk m) -> x ∈ m -> x ∉ offenders (psi state).
Proof.
  unfold transition. destruct (transition_run config state ext) as [r|e|w|] eqn:Hrun; try done.
  apply transition_run_Done in Hrun as [Hacc ->]. intros [= <- <-]. unfold mark. rewrite !registry_values.
  pose proof (acc_lists _ _ _ Hacc) as [_ _ _ Hc _ Hf _]. rewrite Forall_forall in Hc. rewrite Forall_forall in Hf.
  rewrite elem_of_app. intros [Hx|Hx]; apply list_elem_of_fmap in Hx as (y & -> & Hy).
  - apply (Hc y Hy).
  - apply (Hf y Hy).
Qed.

(** C20: the records over a chain of accepted blocks: verdicts are never forgotten; the
    offenders are exactly those at the beginning and those marked by some block; a key
    that is an offender is never marked again, neither by a later block nor by any block
    if it was one at the beginning; and when every proof of an offence concerns a report
    its block judges accordingly, good, bad and wonky reports never overlap. *)
Theorem disputes_chain r bs r' :
  chain r bs r' ->
  (forall x, x ∈ good r -> x ∈ good r') /\ (forall x, x ∈ bad r -> x ∈ bad r') /\ (forall x, x ∈ wonky r -> x ∈ wonky r')
  /\ (forall x, x ∈ offenders r' <-> x ∈ offenders r \/ exists b, b ∈ bs /\ x ∈ marked b)
  /\ Forall (fun b => forall x, x ∈ marked b -> x ∉ offenders r) bs
  /\ StronglySorted (fun b b' => forall x, x ∈ marked b -> x ∉ marked b') bs
  /\ (exclusive r -> Forall (fun b => offences_match config (before b) (extrinsic b)) bs -> exclusive r').
Proof.
  induction 1 as [r|state ext state' m bs r Ht Hc IH].
  { split_and!; try done; [set_solver|constructor]. }
  destruct IH as (Hg & Hb & Hw & Ho & Hnew & Hs & Hex).
  pose proof (transition_records config state ext state' m Ht) as (Hg1 & Hb1 & Hw1 & Ho1 & _).
  pose proof (fun x => mark_unpunished state ext state' m x Ht) as Hm. rewrite Forall_forall in Hnew.
  assert (forall b, b ∈ bs -> forall x, x ∈ marked b -> x ∉ offenders (psi state) /\ x ∉ m) as Hlater.
  { intros b Hin x Hx. specialize (Hnew b Hin x Hx). rewrite Ho1 in Hnew. tauto. }
  split_and!; [by auto|by auto|by auto| | | |].
  - intros x. rewrite Ho, Ho1. setoid_rewrite elem_of_cons. naive_solver.
  - apply Forall_cons. split; [exact Hm|]. apply Forall_forall. intros b Hin x Hx. by destruct (Hlater b Hin x Hx).
  - constructor; [done|]. apply Forall_forall. intros b Hin x Hx Hx'. by destruct (Hlater b Hin x Hx').
  - intros He Hall. apply Forall_cons in Hall as [H1 Hall]. apply Hex; [|done]. by eapply exclusive_kept.
Qed.

End chain.

Module Samples.
Import DisputesSpec.Samples.
#[local] Existing Instances DisputesSpec.Samples.sample_types DisputesSpec.Samples.sample_ed25519 DisputesSpec.Samples.sample_blake
  DisputesSpec.Samples.sample_encode DisputesSpec.Samples.forward_order DisputesSpec.Samples.forward_order_ok.

Definition sample_block : Block := MkBlock state block [[10]; [20]; [30]].

Lemma sample_chain : chain config (psi state) [sample_block] (psi block_state).
Proof. eapply chain_cons; [exact block_run|apply chain_nil]. Qed.

Lemma disputes_chain_witness :
  [10] ∈ offenders (psi block_state) <-> [10] ∈ [[40]] \/ exists b, b ∈ [sample_block] /\ [10] ∈ marked b.
Proof. exact (proj1 (proj2 (proj2 (proj2 (disputes_chain config (psi state) [sample_block] (psi block_state) sample_chain)))) [10]). Defined.

End Samples.
End DisputesChain.

(** ** Authorizations *)

Module AuthorizationsChain.
Import Authorizations.

(** What the queue of a core offers in a block. *)
Definition offered (config : Config) (state : State) (c : nat) (input : Input) : AuthorizerHash := queue_item config state input c.

Lemma lastn_snoc n (l : Pool) q : (0 < n)%nat -> lastn n (lastn n l ++ [q]) = lastn n (l ++ [q]).
Proof.
  intros Hn. unfold lastn. rewrite !length_app, length_drop. cbn [length]. destruct (decide (length l <= n)%nat) as [Hle|Hgt].
  - replace (length l - n)%nat with 0%nat by lia. by rewrite drop_0, Nat.sub_0_r.
  - rewrite !drop_app_le by (rewrite ?length_drop; lia). rewrite drop_drop. do 2 f_equal. lia.
Qed.

Lemma lastn_short n (l : Pool) : (length l <= n)%nat -> lastn n l = l.
Proof. intros H. unfold lastn. by replace (length l - n)%nat with 0%nat by lia. Qed.

Lemma step_core config state input :
  wf config state -> wf_input config input ->
  exists state', transition config state input = Done state' /\ wf config state' /\ auth_queues state' = auth_queues state
    /\ forall c pool, auth_pools state !! c = Some pool -> used input (Z.of_nat c) = [] ->
         auth_pools state' !! c = Some (lastn (Z.to_nat (auth_pool_max_size config)) (pool ++ [queue_item config state input c])).
Proof.
  intros Hwf Hin. destruct (transition_wf config state input Hwf Hin) as (state' & Ht & Hwf' & _). exists state'.
  split; [done|]. split; [done|]. rewrite transition_pools in Ht by done. injection Ht as <-. split; [done|].
  intros c pool Hc Hu. cbn [auth_pools]. rewrite list_lookup_imap, Hc. cbn. rewrite Hu. f_equal.
  apply (core_pool_gp (auth_pool_max_size config)); [apply Hwf|by apply (Forall_lookup_1 _ _ _ _ (wf_pool _ _ Hwf) Hc)|constructor].
Qed.

(** C21: the pools over any number of blocks. From a well-formed state every sequence of
    well-formed blocks is processed without a failed assertion, the queues stay and the
    pools stay within their size. On a core on which no authorizer is used the pool is
    always the newest [auth_pool_max_size] of the old pool followed by what the queue
    offered in each block; after that many blocks nothing of the old pool is left. *)
Theorem authorizations_chain config state inputs :
  wf config state -> Forall (wf_input config) inputs ->
  exists state', foldM (transition config) state inputs = Done state' /\ wf config state' /\ auth_queues state' = auth_queues state
    /\ forall c pool, auth_pools state !! c = Some pool -> Forall (fun i => used i (Z.of_nat c) = []) inputs ->
         let max := Z.to_nat (auth_pool_max_size config) in
         auth_pools state' !! c = Some (lastn max (pool ++ (offered config state c <$> inputs)))
         /\ ((max <= length inputs)%nat -> auth_pools state' !! c = Some (lastn max (offered config state c <$> inputs))).
Proof.
  intros Hwf Hin. enough (exists state', foldM (transition config) state inputs = Done state' /\ wf config state'
    /\ auth_queues state' = auth_queues state
    /\ forall c pool, auth_pools state !! c = Some pool -> Forall (fun i => used i (Z.of_nat c) = []) inputs ->
         auth_pools state' !! c = Some (lastn (Z.to_nat (auth_pool_max_size config)) (pool ++ (offered config state c <$> inputs))))
    as (state' & H1 & H2 & H3 & H4).
  { exists state'. split_and!; [done..|]. intros c pool Hc Hu. cbn zeta. rewrite (H4 c pool Hc Hu). split; [done|]. intros Hmax. f_equal.
    unfold lastn. rewrite length_app, length_fmap. rewrite drop_app_ge by lia. f_equal. lia. }
  induction inputs as [|i inputs IH] using rev_ind; cbn.
  { exists state. split_and!; [done..|]. intros c pool Hc _. rewrite app_nil_r, lastn_short; [done|].
    pose proof (Forall_lookup_1 _ _ _ _ (wf_pool _ _ Hwf) Hc) as Hp. cbn in Hp. lia. }
  apply Forall_app in Hin as [Hin [Hi _]%Forall_cons]. destruct (IH Hin) as (state1 & H1 & Hwf1 & Hq1 & Hc1).
  destruct (step_core config state1 i Hwf1 Hi) as (state2 & H2 & Hwf2 & Hq2 & Hc2). exists state2.
  rewrite foldM_app, H1. cbn. rewrite H2. split_and!; [done..|congruence|]. intros c pool Hc [Hu [Hui _]%Forall_cons]%Forall_app.
  rewrite (Hc2 c _ (Hc1 c pool Hc Hu) Hui), fmap_app, (assoc_L (++)). f_equal. rewrite lastn_snoc by (destruct Hwf; lia).
  do 3 f_equal. unfold offered, queue_item. by rewrite Hq1.
Qed.

(** Three blocks replace the pool of core 0. *)
Definition sample_inputs : list Input := [MkInput 5 []; MkInput 6 [MkAuth 1 [4]]; MkInput 7 []].

Lemma authorizations_chain_witness :
  exists state', foldM (transition sample_config) sample_state sample_inputs = Done state'
    /\ auth_pools state' !! 0%nat = Some [[7]; [6]; [7]].
Proof.
  destruct (authorizations_chain sample_config sample_state sample_inputs sample_wf) as (state' & H1 & _ & _ & H4).
  - repeat constructor; cbn; lia.
  - exists state'. split; [exact H1|]. refine (proj2 (H4 0%nat [[1]; [2]] _ _) _); [reflexivity|repeat constructor|cbn; lia].
Defined.

End AuthorizationsChain.
