(* ===== verification/Safrole.v ===== *)
(** * Safrole: block production by tickets

    [src/test-vectors/safrole/safrole.hpp].  The state transition in the order
    of the code: slot check, epoch change, entropy accumulation, the ticket
    accumulator, the sealing-key series and the two markers. *)

From S2P Require Import Prelude Containers Common Crypto JamTypes.

(** [TicketsBodies::configSize(config)], the length the generated type of a
    ticket sequence takes from the configuration. *)
Class TicketsBodies : Type := configSize : Config -> Z.

Module Safrole.

Abbreviation OpaqueHash := Bytes.
Abbreviation BandersnatchSignature := Bytes.
Abbreviation BandersnatchPublic := Bytes.

Record TicketBody : Type := MkTicketBody { id : OpaqueHash; attempt : Z }.

#[export] Instance TicketBody_eq_dec : EqDecision TicketBody.
Proof. solve_decision. Defined.

Record TicketEnvelope : Type := MkTicketEnvelope {
  envelope_attempt : Z; envelope_signature : BandersnatchSignature }.

(** [types::TicketsOrKeys], a variant. *)
Inductive TicketsOrKeys : Type :=
| Tickets (t : list TicketBody)
| Keys (k : list BandersnatchPublic).

(** The entropy buffer, [std::array] of four hashes. *)
Record EtaBuffer : Type := MkEta { eta_0 : OpaqueHash; eta_1 : OpaqueHash; eta_2 : OpaqueHash; eta_3 : OpaqueHash }.

Record Input : Type := MkInput { slot : Z; entropy : OpaqueHash; extrinsic : list TicketEnvelope }.

Record EpochMark : Type := MkEpochMark {
  mark_entropy : OpaqueHash;
  tickets_entropy : OpaqueHash;
  validators : list BandersnatchPublic
}.

Record OutputData : Type := MkOutputData {
  epoch_mark : option EpochMark;
  tickets_mark : option (list TicketBody)
}.

Inductive Error : Type :=
| bad_slot
| unexpected_ticket
| bad_ticket_order
| bad_ticket_proof
| bad_ticket_attempt
| duplicate_ticket.

Inductive Output : Type :=
| OutputErr (e : Error)
| OutputOk (data : OutputData).

Section operations.
Context `{VT : ValidatorTypes, B : Blake2b, V : ArkVrf, TB : TicketsBodies}.

Record State : Type := MkState {
  tau : Z;
  eta : EtaBuffer;
  lambda : list ValidatorData;
  kappa : list ValidatorData;
  gamma_k : list ValidatorData;
  iota : list ValidatorData;
  gamma_a : list TicketBody;
  gamma_s : TicketsOrKeys;
  gamma_z : Bytes;
  post_offenders : list Bytes
}.

Abbreviation step := (run Error).

Definition banderout (signature : BandersnatchSignature) : option OpaqueHash :=
  Bandersnatch.output signature.

Definition TicketBodyLess (l r : TicketBody) : Prop := bytes_lt (id l) (id r).

#[global] Instance TicketBodyLess_dec : RelDecision TicketBodyLess :=
  fun l r => bytes_lt_dec (id l) (id r).

(** [ring_ctx]: the function-local static map from ring size to ring context. *)
Abbreviation RingCache := (gmap Z Bandersnatch.Ring).

Definition ring_ctx (map : RingCache) (config : Config) : Bandersnatch.Ring * RingCache :=
  let n := validators_count config in
  match map !! n with
  | Some ring => (ring, map)
  | None => let ring := Bandersnatch.ring_new n in (ring, <[n := ring]> map)
  end.

(** ["jam_ticket_seal"] *)
Definition X_T : Bytes := [106; 97; 109; 95; 116; 105; 99; 107; 101; 116; 95; 115; 101; 97; 108].

(** The maximum number of tickets in a single extrinsic. *)
Definition K : Z := 16.

Definition bandersnatch_keys (validators : list ValidatorData) : list BandersnatchPublic :=
  bandersnatch_of <$> validators.

(** The map is a cache of a pure function ([ring_ctx_cached] below): the ring it
    returns is the one it would construct from an empty map. *)
Definition the_ring (config : Config) : Bandersnatch.Ring := (ring_ctx ∅ config).1.

Definition mathcal_O (config : Config) (pks : list BandersnatchPublic) : step Bytes :=
  commitment ← Bandersnatch.commitment (the_ring config) pks;
  value commitment "bad optional access".

Definition bandersnatch (config : Config) (gamma_z input : Bytes) (signature : BandersnatchSignature) : option OpaqueHash :=
  Bandersnatch.verify (Bandersnatch.verifier (the_ring config) gamma_z) input signature.

Record Epoch : Type := MkEpoch { epoch : Z; phase : Z }.

(** [Epoch(E, slot)]: dividing by zero is undefined. *)
Definition epoch_of {X} (E slot : Z) : run X Epoch :=
  require (negb (E =? 0));;
  mret (MkEpoch (slot / E) (slot mod E)).

(** [Y]: the slots into an epoch at which ticket submission ends, 32-bit. *)
Definition submission_end (config : Config) : Z := u32 (epoch_length config * 5) / 6.

(** [phi]: the keys of offenders are zeroed. *)
Definition phi (post_offenders : list Bytes) (k : list ValidatorData) : list ValidatorData :=
  (fun validator => if bool_decide (ed25519_of validator ∈ post_offenders)
                    then ValidatorData_default else validator) <$> k.

(** The keys after the epoch check: gamma_k', kappa', lambda', gamma_z'. *)
Definition rotate_keys (config : Config) (state : State) (change_epoch : bool) :
    step (list ValidatorData * list ValidatorData * list ValidatorData * Bytes) :=
  if change_epoch then
    let gamma_tick_k := phi (post_offenders state) (iota state) in
    z ← mathcal_O config (bandersnatch_keys gamma_tick_k);
    mret (gamma_tick_k, gamma_k state, kappa state, z)
  else mret (gamma_k state, kappa state, lambda state, gamma_z state).

Definition rotate_eta (state : State) (input : Input) (change_epoch : bool) : EtaBuffer :=
  let e := eta state in
  let eta_tick_0 := mathcal_H (frown (eta_0 e) (entropy input)) in
  if change_epoch then MkEta eta_tick_0 (eta_0 e) (eta_1 e) (eta_2 e)
  else MkEta eta_tick_0 (eta_1 e) (eta_2 e) (eta_3 e).

(** The body of the loop over [extrinsic], on [prev_ticket] and [gamma_tick_a]. *)
Definition add_ticket (config : Config) (gamma_z eta_tick_2 : Bytes)
    (s : option TicketBody * list TicketBody) (envelope : TicketEnvelope) :
    step (option TicketBody * list TicketBody) :=
  let '(prev_ticket, gamma_tick_a) := s in
  let att := envelope_attempt envelope in
  let m := frown X_T (doubleplus eta_tick_2 att) in
  match bandersnatch config gamma_z m (envelope_signature envelope) with
  | None => Fail bad_ticket_proof
  | Some ticket_id =>
      let ticket := MkTicketBody ticket_id att in
      fail_if (tickets_per_validator config <=? att) bad_ticket_attempt;;
      fail_if (bool_decide (ticket ∈ gamma_tick_a)) duplicate_ticket;;
      fail_if (match prev_ticket with Some p => bool_decide (TicketBodyLess ticket p) | None => false end)
        bad_ticket_order;;
      let gamma_tick_a := set_emplace TicketBodyLess ticket gamma_tick_a in
      let gamma_tick_a :=
        if epoch_length config <? Z.of_nat (length gamma_tick_a)
        then take (length gamma_tick_a - 1) gamma_tick_a else gamma_tick_a in
      mret (Some ticket, gamma_tick_a)
  end.

Definition accumulate_tickets (config : Config) (state : State) (input : Input)
    (change_epoch : bool) (eta_tick_2 : Bytes) : step (list TicketBody) :=
  let gamma_tick_a := if change_epoch then [] else set_insert_range TicketBodyLess [] (gamma_a state) in
  '(_, gamma_tick_a) ← foldM (add_ticket config (gamma_z state) eta_tick_2) (None, gamma_tick_a) (extrinsic input);
  mret gamma_tick_a.

(** One iteration of the loop of [Z]: iterators as positions; moving an iterator
    before the first element is undefined. *)
Definition Z_step (s : list TicketBody) (st : Z * Z * bool * list TicketBody) (_ : nat) :
    step (Z * Z * bool * list TicketBody) :=
  let '(it1, it2, odd, tickets) := st in
  ticket ← at_idx s (if (odd : bool) then it1 else it2);
  if odd then mret (it1 + 1, it2, negb odd, tickets ++ [ticket])
  else require (0 <? it2);; mret (it1, it2 - 1, negb odd, tickets ++ [ticket]).

(** [Z]: the outside-in sequence. *)
Definition Z_order (config : Config) (s : list TicketBody) : step (list TicketBody) :=
  raise_if (negb (Z.of_nat (length s) =? epoch_length config)) "Z";;
  require (negb (length s =? 0)%nat);;
  '(_, _, _, tickets) ← foldM (Z_step s) (0, Z.of_nat (length s) - 1, true, []) (seq 0 (Z.to_nat (configSize config)));
  mret tickets.

(** [F]: the fallback keys. *)
Definition F_step (r : OpaqueHash) (k : list ValidatorData) (keys : list BandersnatchPublic) (i : nat) :
    step (list BandersnatchPublic) :=
  first ← first_bytes 4 (mathcal_H (frown r (mathcal_E 4 (Z.of_nat i))));
  validator ← circlearrowleft k (de first);
  mret (keys ++ [bandersnatch_of validator]).

Definition F_keys (config : Config) (r : OpaqueHash) (k : list ValidatorData) : step (list BandersnatchPublic) :=
  foldM (F_step r k) [] (seq 0 (Z.to_nat (epoch_length config))).

(** gamma_s': tickets of a full accumulator when exactly one epoch has passed
    since the end of submission, the old series within an epoch, else fallback. *)
Definition seal_keys (config : Config) (state : State) (e e_tick m : Z) (eta_tick_2 : Bytes)
    (kappa_tick : list ValidatorData) : step TicketsOrKeys :=
  if (e_tick =? u32 (e + 1)) && (submission_end config <=? m)
     && (Z.of_nat (length (gamma_a state)) =? epoch_length config)
  then t ← Z_order config (gamma_a state); mret (Tickets t)
  else if e_tick =? e then mret (gamma_s state)
  else k ← F_keys config eta_tick_2 kappa_tick; mret (Keys k).

Definition make_tickets_mark (config : Config) (state : State) (e e_tick m m_tick : Z) :
    step (option (list TicketBody)) :=
  let Y := submission_end config in
  if (e_tick =? e) && (m <? Y) && (Y <=? m_tick)
     && (Z.of_nat (length (gamma_a state)) =? epoch_length config)
  then t ← Z_order config (gamma_a state); mret (Some t)
  else mret None.

(** The marker of a new epoch. *)
Definition make_epoch_mark (change_epoch : bool) (eta_tick : EtaBuffer) (gamma_tick_k : list ValidatorData) : option EpochMark :=
  if change_epoch then Some (MkEpochMark (eta_1 eta_tick) (eta_2 eta_tick) (bandersnatch_keys gamma_tick_k)) else None.

Definition transition_run (config : Config) (state : State) (input : Input) : step (State * OutputData) :=
  let E := epoch_length config in
  let Y := submission_end config in
  fail_if (slot input <=? tau state) bad_slot;;
  ep ← epoch_of E (tau state);
  ep_tick ← epoch_of E (slot input);
  let e := epoch ep in let m := phase ep in
  let e_tick := epoch ep_tick in let m_tick := phase ep_tick in
  let change_epoch := negb (e_tick =? e) in
  raise_if (K <? Z.of_nat (length (extrinsic input))) "not covered by test vectors";;
  fail_if ((Y <=? m_tick) && negb (bool_decide (extrinsic input = []))) unexpected_ticket;;
  '(gamma_tick_k, kappa_tick, lambda_tick, gamma_tick_z) ← rotate_keys config state change_epoch;
  let eta_tick := rotate_eta state input change_epoch in
  gamma_tick_a ← accumulate_tickets config state input change_epoch (eta_2 eta_tick);
  gamma_tick_s ← seal_keys config state e e_tick m (eta_2 eta_tick) kappa_tick;
  let mark := make_epoch_mark change_epoch eta_tick gamma_tick_k in
  tmark ← make_tickets_mark config state e e_tick m m_tick;
  mret (MkState (slot input) eta_tick lambda_tick kappa_tick gamma_tick_k (iota state)
          gamma_tick_a gamma_tick_s gamma_tick_z (post_offenders state),
        MkOutputData mark tmark).

(** [error(e)] returns the unchanged state with the error code. *)
Definition transition (config : Config) (state : State) (input : Input) : run Empty_set (State * Output) :=
  match transition_run config state input with
  | Done (state_tick, data) => Done (state_tick, OutputOk data)
  | Fail e => Done (state, OutputErr e)
  | Raise w => Raise w
  | Undef => Undef
  end.

End operations.
End Safrole.
