(* ===== verification/SafroleSpec.v ===== *)
(** * SafroleSpec: what the Safrole transition computes

    Reference definitions without loops or iterators for
    [src/test-vectors/safrole/safrole.hpp], the invariant of the state, and the
    theorems that relate them to [Safrole.transition]. *)

From S2P Require Import Prelude Containers Common Crypto JamTypes Safrole.

Module SafroleSpec.
Import Safrole.

(** ** The outside-in order *)

Definition outside_in_idx (n i : nat) : nat := if Nat.even i then Nat.div2 i else (n - 1 - Nat.div2 i)%nat.

Definition outside_in (s : list TicketBody) : list TicketBody :=
  (fun i => nth (outside_in_idx (length s) i) s (MkTicketBody [] 0)) <$> seq 0 (length s).

Lemma outside_in_idx_lt n i : (i < n)%nat -> (outside_in_idx n i < n)%nat.
Proof. unfold outside_in_idx. rewrite Nat.div2_div. intros Hi. pose proof (Nat.Div0.div_le_mono 0 i 2).
  assert (i / 2 <= i)%nat by (apply Nat.Div0.div_le_upper_bound; lia). case_match; lia. Qed.

Lemma outside_in_idx_inj n i j :
  (i < n)%nat -> (j < n)%nat -> outside_in_idx n i = outside_in_idx n j -> i = j.
Proof.
  unfold outside_in_idx. intros Hi Hj.
  pose proof (Nat.div2_odd i) as Hdi. pose proof (Nat.div2_odd j) as Hdj.
  rewrite <-(Nat.negb_even i) in Hdi. rewrite <-(Nat.negb_even j) in Hdj.
  destruct (Nat.even i), (Nat.even j); cbn in Hdi, Hdj; lia.
Qed.

(** Nothing is lost or repeated. *)
Lemma outside_in_perm s : outside_in s ≡ₚ s.
Proof.
  unfold outside_in. set (n := length s).
  assert (outside_in_idx n <$> seq 0 n ≡ₚ seq 0 n) as Hp.
  { apply submseteq_length_Permutation; [|by rewrite length_fmap].
    apply NoDup_submseteq.
    - apply NoDup_fmap_2_strong; [|apply NoDup_seq].
      intros i j Hi%elem_of_seq Hj%elem_of_seq. apply outside_in_idx_inj; lia.
    - intros k (i & -> & Hi%elem_of_seq)%list_elem_of_fmap.
      apply elem_of_seq. pose proof (outside_in_idx_lt n i). lia. }
  change (fun i => nth (outside_in_idx n i) s (MkTicketBody [] 0))
    with ((fun k => nth k s (MkTicketBody [] 0)) ∘ outside_in_idx n).
  rewrite list_fmap_compose, Hp.
  assert ((fun k => nth k s (MkTicketBody [] 0)) <$> seq 0 n = s) as ->; [|done].
  apply list_eq. intros i. rewrite list_lookup_fmap. destruct (decide (i < n)%nat).
  - rewrite lookup_seq_lt by done. cbn. destruct (lookup_lt_is_Some_2 s i) as [x Hx]; [done|].
    rewrite Hx. f_equal. by apply nth_lookup_Some.
  - rewrite lookup_seq_ge by lia. symmetry. apply lookup_ge_None_2. lia.
Qed.

Section spec.
Context `{VT : ValidatorTypes, B : Blake2b, V : ArkVrf, TB : TicketsBodies}.

(** The state of the loop after [k] iterations. *)
Lemma Z_steps s k :
  (k <= length s)%nat ->
  foldM (Z_step s) (0, Z.of_nat (length s) - 1, true, []) (seq 0 k) =
  Done (Z.of_nat (Nat.div2 (S k)), Z.of_nat (length s) - 1 - Z.of_nat (Nat.div2 k), Nat.even k,
        take k (outside_in s)).
Proof.
  induction k as [|k IH]; intros Hk; [cbn -[Z.sub]; by rewrite Z.sub_0_r|].
  rewrite seq_S, foldM_app, IH by lia. cbn [foldM mbind run_bind]. clear IH.
  unfold Z_step. cbn beta iota.
  pose proof (Nat.div2_odd k) as Hd. rewrite <-(Nat.negb_even k) in Hd.
  assert (outside_in s !! k = s !! outside_in_idx (length s) k) as Hout.
  { unfold outside_in. rewrite list_lookup_fmap, lookup_seq_lt by lia. cbn.
    destruct (lookup_lt_is_Some_2 s (outside_in_idx (length s) k)) as [x Hx];
      [apply outside_in_idx_lt; lia|]. rewrite Hx. f_equal. by apply nth_lookup_Some. }
  destruct (lookup_lt_is_Some_2 s (outside_in_idx (length s) k)) as [x Hx]; [apply outside_in_idx_lt; lia|].
  rewrite (take_S_r (outside_in s) k x) by congruence.
  rewrite Nat.even_succ, <-Nat.negb_even. unfold outside_in_idx in Hx.
  assert (Nat.div2 (S (S k)) = S (Nat.div2 k)) as HSS by done.
  destruct (Nat.even k) eqn:He; cbn [Nat.b2n negb] in Hd.
  - assert (Nat.div2 (S k) = Nat.div2 k) as HS by (rewrite Nat.div2_div; symmetry; apply (Nat.div_unique _ _ _ 1); lia).
    rewrite HS, HSS. rewrite (proj2 (at_idx_Done _ _ x)) by (rewrite Nat2Z.id; split; [lia|done]).
    cbn [mbind run_bind negb]. unfold mret, run_ret. apply (f_equal Done). repeat apply (f_equal2 pair); try done; lia.
  - assert (Nat.div2 (S k) = S (Nat.div2 k)) as HS by (rewrite Nat.div2_div; symmetry; apply (Nat.div_unique _ _ _ 0); lia).
    rewrite HS, HSS. rewrite (proj2 (at_idx_Done _ _ x)).
    2: { replace (Z.to_nat _) with (length s - 1 - Nat.div2 k)%nat by lia. split; [lia|done]. }
    cbn [mbind run_bind negb]. rewrite (proj2 (Z.ltb_lt 0 _)) by lia. cbn.
    unfold mret, run_ret. apply (f_equal Done). repeat apply (f_equal2 pair); try done; lia.
Qed.

Lemma Z_order_outside_in config s :
  0 < epoch_length config -> configSize config = epoch_length config ->
  Z.of_nat (length s) = epoch_length config ->
  Z_order config s = Done (outside_in s).
Proof.
  intros HE Hsize Hs. unfold Z_order. rewrite Hs, Z.eqb_refl. cbn [negb raise_if mbind run_bind].
  rewrite (proj2 (Nat.eqb_neq (length s) 0)) by lia. cbn [negb require mbind run_bind].
  rewrite <-Hs at 1. rewrite Hsize, <-Hs, Nat2Z.id, Z_steps by done. cbn [mbind run_bind]. unfold mret, run_ret.
  f_equal. apply take_ge. unfold outside_in. by rewrite length_fmap, length_seq.
Qed.

(** ** The ticket accumulator *)

Definition keep (config : Config) (l : list TicketBody) : list TicketBody :=
  take (Z.to_nat (epoch_length config)) (as_set TicketBodyLess l).

(** The ticket an envelope proves, if any. *)
Definition ticket_of (config : Config) (z eta2 : Bytes) (env : TicketEnvelope) : option TicketBody :=
  i ← bandersnatch config z (frown X_T (doubleplus eta2 (envelope_attempt env))) (envelope_signature env);
  Some (MkTicketBody i (envelope_attempt env)).

Record tickets_ok (config : Config) (z eta2 : Bytes) (old : list TicketBody)
    (envs : list TicketEnvelope) (ts : list TicketBody) : Prop := {
  ok_proofs : Forall2 (fun env t => ticket_of config z eta2 env = Some t) envs ts;
  ok_attempts : Forall (fun t => attempt t < tickets_per_validator config) ts;
  ok_order : Sorted (fun a b => ¬ TicketBodyLess b a) ts;
  ok_fresh : forall i t, ts !! i = Some t -> t ∉ keep config (old ++ take i ts)
}.

Lemma as_set_tickets l : StronglySorted TicketBodyLess l -> as_set TicketBodyLess l = l.
Proof. exact (as_set_of_sorted id bytes_lt l). Qed.

Lemma keep_snoc config l t :
  let s := set_emplace TicketBodyLess t (keep config l) in
  0 <= epoch_length config ->
  (if epoch_length config <? Z.of_nat (length s) then take (length s - 1) s else s) = keep config (l ++ [t]).
Proof.
  intros s HE.
  assert (length s <= S (Z.to_nat (epoch_length config)))%nat as Hlen.
  { etrans; [exact (length_set_emplace id bytes_lt t (keep config l))|].
    unfold keep. rewrite length_take. lia. }
  assert (keep config (l ++ [t]) = take (Z.to_nat (epoch_length config)) s) as ->.
  { unfold keep, s, as_set, set_insert_range. rewrite foldl_snoc. symmetry.
    exact (take_set_emplace id bytes_lt _ t _). }
  destruct (Z.ltb_spec (epoch_length config) (Z.of_nat (length s))).
  - f_equal. lia.
  - symmetry. apply take_ge. lia.
Qed.

Lemma add_ticket_Done config z eta2 old prev env s' :
  0 <= epoch_length config ->
  add_ticket config z eta2 (prev, keep config old) env = Done s' <->
  exists t, ticket_of config z eta2 env = Some t /\ attempt t < tickets_per_validator config
    /\ t ∉ keep config old /\ (forall p, prev = Some p -> ¬ TicketBodyLess t p)
    /\ s' = (Some t, keep config (old ++ [t])).
Proof.
  intros HE. unfold add_ticket, ticket_of. destruct (bandersnatch _ _ _ _) as [i|]; cbn [mbind option_bind]; [|naive_solver].
  rewrite keep_snoc by done. set (t := MkTicketBody i (envelope_attempt env)). split.
  - intros Hrun. run_inv. exists t. split_and!; [done|by apply Z.leb_gt| | |done].
    + by eapply bool_decide_eq_false.
    + intros p ->. by eapply bool_decide_eq_false.
  - intros (? & [= <-] & Hatt & Hfresh & Hprev & ->). cbn [attempt t] in Hatt.
    rewrite (proj2 (Z.leb_gt _ _)) by done. cbn [fail_if mbind run_bind]. rewrite bool_decide_eq_false_2 by done. cbn [fail_if mbind run_bind].
    destruct prev as [p|]; [|done]. by rewrite bool_decide_eq_false_2 by (by apply Hprev).
Qed.

Lemma add_tickets_Done config z eta2 envs : 0 <= epoch_length config -> forall old prev a,
  (exists p, foldM (add_ticket config z eta2) (prev, keep config old) envs = Done (p, a)) <->
  exists ts, tickets_ok config z eta2 old envs ts
    /\ (forall p t, prev = Some p -> head ts = Some t -> ¬ TicketBodyLess t p) /\ a = keep config (old ++ ts).
Proof.
  intros HE. induction envs as [|env envs IH]; intros old prev a; cbn [foldM].
  { split.
    - intros [p [= -> <-]]. exists []. rewrite app_nil_r. split; [|done].
      split; [constructor..|]. intros i t. by rewrite lookup_nil.
    - intros (ts & [Hp _ _ _] & _ & ->). apply Forall2_nil_inv_l in Hp as ->. rewrite app_nil_r. by eexists. }
  split.
  - intros [p ([q a'] & (t & Ht & Hatt & Hfresh & Hprev & [= -> ->])%add_ticket_Done & Hrun)%bind_Done]; [|done].
    destruct (proj1 (IH (old ++ [t]) (Some t) a)) as (ts & [Hp Ha Hs Hf] & Hhd & ->); [by exists p|].
    exists (t :: ts). split; [split|].
    + by constructor.
    + by constructor.
    + constructor; [done|]. destruct ts as [|t' ts]; constructor. by apply Hhd.
    + intros [|i] t' Hi; cbn in Hi |- *; [injection Hi as <-; by rewrite app_nil_r|].
      rewrite cons_middle, (assoc_L (++)). by apply Hf.
    + split; [|by rewrite <-(assoc_L (++))]. intros p' t' Hp' [= <-]. by apply Hprev.
  - intros (ts & [Hp Ha Hs Hf] & Hhd & ->). apply Forall2_cons_inv_l in Hp as (t & ts' & Ht & Hp & ->).
    apply Forall_cons in Ha as [Hatt Ha]. apply Sorted_inv in Hs as [Hs Hrel].
    destruct (proj2 (IH (old ++ [t]) (Some t) (keep config ((old ++ [t]) ++ ts')))) as [p Hrun].
    { exists ts'. split; [split|split]; [done..| | |done].
      - intros i t' Hi. specialize (Hf (S i) t' Hi). cbn in Hf. by rewrite <-(assoc_L (++)).
      - intros p' t' [= <-] Ht'. destruct ts'; [done|]. injection Ht' as ->. by inversion Hrel. }
    exists p. apply bind_Done. exists (Some t, keep config (old ++ [t])). split.
    + apply add_ticket_Done; [done|]. exists t. split_and!; [done..| | |done].
      * specialize (Hf 0%nat t eq_refl). by rewrite app_nil_r in Hf.
      * intros p' Hp'. by apply Hhd.
    + by rewrite Hrun, <-(assoc_L (++)).
Qed.

(** ** The fallback keys *)

Definition fallback (config : Config) (r : OpaqueHash) (k : list ValidatorData) : list BandersnatchPublic :=
  (fun i => bandersnatch_of (nth (Z.to_nat (le_value (take 4 (mathcal_H (r ++ le_bytes 4 (Z.of_nat i))))
     mod Z.of_nat (length k))) k ValidatorData_default))
  <$> seq 0 (Z.to_nat (epoch_length config)).

Lemma F_keys_fallback `{HB : !Blake2bOk B} config r k :
  epoch_length config < 2 ^ 32 -> k <> [] -> F_keys config r k = Done (fallback config r k).
Proof.
  intros HE Hk. unfold F_keys, fallback.
  assert (Z.of_nat (Z.to_nat (epoch_length config)) < 2 ^ 32) as Hn by lia. revert Hn.
  generalize (Z.to_nat (epoch_length config)) as n.
  induction n as [|n IH]; intros Hn; [done|].
  rewrite seq_S, Nat.add_0_l, foldM_app, IH, fmap_app by lia. cbn [foldM mbind run_bind]. unfold F_step.
  assert (mathcal_E 4 (Z.of_nat n) = le_bytes 4 (Z.of_nat n)) as ->
    by (unfold mathcal_E; rewrite wrap_id by lia; done).
  unfold first_bytes, frown. rewrite length_mathcal_H, bool_decide_eq_false_2 by lia.
  cbn [mbind run_bind raise_if mret run_ret].
  set (h := take 4 _). unfold circlearrowleft, de.
  assert (0 < Z.of_nat (length k)) by (destruct k; [done|cbn; lia]).
  rewrite (proj2 (Z.eqb_neq (Z.of_nat (length k)) 0)) by lia. cbn [negb require mbind run_bind].
  pose proof (Z.mod_pos_bound (le_value h) (Z.of_nat (length k))).
  destruct (@at_idx_inside Error _ k (le_value h mod Z.of_nat (length k))) as (v & Hv & ->); [lia|].
  cbn. do 3 f_equal. by rewrite (nth_lookup_Some _ _ _ _ Hv).
Qed.

(** ** The invariant of the state *)

Definition series_length (s : TicketsOrKeys) : nat :=
  match s with Tickets t => length t | Keys k => length k end.

Record wf (config : Config) (state : State) : Prop := {
  wf_E : 0 < epoch_length config < 2 ^ 32;
  wf_size : configSize config = epoch_length config;
  wf_count : 0 < validators_count config;
  wf_tau : 0 <= tau state;
  wf_iota : Z.of_nat (length (iota state)) = validators_count config;
  wf_gamma_k : Z.of_nat (length (gamma_k state)) = validators_count config;
  wf_kappa : Z.of_nat (length (kappa state)) = validators_count config;
  wf_lambda : Z.of_nat (length (lambda state)) = validators_count config;
  wf_sorted : StronglySorted TicketBodyLess (gamma_a state);
  wf_bounded : Z.of_nat (length (gamma_a state)) <= epoch_length config;
  wf_series : Z.of_nat (series_length (gamma_s state)) = epoch_length config
}.

(** ** The declarative transition *)

Section rule.
Context (config : Config) (state : State) (input : Input).

Abbreviation E := (epoch_length config).
Abbreviation Y := (submission_end config).

Definition epoch_before : Z := tau state / E.
Definition epoch_after : Z := slot input / E.
Definition phase_before : Z := tau state mod E.
Definition phase_after : Z := slot input mod E.

Definition new_eta : EtaBuffer :=
  let h := mathcal_H (eta_0 (eta state) ++ entropy input) in
  if decide (epoch_after = epoch_before) then MkEta h (eta_1 (eta state)) (eta_2 (eta state)) (eta_3 (eta state))
  else MkEta h (eta_0 (eta state)) (eta_1 (eta state)) (eta_2 (eta state)).

(** The next validators, with the offenders' keys replaced by zeroes. *)
Definition without_offenders : list ValidatorData :=
  (fun v => if decide (ed25519_of v ∈ post_offenders state) then ValidatorData_default else v) <$> iota state.

Definition new_ring_root : Bytes :=
  jam_bandersnatch_ring_commitment (jam_bandersnatch_ring_new (validators_count config))
    (bandersnatch_of <$> without_offenders).

Definition new_series : TicketsOrKeys :=
  if decide (epoch_after = epoch_before) then gamma_s state
  else if decide (epoch_after = u32 (epoch_before + 1) /\ Y <= phase_before
                  /\ Z.of_nat (length (gamma_a state)) = E)
  then Tickets (outside_in (gamma_a state))
  else Keys (fallback config (eta_2 new_eta) (gamma_k state)).

Definition new_tickets_mark : option (list TicketBody) :=
  if decide (epoch_after = epoch_before /\ phase_before < Y <= phase_after /\ Z.of_nat (length (gamma_a state)) = E)
  then Some (outside_in (gamma_a state)) else None.

Definition old_tickets : list TicketBody := if decide (epoch_after = epoch_before) then gamma_a state else [].

Definition new_state (ts : list TicketBody) : State :=
  if decide (epoch_after = epoch_before) then
    MkState (slot input) new_eta (lambda state) (kappa state) (gamma_k state) (iota state)
      (keep config (gamma_a state ++ ts)) (gamma_s state) (gamma_z state) (post_offenders state)
  else
    MkState (slot input) new_eta (kappa state) (gamma_k state) without_offenders (iota state)
      (keep config ts) new_series new_ring_root (post_offenders state).

Definition new_output : OutputData :=
  if decide (epoch_after = epoch_before) then MkOutputData None new_tickets_mark
  else MkOutputData
    (Some (MkEpochMark (eta_1 new_eta) (eta_2 new_eta) (bandersnatch_of <$> without_offenders))) None.

Record accepted (ts : list TicketBody) : Prop := {
  acc_slot : tau state < slot input;
  acc_phase : Y <= phase_after -> extrinsic input = [];
  acc_tickets : tickets_ok config (gamma_z state) (eta_2 new_eta) old_tickets (extrinsic input) ts
}.

End rule.

(** ** The whole transition *)

Lemma the_ring_new config : the_ring config = Bandersnatch.ring_new (validators_count config).
Proof. unfold the_ring, ring_ctx. by rewrite lookup_empty. Qed.

Lemma mathcal_O_Done config pks :
  0 < validators_count config -> Z.of_nat (length pks) = validators_count config ->
  mathcal_O config pks =
  Done (jam_bandersnatch_ring_commitment (jam_bandersnatch_ring_new (validators_count config)) pks).
Proof.
  intros Hn Hlen. unfold mathcal_O, Bandersnatch.commitment. rewrite the_ring_new. cbn [Bandersnatch.count Bandersnatch.ring_new].
  rewrite Hlen, Z.eqb_refl. cbn [negb]. rewrite (proj2 (Nat.eqb_neq (length pks) 0)) by lia. done.
Qed.

Lemma phi_without_offenders state : phi (post_offenders state) (iota state) = without_offenders state.
Proof.
  apply list_fmap_ext. intros i v _. case_bool_decide; [by rewrite decide_True|by rewrite decide_False].
Qed.

Lemma succ_epoch_ne e : u32 (e + 1) <> e.
Proof. unfold wrap. intros He. pose proof (Z.div_mod (e + 1) (2 ^ 32)). lia. Qed.

Section whole.
Context `{HB : !Blake2bOk B} (config : Config) (state : State) (input : Input) (Hwf : wf config state).

Abbreviation e := (epoch_before config state).
Abbreviation e' := (epoch_after config input).
Abbreviation changed := (negb (e' =? e)).

Lemma if_changed {X} (a b : X) : (if changed then a else b) = if decide (e' = e) then b else a.
Proof. destruct (Z.eqb_spec e' e); case_decide; done. Qed.

Lemma rotate_keys_Done :
  rotate_keys config state changed = Done
    (if decide (e' = e) then (gamma_k state, kappa state, lambda state, gamma_z state)
     else (without_offenders state, gamma_k state, kappa state, new_ring_root config state)).
Proof.
  unfold rotate_keys. rewrite if_changed, phi_without_offenders. case_decide; [done|].
  unfold bandersnatch_keys. rewrite mathcal_O_Done; [done|apply Hwf|].
  unfold without_offenders. rewrite !length_fmap. apply Hwf.
Qed.

Lemma rotate_eta_new : rotate_eta state input changed = new_eta config state input.
Proof. unfold rotate_eta, new_eta. rewrite if_changed. by case_decide. Qed.

Lemma old_tickets_keep :
  (if changed then [] else set_insert_range TicketBodyLess [] (gamma_a state)) = keep config (old_tickets config state input).
Proof.
  rewrite if_changed. unfold old_tickets, keep. case_decide.
  - change (set_insert_range TicketBodyLess [] (gamma_a state)) with (as_set TicketBodyLess (gamma_a state)).
    rewrite as_set_tickets by apply Hwf.
    symmetry. apply take_ge. pose proof (wf_bounded _ _ Hwf). lia.
  - symmetry. apply take_nil.
Qed.

Lemma accumulate_Done a :
  accumulate_tickets config state input changed (eta_2 (new_eta config state input)) = Done a <->
  exists ts, tickets_ok config (gamma_z state) (eta_2 (new_eta config state input))
      (old_tickets config state input) (extrinsic input) ts
    /\ a = keep config (old_tickets config state input ++ ts).
Proof.
  assert (0 <= epoch_length config) as HE by (destruct (wf_E _ _ Hwf); lia).
  unfold accumulate_tickets. rewrite old_tickets_keep.
  pose proof (add_tickets_Done config (gamma_z state) (eta_2 (new_eta config state input)) (extrinsic input) HE
    (old_tickets config state input) None a) as Hiff. split.
  - intros ([p a'] & Hrun & [= ->])%bind_Done. destruct (proj1 Hiff) as (ts & ? & _ & ?); [by exists p|]. by exists ts.
  - intros (ts & Hok & ->). destruct (proj2 Hiff) as [p Hrun]; [by exists ts|]. by rewrite Hrun.
Qed.

Lemma seal_keys_Done :
  seal_keys config state e e' (phase_before config state) (eta_2 (new_eta config state input))
    (if decide (e' = e) then kappa state else gamma_k state) = Done (new_series config state input).
Proof.
  unfold seal_keys, new_series. destruct (decide (e' = e)) as [He|He].
  - rewrite He. rewrite (proj2 (Z.eqb_neq e (u32 (e + 1)))) by (apply not_eq_sym, succ_epoch_ne).
    cbn [andb]. by rewrite Z.eqb_refl.
  - destruct ((e' =? u32 (e + 1)) && (submission_end config <=? phase_before config state)
      && (Z.of_nat (length (gamma_a state)) =? epoch_length config)) eqn:Hc.
    + rewrite !andb_true_iff, !Z.eqb_eq, Z.leb_le in Hc. rewrite decide_True by tauto.
      rewrite Z_order_outside_in; [done|apply Hwf|apply Hwf|apply Hc].
    + rewrite decide_False.
      2: { intros (H1 & H2 & H3). rewrite (proj2 (Z.eqb_eq _ _) H1), (proj2 (Z.leb_le _ _) H2),
             (proj2 (Z.eqb_eq _ _) H3) in Hc. done. }
      rewrite (proj2 (Z.eqb_neq _ _) He), F_keys_fallback; [done|apply Hwf|].
      intros Hk. pose proof (wf_gamma_k _ _ Hwf) as Hl. pose proof (wf_count _ _ Hwf). rewrite Hk in Hl. cbn in Hl. lia.
Qed.

Lemma tickets_mark_Done :
  make_tickets_mark config state e e' (phase_before config state) (phase_after config input)
  = Done (new_tickets_mark config state input).
Proof.
  unfold make_tickets_mark, new_tickets_mark.
  destruct ((e' =? e) && (phase_before config state <? submission_end config)
    && (submission_end config <=? phase_after config input)
    && (Z.of_nat (length (gamma_a state)) =? epoch_length config)) eqn:Hc.
  - rewrite !andb_true_iff, !Z.eqb_eq, Z.leb_le, Z.ltb_lt in Hc. rewrite decide_True by tauto.
    rewrite Z_order_outside_in; [done|apply Hwf|apply Hwf|apply Hc].
  - rewrite decide_False; [done|]. intros (H1 & [H2 H3] & H4).
    rewrite (proj2 (Z.eqb_eq _ _) H1), (proj2 (Z.ltb_lt _ _) H2), (proj2 (Z.leb_le _ _) H3), (proj2 (Z.eqb_eq _ _) H4) in Hc.
    done.
Qed.

Lemma transition_run_slot :
  slot input <= tau state -> transition_run config state input = Fail bad_slot.
Proof. intros Hs. unfold transition_run. by rewrite (proj2 (Z.leb_le _ _)). Qed.

(** Past the slot check only the phase and the tickets can stop the block. *)
Lemma transition_run_steps :
  tau state < slot input -> (length (extrinsic input) <= 16)%nat ->
  transition_run config state input =
    (fail_if ((submission_end config <=? phase_after config input) && negb (bool_decide (extrinsic input = [])))
       unexpected_ticket;;
     a ← accumulate_tickets config state input changed (eta_2 (new_eta config state input));
     Done (MkState (slot input) (new_eta config state input)
             (if decide (e' = e) then lambda state else kappa state)
             (if decide (e' = e) then kappa state else gamma_k state)
             (if decide (e' = e) then gamma_k state else without_offenders state)
             (iota state) a (new_series config state input)
             (if decide (e' = e) then gamma_z state else new_ring_root config state) (post_offenders state),
           MkOutputData
             (if decide (e' = e) then None else Some (MkEpochMark (eta_1 (new_eta config state input))
                (eta_2 (new_eta config state input)) (bandersnatch_of <$> without_offenders state)))
             (new_tickets_mark config state input))).
Proof.
  intros Hslot Hk. unfold transition_run. rewrite (proj2 (Z.leb_gt _ _)) by lia. cbn [fail_if mbind run_bind].
  unfold epoch_of. rewrite (proj2 (Z.eqb_neq (epoch_length config) 0)) by (destruct (wf_E _ _ Hwf); lia).
  cbn [negb require mbind run_bind mret run_ret epoch phase].
  rewrite (proj2 (Z.ltb_ge K _)) by (unfold K; lia). cbn [raise_if mbind run_bind].
  change (slot input mod epoch_length config) with (phase_after config input).
  change (tau state mod epoch_length config) with (phase_before config state).
  change (slot input / epoch_length config) with e'. change (tau state / epoch_length config) with e.
  destruct (fail_if _ unexpected_ticket) as [[]|err|w|]; cbn [mbind run_bind]; try done.
  rewrite rotate_keys_Done, rotate_eta_new. cbn [mbind run_bind].
  destruct (accumulate_tickets _ _ _ _ _) as [a|err|w|];
    [|destruct (decide (e' = e)); done..].
  cbn [mbind run_bind]. pose proof seal_keys_Done as Hseal. pose proof tickets_mark_Done as Hmark.
  destruct (decide (e' = e)) as [He|He];
    [rewrite (proj2 (Z.eqb_eq _ _) He)|rewrite (proj2 (Z.eqb_neq _ _) He)]; cbn beta iota;
    rewrite Hseal; cbn [mbind run_bind]; rewrite Hmark; done.
Qed.

Lemma safrole_run_Done r :
  (length (extrinsic input) <= 16)%nat ->
  transition_run config state input = Done r <->
  exists ts, accepted config state input ts /\ r = (new_state config state input ts, new_output config state input).
Proof.
  intros Hk. destruct (decide (tau state < slot input)) as [Hslot|Hslot].
  2: { rewrite transition_run_slot by lia. split; [done|]. intros (ts & [? _ _] & _). lia. }
  rewrite transition_run_steps by done.
  assert (forall ts, (MkState (slot input) (new_eta config state input)
             (if decide (e' = e) then lambda state else kappa state)
             (if decide (e' = e) then kappa state else gamma_k state)
             (if decide (e' = e) then gamma_k state else without_offenders state)
             (iota state) (keep config (old_tickets config state input ++ ts)) (new_series config state input)
             (if decide (e' = e) then gamma_z state else new_ring_root config state) (post_offenders state),
           MkOutputData
             (if decide (e' = e) then None else Some (MkEpochMark (eta_1 (new_eta config state input))
                (eta_2 (new_eta config state input)) (bandersnatch_of <$> without_offenders state)))
             (new_tickets_mark config state input)) = (new_state config state input ts, new_output config state input)) as Hnew.
  { intros ts. unfold new_state, new_output, old_tickets, new_series, new_tickets_mark.
    destruct (decide (e' = e)) as [He|He]; [done|]. rewrite (decide_False (P := e' = e /\ _)) by tauto. done. }
  split.
  - intros (u & Hph%fail_if_Done & (a & (ts & Hok & ->)%accumulate_Done & Hr)%bind_Done)%bind_Done.
    exists ts. rewrite <-Hnew. split; [|by injection Hr]. split; [done| |done].
    intros Hy. rewrite (proj2 (Z.leb_le _ _)) in Hph by done.
    cbn [andb] in Hph. rewrite negb_false_iff in Hph. by apply bool_decide_eq_true in Hph.
  - intros (ts & [_ Hph Hok] & ->). apply bind_Done. exists tt. split.
    + apply fail_if_Done. destruct (Z.leb_spec (submission_end config) (phase_after config input)); [|done].
      rewrite bool_decide_eq_true_2 by auto. done.
    + apply bind_Done. eexists. split; [apply accumulate_Done; by exists ts|]. by rewrite Hnew.
Qed.

Lemma safrole_run_returns :
  (length (extrinsic input) <= 16)%nat -> returns (transition_run config state input).
Proof.
  intros Hk. destruct (decide (tau state < slot input)) as [Hslot|Hslot].
  2: { by rewrite transition_run_slot by lia. }
  rewrite transition_run_steps by done. apply returns_bind; [auto with jam|]. intros _ _.
  apply returns_bind; [|done]. unfold accumulate_tickets. apply returns_bind; [|run_returns].
  apply returns_foldM. intros [p a] env _. unfold add_ticket.
  destruct (bandersnatch _ _ _ _); [|done]. run_returns.
Qed.

Lemma safrole_cases :
  (length (extrinsic input) <= 16)%nat ->
  (exists ts, accepted config state input ts /\ transition config state input =
     Done (new_state config state input ts, OutputOk (new_output config state input)))
  \/ ((forall ts, ¬ accepted config state input ts)
     /\ exists err, transition config state input = Done (state, OutputErr err)).
Proof.
  intros Hk. pose proof (safrole_run_returns Hk) as Hret. pose proof (fun r => safrole_run_Done r Hk) as Hiff.
  unfold transition. destruct (transition_run config state input) as [r|err|w|]; [left|right|done..].
  - destruct (proj1 (Hiff r) eq_refl) as (ts & Hacc & ->). by exists ts.
  - split; [|by exists err]. intros ts Hacc. discriminate (proj2 (Hiff _) (ex_intro _ ts (conj Hacc eq_refl))).
Qed.

Lemma keep_sorted l : StronglySorted TicketBodyLess (keep config l).
Proof.
  unfold keep. apply (sorted_take id bytes_lt). exact (as_set_sorted id bytes_lt l).
Qed.

Lemma length_keep l : Z.of_nat (length (keep config l)) <= epoch_length config.
Proof. unfold keep. rewrite length_take. destruct (wf_E _ _ Hwf). lia. Qed.

(** A ticket that is not kept was crowded out. *)
Lemma keep_lowest l t :
  t ∈ l -> id t ∉ id <$> keep config l ->
  Z.of_nat (length (keep config l)) = epoch_length config /\ Forall (fun t' => TicketBodyLess t' t) (keep config l).
Proof.
  intros Ht Hno.
  assert (id t ∈ id <$> as_set TicketBodyLess l) as Hin.
  { pose proof (proj2 (elem_of_set_insert_range_keys id bytes_lt (id t) [] l)) as Hk. apply Hk.
    right. by apply list_elem_of_fmap_2. }
  unfold keep in *. set (n := Z.to_nat (epoch_length config)) in *.
  assert (StronglySorted TicketBodyLess (as_set TicketBodyLess l)) as Hs by exact (as_set_sorted id bytes_lt l).
  rewrite <-(take_drop n (as_set TicketBodyLess l)) in Hin, Hs. rewrite fmap_app, elem_of_app in Hin.
  destruct Hin as [?|(t' & Htt' & Ht')%list_elem_of_fmap]; [done|]. split.
  - rewrite length_take. destruct (wf_E _ _ Hwf).
    assert (0 < length (drop n (as_set TicketBodyLess l)))%nat by (destruct (drop n _); [by apply not_elem_of_nil in Ht'|cbn; lia]).
    rewrite length_drop in *. lia.
  - rewrite Forall_forall. intros x Hx. unfold TicketBodyLess. rewrite Htt'.
    exact (StronglySorted_app_1_elem_of TicketBodyLess _ _ x t' Hs Hx Ht').
Qed.

Lemma keep_subset l t : t ∈ keep config l -> t ∈ l.
Proof.
  unfold keep. intros Ht%(subseteq_take _ _). unfold as_set, set_insert_range in Ht. revert t Ht.
  assert (forall l s t, t ∈ foldl (fun s x => set_emplace TicketBodyLess x s) s l -> t ∈ s \/ t ∈ l) as Hgen.
  { clear. induction l as [|x l IH]; intros s t; cbn; [by left|]. intros [Ht|Ht]%IH; [|right; by apply list_elem_of_further].
    apply (elem_of_set_emplace_inv id bytes_lt) in Ht as [->|Ht]; [right; apply list_elem_of_here|by left]. }
  intros t [Ht|Ht]%Hgen; [by apply elem_of_nil in Ht|done].
Qed.

Lemma transition_too_many :
  tau state < slot input /\ K < Z.of_nat (length (extrinsic input)) ->
  transition config state input = Raise "not covered by test vectors".
Proof.
  intros [Hs Hk]. unfold transition, transition_run. rewrite (proj2 (Z.leb_gt _ _)) by lia. cbn [fail_if mbind run_bind].
  unfold epoch_of. rewrite (proj2 (Z.eqb_neq (epoch_length config) 0)) by (destruct (wf_E _ _ Hwf); lia).
  cbn [negb require mbind run_bind mret run_ret epoch phase]. by rewrite (proj2 (Z.ltb_lt _ _)) by done.
Qed.

(** What an accepting run returns. *)
Lemma transition_new state' data :
  transition config state input = Done (state', OutputOk data) ->
  exists ts, accepted config state input ts /\ state' = new_state config state input ts.
Proof.
  intros Hrun. destruct (decide (tau state < slot input)) as [Hs|Hs].
  2: { unfold transition in Hrun. by rewrite transition_run_slot in Hrun by lia. }
  destruct (decide (K < Z.of_nat (length (extrinsic input)))) as [Hk|Hk]; [by rewrite transition_too_many in Hrun|].
  unfold K in Hk. destruct safrole_cases as [(ts & Hacc & Heq)|[_ [err Heq]]]; [lia|..]; rewrite Heq in Hrun; [|done].
  injection Hrun as <- _. by exists ts.
Qed.

Lemma candidate_tickets ts state' t :
  accepted config state input ts -> state' = new_state config state input ts ->
  (slot input / epoch_length config = tau state / epoch_length config /\ t ∈ gamma_a state)
  \/ (exists env, env ∈ extrinsic input /\ ticket_of config (gamma_z state) (eta_2 (eta state')) env = Some t)
  <-> t ∈ old_tickets config state input ++ ts.
Proof.
  intros [_ _ [Hp _ _ _]] ->. rewrite elem_of_app. unfold old_tickets.
  assert (eta (new_state config state input ts) = new_eta config state input) as -> by (unfold new_state; by case_decide).
  split.
  - intros [[He Ht]|(env & Henv & Ht)]; [left; unfold epoch_after, epoch_before; by rewrite decide_True|right].
    apply list_elem_of_lookup_1 in Henv as [i Hi]. destruct (Forall2_lookup_l _ _ _ _ _ Hp Hi) as (t' & Hi' & Ht').
    rewrite Ht in Ht'. injection Ht' as <-. by eapply list_elem_of_lookup_2.
  - intros [Ht|Ht]; [left; unfold epoch_after, epoch_before in Ht; case_decide; [done|by apply elem_of_nil in Ht]|right].
    apply list_elem_of_lookup_1 in Ht as [i Hi]. destruct (Forall2_lookup_r _ _ _ _ _ Hp Hi) as (env & Henv & Ht).
    exists env. split; [by eapply list_elem_of_lookup_2|done].
Qed.

Lemma new_state_wf ts : accepted config state input ts -> wf config (new_state config state input ts).
Proof.
  intros [Hslot _ _]. pose proof (wf_tau _ _ Hwf). unfold new_state, new_series.
  destruct (decide (e' = e)) as [He|He]; (split; try apply Hwf; cbn [tau lambda kappa gamma_k gamma_a gamma_s];
    [lia|..]); try apply keep_sorted; try apply length_keep.
  - unfold without_offenders. rewrite length_fmap. apply Hwf.
  - case_decide as Hs; cbn [series_length].
    + unfold outside_in. rewrite length_fmap, length_seq. tauto.
    + unfold fallback. rewrite length_fmap, length_seq. destruct (wf_E _ _ Hwf). lia.
Qed.

End whole.

(** An accepted block, and a sequence of them. *)
Definition accepts (config : Config) (state : State) (input : Input) (state' : State) (data : OutputData) : Prop :=
  (length (extrinsic input) <= 16)%nat /\ transition config state input = Done (state', OutputOk data).

Inductive chain (config : Config) : State -> list Input -> State -> Prop :=
| chain_nil state : chain config state [] state
| chain_cons state input state1 data inputs state2 :
    accepts config state input state1 data -> chain config state1 inputs state2 ->
    chain config state (input :: inputs) state2.

Section chains.
Context `{HB : !Blake2bOk B} (config : Config).

Lemma accepts_new state input state' data :
  wf config state -> accepts config state input state' data ->
  exists ts, accepted config state input ts /\ state' = new_state config state input ts
    /\ data = new_output config state input /\ wf config state'.
Proof.
  intros Hwf [Hk Hrun]. destruct (safrole_cases config state input Hwf Hk) as [(ts & Hacc & Heq)|[_ [err Heq]]];
    rewrite Heq in Hrun; [|done]. injection Hrun as <- <-. exists ts. split_and!; [done..|]. by apply new_state_wf.
Qed.

Lemma new_state_tau state input ts : tau (new_state config state input ts) = slot input.
Proof. unfold new_state. by case_decide. Qed.

(** A block after the end of submission in the same epoch keeps the tickets. *)
Lemma new_state_late state input ts :
  wf config state -> accepted config state input ts ->
  epoch_after config input = epoch_before config state -> submission_end config <= phase_after config input ->
  gamma_a (new_state config state input ts) = gamma_a state.
Proof.
  intros Hwf [_ Hph Hok] He Hy. unfold new_state. rewrite decide_True by done. cbn [gamma_a].
  specialize (Hph Hy). rewrite Hph in Hok. destruct Hok as [Hp _ _ _]. apply Forall2_nil_inv_l in Hp as ->.
  rewrite app_nil_r. unfold keep. rewrite as_set_tickets by apply Hwf. apply take_ge.
  pose proof (wf_bounded _ _ Hwf). lia.
Qed.

(** Blocks of one epoch after the end of submission leave the tickets alone. *)
Lemma late_chain st bs st2 :
  wf config st -> chain config st bs st2 ->
  submission_end config <= tau st mod epoch_length config ->
  Forall (fun b => slot b / epoch_length config = tau st / epoch_length config) bs ->
  wf config st2 /\ tau st2 / epoch_length config = tau st / epoch_length config
  /\ submission_end config <= tau st2 mod epoch_length config /\ gamma_a st2 = gamma_a st.
Proof.
  intros Hwf Hc. induction Hc as [st|st b st1 d bs st2 Hab Hc IH]; intros Hy Hbs; [done|].
  apply Forall_cons in Hbs as [Hb Hbs].
  destruct (accepts_new _ _ _ _ Hwf Hab) as (ts & Hacc & -> & _ & Hwf').
  assert (submission_end config <= phase_after config b) as Hyb.
  { unfold phase_after. pose proof (acc_slot _ _ _ _ Hacc). destruct (wf_E _ _ Hwf).
    pose proof (Z.div_mod (slot b) (epoch_length config)). pose proof (Z.div_mod (tau st) (epoch_length config)).
    rewrite Hb in *. lia. }
  rewrite new_state_tau, Hb in IH. destruct IH as (? & ? & ? & Hg); [done..|].
  split_and!; [done..|]. rewrite Hg. by apply new_state_late.
Qed.

End chains.

(** ** Properties *)

(** C3: [transition] from a well-formed state, for every block. A block with a later slot
    and more than K = 16 tickets makes it throw ("not covered by test vectors"); for every
    other block it neither throws nor leaves the defined behaviour: it accepts exactly the
    blocks with a later slot, no tickets after the end of submission, and valid tickets in
    order; then it returns the state and the markers of the declarative rule (entropy and
    key rotation on a new epoch, outside-in or fallback sealing keys, the lowest tickets of
    the union). Otherwise it returns an error and the old state. *)
Theorem safrole_accepts `{HB : !Blake2bOk B} config state input :
  wf config state ->
  if decide (tau state < slot input /\ K < Z.of_nat (length (extrinsic input))) then
    transition config state input = Raise "not covered by test vectors"
  else
    (exists ts, accepted config state input ts /\ transition config state input =
       Done (new_state config state input ts, OutputOk (new_output config state input)))
    \/ ((forall ts, ¬ accepted config state input ts)
       /\ exists err, transition config state input = Done (state, OutputErr err)).
Proof.
  intros Hwf. case_decide as Hd; [by apply transition_too_many|]. unfold K in Hd.
  destruct (decide (tau state < slot input)) as [Hs|Hs]; [apply safrole_cases; [done|lia]|].
  right. split; [intros ts [? _ _]; lia|]. exists bad_slot. unfold transition. by rewrite transition_run_slot by (done || lia).
Qed.

(** C22: the ticket accumulator of the state that [transition] returns when it accepts a
    block, from a well-formed state. It is strictly sorted and never longer than an epoch.
    It holds nothing but tickets of the old accumulator (within an epoch) and tickets the
    envelopes of the block prove. And it holds the lowest of them: one that is missing was
    crowded out by [epoch_length] tickets with lower identifiers. *)
Theorem safrole_tickets `{HB : !Blake2bOk B} config state input state' data :
  wf config state -> transition config state input = Done (state', OutputOk data) ->
  let a := gamma_a state' in
  let candidate t :=
    (slot input / epoch_length config = tau state / epoch_length config /\ t ∈ gamma_a state)
    \/ exists env, env ∈ extrinsic input /\ ticket_of config (gamma_z state) (eta_2 (eta state')) env = Some t in
  StronglySorted TicketBodyLess a
  /\ Z.of_nat (length a) <= epoch_length config
  /\ (forall t, t ∈ a -> candidate t)
  /\ (forall t, candidate t -> id t ∉ id <$> a ->
       Z.of_nat (length a) = epoch_length config /\ Forall (fun t' => TicketBodyLess t' t) a).
Proof.
  intros Hwf Hrun a candidate. destruct (transition_new config state input Hwf state' data Hrun) as (ts & Hacc & Hs).
  assert (a = keep config (old_tickets config state input ++ ts)) as Ha.
  { unfold a. rewrite Hs. unfold new_state, old_tickets. by destruct (decide _). }
  assert (forall t, candidate t <-> t ∈ old_tickets config state input ++ ts) as Hc.
  { intros t. by apply candidate_tickets. }
  rewrite Ha. split_and!; [apply keep_sorted|by eapply length_keep| |].
  - intros t Ht. apply Hc. by eapply keep_subset.
  - intros t Ht%Hc. by eapply keep_lowest.
Qed.

(** C23: well-formedness is an invariant of the chain: after any sequence of
    accepted blocks the validator sets still have [validators_count] entries, the
    accumulator is sorted and bounded and the sealing series is one key per slot;
    the slots of the blocks strictly increase. *)
Theorem safrole_chain `{HB : !Blake2bOk B} config state inputs state' :
  wf config state -> chain config state inputs state' ->
  wf config state' /\ StronglySorted Z.lt (tau state :: (slot <$> inputs))
  /\ last (tau state :: (slot <$> inputs)) = Some (tau state').
Proof.
  intros Hwf Hc. induction Hc as [state|state input state1 data inputs state2 Ha Hc IH].
  { split_and!; [done| |done]. by repeat constructor. }
  destruct (accepts_new _ _ _ _ _ Hwf Ha) as (ts & [Hslot _ _] & -> & _ & Hwf1).
  specialize (IH Hwf1). rewrite new_state_tau in IH. destruct IH as (Hwf2 & Hs & Hl).
  split_and!; [done| |].
  - constructor; [done|]. constructor; [done|]. apply StronglySorted_inv in Hs as [_ Hall].
    eapply Forall_impl; [exact Hall|]. cbn. lia.
  - exact Hl.
Qed.

(** C24: the winning-tickets marker is a promise that is kept: if a block carries a
    tickets marker [t], then after any further blocks of the same epoch, the first
    block of the next epoch makes exactly [t] the sealing series. *)
Theorem safrole_mark_kept `{HB : !Blake2bOk B} config state0 b0 state1 data0 t bs state2 b3 state3 data3 :
  wf config state0 ->
  accepts config state0 b0 state1 data0 -> tickets_mark data0 = Some t ->
  chain config state1 bs state2 ->
  Forall (fun b => slot b / epoch_length config = slot b0 / epoch_length config) bs ->
  accepts config state2 b3 state3 data3 ->
  slot b3 / epoch_length config = slot b0 / epoch_length config + 1 ->
  slot b0 / epoch_length config + 1 < 2 ^ 32 ->
  gamma_s state3 = Tickets t.
Proof.
  intros Hwf H0 Ht Hc Hbs H3 He3 Hlt.
  destruct (accepts_new _ _ _ _ _ Hwf H0) as (ts0 & Hacc0 & -> & -> & Hwf1).
  unfold new_output in Ht. destruct (decide (epoch_after config b0 = epoch_before config state0)) as [He0|]; [|done].
  cbn in Ht. unfold new_tickets_mark in Ht. case_decide as Hm; [|done]. injection Ht as <-.
  destruct Hm as (_ & [_ Hy] & Hfull).
  pose proof (new_state_late _ _ _ _ Hwf Hacc0 He0 Hy) as Hga.
  assert (wf config state2 /\ tau state2 / epoch_length config = slot b0 / epoch_length config
    /\ submission_end config <= tau state2 mod epoch_length config /\ gamma_a state2 = gamma_a state0) as (Hwf2 & Ht2 & Hp2 & Hg2).
  { rewrite <-Hga, <-(new_state_tau config state0 b0 ts0). apply (late_chain config _ bs); [done..| |];
      rewrite new_state_tau; done. }
  destruct (accepts_new _ _ _ _ _ Hwf2 H3) as (ts3 & Hacc3 & -> & _ & _).
  unfold new_state, new_series, epoch_after, epoch_before, phase_before. rewrite Ht2, He3.
  rewrite decide_False by lia. cbn [gamma_s].
  pose proof (wf_tau _ _ Hwf2). destruct (wf_E _ _ Hwf2).
  assert (0 <= tau state2 / epoch_length config) by (apply Z.div_pos; lia).
  rewrite Ht2 in *. rewrite decide_False by lia. rewrite decide_True; [by rewrite Hg2|].
  split_and!; [rewrite wrap_id by lia; done|done|by rewrite Hg2].
Qed.

(** The static ring cache is not observable: whatever ring sizes were asked for
    before, [ring_ctx] returns the ring of the configured size, and the cache keeps
    mapping each size to its own ring. *)
Theorem ring_ctx_cached configs config :
  let cache := foldl (fun c cfg => (ring_ctx c cfg).2) ∅ configs in
  (ring_ctx cache config).1 = the_ring config
  /\ map_Forall (fun n ring => ring = Bandersnatch.ring_new n) cache.
Proof.
  intros cache. rewrite the_ring_new.
  assert (map_Forall (fun n ring => ring = Bandersnatch.ring_new n) cache) as Hc.
  { unfold cache. induction configs as [|cfg l IH] using rev_ind; [apply map_Forall_empty|].
    rewrite foldl_snoc. unfold ring_ctx at 1. destruct (_ !! _); [done|]. by apply map_Forall_insert_2. }
  split; [|done]. unfold ring_ctx. destruct (cache !! validators_count config) eqn:Hn; [|done]. by apply Hc.
Qed.

End spec.

(** ** Concrete blocks *)

Module Samples.

#[local] Instance sample_types : ValidatorTypes :=
  {| ValidatorData := Bytes; bandersnatch_of := fun v => v; ed25519_of := fun v => v; ValidatorData_default := [0] |}.

(** A digest that pads with zeroes. *)
#[local] Instance sample_blake : Blake2b := {|
  blake2b_state := Bytes;
  blake2b_init _ := [];
  blake2b_update s x := s ++ x;
  blake2b_final s n := (fun b => b mod 256) <$> take (Z.to_nat n) (s ++ replicate (Z.to_nat n) 0)
|}.

#[local] Instance sample_blake_ok : Blake2bOk sample_blake.
Proof.
  split; cbn.
  - intros s n Hn. rewrite length_fmap, length_take, length_app, length_replicate. lia.
  - intros s n. apply Forall_fmap, Forall_true. intros b. by apply Z.mod_pos_bound.
Qed.

(** A ring proof shows the identifier it proves; the proof [[7]] is invalid. *)
#[local] Instance sample_vrf : ArkVrf := {|
  JamBandersnatchRing := Z;
  JamBandersnatchRingVerifier := Bytes;
  jam_bandersnatch_output sig := (true, sig);
  jam_bandersnatch_ring_new n := n;
  jam_bandersnatch_ring_commitment r pks := concat pks;
  jam_bandersnatch_ring_verifier_new r c := c;
  jam_bandersnatch_ring_verifier_verify v input sig := (negb (bool_decide (sig = [7])), sig)
|}.

#[local] Instance sample_size : TicketsBodies := epoch_length.

(** Epochs of three slots, submission in the first two; two validators. *)
Definition config : Config := MkConfig 3 2 2 3 2 8 80.

Definition tickets : list TicketBody := [MkTicketBody [1] 0; MkTicketBody [2] 1; MkTicketBody [3] 0].

Definition state : State := MkState 0 (MkEta [10] [11] [12] [13]) [[21]; [22]] [[23]; [24]] [[25]; [26]] [[27]; [28]]
  tickets (Keys [[23]; [24]; [23]]) [30] [[28]].

Lemma state_wf : wf config state.
Proof. split; try done; cbn; repeat constructor; cbn; lia. Qed.

(** The last slot of the epoch, and the first slot of the next. *)
Definition block_late : Input := MkInput 2 [5] [].
Definition state_late : State := MkState 2 (MkEta (mathcal_H [10; 5]) [11] [12] [13]) [[21]; [22]] [[23]; [24]]
  [[25]; [26]] [[27]; [28]] tickets (Keys [[23]; [24]; [23]]) [30] [[28]].
Definition block_next : Input := MkInput 3 [6] [].

Definition mark_list : list TicketBody := [MkTicketBody [1] 0; MkTicketBody [3] 0; MkTicketBody [2] 1].

Lemma late_run : accepts config state block_late state_late (MkOutputData None (Some mark_list)).
Proof. split; [cbn; lia|]. vm_compute. reflexivity. Qed.

(** Seventeen tickets are too many. *)
Definition block_full : Input := MkInput 1 [5] (replicate 17 (MkTicketEnvelope 0 [9])).

Lemma safrole_accepts_witness :
  (exists ts, accepted config state block_late ts /\ gamma_a (new_state config state block_late ts) = tickets)
  /\ transition config state block_full = Raise "not covered by test vectors".
Proof.
  split.
  - destruct (safrole_accepts config state block_late state_wf) as [(ts & Hacc & Hrun)|[_ [err Hrun]]].
    + exists ts. split; [exact Hacc|]. rewrite (proj2 late_run) in Hrun.
      exact (eq_sym (f_equal (fun r => match r with Done (s, _) => gamma_a s | _ => [] end) Hrun)).
    + rewrite (proj2 late_run) in Hrun. discriminate.
  - exact (safrole_accepts config state block_full state_wf).
Defined.

(** A ticket below the accumulated ones is admitted and the highest leaves. *)
Definition block_ticket : Input := MkInput 1 [5] [MkTicketEnvelope 2 [0]].

Definition ticket_run : State :=
  match transition config state block_ticket with Done (state', _) => state' | _ => state end.

Lemma ticket_runs : transition config state block_ticket = Done (ticket_run, OutputOk (MkOutputData None None)).
Proof. vm_compute. reflexivity. Qed.

Lemma safrole_tickets_witness : Z.of_nat (length (gamma_a ticket_run)) = 3.
Proof.
  destruct (safrole_tickets config state block_ticket ticket_run (MkOutputData None None) state_wf ticket_runs) as (_ & _ & _ & Hout).
  refine (proj1 (Hout (MkTicketBody [3] 0) _ _)).
  - left. split; [reflexivity|]. apply (bool_decide_unpack _). vm_compute. exact I.
  - apply (bool_decide_unpack _). vm_compute. exact I.
Defined.

Lemma safrole_chain_witness : wf config state_late /\ tau state_late = 2.
Proof.
  destruct (safrole_chain config state [block_late] state_late state_wf) as (Hwf & _ & Hl).
  - eapply chain_cons; [exact late_run|apply chain_nil].
  - split; [exact Hwf|]. reflexivity.
Defined.

Lemma safrole_mark_kept_witness :
  exists state3 data3, accepts config state_late block_next state3 data3 /\ gamma_s state3 = Tickets mark_list.
Proof.
  assert (exists state3 data3, accepts config state_late block_next state3 data3) as (state3 & data3 & Hrun).
  { do 2 eexists. split; [cbn; lia|]. vm_compute. reflexivity. }
  exists state3, data3. split; [exact Hrun|].
  refine (safrole_mark_kept config state block_late state_late _ mark_list [] state_late block_next state3 data3
    state_wf late_run _ _ _ Hrun _ _); [reflexivity|apply chain_nil|constructor|reflexivity|reflexivity].
Defined.

(** The same ticket twice, higher than every accumulated one. *)
Definition block_duplicate : Input := MkInput 1 [5] [MkTicketEnvelope 0 [9]; MkTicketEnvelope 0 [9]].

(** A ticket submitted twice in one block is not always rejected: with a full
    accumulator a ticket above all kept ones is dropped at once, so the duplicate
    check no longer sees it and the order check admits equal identifiers, although
    duplicate identifiers are never to be allowed. *)
Theorem duplicate_ticket_accepted :
  exists state' data, transition config state block_duplicate = Done (state', OutputOk data)
    /\ ¬ NoDup (extrinsic block_duplicate) /\ gamma_a state' = gamma_a state.
Proof.
  eexists _, _. split; [vm_compute; reflexivity|]. split; [|reflexivity].
  intros Hnd. apply NoDup_cons in Hnd as [Hno _]. apply Hno. left.
Qed.

End Samples.
End SafroleSpec.
