(* ===== verification/Murmur.v ===== *)
(** * Murmur: the compile-time hash of event and thread names

    [src/src/se/impl/compile-time_murmur2.hpp]: the recursive [constexpr]
    MurmurHash2, against the usual iterative formulation (mix whole words, then
    the tail, then the avalanche). *)

From S2P Require Import Prelude.

Module Murmur.

(** The characters of a literal, as the [int] values they promote to. *)
Abbreviation chars := (list Z).

Definition init (len : Z) : Z := Z.lxor 0 len.

(** [data[i]]; the positions read are inside the literal. *)
Definition char_at (data : chars) (i : Z) : Z := nth (Z.to_nat i) data 0.

Definition load (data : chars) (offset : Z) : Z :=
  u32 (Z.lor (Z.lor (Z.lor (char_at data (offset + 0))
    (Z.shiftl (char_at data (offset + 1)) 8)) (Z.shiftl (char_at data (offset + 2)) 16))
    (Z.shiftl (char_at data (offset + 3)) 24)).

Definition mul (val1 val2 : Z) : Z := u32 (val1 * val2).
Definition sl (value count : Z) : Z := u32 (Z.shiftl value count).
Definition sr (value count : Z) : Z := Z.shiftr value count.
Definition xor (h k : Z) : Z := Z.lxor h k.
Definition xor_with_sr (k r : Z) : Z := xor k (sr k r).

(** [__proc__]: every call shortens the rest, so [len] calls suffice. *)
Fixpoint proc (fuel : nat) (data : chars) (len offset h m r : Z) : Z :=
  match fuel with
  | O => xor (mul (xor_with_sr h 13) m) (sr (mul (xor_with_sr h 13) m) 15)
  | S fuel =>
      if 4 <=? len then
        proc fuel data (len - 4) (offset + 4)
          (xor (mul h m) (mul (xor_with_sr (mul (load data offset) m) r) m)) m r
      else if len =? 3 then proc fuel data (len - 1) offset (xor h (sl (u32 (char_at data (offset + 2))) 16)) m r
      else if len =? 2 then proc fuel data (len - 1) offset (xor h (sl (u32 (char_at data (offset + 1))) 8)) m r
      else if len =? 1 then proc fuel data (len - 1) offset (mul (xor h (u32 (char_at data offset))) m) m r
      else xor (mul (xor_with_sr h 13) m) (sr (mul (xor_with_sr h 13) m) 15)
  end.

Definition murmur2 (data : chars) (len : Z) : Z := proc (Z.to_nat len) data len 0 (init len) 0x5bd1e995 24.

(** [CT_MURMUR2(x)]: the literal without its terminating zero. *)
Definition CT_MURMUR2 (x : chars) : Z := murmur2 x (Z.of_nat (length x)).

(** ** The iterative formulation *)

Definition M : Z := 0x5bd1e995.

(** A little-endian 32-bit word. *)
Definition word (b0 b1 b2 b3 : Z) : Z :=
  u32 (Z.lor (Z.lor (Z.lor b0 (Z.shiftl b1 8)) (Z.shiftl b2 16)) (Z.shiftl b3 24)).

Definition mix (h k : Z) : Z :=
  let k := mul k M in
  let k := Z.lxor k (Z.shiftr k 24) in
  let k := mul k M in
  Z.lxor (mul h M) k.

Definition avalanche (h : Z) : Z :=
  let h := Z.lxor h (Z.shiftr h 13) in
  let h := mul h M in
  Z.lxor h (Z.shiftr h 15).

Definition tail (h : Z) (rest : chars) : Z :=
  match rest with
  | [b0] => mul (Z.lxor h (u32 b0)) M
  | [b0; b1] => mul (Z.lxor (Z.lxor h (sl (u32 b1) 8)) (u32 b0)) M
  | [b0; b1; b2] => mul (Z.lxor (Z.lxor (Z.lxor h (sl (u32 b2) 16)) (sl (u32 b1) 8)) (u32 b0)) M
  | _ => h
  end.

Fixpoint words (h : Z) (data : chars) : Z :=
  match data with
  | b0 :: b1 :: b2 :: b3 :: data => words (mix h (word b0 b1 b2 b3)) data
  | rest => tail h rest
  end.

Definition murmur_hash2 (data : chars) : Z := avalanche (words (Z.of_nat (length data)) data).

Lemma char_at_app pre data i :
  0 <= i -> char_at (pre ++ data) (Z.of_nat (length pre) + i) = char_at data i.
Proof.
  intros Hi. unfold char_at. replace (Z.to_nat (Z.of_nat (length pre) + i)) with (length pre + Z.to_nat i)%nat by lia.
  apply app_nth2_plus.
Qed.

(** The recursion from any position hashes the rest of the literal. *)
Lemma proc_words fuel pre rest h :
  (length rest <= fuel)%nat ->
  proc fuel (pre ++ rest) (Z.of_nat (length rest)) (Z.of_nat (length pre)) h M 24 = avalanche (words h rest).
Proof.
  revert pre rest h. induction fuel as [fuel IH] using lt_wf_ind. intros pre rest h Hfuel.
  assert (char_at (pre ++ rest) (Z.of_nat (length pre)) = char_at rest 0) as H0
    by (rewrite <-(Z.add_0_r (Z.of_nat (length pre))); by apply char_at_app).
  assert (char_at (pre ++ rest) (Z.of_nat (length pre) + 1) = char_at rest 1) as H1 by by apply char_at_app.
  assert (char_at (pre ++ rest) (Z.of_nat (length pre) + 2) = char_at rest 2) as H2 by by apply char_at_app.
  destruct rest as [|b0 [|b1 [|b2 [|b3 rest]]]]; cbn [length] in Hfuel.
  - by destruct fuel.
  - change (Z.of_nat (length [b0])) with 1.
    destruct fuel as [|[|fuel]]; [lia| |]; cbn -[char_at mul sl wrap]; rewrite H0; done.
  - change (Z.of_nat (length [b0; b1])) with 2.
    destruct fuel as [|[|[|fuel]]]; [lia|lia| |]; cbn -[char_at mul sl wrap]; rewrite H0, H1; done.
  - change (Z.of_nat (length [b0; b1; b2])) with 3.
    destruct fuel as [|[|[|[|fuel]]]]; [lia|lia|lia| |]; cbn -[char_at mul sl wrap]; rewrite H0, H1, H2; done.
  - destruct fuel as [|fuel]; [lia|]. cbn [proc].
    replace (4 <=? _) with true by (symmetry; apply Z.leb_le; cbn [length]; lia).
    replace (Z.of_nat (length (b0 :: b1 :: b2 :: b3 :: rest)) - 4) with (Z.of_nat (length rest)) by (cbn [length]; lia).
    rewrite (assoc_L (++) pre [b0; b1; b2; b3] rest : pre ++ b0 :: b1 :: b2 :: b3 :: rest = _).
    replace (Z.of_nat (length pre) + 4) with (Z.of_nat (length (pre ++ [b0; b1; b2; b3])))
      by (rewrite length_app; cbn; lia).
    rewrite IH by (cbn in Hfuel; lia). cbn [words]. do 2 f_equal.
    unfold mix, xor, xor_with_sr, sr, xor. do 5 f_equal; unfold load, word; rewrite <-(assoc_L (++)), !char_at_app by lia; done.
Qed.

(** The recursive compile-time hash terminates within [len] steps and is
    MurmurHash2 with seed zero: whole little-endian words mixed in order, then
    the one to three remaining characters, then the final avalanche. *)
Theorem murmur2_iterative data : CT_MURMUR2 data = murmur_hash2 data.
Proof.
  unfold CT_MURMUR2, murmur2, murmur_hash2. rewrite Nat2Z.id.
  change (init (Z.of_nat (length data))) with (Z.of_nat (length data)).
  exact (proc_words (length data) [] data (Z.of_nat (length data)) (le_n _)).
Qed.

(** The values the header asserts. *)
Definition codes (s : string) : chars := (fun c => Z.of_N (Ascii.N_of_ascii c)) <$> String.list_ascii_of_string s.

Example murmur2_ring : CT_MURMUR2 (codes "Called the One Ring, or the Ruling Ring.") = 1333588607.
Proof. vm_compute. reflexivity. Qed.

Example murmur2_sauron :
  CT_MURMUR2 (codes "Fashioned by Sauron a decade after the making of the Elven rings in the fires of Mount Doom in Mordor and which")
  = 1319897327.
Proof. vm_compute. reflexivity. Qed.

Example murmur2_fire : CT_MURMUR2 (codes "could only be destroyed in that same fire.") = 702138758.
Proof. vm_compute. reflexivity. Qed.

End Murmur.
