(* ===== verification/Parsers.v ===== *)
(** * Parsers: quantities with units

    [src/src/utils/parsers.hpp]: [iequals], [parseByteQuantity] and
    [parseTimeDuration].  Text is a list of ASCII characters; the character
    classes are those of the "C" locale. *)

From S2P Require Import Prelude.
From Stdlib Require Import Ascii.

Module Parsers.

Abbreviation text := (list ascii).

Definition chars (s : string) : text := String.list_ascii_of_string s.

Definition code (c : ascii) : Z := Z.of_N (N_of_ascii c).

Definition tolower (c : ascii) : Z := if (65 <=? code c) && (code c <=? 90) then code c + 32 else code c.

Definition isdigit (c : ascii) : bool := (48 <=? code c) && (code c <=? 57).

(** Space, tab, line feed, vertical tab, form feed, carriage return. *)
Definition isspace (c : ascii) : bool := (code c =? 32) || ((9 <=? code c) && (code c <=? 13)).

(** The characters of [" \t\n\r"]. *)
Definition trimmed (c : ascii) : bool := (code c =? 32) || (code c =? 9) || (code c =? 10) || (code c =? 13).

Fixpoint iequals (lhs rhs : text) : bool :=
  match lhs, rhs with
  | [], [] => true
  | a :: lhs, b :: rhs => (tolower a =? tolower b) && iequals lhs rhs
  | _, _ => false
  end.

(** Skip the characters of a class from the front. *)
Fixpoint skip (p : ascii -> bool) (s : text) : text :=
  match s with
  | c :: s' => if p c then skip p s' else s
  | [] => []
  end.

(** [find_first_not_of], [find_last_not_of], [substr]: nothing when every
    character is white space. *)
Definition trim (input : text) : option text :=
  match skip trimmed input with
  | [] => None
  | s => Some (reverse (skip trimmed (reverse s)))
  end.

(** The longest prefix of digits and the rest. *)
Fixpoint span_digits (s : text) : text * text :=
  match s with
  | c :: s' => if isdigit c then let '(d, r) := span_digits s' in (c :: d, r) else ([], s)
  | [] => ([], [])
  end.

Definition digits_value (s : text) : Z := foldl (fun n c => 10 * n + (code c - 48)) 0 s.

Definition UINT64_MAX : Z := 2 ^ 64 - 1.

(** [std::from_chars] on digits: out of range is an error. *)
Definition from_chars (s : text) : option Z :=
  if digits_value s <=? UINT64_MAX then Some (digits_value s) else None.

(** The common first half of both parsers: the number and the suffix. *)
Definition split_number (input : text) : option (Z * text) :=
  input ← trim input;
  let '(number_part, rest) := span_digits input in
  match number_part with
  | [] => None
  | _ =>
      let suffix := skip isspace rest in
      number ← from_chars number_part;
      Some (number, suffix)
  end.

(** The loop over the table.  The structured binding of the loop introduces a
    new [suffix], so the comparison is between the table entry and itself. *)
Fixpoint apply_units (units : list (string * Z)) (number : Z) : option Z :=
  match units with
  | [] => None
  | (suffix, multiplier) :: units =>
      if iequals (chars suffix) (chars suffix) then
        if UINT64_MAX / multiplier <? number then None else Some (number * multiplier)
      else apply_units units number
  end.

Definition byte_units : list (string * Z) :=
  [("b", 1);
   ("k", 2 ^ 10); ("kib", 2 ^ 10); ("kb", 1000);
   ("m", 2 ^ 20); ("mib", 2 ^ 20); ("mb", 1000 * 1000);
   ("g", 2 ^ 30); ("gib", 2 ^ 30); ("gb", 1000 * 1000 * 1000);
   ("t", 2 ^ 40); ("tib", 2 ^ 40); ("tb", 1000 * 1000 * 1000 * 1000)]%string.

Definition parseByteQuantity (input : text) : option Z :=
  '(number, suffix) ← split_number input;
  match suffix with
  | [] => Some number
  | _ => apply_units byte_units number
  end.

Definition time_suffixes : list (string * Z) :=
  [("s", 1); ("sec", 1); ("secs", 1); ("second", 1); ("seconds", 1);
   ("m", 60); ("min", 60); ("mins", 60); ("minute", 60); ("minutes", 60);
   ("h", 3600); ("hr", 3600); ("hrs", 3600); ("hour", 3600); ("hours", 3600);
   ("d", 86400); ("day", 86400); ("days", 86400);
   ("w", 604800); ("week", 604800); ("weeks", 604800)]%string.

Definition parseTimeDuration (input : text) : option Z :=
  '(number, suffix) ← split_number input;
  match suffix with
  | [] => Some number
  | _ => apply_units time_suffixes number
  end.

(** ** The documented meaning *)

(** The first table entry equal to the suffix of the input, ignoring case. *)
Fixpoint unit_of (units : list (string * Z)) (suffix : text) : option Z :=
  match units with
  | [] => None
  | (s, multiplier) :: units => if iequals (chars s) suffix then Some multiplier else unit_of units suffix
  end.

Definition documented (units : list (string * Z)) (input : text) : option Z :=
  '(number, suffix) ← split_number input;
  match suffix with
  | [] => Some number
  | _ => m ← unit_of units suffix; if number * m <=? UINT64_MAX then Some (number * m) else None
  end.

(** ** Lemmas *)

Lemma iequals_refl s : iequals s s = true.
Proof. induction s as [|c s IH]; cbn; [done|]. by rewrite Z.eqb_refl. Qed.

Lemma iequals_lower a b : iequals a b = true <-> tolower <$> a = tolower <$> b.
Proof.
  revert b. induction a as [|c a IH]; intros [|d b]; cbn; [done..|].
  rewrite andb_true_iff, Z.eqb_eq, IH. split; [intros [H1 H2]; unfold fmap in *; by rewrite H1, H2|by intros [= ? ?]].
Qed.

Lemma skip_app_all p s r : Forall (fun c => p c = true) s -> skip p (s ++ r) = skip p r.
Proof. induction 1 as [|c s Hc Hs IH]; cbn; [done|]. by rewrite Hc. Qed.

Lemma skip_stop p c r : p c = false -> skip p (c :: r) = c :: r.
Proof. intros Hc. cbn. by rewrite Hc. Qed.

Lemma span_digits_app ds r :
  Forall (fun c => isdigit c = true) ds -> (forall c, head r = Some c -> isdigit c = false) ->
  span_digits (ds ++ r) = (ds, r).
Proof.
  intros Hds Hr. induction Hds as [|c ds Hc Hds IH]; cbn.
  - destruct r as [|c r]; cbn; [done|]. by rewrite (Hr c).
  - by rewrite Hc, IH.
Qed.

Lemma digit_not_trimmed c : isdigit c = true -> trimmed c = false.
Proof.
  unfold isdigit, trimmed. rewrite andb_true_iff, !Z.leb_le. intros ?.
  rewrite !(proj2 (Z.eqb_neq _ _)) by lia. done.
Qed.

Lemma trim_ws w s w' :
  Forall (fun c => trimmed c = true) w -> Forall (fun c => trimmed c = true) w' -> s <> [] ->
  (forall c, head s = Some c -> trimmed c = false) -> (forall c, last s = Some c -> trimmed c = false) ->
  trim (w ++ s ++ w') = Some s.
Proof.
  intros Hw Hw' Hne Hhd Hlast. unfold trim. rewrite skip_app_all by done.
  destruct s as [|c s]; [done|]. cbn [app]. rewrite skip_stop by by apply Hhd.
  change (c :: s ++ w') with ((c :: s) ++ w'). rewrite reverse_app, skip_app_all by (by apply Forall_reverse).
  destruct (reverse (c :: s)) as [|d l] eqn:Hr.
  { apply (f_equal reverse) in Hr. by rewrite reverse_involutive in Hr. }
  rewrite skip_stop; [by rewrite <-Hr, reverse_involutive|]. apply Hlast.
  rewrite <-(reverse_involutive (c :: s)), Hr, reverse_cons. apply last_snoc.
Qed.

Lemma apply_units_first s m units number :
  apply_units ((s, m) :: units) number = if UINT64_MAX / m <? number then None else Some (number * m).
Proof. cbn. by rewrite iequals_refl. Qed.

Lemma split_number_range input number suffix :
  split_number input = Some (number, suffix) -> number <= UINT64_MAX.
Proof.
  unfold split_number. destruct (trim input) as [s|]; cbn; [|done].
  destruct (span_digits s) as [[|c d] r]; [done|]. unfold from_chars.
  destruct (Z.leb_spec (digits_value (c :: d)) UINT64_MAX); cbn; [|done]. by intros [= <- <-].
Qed.

Lemma units_ignored units s input :
  match split_number input with
  | Some (number, []) => Some number
  | Some (number, _) => apply_units ((s, 1) :: units) number
  | None => None
  end = fst <$> split_number input.
Proof.
  destruct (split_number input) as [[number suffix]|] eqn:Hs; [|done].
  destruct suffix as [|c suffix]; [done|]. rewrite apply_units_first, Z.div_1_r.
  apply split_number_range in Hs. rewrite (proj2 (Z.ltb_ge _ _)) by done. cbn. f_equal. lia.
Qed.

(** ** Properties *)

(** A number in decimal digits, surrounded by any white space, is parsed to
    its value when it fits in 64 bits and rejected otherwise, by both parsers. *)
Theorem parse_plain_number w ds w' :
  Forall (fun c => trimmed c = true) w -> Forall (fun c => trimmed c = true) w' ->
  Forall (fun c => isdigit c = true) ds -> ds <> [] ->
  let result := if digits_value ds <=? UINT64_MAX then Some (digits_value ds) else None in
  parseByteQuantity (w ++ ds ++ w') = result /\ parseTimeDuration (w ++ ds ++ w') = result.
Proof.
  intros Hw Hw' Hds Hne result.
  assert (split_number (w ++ ds ++ w') = n ← result; Some (n, [])) as Hs.
  { unfold split_number. rewrite trim_ws; [|done|done|done| |].
    - cbn. pose proof (span_digits_app ds [] Hds) as Hspan. rewrite app_nil_r in Hspan. rewrite Hspan by done.
      destruct ds as [|c ds]; [done|]. unfold from_chars, result. by destruct (_ <=? _).
    - intros c Hc. destruct ds; [done|]. injection Hc as ->. apply digit_not_trimmed. by apply Forall_cons in Hds as [? _].
    - intros c Hc. apply digit_not_trimmed. rewrite Forall_forall in Hds. apply Hds. by apply last_Some_elem_of. }
  unfold parseByteQuantity, parseTimeDuration. rewrite Hs. unfold result. by destruct (_ <=? _).
Qed.

(** Units have no effect. The loop over the table compares each entry with
    itself, so its first entry, of multiplier one, is taken for every suffix: both
    parsers return the bare number for every input with a leading number, whatever
    follows it. *)
Theorem parse_ignores_units input :
  parseByteQuantity input = fst <$> split_number input
  /\ parseTimeDuration input = fst <$> split_number input.
Proof.
  pose proof (units_ignored (tail byte_units) "b" input) as Hb.
  pose proof (units_ignored (tail time_suffixes) "s" input) as Ht.
  unfold parseByteQuantity, parseTimeDuration. rewrite <-Hb at 1. rewrite <-Ht at 1. clear Hb Ht.
  by destruct (split_number input) as [[n [|c s]]|].
Qed.

(** Against the documentation: ["10MB"] is ten bytes and not ten million,
    ["2 hours"] two seconds and not 7200, and an unknown unit is accepted. *)
Theorem parse_units_examples :
  parseByteQuantity (chars "10MB") = Some 10 /\ documented byte_units (chars "10MB") = Some 10000000
  /\ parseTimeDuration (chars "2 hours") = Some 2 /\ documented time_suffixes (chars "2 hours") = Some 7200
  /\ parseByteQuantity (chars "5 parsecs") = Some 5 /\ documented byte_units (chars "5 parsecs") = None.
Proof. vm_compute. done. Qed.

(** ** Witnesses *)

Lemma parse_plain_number_witness :
  parseByteQuantity (chars " 042") = Some 42 /\ parseTimeDuration (chars " 042") = Some 42.
Proof.
  refine (parse_plain_number (chars " ") (chars "042") [] _ _ _ _); [repeat constructor..|discriminate].
Defined.

End Parsers.
