(* ===== verification/StateManager.v ===== *)
(** * StateManager: the application life cycle

    [src/src/app/state_manager.hpp] and [src/src/app/impl/state_manager_impl.cpp]:
    the stages, the three callback queues, the signal handlers and [run].  A
    callback is data: what it calls on the manager, and whether it succeeds.
    The effects are threaded through a state monad with exceptions; the interleaving
    model of [StateManagerRace] looks at the atomic accesses of [shutdown] and [run]
    from different threads. *)

From S2P Require Import Prelude.

Module StateManager.

(** [enum class State : uint8_t], compared as numbers. *)
Inductive State : Type := Init | Prepare | ReadyToStart | Starting | Works | ShuttingDown | ReadyToStop.

#[export] Instance State_eq_dec : EqDecision State.
Proof. solve_decision. Defined.

Definition rank (s : State) : Z :=
  match s with
  | Init => 0 | Prepare => 1 | ReadyToStart => 2 | Starting => 3 | Works => 4 | ShuttingDown => 5 | ReadyToStop => 6
  end.

(** [Action]: a callback. Its body may call the manager back (the mutex is
    recursive); a callback returning void counts as successful. *)
Inductive Action : Type := MkAction (name : nat) (body : list Command) (success : bool)
with Command : Type :=
| CallShutdown
| CallAtPrepare (cb : Action)
| CallAtLaunch (cb : Action)
| CallAtShutdown (cb : Action).

(** Disposition of the signals. *)
Inductive Handler : Type := SIG_DFL | ShuttingDownHandler | LogRotateHandler.

Inductive Event : Type := RanPrepare (n : nat) | RanLaunch (n : nat) | RanShutdown (n : nat) | LogRotated.

Record Manager : Type := MkManager {
  state_ : State;
  prepare_ : list Action;
  launch_ : list Action;
  shutdown_ : list Action;
  shutting_down_signals_enabled : bool;
  log_rotate_signals_enabled : bool;
  sig_shutdown : Handler;  (** of SIGINT, SIGTERM, SIGQUIT *)
  sig_hup : Handler;
  wp_to_myself : bool;     (** the weak pointer to the running manager is set *)
  events : list Event      (** what has been executed so far *)
}.

(** The messages of the exceptions. Two constructors are not exceptions of the code but
    the ways in which it has not come back: [OutOfFuel] marks a loop cut short,
    [StillWaiting] a wait that no request to shut down has ended. *)
Inductive Exn : Type :=
| AddingPrepare | AddingLaunch | AddingShutdown
| RunningPreparing | RunningLaunch | RunningShuttingDown
| NotShared | NotReadyToStop | OutOfFuel | StillWaiting.

(** ** The monad: state and exceptions *)

Definition M (A : Type) : Type := Manager -> Manager * (A + Exn).

#[export] Instance M_ret : MRet M := fun A a m => (m, inl a).
#[export] Instance M_bind : MBind M := fun A B k x m =>
  match x m with
  | (m', inl a) => k a m'
  | (m', inr e) => (m', inr e)
  end.

Definition throw {A} (e : Exn) : M A := fun m => (m, inr e).
Definition get : M Manager := fun m => (m, inl m).
Definition put (m : Manager) : M unit := fun _ => (m, inl tt).

Definition set_state (s : State) : M unit := fun m =>
  (MkManager s (prepare_ m) (launch_ m) (shutdown_ m) (shutting_down_signals_enabled m)
     (log_rotate_signals_enabled m) (sig_shutdown m) (sig_hup m) (wp_to_myself m) (events m), inl tt).
Definition set_prepare (q : list Action) : M unit := fun m =>
  (MkManager (state_ m) q (launch_ m) (shutdown_ m) (shutting_down_signals_enabled m)
     (log_rotate_signals_enabled m) (sig_shutdown m) (sig_hup m) (wp_to_myself m) (events m), inl tt).
Definition set_launch (q : list Action) : M unit := fun m =>
  (MkManager (state_ m) (prepare_ m) q (shutdown_ m) (shutting_down_signals_enabled m)
     (log_rotate_signals_enabled m) (sig_shutdown m) (sig_hup m) (wp_to_myself m) (events m), inl tt).
Definition set_shutdown (q : list Action) : M unit := fun m =>
  (MkManager (state_ m) (prepare_ m) (launch_ m) q (shutting_down_signals_enabled m)
     (log_rotate_signals_enabled m) (sig_shutdown m) (sig_hup m) (wp_to_myself m) (events m), inl tt).
Definition set_shutdown_signals (on : bool) (h : Handler) : M unit := fun m =>
  (MkManager (state_ m) (prepare_ m) (launch_ m) (shutdown_ m) on
     (log_rotate_signals_enabled m) h (sig_hup m) (wp_to_myself m) (events m), inl tt).
Definition set_log_signals (on : bool) (h : Handler) : M unit := fun m =>
  (MkManager (state_ m) (prepare_ m) (launch_ m) (shutdown_ m) (shutting_down_signals_enabled m)
     on (sig_shutdown m) h (wp_to_myself m) (events m), inl tt).
Definition set_wp (on : bool) : M unit := fun m =>
  (MkManager (state_ m) (prepare_ m) (launch_ m) (shutdown_ m) (shutting_down_signals_enabled m)
     (log_rotate_signals_enabled m) (sig_shutdown m) (sig_hup m) on (events m), inl tt).
Definition log_event (e : Event) : M unit := fun m =>
  (MkManager (state_ m) (prepare_ m) (launch_ m) (shutdown_ m) (shutting_down_signals_enabled m)
     (log_rotate_signals_enabled m) (sig_shutdown m) (sig_hup m) (wp_to_myself m) (events m ++ [e]), inl tt).

(** [state_.compare_exchange_strong(expected, desired)]: success, and the value
    [expected] holds afterwards. *)
Definition cas (expected desired : State) : M (bool * State) :=
  m ← get;
  if decide (state_ m = expected) then set_state desired;; mret (true, expected)
  else mret (false, state_ m).

(** ** Signals *)

Definition shuttingDownSignalsEnable : M unit := set_shutdown_signals true ShuttingDownHandler.

Definition shuttingDownSignalsDisable : M unit :=
  m ← get;
  if shutting_down_signals_enabled m then set_shutdown_signals false SIG_DFL else mret tt.

Definition logRotateSignalsEnable : M unit := set_log_signals true LogRotateHandler.

Definition logRotateSignalsDisable : M unit :=
  m ← get;
  if log_rotate_signals_enabled m then set_log_signals false SIG_DFL else mret tt.

(** ** Operations *)

(** [shutdown()], as one step (the manager has a single thread here). *)
Definition shutdown : M unit :=
  shuttingDownSignalsDisable;;
  m ← get;
  if decide (state_ m = ReadyToStop) then mret tt
  else if decide (state_ m = ShuttingDown) then mret tt
  else set_state ShuttingDown.

Definition shuttingDownSignalsHandler : M unit :=
  shuttingDownSignalsDisable;;
  m ← get;
  if wp_to_myself m then shutdown else mret tt.

Definition logRotateSignalsHandler : M unit :=
  m ← get;
  if wp_to_myself m then log_event LogRotated else mret tt.

(** The constructor and the destructor. *)
Definition construct : Manager * (unit + Exn) :=
  (shuttingDownSignalsEnable;; logRotateSignalsEnable)
    (MkManager Init [] [] [] false false SIG_DFL SIG_DFL false []).

Definition destruct : M unit :=
  shuttingDownSignalsDisable;; logRotateSignalsDisable;; set_wp false.

Definition reset : M unit :=
  set_prepare [];; set_launch [];; set_shutdown [];; set_state Init.

Definition atPrepare (cb : Action) : M unit :=
  m ← get;
  if rank Prepare <? rank (state_ m) then throw AddingPrepare else set_prepare (prepare_ m ++ [cb]).

Definition atLaunch (cb : Action) : M unit :=
  m ← get;
  if rank Starting <? rank (state_ m) then throw AddingLaunch else set_launch (launch_ m ++ [cb]).

Definition atShutdown (cb : Action) : M unit :=
  m ← get;
  if rank ShuttingDown <? rank (state_ m) then throw AddingShutdown else set_shutdown (shutdown_ m ++ [cb]).

(** [takeControl(entity)]: the methods the entity has become callbacks. *)
Definition takeControl (prepare start stop : option Action) : M unit :=
  match prepare with Some cb => atPrepare cb | None => mret tt end;;
  match start with Some cb => atLaunch cb | None => mret tt end;;
  match stop with Some cb => atShutdown cb | None => mret tt end.

(** ** Running callbacks *)

Definition command (c : Command) : M unit :=
  match c with
  | CallShutdown => shutdown
  | CallAtPrepare cb => atPrepare cb
  | CallAtLaunch cb => atLaunch cb
  | CallAtShutdown cb => atShutdown cb
  end.

Fixpoint commands (cs : list Command) : M unit :=
  match cs with
  | [] => mret tt
  | c :: cs => command c;; commands cs
  end.

(** [cb()] *)
Definition call (ev : nat -> Event) (cb : Action) : M bool :=
  let '(MkAction name body success) := cb in
  log_event (ev name);; commands body;; mret success.

(** ** The stages *)

Fixpoint prepare_loop (fuel : nat) : M unit :=
  m ← get;
  match prepare_ m with
  | [] => mret tt
  | cb :: _ =>
      match fuel with
      | O => throw OutOfFuel
      | S fuel =>
          (if decide (state_ m = Prepare) then
             success ← call RanPrepare cb;
             if (success : bool) then mret tt else cas Prepare ShuttingDown;; mret tt
           else mret tt);;
          m ← get; set_prepare (drop 1 (prepare_ m));;
          prepare_loop fuel
      end
  end.

Definition doPrepare (fuel : nat) : M unit :=
  '(ok, state) ← cas Init Prepare;
  (if negb ok && negb (bool_decide (state = ShuttingDown)) then throw RunningPreparing else mret tt);;
  prepare_loop fuel;;
  cas Prepare ReadyToStart;; mret tt.

Fixpoint launch_loop (fuel : nat) : M unit :=
  m ← get;
  match launch_ m with
  | [] => mret tt
  | cb :: _ =>
      match fuel with
      | O => throw OutOfFuel
      | S fuel =>
          (if decide (state_ m = Starting) then
             success ← call RanLaunch cb;
             if (success : bool) then mret tt else cas Starting ShuttingDown;; mret tt
           else mret tt);;
          m ← get; set_launch (drop 1 (launch_ m));;
          launch_loop fuel
      end
  end.

Definition doLaunch (fuel : nat) : M unit :=
  '(ok, state) ← cas ReadyToStart Starting;
  (if negb ok && negb (bool_decide (state = ShuttingDown)) then throw RunningLaunch else mret tt);;
  launch_loop fuel;;
  cas Starting Works;; mret tt.

Fixpoint shutdown_loop (fuel : nat) : M unit :=
  m ← get;
  match shutdown_ m with
  | [] => mret tt
  | cb :: _ =>
      match fuel with
      | O => throw OutOfFuel
      | S fuel =>
          call RanShutdown cb;;
          m ← get; set_shutdown (drop 1 (shutdown_ m));;
          shutdown_loop fuel
      end
  end.

Definition doShutdown (fuel : nat) : M unit :=
  '(ok, state) ← cas Works ShuttingDown;
  (if negb ok && negb (bool_decide (state = ShuttingDown)) then throw RunningShuttingDown else mret tt);;
  set_prepare [];; set_launch [];;
  shutdown_loop fuel;;
  cas ShuttingDown ReadyToStop;; mret tt.

(** [shutdownRequestWaiting()] blocks until its predicate [state_ == ShuttingDown] holds.
    [request]: whether [shutdown] is called (by another thread or by the handler of a
    signal) while the main thread waits; without a call the wait does not end. *)
Definition shutdownRequestWaiting (request : bool) : M unit :=
  (if request then shutdown else mret tt);;
  m ← get;
  if decide (state_ m = ShuttingDown) then mret tt else throw StillWaiting.

Definition run (shared request : bool) (fuel : nat) : M unit :=
  set_wp shared;;
  (if shared then mret tt else throw NotShared);;
  doPrepare fuel;;
  doLaunch fuel;;
  m ← get;
  (if decide (state_ m = Works) then shutdownRequestWaiting request else mret tt);;
  doShutdown fuel;;
  m ← get;
  if decide (state_ m = ReadyToStop) then mret tt else throw NotReadyToStop.

End StateManager.
