(* ===== verification/StateManagerSpec.v ===== *)
(** * StateManagerSpec: the end of the life cycle

    Outcome of [StateManager.run] for arbitrary callbacks (it returns once a
    shutdown is requested, and waits in [Works] otherwise), the
    exact order of execution for plain ones, and the interleavings of [shutdown]
    with the running thread. *)

From S2P Require Import Prelude StateManager.

Module StateManagerSpec.
Import StateManager.

(** ** Triples for the monad *)

Definition triple {A} (P : Manager -> Prop) (x : M A) (Q : A -> Manager -> Prop) (R : Exn -> Prop) : Prop :=
  forall m, P m -> match x m with (m', inl a) => Q a m' | (_, inr e) => R e end.

Lemma triple_bind {A B} P (x : M A) (k : A -> M B) Q Q' R :
  triple P x Q R -> (forall a, triple (Q a) (k a) Q' R) -> triple P (x ≫= k) Q' R.
Proof.
  intros Hx Hk m Hm. specialize (Hx m Hm). unfold mbind, M_bind.
  destruct (x m) as [m' [a|e]]; [|done]. by apply Hk.
Qed.

Lemma triple_ret {A} P (a : A) Q R : (forall m, P m -> Q a m) -> triple P (mret a) Q R.
Proof. intros HP m Hm. by apply HP. Qed.

Lemma triple_get {B} P (k : Manager -> M B) Q R :
  (forall m0, triple (fun m => m = m0 /\ P m) (k m0) Q R) -> triple P (m ← get; k m) Q R.
Proof. intros Hk m Hm. unfold mbind, M_bind, get. by apply Hk. Qed.

Lemma triple_pre {A} P P' (x : M A) Q R : (forall m, P' m -> P m) -> triple P x Q R -> triple P' x Q R.
Proof. intros HP Hx m Hm. by apply Hx, HP. Qed.

Lemma triple_if {A} P (b : bool) (x y : M A) Q R :
  (b = true -> triple P x Q R) -> (b = false -> triple P y Q R) -> triple P (if b then x else y) Q R.
Proof. destruct b; auto. Qed.

(** ** The weight of the pending work *)

Fixpoint weight (a : Action) : nat :=
  match a with
  | MkAction _ body _ => S ((fix go cs := match cs with [] => O | c :: cs => (cweight c + go cs)%nat end) body)
  end
with cweight (c : Command) : nat :=
  match c with
  | CallShutdown => O
  | CallAtPrepare cb | CallAtLaunch cb | CallAtShutdown cb => weight cb
  end.

Definition weights (q : list Action) : nat := sum_list_with weight q.
Definition cweights (cs : list Command) : nat := sum_list_with cweight cs.
Definition total (m : Manager) : nat := (weights (prepare_ m) + weights (launch_ m) + weights (shutdown_ m))%nat.

Lemma weight_eq n body s : weight (MkAction n body s) = S (cweights body).
Proof. reflexivity. Qed.

Lemma weights_app q r : weights (q ++ r) = (weights q + weights r)%nat.
Proof. apply sum_list_with_app. Qed.

Lemma weights_snoc q cb : weights (q ++ [cb]) = (weights q + weight cb)%nat.
Proof. rewrite weights_app. unfold weights at 2. cbn. lia. Qed.

(** ** What a callback can do during a stage *)

(** The stage is [base] or shutting down; at most [w] work is pending; the queues
    still start with what they held. *)
Record during (base : State) (w : nat) (pp pl ps : list Action) (m : Manager) : Prop := {
  du_state : state_ m = base \/ state_ m = ShuttingDown;
  du_total : (total m <= w)%nat;
  du_prepare : pp `prefix_of` prepare_ m;
  du_launch : pl `prefix_of` launch_ m;
  du_shutdown : ps `prefix_of` shutdown_ m
}.

(** The exceptions a callback can provoke: registering for a finished stage. *)
Definition late_registration (e : Exn) : Prop := e = AddingPrepare \/ e = AddingLaunch.

Section stage.
Context (base : State) (pp pl ps : list Action) (Hbase : rank base <= 5).

Abbreviation Du := (fun w => during base w pp pl ps).

Lemma triple_shutdown w : triple (Du w) shutdown (fun _ => Du w) late_registration.
Proof.
  intros m [Hs Ht Hp Hl Hh].
  unfold shutdown, shuttingDownSignalsDisable, mbind, M_bind, get, mret, M_ret, set_shutdown_signals, set_state.
  destruct (shutting_down_signals_enabled m); cbn; repeat case_decide; cbn; split; cbn; auto.
Qed.

Lemma triple_command w c : triple (Du w) (command c) (fun _ => Du (w + cweight c)%nat) late_registration.
Proof.
  destruct c as [|cb|cb|cb]; cbn [command cweight].
  - rewrite Nat.add_0_r. apply triple_shutdown.
  - intros m [Hs Ht Hp Hl Hh]. unfold atPrepare, mbind, M_bind, get, throw, set_prepare.
    destruct (_ <? _); [by left|]. split; cbn [state_ prepare_ launch_ shutdown_]; try done.
    + unfold total in *. cbn [prepare_ launch_ shutdown_]. rewrite weights_snoc. lia.
    + by apply prefix_app_r.
  - intros m [Hs Ht Hp Hl Hh]. unfold atLaunch, mbind, M_bind, get, throw, set_launch.
    destruct (_ <? _); [by right|]. split; cbn [state_ prepare_ launch_ shutdown_]; try done.
    + unfold total in *. cbn [prepare_ launch_ shutdown_]. rewrite weights_snoc. lia.
    + by apply prefix_app_r.
  - intros m [Hs Ht Hp Hl Hh]. unfold atShutdown, mbind, M_bind, get, throw, set_shutdown.
    rewrite (proj2 (Z.ltb_ge _ _)) by (destruct Hs as [->| ->]; cbn; lia). split; cbn [state_ prepare_ launch_ shutdown_]; try done.
    + unfold total in *. cbn [prepare_ launch_ shutdown_]. rewrite weights_snoc. lia.
    + by apply prefix_app_r.
Qed.

Lemma triple_commands w cs : triple (Du w) (commands cs) (fun _ => Du (w + cweights cs)%nat) late_registration.
Proof.
  revert w. induction cs as [|c cs IH]; intros w; cbn [commands].
  - apply triple_ret. intros m. by rewrite Nat.add_0_r.
  - eapply triple_bind; [apply triple_command|]. intros []. cbn beta.
    replace (w + cweights (c :: cs))%nat with (w + cweight c + cweights cs)%nat by (unfold cweights; cbn; lia).
    apply IH.
Qed.

(** A callback leaves less work behind than it stood for itself. *)
Lemma triple_call w ev cb :
  triple (Du (w + weight cb)%nat) (call ev cb) (fun _ => Du (w + weight cb + pred (weight cb))%nat) late_registration.
Proof.
  destruct cb as [n body s]. unfold call. eapply triple_bind with (Q := fun _ => Du (w + weight (MkAction n body s))%nat).
  { intros m [Hs Ht Hp Hl Hh]. by split. }
  intros []. eapply triple_bind; [apply triple_commands|]. intros []. apply triple_ret. intros m Hm.
  rewrite weight_eq in *. cbn [pred]. done.
Qed.

Lemma triple_cas_stop w : triple (Du w) (cas base ShuttingDown;; mret tt) (fun _ => Du w) late_registration.
Proof.
  intros m [Hs Ht Hp Hl Hh]. unfold cas, mbind, M_bind, get, set_state, mret, M_ret.
  case_decide; cbn; split; cbn; auto.
Qed.

(** One iteration of a stage loop, up to the removal of the callback. *)
Lemma triple_attempt w ev cb (skip : Prop) `{!Decision skip} :
  triple (Du (w + weight cb)%nat)
    (if decide skip then
       success ← call ev cb; if (success : bool) then mret tt else cas base ShuttingDown;; mret tt
     else mret tt)
    (fun _ => Du (w + weight cb + pred (weight cb))%nat) late_registration.
Proof.
  case_decide.
  - eapply triple_bind; [apply triple_call|]. intros [].
    + by apply triple_ret.
    + apply triple_cas_stop.
  - apply triple_ret. intros m [Hs Ht Hp Hl Hh]. split; auto. lia.
Qed.

End stage.

Lemma weight_pos cb : (1 <= weight cb)%nat.
Proof. destruct cb. rewrite weight_eq. lia. Qed.

(** *** The three loops have one shape *)

Section loops.
Context (base : State) (Hbase : rank base <= 5).
Context (queue : Manager -> list Action) (setq : list Action -> M unit) (attempt : Manager -> Action -> M unit).
Context (loop : nat -> M unit) (pp pl ps : list Action -> list Action).

Definition loop_body (fuel : nat) : M unit :=
  m ← get;
  match queue m with
  | [] => mret tt
  | cb :: _ =>
      match fuel with
      | O => throw OutOfFuel
      | S fuel => attempt m cb;; m ← get; setq (drop 1 (queue m));; loop fuel
      end
  end.

Abbreviation D := (fun w q => during base w (pp q) (pl q) (ps q)).

Context (Hloop : forall fuel m, loop fuel m = loop_body fuel m).
Context (Hqueue : forall w m, D w [] m -> D (total m) (queue m) m).
Context (Hin : forall m cb, cb ∈ queue m -> (weight cb <= total m)%nat).
Context (Hattempt : forall w cb q m0,
  triple (D (w + weight cb)%nat (cb :: q)) (attempt m0 cb) (fun _ => D (w + weight cb + pred (weight cb))%nat (cb :: q))
    late_registration).
Context (Hpop : forall w cb q m, D (w + weight cb + pred (weight cb))%nat (cb :: q) m ->
  exists m', setq (drop 1 (queue m)) m = (m', inl tt) /\ D (w + weight cb - 1)%nat [] m').

Lemma during_mono w w' q m : (w <= w')%nat -> D w q m -> D w' q m.
Proof. intros Hw [? ? ? ? ?]. split; auto. lia. Qed.

Lemma triple_loop fuel w :
  (w <= fuel)%nat ->
  triple (D w []) (loop fuel) (fun _ m => D w [] m /\ queue m = []) late_registration.
Proof.
  revert w. induction fuel as [|fuel IH]; intros w Hw m Hm; rewrite Hloop; unfold loop_body, mbind, M_bind, get;
    destruct (queue m) as [|cb q] eqn:Hq; [done| |done|].
  - assert (weight cb <= total m)%nat by (apply Hin; rewrite Hq; left).
    pose proof (weight_pos cb). destruct Hm as [_ ? _ _ _]. lia.
  - assert (weight cb <= total m)%nat as Hwt by (apply Hin; rewrite Hq; left). pose proof (weight_pos cb).
    pose proof (du_total _ _ _ _ _ _ Hm) as Ht.
    specialize (Hqueue w m Hm). rewrite Hq in Hqueue.
    specialize (Hattempt (total m - weight cb)%nat cb q m m). rewrite Nat.sub_add in Hattempt by done.
    specialize (Hattempt Hqueue). destruct (attempt m cb m) as [m1 [[]|e]]; [|done].
    destruct (Hpop (total m - weight cb)%nat cb q m1) as (m2 & -> & Hm2); [by rewrite Nat.sub_add|].
    specialize (IH (total m - 1)%nat ltac:(lia) m2). rewrite Nat.sub_add in Hm2 by done. specialize (IH Hm2).
    destruct (loop fuel m2) as [m3 [[]|e]]; [|done]. destruct IH as [IH ?]. split; [|done].
    eapply during_mono; [|exact IH]. lia.
Qed.

End loops.

Lemma weights_elem cb q : cb ∈ q -> (weight cb <= weights q)%nat.
Proof. unfold weights. induction 1; cbn; lia. Qed.

Lemma weights_pop cb q l : cb :: q `prefix_of` l -> (weights (drop 1 l) + weight cb = weights l)%nat.
Proof. intros [r ->]. unfold weights. cbn [app drop]. rewrite drop_0. cbn. lia. Qed.

Lemma triple_prepare_loop fuel w :
  (w <= fuel)%nat ->
  triple (during Prepare w [] [] []) (prepare_loop fuel)
    (fun _ m => during Prepare w [] [] [] m /\ prepare_ m = []) late_registration.
Proof.
  apply (triple_loop Prepare prepare_ set_prepare
    (fun m cb => if decide (state_ m = Prepare) then
       success ← call RanPrepare cb; if (success : bool) then mret tt else cas Prepare ShuttingDown;; mret tt
     else mret tt) prepare_loop id (fun _ => []) (fun _ => [])).
  - by intros [].
  - intros w' m [Hs Ht _ _ _]. split; [done..|apply prefix_nil|apply prefix_nil].
  - intros m cb Hcb%weights_elem. unfold total. lia.
  - intros w' cb q m0. apply triple_attempt. cbn. lia.
  - intros w' cb q m [Hs Ht Hp _ _]. eexists. split; [done|]. split; [done| |apply prefix_nil..].
    unfold total in *. cbn [prepare_ launch_ shutdown_]. pose proof (weights_pop _ _ _ Hp). pose proof (weight_pos cb). lia.
Qed.

Lemma triple_launch_loop fuel w :
  (w <= fuel)%nat ->
  triple (during Starting w [] [] []) (launch_loop fuel)
    (fun _ m => during Starting w [] [] [] m /\ launch_ m = []) late_registration.
Proof.
  apply (triple_loop Starting launch_ set_launch
    (fun m cb => if decide (state_ m = Starting) then
       success ← call RanLaunch cb; if (success : bool) then mret tt else cas Starting ShuttingDown;; mret tt
     else mret tt) launch_loop (fun _ => []) id (fun _ => [])).
  - by intros [].
  - intros w' m [Hs Ht _ _ _]. split; [done..|apply prefix_nil|done|apply prefix_nil].
  - intros m cb Hcb%weights_elem. unfold total. lia.
  - intros w' cb q m0. apply triple_attempt. cbn. lia.
  - intros w' cb q m [Hs Ht _ Hp _]. eexists. split; [done|]. split; [done| |apply prefix_nil..].
    unfold total in *. cbn [prepare_ launch_ shutdown_]. pose proof (weights_pop _ _ _ Hp). pose proof (weight_pos cb). lia.
Qed.

Lemma triple_shutdown_loop fuel w :
  (w <= fuel)%nat ->
  triple (during ShuttingDown w [] [] []) (shutdown_loop fuel)
    (fun _ m => during ShuttingDown w [] [] [] m /\ shutdown_ m = []) late_registration.
Proof.
  apply (triple_loop ShuttingDown shutdown_ set_shutdown (fun _ cb => call RanShutdown cb;; mret tt)
    shutdown_loop (fun _ => []) (fun _ => []) id).
  - intros [|f] m; cbn; [done|]. unfold loop_body, mbind, M_bind, get. destruct (shutdown_ m); [done|].
    by destruct (call _ _ _) as [? []].
  - intros w' m [Hs Ht _ _ _]. split; [done..|apply prefix_nil|apply prefix_nil|done].
  - intros m cb Hcb%weights_elem. unfold total. lia.
  - intros w' cb q m0. eapply triple_bind; [apply triple_call; cbn; lia|]. intros b. by apply triple_ret.
  - intros w' cb q m [Hs Ht _ _ Hp]. eexists. split; [done|]. split; [done| |apply prefix_nil..].
    unfold total in *. cbn [prepare_ launch_ shutdown_]. pose proof (weights_pop _ _ _ Hp). pose proof (weight_pos cb). lia.
Qed.

(** ** The stages *)

Definition in_stage (a b : State) (w : nat) (m : Manager) : Prop :=
  (state_ m = a \/ state_ m = b) /\ (total m <= w)%nat.

(** Entering a stage: the atomic exchange succeeds or a shutdown was requested. *)
Lemma triple_enter a b w err :
  a <> ShuttingDown ->
  triple (in_stage a ShuttingDown w)
    ('(ok, state) ← cas a b;
     if negb ok && negb (bool_decide (state = ShuttingDown)) then throw err else mret tt)
    (fun _ => during b w [] [] []) late_registration.
Proof.
  intros Ha m [[Hs|Hs] Ht]; unfold cas, mbind, M_bind, get, set_state, mret, M_ret; rewrite Hs.
  - rewrite decide_True by done. cbn. split; cbn; auto using prefix_nil.
  - rewrite decide_False by done. cbn. rewrite bool_decide_eq_true_2 by done. cbn. split; auto using prefix_nil.
Qed.

Lemma triple_leave a b w (Q : Manager -> Prop) :
  (forall m s, Q m -> Q (MkManager s (prepare_ m) (launch_ m) (shutdown_ m) (shutting_down_signals_enabled m)
     (log_rotate_signals_enabled m) (sig_shutdown m) (sig_hup m) (wp_to_myself m) (events m))) ->
  triple (fun m => during a w [] [] [] m /\ Q m) (cas a b;; mret tt)
    (fun _ m => (state_ m = b \/ (state_ m = ShuttingDown /\ a <> ShuttingDown)) /\ (total m <= w)%nat /\ Q m)
    late_registration.
Proof.
  intros HQ m [[Hs Ht _ _ _] Hq]. unfold cas, mbind, M_bind, get, set_state, mret, M_ret.
  case_decide as Hd; cbn; [split; [by left|]; split; [done|by apply HQ]|].
  destruct Hs as [|Hs]; [done|]. split; [right|done]. split; [done|]. intros ->. done.
Qed.

Lemma bind_assoc {A B C} (x : M A) (k : A -> M B) (l : B -> M C) m :
  ((x ≫= k) ≫= l) m = (x ≫= (fun a => k a ≫= l)) m.
Proof. unfold mbind, M_bind. by destruct (x m) as [? []]. Qed.

Lemma triple_stage a b c w err (loop : M unit) (Q : Manager -> Prop) :
  a <> ShuttingDown ->
  (forall m s, Q m -> Q (MkManager s (prepare_ m) (launch_ m) (shutdown_ m) (shutting_down_signals_enabled m)
     (log_rotate_signals_enabled m) (sig_shutdown m) (sig_hup m) (wp_to_myself m) (events m))) ->
  triple (during b w [] [] []) loop (fun _ m => during b w [] [] [] m /\ Q m) late_registration ->
  triple (in_stage a ShuttingDown w)
    ('(ok, state) ← cas a b;
     (if negb ok && negb (bool_decide (state = ShuttingDown)) then throw err else mret tt);;
     loop;;
     cas b c;; mret tt)
    (fun _ m => (state_ m = c \/ (state_ m = ShuttingDown /\ b <> ShuttingDown)) /\ (total m <= w)%nat /\ Q m)
    late_registration.
Proof.
  intros Ha HQ Hloop m Hm.
  pose proof (triple_bind _ _ (fun _ => loop;; cas b c;; mret tt) _ _ _ (triple_enter a b w err Ha)
    (fun u => triple_bind _ _ (fun _ => cas b c;; mret tt) _ _ _ Hloop (fun _ => triple_leave b c w Q HQ)) m Hm) as Ht.
  rewrite bind_assoc in Ht. unfold mbind, M_bind in *. destruct (cas a b m) as [m1 [[ok st]|e]]; done.
Qed.

Lemma triple_doPrepare fuel w :
  (w <= fuel)%nat ->
  triple (in_stage Init ShuttingDown w) (doPrepare fuel) (fun _ => in_stage ReadyToStart ShuttingDown w) late_registration.
Proof.
  intros Hw m Hm. pose proof (triple_stage Init Prepare ReadyToStart w RunningPreparing (prepare_loop fuel)
    (fun m => prepare_ m = []) ltac:(done) ltac:(done) (triple_prepare_loop fuel w Hw) m Hm) as Ht.
  fold (doPrepare fuel) in Ht. destruct (doPrepare fuel m) as [m' [[]|e]]; [|done]. unfold in_stage. tauto.
Qed.

Lemma triple_doLaunch fuel w :
  (w <= fuel)%nat ->
  triple (in_stage ReadyToStart ShuttingDown w) (doLaunch fuel) (fun _ => in_stage Works ShuttingDown w) late_registration.
Proof.
  intros Hw m Hm. pose proof (triple_stage ReadyToStart Starting Works w RunningLaunch (launch_loop fuel)
    (fun m => launch_ m = []) ltac:(done) ltac:(done) (triple_launch_loop fuel w Hw) m Hm) as Ht.
  fold (doLaunch fuel) in Ht. destruct (doLaunch fuel m) as [m' [[]|e]]; [|done]. unfold in_stage. tauto.
Qed.

Lemma triple_doShutdown fuel w :
  (w <= fuel)%nat ->
  triple (in_stage Works ShuttingDown w) (doShutdown fuel)
    (fun _ m => state_ m = ReadyToStop /\ shutdown_ m = []) late_registration.
Proof.
  intros Hw m Hm.
  assert (triple (during ShuttingDown w [] [] []) (set_prepare [];; set_launch [];; shutdown_loop fuel)
    (fun _ m => during ShuttingDown w [] [] [] m /\ shutdown_ m = []) late_registration) as Hloop.
  { intros m0 [Hs Ht _ _ _]. apply triple_shutdown_loop; [done|].
    split; [done| |apply prefix_nil..]. unfold total in *. cbn [prepare_ launch_ shutdown_]. change (weights []) with 0%nat. lia. }
  pose proof (triple_stage Works ShuttingDown ReadyToStop w RunningShuttingDown _
    (fun m => shutdown_ m = []) ltac:(done) ltac:(done) Hloop m Hm) as Ht.
  unfold doShutdown, mbind, M_bind in *. destruct (cas Works ShuttingDown m) as [m1 [[ok st]|e]]; [|done].
  destruct (_ m1) as [m2 [[]|e]]; [|done]. cbn in Ht |- *.
  destruct (shutdown_loop fuel _) as [m3 [[]|e]]; [|done].
  destruct (cas ShuttingDown ReadyToStop m3) as [m4 [[]|e]]; [|done]. cbn in *. tauto.
Qed.

(** Past the wait the shutdown has been requested; without a request the wait may not
    end. *)
Definition not_back (request : bool) (e : Exn) : Prop := late_registration e \/ (e = StillWaiting /\ request = false).

Lemma triple_weaken {A} P (x : M A) Q (R R' : Exn -> Prop) : (forall e, R e -> R' e) -> triple P x Q R -> triple P x Q R'.
Proof. intros HR Hx m Hm. specialize (Hx m Hm). destruct (x m) as [m' [a|e]]; auto. Qed.

Lemma triple_wait request w :
  triple (in_stage Works ShuttingDown w)
    (m ← get; if decide (state_ m = Works) then shutdownRequestWaiting request else mret tt)
    (fun _ => in_stage Works ShuttingDown w) (not_back request).
Proof.
  intros m [Hs Ht]. unfold mbind, M_bind, get. case_decide as Hw; [|done].
  unfold shutdownRequestWaiting, shutdown, shuttingDownSignalsDisable, mbind, M_bind, get, mret, M_ret, set_shutdown_signals, set_state, throw.
  destruct request.
  - destruct (shutting_down_signals_enabled m); cbn; rewrite Hw; repeat (case_decide; cbn in *; try done);
      (split; [by right|exact Ht]).
  - rewrite Hw, decide_False by done. by right.
Qed.

(** ** Plain callbacks *)

Definition plain (cb : Action) : Prop := let '(MkAction _ body _) := cb in body = [].
Definition name_of (cb : Action) : nat := let '(MkAction n _ _) := cb in n.
Definition succeeds (cb : Action) : bool := let '(MkAction _ _ s) := cb in s.

(** The callbacks up to and including the first that fails. *)
Fixpoint until_failure (q : list Action) : list Action :=
  match q with
  | [] => []
  | cb :: q => if succeeds cb then cb :: until_failure q else [cb]
  end.

Definition names (ev : nat -> Event) (q : list Action) : list Event := (fun cb => ev (name_of cb)) <$> q.

(** A stage left with an empty queue: the new state and the events added. *)
Definition after_prepare (m : Manager) (st : State) (evs : list Event) : Manager :=
  MkManager st [] (launch_ m) (shutdown_ m) (shutting_down_signals_enabled m)
    (log_rotate_signals_enabled m) (sig_shutdown m) (sig_hup m) (wp_to_myself m) (events m ++ evs).
Definition after_launch (m : Manager) (st : State) (evs : list Event) : Manager :=
  MkManager st (prepare_ m) [] (shutdown_ m) (shutting_down_signals_enabled m)
    (log_rotate_signals_enabled m) (sig_shutdown m) (sig_hup m) (wp_to_myself m) (events m ++ evs).
Definition after_shutdown (m : Manager) (st : State) (evs : list Event) : Manager :=
  MkManager st (prepare_ m) (launch_ m) [] (shutting_down_signals_enabled m)
    (log_rotate_signals_enabled m) (sig_shutdown m) (sig_hup m) (wp_to_myself m) (events m ++ evs).

(** The outcome of a stage loop over plain callbacks that started in [base]. *)
Definition outcome (base : State) (q : list Action) : State :=
  if forallb succeeds q then base else ShuttingDown.

(** Execute the monad. *)
Ltac exec :=
  cbn [prepare_loop launch_loop shutdown_loop];
  unfold cas, call, log_event, set_state, set_prepare, set_launch, set_shutdown;
  unfold mbind, M_bind, get, throw, mret, M_ret;
  cbn;
  repeat (first [rewrite decide_True by done|rewrite decide_False by done
    |rewrite bool_decide_eq_true_2 by done|rewrite bool_decide_eq_false_2 by done]; cbn).

Lemma prepare_loop_stopped fuel m :
  (length (prepare_ m) <= fuel)%nat -> state_ m = ShuttingDown ->
  prepare_loop fuel m = (after_prepare m ShuttingDown [], inl tt).
Proof.
  revert m. induction fuel as [|fuel IH]; intros [st p l h a b c d e ev] Hf Hs; cbn in *; subst;
    destruct p as [|cb p]; cbn in Hf; try lia; unfold after_prepare; exec; rewrite ?app_nil_r; try done.
  rewrite IH by (cbn; rewrite ?drop_0; first [done|lia]). unfold after_prepare. cbn. by rewrite app_nil_r.
Qed.

Lemma prepare_loop_plain fuel m :
  (length (prepare_ m) <= fuel)%nat -> Forall plain (prepare_ m) -> state_ m = Prepare ->
  prepare_loop fuel m =
  (after_prepare m (outcome Prepare (prepare_ m)) (names RanPrepare (until_failure (prepare_ m))), inl tt).
Proof.
  revert m. induction fuel as [|fuel IH]; intros [st p l h a b c d e ev] Hf Hp Hs; cbn in *; subst;
    destruct p as [|[n body s] p]; cbn in Hf; try lia; unfold after_prepare, outcome; exec; rewrite ?app_nil_r; try done.
  apply Forall_cons in Hp as [Hb Hp]. cbn in Hb. subst body. exec. destruct s; exec.
  - rewrite IH by (cbn; rewrite ?drop_0; first [done|lia]). unfold after_prepare, outcome. cbn. by rewrite <-(assoc_L (++)).
  - rewrite prepare_loop_stopped by (cbn; rewrite ?drop_0; first [done|lia]). unfold after_prepare. cbn. by rewrite app_nil_r.
Qed.

Lemma launch_loop_stopped fuel m :
  (length (launch_ m) <= fuel)%nat -> state_ m = ShuttingDown ->
  launch_loop fuel m = (after_launch m ShuttingDown [], inl tt).
Proof.
  revert m. induction fuel as [|fuel IH]; intros [st p l h a b c d e ev] Hf Hs; cbn in *; subst;
    destruct l as [|cb l]; cbn in Hf; try lia; unfold after_launch; exec; rewrite ?app_nil_r; try done.
  rewrite IH by (cbn; rewrite ?drop_0; first [done|lia]). unfold after_launch. cbn. by rewrite app_nil_r.
Qed.

Lemma launch_loop_plain fuel m :
  (length (launch_ m) <= fuel)%nat -> Forall plain (launch_ m) -> state_ m = Starting ->
  launch_loop fuel m =
  (after_launch m (outcome Starting (launch_ m)) (names RanLaunch (until_failure (launch_ m))), inl tt).
Proof.
  revert m. induction fuel as [|fuel IH]; intros [st p l h a b c d e ev] Hf Hp Hs; cbn in *; subst;
    destruct l as [|[n body s] l]; cbn in Hf; try lia; unfold after_launch, outcome; exec; rewrite ?app_nil_r; try done.
  apply Forall_cons in Hp as [Hb Hp]. cbn in Hb. subst body. exec. destruct s; exec.
  - rewrite IH by (cbn; rewrite ?drop_0; first [done|lia]). unfold after_launch, outcome. cbn. by rewrite <-(assoc_L (++)).
  - rewrite launch_loop_stopped by (cbn; rewrite ?drop_0; first [done|lia]). unfold after_launch. cbn. by rewrite app_nil_r.
Qed.

Lemma shutdown_loop_plain fuel m :
  (length (shutdown_ m) <= fuel)%nat -> Forall plain (shutdown_ m) ->
  shutdown_loop fuel m = (after_shutdown m (state_ m) (names RanShutdown (shutdown_ m)), inl tt).
Proof.
  revert m. induction fuel as [|fuel IH]; intros [st p l h a b c d e ev] Hf Hp; cbn in *; subst;
    destruct h as [|[n body s] h]; cbn in Hf; try lia; unfold after_shutdown; exec; rewrite ?app_nil_r; try done.
  apply Forall_cons in Hp as [Hb Hp]. cbn in Hb. subst body. exec.
  rewrite IH by (cbn; rewrite ?drop_0; first [done|lia]). unfold after_shutdown. cbn. by rewrite <-(assoc_L (++)).
Qed.

(** [run] as a whole. *)
Lemma triple_run fuel request w :
  (w <= fuel)%nat ->
  triple (in_stage Init ShuttingDown w) (run true request fuel)
    (fun _ m' => state_ m' = ReadyToStop /\ shutdown_ m' = []) (not_back request).
Proof.
  intros Hf. assert (forall e, late_registration e -> not_back request e) as Hl by (by left).
  unfold run. eapply triple_bind with (Q := fun _ => in_stage Init ShuttingDown w); [by intros m0 ?|]. intros [].
  eapply triple_bind with (Q := fun _ => in_stage Init ShuttingDown w); [by apply triple_ret|]. intros [].
  eapply triple_bind; [by apply (triple_weaken _ _ _ _ _ Hl), triple_doPrepare|]. intros [].
  eapply triple_bind; [by apply (triple_weaken _ _ _ _ _ Hl), triple_doLaunch|]. intros [].
  intros m1 Hm1. rewrite <-bind_assoc. revert m1 Hm1.
  eapply triple_bind; [apply triple_wait|]. intros [].
  eapply triple_bind; [by apply (triple_weaken _ _ _ _ _ Hl), triple_doShutdown|]. intros [].
  apply triple_get. intros m2 m3 [-> [Hm3 ?]]. by rewrite decide_True.
Qed.

(** ** No shutdown callback is lost *)

(** The names of the shutdown callbacks executed so far, and of those that are
    executed or queued. *)
Definition shutdown_name (e : Event) : option nat := match e with RanShutdown n => Some n | _ => None end.
Definition executed (m : Manager) : list nat := omap shutdown_name (events m).
Definition promised (m : Manager) : list nat := executed m ++ (name_of <$> shutdown_ m).

(** A computation that returns has only extended the promise. *)
Definition keeps {A} (x : M A) : Prop :=
  forall m, match x m with (m', inl _) => promised m `prefix_of` promised m' | _ => True end.

Lemma keeps_bind {A B} (x : M A) (k : A -> M B) : keeps x -> (forall a, keeps (k a)) -> keeps (x ≫= k).
Proof.
  intros Hx Hk m. unfold mbind, M_bind. specialize (Hx m). destruct (x m) as [m1 [a|e]]; [|done].
  specialize (Hk a m1). destruct (k a m1) as [m2 [b|e]]; [|done]. by etrans.
Qed.

Lemma keeps_same {A} (x : M A) : (forall m, promised (x m).1 = promised m) -> keeps x.
Proof. intros Hx m. specialize (Hx m). destruct (x m) as [m1 [a|e]]; [|done]. cbn in Hx. by rewrite Hx. Qed.

Lemma keeps_log e : shutdown_name e = None -> keeps (log_event e).
Proof.
  intros He. apply keeps_same. intros m. unfold promised, executed. cbn. rewrite omap_app. cbn. rewrite He. by rewrite app_nil_r.
Qed.

Ltac keep := first
  [ apply keeps_bind; [|intros ?]
  | progress cbv beta
  | match goal with |- keeps (if ?b then _ else _) => destruct b end
  | match goal with |- keeps (let '(_, _) := ?p in _) => destruct p end
  | by apply keeps_log
  | by apply keeps_same ].

Lemma keeps_shutdown : keeps shutdown.
Proof. unfold shutdown, shuttingDownSignalsDisable. repeat keep. Qed.

Lemma keeps_cas a b : keeps (cas a b).
Proof. unfold cas. repeat keep. Qed.

Lemma keeps_register cb : keeps (atPrepare cb) /\ keeps (atLaunch cb) /\ keeps (atShutdown cb).
Proof.
  unfold atPrepare, atLaunch, atShutdown. split; [|split].
  1,2: by repeat keep.
  intros m. unfold mbind, M_bind, get. destruct (_ <? _); [done|]. unfold promised, executed. cbn.
  rewrite fmap_app, (assoc_L (++)). apply prefix_app_r. done.
Qed.

Lemma keeps_commands cs : keeps (commands cs).
Proof.
  induction cs as [|c cs IH]; cbn; [by keep|]. apply keeps_bind; [|done].
  destruct c as [|cb|cb|cb]; [apply keeps_shutdown|apply (keeps_register cb)..].
Qed.

Lemma keeps_call ev cb : (forall n, shutdown_name (ev n) = None) -> keeps (call ev cb).
Proof. intros He. destruct cb as [n body s]. unfold call. repeat first [apply keeps_commands|keep]. Qed.

Lemma keeps_prepare_loop fuel : keeps (prepare_loop fuel).
Proof.
  induction fuel as [|fuel IH]; cbn [prepare_loop]; (apply keeps_bind; [by keep|intros m]); destruct (prepare_ m); try by keep.
  repeat first [exact IH|apply keeps_cas|by apply keeps_call|keep].
Qed.

Lemma keeps_launch_loop fuel : keeps (launch_loop fuel).
Proof.
  induction fuel as [|fuel IH]; cbn [launch_loop]; (apply keeps_bind; [by keep|intros m]); destruct (launch_ m); try by keep.
  repeat first [exact IH|apply keeps_cas|by apply keeps_call|keep].
Qed.

(** Commands only append to the queue of shutdown callbacks, and execute none. *)
Lemma command_queue c m : shutdown_ m `prefix_of` shutdown_ (command c m).1 /\ executed (command c m).1 = executed m.
Proof.
  destruct c as [|cb|cb|cb]; cbn [command];
    unfold shutdown, shuttingDownSignalsDisable, atPrepare, atLaunch, atShutdown, mbind, M_bind, get, mret, M_ret, throw,
      set_shutdown_signals, set_state, set_prepare, set_launch, set_shutdown.
  - destruct (shutting_down_signals_enabled m); cbn; repeat case_decide; done.
  - by destruct (_ <? _).
  - by destruct (_ <? _).
  - destruct (_ <? _); cbn; split; try done. by apply prefix_app_r.
Qed.

Lemma commands_queue cs m : shutdown_ m `prefix_of` shutdown_ (commands cs m).1 /\ executed (commands cs m).1 = executed m.
Proof.
  revert m. induction cs as [|c cs IH]; intros m; cbn [commands]; [done|]. unfold mbind, M_bind.
  destruct (command_queue c m) as [Hp He]. destruct (command c m) as [m1 [[]|e]]; [|done]. cbn in Hp, He.
  destruct (IH m1) as [Hp1 He1]. rewrite He1, He. split; [|done]. by etrans.
Qed.

(** The loop executes the callback in front and takes exactly it off the queue. *)
Lemma keeps_shutdown_loop fuel : keeps (shutdown_loop fuel).
Proof.
  induction fuel as [|fuel IH]; intros m; cbn [shutdown_loop]; unfold mbind, M_bind, get;
    destruct (shutdown_ m) as [|[n body s] q] eqn:Hq; cbn; [reflexivity|done|reflexivity|].
  unfold call. unfold mbind, M_bind, log_event. set (m1 := MkManager _ _ _ _ _ _ _ _ _ _).
  destruct (commands_queue body m1) as [Hp He]. destruct (commands body m1) as [m2 [[]|e]]; [|done]. cbn in Hp, He |- *.
  unfold set_shutdown. set (m3 := MkManager _ _ _ _ _ _ _ _ _ _). specialize (IH m3).
  destruct (shutdown_loop fuel m3) as [m' [[]|e]]; [|done]. etrans; [|exact IH].
  unfold promised. change (executed m3) with (executed m2). rewrite He. unfold executed. cbn [events shutdown_ m1 m3].
  destruct Hp as [r Hr]. rewrite omap_app, Hr. cbn [m1 shutdown_]. rewrite Hq. cbn. rewrite drop_0, fmap_app, <-(assoc_L (++)).
  cbn. apply prefix_app, prefix_cons, prefix_app_r. done.
Qed.

Lemma keeps_run request fuel : keeps (run true request fuel).
Proof.
  unfold run, doPrepare, doLaunch, doShutdown, shutdownRequestWaiting.
  repeat first [apply keeps_prepare_loop|apply keeps_launch_loop|apply keeps_shutdown_loop|apply keeps_shutdown|apply keeps_cas|keep].
Qed.

(** Where a run that waits is: in the stage [Works], not before and not after. *)
Lemma waiting_works request fuel m m' :
  state_ m = Init \/ state_ m = ShuttingDown -> (total m <= fuel)%nat ->
  run true request fuel m = (m', inr StillWaiting) -> state_ m' = Works.
Proof.
  intros Hs Hf. unfold run. unfold mbind at 1 2, M_bind at 1 2. cbn. unfold mbind at 1, M_bind at 1.
  set (m0 := MkManager _ _ _ _ _ _ _ _ _ _). assert (in_stage Init ShuttingDown (total m) m0) as H0 by (by split).
  pose proof (triple_doPrepare fuel (total m) Hf m0 H0) as H1.
  destruct (doPrepare fuel m0) as [m1 [[]|e]]; [|intros [= _ ->]; by destruct H1].
  unfold mbind at 1, M_bind at 1. pose proof (triple_doLaunch fuel (total m) Hf m1 H1) as H2.
  destruct (doLaunch fuel m1) as [m2 [[]|e]]; [|intros [= _ ->]; by destruct H2].
  unfold mbind at 1, M_bind at 1, get at 1. unfold mbind at 1, M_bind at 1.
  pose proof (triple_wait request (total m) m2 H2) as H3. unfold mbind at 1, M_bind at 1, get at 1 in H3.
  destruct ((if decide (state_ m2 = Works) then shutdownRequestWaiting request else mret tt) m2) as [m3 [[]|e]] eqn:Hw.
  - unfold mbind at 1, M_bind at 1. pose proof (triple_doShutdown fuel (total m) Hf m3 H3) as H4.
    destruct (doShutdown fuel m3) as [m4 [[]|e]]; [|intros [= _ ->]; by destruct H4].
    unfold mbind, M_bind, get. rewrite decide_True by apply H4. done.
  - intros [= <- ->]. destruct H3 as [[|]|[_ ->]]; [done..|]. revert Hw. case_decide as Hd; [|done].
    unfold shutdownRequestWaiting, mbind, M_bind, get, mret, M_ret, throw. cbn. case_decide; [done|]. by intros [= <-].
Qed.

(** ** Properties *)

(** C4: the run of the life cycle, whatever the registered callbacks do (fail, request
    shutdown, register further callbacks), with as much fuel as the weight of the
    callbacks, from the initial state or with a shutdown already requested. If a shutdown
    is requested while the manager waits, [run] returns. If no one requests it, [run]
    returns all the same or it is waiting in the stage [Works]. When it returns, the
    manager is in [ReadyToStop], the queue of shutdown callbacks is empty, and every
    shutdown callback that was registered before the run has been executed, in the order
    of registration. The only exception is that of a callback that registers for a stage
    that is over; the internal consistency exceptions ("running stage", "expected in stage
    'ready to stop'") never occur. *)
Theorem run_completes request fuel m :
  state_ m = Init \/ state_ m = ShuttingDown -> (total m <= fuel)%nat ->
  match run true request fuel m with
  | (m', inl _) => state_ m' = ReadyToStop /\ shutdown_ m' = []
      /\ executed m ++ (name_of <$> shutdown_ m) `prefix_of` executed m'
  | (m', inr StillWaiting) => request = false /\ state_ m' = Works
  | (_, inr e) => e = AddingPrepare \/ e = AddingLaunch
  end.
Proof.
  intros Hs Hf. pose proof (triple_run fuel request (total m) Hf m (conj Hs (le_n _))) as Ht.
  pose proof (keeps_run request fuel m) as Hk. pose proof (waiting_works request fuel m) as Hw.
  destruct (run true request fuel m) as [m' [[]|e]].
  - destruct Ht as [Ht Hn]. split; [done|]. split; [done|]. unfold promised in Hk. rewrite Hn in Hk. cbn in Hk. by rewrite app_nil_r in Hk.
  - destruct Ht as [[->| ->]|[-> ->]]; [by left|by right|]. split; [done|]. by apply (Hw m').
Qed.

(** With callbacks that do nothing to the manager, [run] executes the prepare
    callbacks in order of registration up to the first failure; the launch
    callbacks, up to the first failure, only if no prepare callback failed; and
    in every case all shutdown callbacks, in order, once a shutdown is requested or a
    callback has failed. *)
Theorem run_order request fuel m :
  state_ m = Init -> request = true \/ forallb succeeds (prepare_ m) && forallb succeeds (launch_ m) = false ->
  Forall plain (prepare_ m) -> Forall plain (launch_ m) -> Forall plain (shutdown_ m) ->
  (length (prepare_ m) <= fuel)%nat -> (length (launch_ m) <= fuel)%nat -> (length (shutdown_ m) <= fuel)%nat ->
  exists m', run true request fuel m = (m', inl tt) /\ state_ m' = ReadyToStop
    /\ events m' = events m ++ names RanPrepare (until_failure (prepare_ m))
         ++ (if forallb succeeds (prepare_ m) then names RanLaunch (until_failure (launch_ m)) else [])
         ++ names RanShutdown (shutdown_ m).
Proof.
  destruct m as [st p l h a b c d e ev]. cbn [state_ prepare_ launch_ shutdown_ events].
  intros -> Hend Hp Hl Hh Fp Fl Fh.
  unfold run, doPrepare, doLaunch, doShutdown, shutdownRequestWaiting, shutdown, shuttingDownSignalsDisable,
    set_shutdown_signals, set_wp. exec.
  rewrite prepare_loop_plain by done. unfold after_prepare, outcome. cbn.
  destruct (forallb succeeds p) eqn:Hpok; exec.
  - rewrite launch_loop_plain by done. unfold after_launch, outcome. cbn.
    destruct (forallb succeeds l) eqn:Hlok; exec; [destruct Hend as [->|]; [|done]; destruct a; exec|];
      rewrite shutdown_loop_plain by done; unfold after_shutdown; exec; eexists; (split; [done|]); (split; [done|]); cbn;
      by rewrite <-!(assoc_L (++)).
  - rewrite launch_loop_stopped by done. unfold after_launch. exec.
    rewrite shutdown_loop_plain by done. unfold after_shutdown. exec. eexists. split; [done|]. split; [done|]. cbn.
    rewrite app_nil_r. by rewrite <-(assoc_L (++)).
Qed.

(** Without a request, when all callbacks succeed, [run] executes the prepare and the
    launch callbacks and waits; no shutdown callback has been executed. *)
Lemma run_waits fuel m :
  state_ m = Init -> Forall plain (prepare_ m) -> Forall plain (launch_ m) ->
  forallb succeeds (prepare_ m) = true -> forallb succeeds (launch_ m) = true ->
  (length (prepare_ m) <= fuel)%nat -> (length (launch_ m) <= fuel)%nat ->
  exists m', run true false fuel m = (m', inr StillWaiting) /\ state_ m' = Works /\ shutdown_ m' = shutdown_ m
    /\ events m' = events m ++ names RanPrepare (until_failure (prepare_ m)) ++ names RanLaunch (until_failure (launch_ m)).
Proof.
  destruct m as [st p l h a b c d e ev]. cbn [state_ prepare_ launch_ shutdown_ events].
  intros -> Hp Hl Hpok Hlok Fp Fl.
  unfold run, doPrepare, doLaunch, shutdownRequestWaiting, set_wp. exec.
  rewrite prepare_loop_plain by done. unfold after_prepare, outcome. cbn. rewrite Hpok. exec.
  rewrite launch_loop_plain by done. unfold after_launch, outcome. cbn. rewrite Hlok. exec.
  eexists. split_and!; [done..|]. cbn. by rewrite <-(assoc_L (++)).
Qed.

(** ** Witnesses *)

(** The second prepare callback fails after registering a shutdown callback. *)
Definition sample : Manager := MkManager Init
  [MkAction 1 [] true; MkAction 2 [CallAtShutdown (MkAction 7 [] true)] false; MkAction 3 [] true]
  [MkAction 4 [] true] [MkAction 5 [CallShutdown] true] true true ShuttingDownHandler LogRotateHandler false [].

(** All callbacks succeed. *)
Definition calm_sample : Manager := MkManager Init [MkAction 1 [CallAtShutdown (MkAction 7 [] true)] true]
  [MkAction 4 [] true] [MkAction 5 [] true] true true ShuttingDownHandler LogRotateHandler false [].

(** The failing callback ends the run without a request; the calm manager returns on a
    request and waits without one. *)
Lemma run_completes_witness :
  (exists m', run true false 10 sample = (m', inl tt) /\ state_ m' = ReadyToStop /\ shutdown_ m' = [] /\ [5%nat] `prefix_of` executed m')
  /\ (exists m', run true true 10 calm_sample = (m', inl tt) /\ state_ m' = ReadyToStop /\ shutdown_ m' = [] /\ [5%nat] `prefix_of` executed m')
  /\ (exists m', run true false 10 calm_sample = (m', inr StillWaiting) /\ state_ m' = Works).
Proof.
  pose proof (run_completes false 10 sample ltac:(by left) ltac:(vm_compute; lia)) as H1.
  pose proof (run_completes true 10 calm_sample ltac:(by left) ltac:(vm_compute; lia)) as H2.
  pose proof (run_completes false 10 calm_sample ltac:(by left) ltac:(vm_compute; lia)) as H3.
  split; [|split]; (eexists; split; [vm_compute; reflexivity|]).
  - vm_compute in H1 |- *. exact H1.
  - vm_compute in H2 |- *. exact H2.
  - vm_compute in H3 |- *. exact (proj2 H3).
Defined.

Definition plain_sample : Manager := MkManager Init [MkAction 1 [] true; MkAction 2 [] true]
  [MkAction 3 [] false; MkAction 4 [] true] [MkAction 5 [] true] true true ShuttingDownHandler LogRotateHandler false [].

Lemma run_order_witness :
  exists m', run true false 5 plain_sample = (m', inl tt) /\ state_ m' = ReadyToStop
    /\ events m' = [RanPrepare 1; RanPrepare 2; RanLaunch 3; RanShutdown 5].
Proof.
  refine (run_order false 5 plain_sample eq_refl (or_intror eq_refl) _ _ _ _ _ _); try (repeat constructor); cbn; lia.
Defined.

End StateManagerSpec.
