(* ===== verification/StateManagerRace.v ===== *)
(** * StateManagerRace: [shutdown] from other threads

    The atomic accesses to [state_] of [StateManagerImpl::run] (one thread) and of
    [StateManagerImpl::shutdown] (any number of threads), interleaved.  The
    callbacks are reduced to whether one of them fails; the mutexes do not matter,
    since [shutdown] does not take the mutex the stages hold. *)

From S2P Require Import Prelude StateManager.

Module StateManagerRace.
Import StateManager.

(** Where [run] is: before the exchange that enters a stage, inside the stage,
    before the check for [Works], in the wait, before the final check. *)
Inductive MainPc : Type :=
| PrepareEnter | PrepareRun | LaunchEnter | LaunchRun | CheckWorks | Waiting
| ShutdownEnter | ShutdownRun | FinalCheck | Finished | Threw (e : Exn).

(** Where a call of [shutdown] is: before its first load, its second load, its
    store, after its return. *)
Inductive CallerPc : Type := LoadReadyToStop | LoadShuttingDown | StoreShuttingDown | Returned.

Record Sys : Type := MkSys { st : State; main : MainPc; callers : list CallerPc }.

(** [compare_exchange_strong], then throw unless it succeeded or a shutdown is
    under way. *)
Definition enter (expected desired : State) (next : MainPc) (err : Exn) (s : Sys) : Sys :=
  if decide (st s = expected) then MkSys desired next (callers s)
  else if decide (st s = ShuttingDown) then MkSys (st s) next (callers s)
  else MkSys (st s) (Threw err) (callers s).

Definition leave (expected desired : State) (next : MainPc) (s : Sys) : Sys :=
  MkSys (if decide (st s = expected) then desired else st s) next (callers s).

(** The next atomic step of [run]; none when it waits or is over. *)
Definition main_step (s : Sys) : option Sys :=
  match main s with
  | PrepareEnter => Some (enter Init Prepare PrepareRun RunningPreparing s)
  | PrepareRun => Some (leave Prepare ReadyToStart LaunchEnter s)
  | LaunchEnter => Some (enter ReadyToStart Starting LaunchRun RunningLaunch s)
  | LaunchRun => Some (leave Starting Works CheckWorks s)
  | CheckWorks => Some (MkSys (st s) (if decide (st s = Works) then Waiting else ShutdownEnter) (callers s))
  | Waiting => if decide (st s = ShuttingDown) then Some (MkSys (st s) ShutdownEnter (callers s)) else None
  | ShutdownEnter => Some (enter Works ShuttingDown ShutdownRun RunningShuttingDown s)
  | ShutdownRun => Some (leave ShuttingDown ReadyToStop FinalCheck s)
  | FinalCheck => Some (MkSys (st s) (if decide (st s = ReadyToStop) then Finished else Threw NotReadyToStop) (callers s))
  | Finished | Threw _ => None
  end.

(** A callback of the running stage fails. *)
Definition fail_step (s : Sys) : option Sys :=
  match main s with
  | PrepareRun => Some (leave Prepare ShuttingDown PrepareRun s)
  | LaunchRun => Some (leave Starting ShuttingDown LaunchRun s)
  | _ => None
  end.

(** The next atomic step of the [i]-th call of [shutdown]. *)
Definition caller_step (i : nat) (s : Sys) : option Sys :=
  match callers s !! i with
  | Some LoadReadyToStop =>
      Some (MkSys (st s) (main s)
        (<[i := if decide (st s = ReadyToStop) then Returned else LoadShuttingDown]> (callers s)))
  | Some LoadShuttingDown =>
      Some (MkSys (st s) (main s)
        (<[i := if decide (st s = ShuttingDown) then Returned else StoreShuttingDown]> (callers s)))
  | Some StoreShuttingDown => Some (MkSys ShuttingDown (main s) (<[i := Returned]> (callers s)))
  | _ => None
  end.

Inductive step (may_fail : bool) : Sys -> Sys -> Prop :=
| step_main s s' : main_step s = Some s' -> step may_fail s s'
| step_fail s s' : may_fail = true -> fail_step s = Some s' -> step may_fail s s'
| step_caller i s s' : caller_step i s = Some s' -> step may_fail s s'.

(** [n] calls of [shutdown] racing with [run]. *)
Definition start (n : nat) : Sys := MkSys Init PrepareEnter (replicate n LoadReadyToStop).

(** ** One call, no failing callback *)

(** As long as the call has not stored, the stage determines the state; after the
    store everything up to the end is shutting down. *)
Definition consistent (s : Sys) : Prop :=
  match callers s with
  | [Returned] =>
      match main s with
      | FinalCheck | Finished => st s = ReadyToStop
      | Threw _ => False
      | _ => st s = ShuttingDown
      end
  | [] | [_] =>
      match main s with
      | PrepareEnter => st s = Init
      | PrepareRun => st s = Prepare
      | LaunchEnter => st s = ReadyToStart
      | LaunchRun => st s = Starting
      | CheckWorks | Waiting => st s = Works
      | _ => False
      end
  | _ => False
  end.

Lemma consistent_step s s' : consistent s -> step false s s' -> consistent s'.
Proof.
  destruct s as [x m cs]. intros Hc Hstep.
  inversion Hstep as [? ? H|? ? ? H|i ? ? H]; subst; [|done|].
  - unfold consistent in *. unfold main_step, enter, leave in H. cbn in *.
    destruct cs as [|[] [|]], m; cbn in *; try done; subst; vm_compute in H; try discriminate H; injection H as <-; done.
  - unfold consistent in *. unfold caller_step in H. cbn in *.
    destruct cs as [|c [|]]; [done| |by destruct c].
    destruct i; cbn in H; [|done]. destruct c; cbn in H; [..|done]; destruct m; cbn in *; try done; subst;
      vm_compute in H; injection H as <-; done.
Qed.

Lemma consistent_reachable n s :
  (n <= 1)%nat -> rtc (step false) (start n) s -> consistent s.
Proof.
  intros Hn Hr. assert (consistent (start n)) as H0 by (destruct n as [|[|]]; [done|done|lia]).
  revert H0. induction Hr; intros; [done|]. eauto using consistent_step.
Qed.

(** ** Properties *)

(** C27: with no failing callback and at most one call of [shutdown], at whatever
    moment, [run] never throws; and once the call has returned [run] is never
    stuck before its end. *)
Theorem single_shutdown_safe n s :
  (n <= 1)%nat -> rtc (step false) (start n) s ->
  (forall e, main s <> Threw e) /\ (callers s = [Returned] -> main s = Finished \/ is_Some (main_step s)).
Proof.
  intros Hn Hr%consistent_reachable; [|done]. destruct s as [x m cs]. unfold consistent in Hr. cbn in *. split.
  - intros e ->. by destruct cs as [|[] []].
  - intros ->. destruct m; cbn in *; auto; subst; try done; right; eexists; reflexivity.
Qed.

(** The [i]-th step of a schedule. *)
Inductive Move : Type := MoveMain | MoveFail | MoveCaller (i : nat).

Definition move (mv : Move) (s : Sys) : option Sys :=
  match mv with
  | MoveMain => main_step s
  | MoveFail => fail_step s
  | MoveCaller i => caller_step i s
  end.

Fixpoint schedule (mvs : list Move) (s : Sys) : option Sys :=
  match mvs with
  | [] => Some s
  | mv :: mvs => s' ← move mv s; schedule mvs s'
  end.

Lemma schedule_reachable (b : bool) mvs s s' :
  (b = true \/ MoveFail ∉ mvs) -> schedule mvs s = Some s' -> rtc (step b) s s'.
Proof.
  revert s. induction mvs as [|mv mvs IH]; intros s Hb Hs; cbn in Hs; [by injection Hs as ->|].
  destruct (move mv s) as [s1|] eqn:Hm; [|done]. cbn in Hs.
  eapply rtc_l; [|apply IH; [|exact Hs]; set_solver].
  destruct mv; cbn in Hm; [by constructor| |by econstructor].
  constructor; [|done]. destruct Hb as [|Hb]; [done|]. exfalso. apply Hb. left.
Qed.

(** The check and the store of [shutdown] are not atomic together. With two
    calls, or with one call and a failing launch callback, the store of
    [ShuttingDown] can come after [run] has reached [ReadyToStop], and [run] then
    throws although every stage was completed. *)
Theorem late_store_throws :
  (exists s, rtc (step false) (start 2) s /\ main s = Threw NotReadyToStop)
  /\ (exists s, rtc (step true) (start 1) s /\ main s = Threw NotReadyToStop).
Proof.
  split.
  - exists (MkSys ShuttingDown (Threw NotReadyToStop) [Returned; Returned]). split; [|done].
    apply (schedule_reachable _ ([MoveMain; MoveMain; MoveMain; MoveMain; MoveMain; MoveCaller 0; MoveCaller 0;
      MoveCaller 1; MoveCaller 1; MoveCaller 1; MoveMain; MoveMain; MoveMain; MoveCaller 0; MoveMain])).
    + right. set_solver.
    + vm_compute. reflexivity.
  - exists (MkSys ShuttingDown (Threw NotReadyToStop) [Returned]). split; [|done].
    apply (schedule_reachable _ ([MoveMain; MoveMain; MoveMain; MoveCaller 0; MoveCaller 0; MoveFail; MoveMain;
      MoveMain; MoveMain; MoveMain; MoveCaller 0; MoveMain])).
    + by left.
    + vm_compute. reflexivity.
Qed.

(** ** Witnesses *)

Lemma single_shutdown_safe_witness :
  exists s, callers s = [Returned] /\ st s = ShuttingDown /\ (main s = Finished \/ is_Some (main_step s)).
Proof.
  exists (MkSys ShuttingDown PrepareRun [Returned]). split; [reflexivity|]. split; [reflexivity|].
  refine (proj2 (single_shutdown_safe 1 (MkSys ShuttingDown PrepareRun [Returned]) _ _) eq_refl); [lia|].
  apply (schedule_reachable false [MoveMain; MoveCaller 0; MoveCaller 0; MoveCaller 0]); [right; set_solver|vm_compute; reflexivity].
Defined.

End StateManagerRace.
