(* ===== verification/ShutdownWait.v ===== *)
(** * ShutdownWait: waiting for the request to shut down

    [shutdownRequestWaiting], [shutdown] and [shuttingDownSignalsHandler] of
    [src/src/app/impl/state_manager_impl.cpp], with the mutex and the condition variable
    between them.  Calls of [shutdown] come from other threads or from a signal; a signal
    that the main thread receives runs its handler on top of what the thread was doing.
    [StateManagerRace] has the stages before and after the wait. *)

From S2P Require Import Prelude StateManager.

Module ShutdownWait.
Import StateManager.

(** ** The threads *)

(** The main thread: before [lock], with the mutex and about to evaluate the predicate,
    inside [wait] with the mutex released, woken and about to take the mutex again, past
    the wait, after [doShutdown]. *)
Inductive Main : Type := Lock_ | Test_ | Blocked | Woken | Past | Stopped.

(** A call of [shutdown]: not made yet, before its two loads, before the guard, with the
    mutex before the store, before [notify_one], returned. *)
Inductive Call : Type := Idle | Load1 | Load2 | Guard_ | Store_ | Notify_ | Returned.

#[export] Instance Call_eq_dec : EqDecision Call.
Proof. solve_decision. Defined.

Inductive Owner : Type := Nobody | TheMain | TheCall (i : nat).

#[export] Instance Owner_eq_dec : EqDecision Owner.
Proof. solve_decision. Defined.

Record Sys : Type := MkSys {
  state_ : State;
  cv_mutex_ : Owner;
  main : Main;
  calls : list Call;
  on_main : option nat   (** the call that runs in a signal handler of the main thread *)
}.

(** The beginning of the wait, with [n] calls to come. *)
Definition start (n : nat) : Sys := MkSys Works Nobody Lock_ (replicate n Idle) None.

Definition main_step (s : Sys) : option Sys :=
  match on_main s with
  | Some _ => None
  | None =>
      let go x o p := Some (MkSys x o p (calls s) None) in
      match main s with
      | Lock_ | Woken => if decide (cv_mutex_ s = Nobody) then go (state_ s) TheMain Test_ else None
      | Test_ => if decide (state_ s = ShuttingDown) then go (state_ s) Nobody Past else go (state_ s) Nobody Blocked
      | Blocked => None
      | Past => go ReadyToStop (cv_mutex_ s) Stopped
      | Stopped => None
      end
  end.

(** A wake-up without a notification. *)
Definition spurious (s : Sys) : option Sys :=
  match main s with Blocked => Some (MkSys (state_ s) (cv_mutex_ s) Woken (calls s) (on_main s)) | _ => None end.

Definition return_ (s : Sys) (i : nat) (o : Owner) (p : Main) : Sys :=
  MkSys (state_ s) o p (<[i := Returned]> (calls s)) (if decide (on_main s = Some i) then None else on_main s).

Definition call_step (i : nat) (s : Sys) : option Sys :=
  let go x o c := Some (MkSys x o (main s) (<[i := c]> (calls s)) (on_main s)) in
  c ← calls s !! i;
  match c with
  | Idle | Returned => None
  | Load1 => if decide (state_ s = ReadyToStop) then Some (return_ s i (cv_mutex_ s) (main s)) else go (state_ s) (cv_mutex_ s) Load2
  | Load2 => if decide (state_ s = ShuttingDown) then Some (return_ s i (cv_mutex_ s) (main s)) else go (state_ s) (cv_mutex_ s) Guard_
  | Guard_ => if decide (cv_mutex_ s = Nobody) then go (state_ s) (TheCall i) Store_ else None
  | Store_ => go ShuttingDown (cv_mutex_ s) Notify_
  | Notify_ => Some (return_ s i Nobody (match main s with Blocked => Woken | p => p end))
  end.

(** A call begins, in another thread or, once, in a signal handler of the main thread. *)
Definition arrive (i : nat) (signal : bool) (s : Sys) : option Sys :=
  c ← calls s !! i;
  match c, signal, on_main s with
  | Idle, false, m => Some (MkSys (state_ s) (cv_mutex_ s) (main s) (<[i := Load1]> (calls s)) m)
  | Idle, true, None => Some (MkSys (state_ s) (cv_mutex_ s) (main s) (<[i := Load1]> (calls s)) (Some i))
  | _, _, _ => None
  end.

Inductive Move : Type := MMain | MSpurious | MCall (i : nat) | MArrive (i : nat) (signal : bool).

Definition move (s : Sys) (m : Move) : option Sys :=
  match m with
  | MMain => main_step s
  | MSpurious => spurious s
  | MCall i => call_step i s
  | MArrive i signal => arrive i signal s
  end.

Fixpoint exec (s : Sys) (ms : list Move) : option Sys :=
  match ms with [] => Some s | m :: ms => s' ← move s m; exec s' ms end.

(** ** The invariant *)

Definition holding (c : Call) : bool := match c with Store_ | Notify_ => true | _ => false end.

Record inv (s : Sys) : Prop := MkInv {
  inv_main : cv_mutex_ s = TheMain <-> main s = Test_;
  inv_call : forall i c, calls s !! i = Some c -> holding c = true -> cv_mutex_ s = TheCall i;
  inv_owner : forall i, cv_mutex_ s = TheCall i -> exists c, calls s !! i = Some c /\ holding c = true;
  inv_signal : forall i, on_main s = Some i -> exists c, calls s !! i = Some c /\ c <> Idle /\ c <> Returned;
  inv_returned : forall i, calls s !! i = Some Returned -> state_ s = ShuttingDown \/ main s = Stopped;
  inv_notify : forall i, calls s !! i = Some Notify_ -> state_ s = ShuttingDown \/ main s = Stopped;
  inv_state : state_ s = Works \/ state_ s = ShuttingDown \/ main s = Stopped;
  inv_blocked : main s = Blocked -> state_ s = ShuttingDown -> exists i, calls s !! i = Some Notify_
}.

Lemma wait_inv_start n : inv (start n).
Proof.
  assert (forall i c, replicate n Idle !! i = Some c -> c = Idle) as Hr by (intros i c [-> _]%lookup_replicate; done).
  split; cbn; try done; try (by left); intros i.
  - intros c Hc%Hr. by subst.
  - intros Hc%Hr. done.
  - intros Hc%Hr. done.
Qed.

Ltac split_calls :=
  repeat match goal with
  | H : <[_ := _]> _ !! _ = Some _ |- _ => apply list_lookup_insert_Some in H as [(? & ? & _)|[? H]]; [simplify_eq|]
  end.

(** Calls other than the one that steps are as before. *)
Lemma lookup_other (l : list Call) i j c c' : l !! j = Some c' -> j <> i -> <[i := c]> l !! j = Some c'.
Proof. intros Hl Hne. by rewrite list_lookup_insert_ne. Qed.

Lemma lookup_self (l : list Call) i c c' : l !! i = Some c' -> <[i := c]> l !! i = Some c.
Proof. intros Hl. apply list_lookup_insert_eq. by eapply lookup_lt_Some. Qed.

Lemma inv_main_step s s' : inv s -> main_step s = Some s' -> inv s'.
Proof.
  destruct s as [x o p cs om]. intros [H1 H2 H3 H4 H5 H6 H7 H8]. unfold main_step. cbn in *. destruct om as [k|]; [done|].
  assert (forall i c, cs !! i = Some c -> o <> TheCall i -> holding c = false) as Hfree.
  { intros i c Hc Ho. destruct (holding c) eqn:E; [|done]. by destruct Ho; eapply H2. }
  destruct p; cbn; try done; try case_decide; intros [= <-]; simplify_eq.
  all: split; cbn; intros; try done; try (by firstorder congruence).
Qed.

Lemma inv_spurious s s' : inv s -> spurious s = Some s' -> inv s'.
Proof.
  destruct s as [x o p cs om]. intros [H1 H2 H3 H4 H5 H6 H7 H8]. unfold spurious. cbn in *. destruct p; [done|done| |done..].
  intros [= <-]. split; cbn; try done.
  - split; [|done]. intros E. by apply H1 in E.
  - intros i Hi. destruct (H5 i Hi); [by left|done].
  - intros i Hi. destruct (H6 i Hi); [by left|done].
  - destruct H7 as [|[|]]; auto; done.
Qed.

(** The call [i] goes from [c] to [c'] without a change of the mutex. *)
Lemma inv_move_call s i c c' om :
  inv s -> calls s !! i = Some c -> holding c = false -> holding c' = false -> c <> Notify_ ->
  (c' = Returned -> state_ s = ShuttingDown \/ main s = Stopped) ->
  (forall j, om = Some j -> (j = i /\ c' <> Idle /\ c' <> Returned) \/ (j <> i /\ on_main s = Some j)) ->
  inv (MkSys (state_ s) (cv_mutex_ s) (main s) (<[i := c']> (calls s)) om).
Proof.
  intros [H1 H2 H3 H4 H5 H6 H7 H8] Hc Hh Hh' Hn Hret Hom. split; cbn; try done.
  - intros j d Hd Hj. split_calls; [congruence|by eapply H2].
  - intros j Hj. destruct (H3 j Hj) as (d & Hd & Hdh). exists d. split; [|done]. apply lookup_other; [done|]. intros ->. congruence.
  - intros j Hj. destruct (Hom j Hj) as [(-> & Hd1 & Hd2)|[Hne Hj']]; [exists c'; split; [by eapply lookup_self|done]|].
    destruct (H4 j Hj') as (d & Hd & Hd1). exists d. split; [by apply lookup_other|done].
  - intros j Hj. split_calls; [by apply Hret|by eapply H5].
  - intros j Hj. split_calls; by eapply H6.
  - intros Hb Hst. destruct (H8 Hb Hst) as [j Hj]. exists j. apply lookup_other; [done|]. intros ->. congruence.
Qed.

(** The running handler stays one while its call goes on. *)
Lemma signal_kept s i c' j :
  inv s -> c' <> Idle -> c' <> Returned -> is_Some (calls s !! i) -> on_main s = Some j ->
  exists d, <[i := c']> (calls s) !! j = Some d /\ d <> Idle /\ d <> Returned.
Proof.
  intros Hi Hc1 Hc2 [c Hc] Hj. destruct (decide (j = i)) as [->|Hne]; [exists c'; split; [by eapply lookup_self|done]|].
  destruct (inv_signal s Hi j Hj) as (d & Hd & Hd1). exists d. split; [by apply lookup_other|done].
Qed.

Lemma inv_take s i :
  inv s -> calls s !! i = Some Guard_ -> cv_mutex_ s = Nobody ->
  inv (MkSys (state_ s) (TheCall i) (main s) (<[i := Store_]> (calls s)) (on_main s)).
Proof.
  intros Hi Hc Ho. pose proof Hi as [H1 H2 H3 H4 H5 H6 H7 H8]. rewrite Ho in *. split; cbn; try done.
  - split; [done|]. intros E. by apply H1 in E.
  - intros j d Hd Hj. split_calls; [done|]. by specialize (H2 j d Hd Hj).
  - intros j [= <-]. exists Store_. split; [by eapply lookup_self|done].
  - intros j Hj. by eapply signal_kept.
  - intros j Hj. split_calls; by eapply H5.
  - intros j Hj. split_calls; by eapply H6.
  - intros Hb Hst. destruct (H8 Hb Hst) as [j Hj]. exists j. apply lookup_other; [done|]. intros ->. congruence.
Qed.

Lemma inv_store s i :
  inv s -> calls s !! i = Some Store_ ->
  inv (MkSys ShuttingDown (cv_mutex_ s) (main s) (<[i := Notify_]> (calls s)) (on_main s)).
Proof.
  intros Hi Hc. pose proof Hi as [H1 H2 H3 H4 H5 H6 H7 H8]. split; cbn; try done; try (by auto).
  - intros j d Hd Hj. split_calls; [by eapply H2|by eapply H2].
  - intros j Hj. destruct (H3 j Hj) as (d & Hd & Hdh). destruct (decide (j = i)) as [->|Hne]; [exists Notify_; split; [by eapply lookup_self|done]|].
    exists d. split; [by apply lookup_other|done].
  - intros j Hj. by eapply signal_kept.
  - intros _ _. exists i. by eapply lookup_self.
Qed.

Lemma inv_notify_one s i :
  inv s -> calls s !! i = Some Notify_ -> inv (return_ s i Nobody (match main s with Blocked => Woken | p => p end)).
Proof.
  intros Hi Hc. pose proof Hi as [H1 H2 H3 H4 H5 H6 H7 H8]. pose proof (H2 i _ Hc eq_refl) as Ho. rewrite Ho in *.
  assert (main s <> Test_) as Hm by (intros E; by apply H1 in E).
  assert (forall P : Prop, (main s = Stopped -> P) -> (match main s with Blocked => Woken | p => p end = Stopped -> P)) as Hst.
  { intros P HP. destruct (main s); auto; done. }
  assert (main s = Stopped -> match main s with Blocked => Woken | p => p end = Stopped) as Hst' by by intros ->.
  split; cbn; try done.
  - split; [done|]. destruct (main s); done.
  - intros j d Hd Hj. split_calls. specialize (H2 j d Hd Hj). congruence.
  - intros j. case_decide as E; [done|]. intros Hj. destruct (H4 j Hj) as (d & Hd & Hd1). exists d. split; [|done].
    apply lookup_other; [done|congruence].
  - intros j Hj. destruct (H6 i Hc); auto.
  - intros j Hj. destruct (H6 i Hc); auto.
  - destruct H7 as [|[|]]; auto.
  - destruct (main s); done.
Qed.

(** An early return, and a step between two loads. *)
Lemma inv_early s i c :
  inv s -> calls s !! i = Some c -> c = Load1 \/ c = Load2 -> state_ s <> Works -> inv (return_ s i (cv_mutex_ s) (main s)).
Proof.
  intros Hi Hc Hl Hs. apply (inv_move_call s i c Returned); try done; [by destruct Hl; subst..| |].
  - intros _. by destruct (inv_state s Hi) as [|[|]]; auto.
  - intros j. case_decide as E; [done|]. intros Hj. right. split; [congruence|done].
Qed.

Lemma inv_goes_on s i c c' :
  inv s -> calls s !! i = Some c -> holding c = false -> c' = Load1 \/ c' = Load2 \/ c' = Guard_ ->
  inv (MkSys (state_ s) (cv_mutex_ s) (main s) (<[i := c']> (calls s)) (on_main s)).
Proof.
  intros Hi Hc Hh Hc'. apply (inv_move_call s i c c'); try done; [by destruct Hc' as [->|[->| ->]]|by intros ->|by destruct Hc' as [->|[->| ->]]|].
  intros j Hj. destruct (decide (j = i)) as [->|]; [left|by right]. by destruct Hc' as [->|[->| ->]].
Qed.

Lemma inv_call_step i s s' : inv s -> call_step i s = Some s' -> inv s'.
Proof.
  intros Hi. unfold call_step. destruct (calls s !! i) as [c|] eqn:Hc; [|done]. cbn. destruct c; try done.
  - case_decide; intros [= <-]; [eapply inv_early|eapply inv_goes_on]; eauto. congruence.
  - case_decide; intros [= <-]; [eapply inv_early|eapply inv_goes_on]; eauto. congruence.
  - case_decide as Ho; [|done]. intros [= <-]. by eapply inv_take.
  - intros [= <-]. by eapply inv_store.
  - intros [= <-]. by eapply inv_notify_one.
Qed.

Lemma inv_arrive i signal s s' : inv s -> arrive i signal s = Some s' -> inv s'.
Proof.
  intros Hi. unfold arrive. destruct (calls s !! i) as [c|] eqn:Hc; [|done]. cbn.
  destruct c; try done. destruct signal; [destruct (on_main s) eqn:E; [done|]|]; intros [= <-].
  - eapply inv_move_call; eauto; try done. intros j [= <-]. by left.
  - eapply inv_goes_on; eauto.
Qed.

Lemma inv_exec s ms s' : inv s -> exec s ms = Some s' -> inv s'.
Proof.
  revert s. induction ms as [|m ms IH]; cbn; intros s Hi He; [by simplify_eq|].
  destruct (move s m) as [s1|] eqn:Hm; [|done]. apply (IH s1); [|done].
  destruct m; cbn in Hm; eauto using inv_main_step, inv_spurious, inv_call_step, inv_arrive.
Qed.

(** ** When nothing moves *)

(** Neither the main thread nor a call that was made can go on. *)
Definition stuck (s : Sys) : Prop := main_step s = None /\ forall i, call_step i s = None.

(** The signal came while the main thread had the mutex: the handler waits for it on
    top of the thread that would release it. *)
Definition self_deadlock (s : Sys) : Prop := exists i, on_main s = Some i /\ calls s !! i = Some Guard_ /\ main s = Test_.

Lemma stuck_call s i c : stuck s -> calls s !! i = Some c -> c = Idle \/ c = Returned \/ (c = Guard_ /\ cv_mutex_ s <> Nobody).
Proof.
  intros [_ Hs] Hc. specialize (Hs i). unfold call_step in Hs. rewrite Hc in Hs. cbn in Hs.
  destruct c; auto; try done; repeat case_decide; try done. auto.
Qed.

Lemma stuck_owner s : inv s -> stuck s -> cv_mutex_ s = Nobody \/ cv_mutex_ s = TheMain.
Proof.
  intros Hi Hs. destruct (cv_mutex_ s) as [| |i] eqn:Ho; auto. destruct (inv_owner s Hi i Ho) as (c & Hc & Hh).
  destruct (stuck_call s i c Hs Hc) as [->|[->|[-> _]]]; done.
Qed.

(** C28: the wait for the request. From the beginning of the wait, however it interleaves with
    any number of calls of [shutdown], from other threads or from a signal handler on the
    main thread, and with wake-ups without a reason: when nothing can go on any more,
    either the application has stopped and every call that was made has returned, or no
    call was made and the main thread waits, or the signal was handled by the main thread
    while it had the mutex of the wait. In particular a request is never lost. *)
Theorem request_not_lost n ms s :
  exec (start n) ms = Some s -> stuck s ->
  (main s = Stopped /\ Forall (fun c => c = Idle \/ c = Returned) (calls s))
  \/ (main s = Blocked /\ Forall (fun c => c = Idle) (calls s))
  \/ self_deadlock s.
Proof.
  intros He%(inv_exec _ _ _ (wait_inv_start n)) Hs. destruct (stuck_owner s He Hs) as [Ho|Ho].
  - assert (Forall (fun c => c = Idle \/ c = Returned) (calls s)) as Hcs.
    { apply Forall_lookup. intros i c Hc. destruct (stuck_call s i c Hs Hc) as [|[|[_ Hn]]]; auto; done. }
    assert (on_main s = None) as Hom.
    { destruct (on_main s) as [i|] eqn:E; [|done]. destruct (inv_signal s He i E) as (c & Hc & H1 & H2).
      by destruct (Forall_lookup_1 _ _ _ _ Hcs Hc). }
    destruct Hs as [Hm _]. unfold main_step in Hm. rewrite Hom, Ho in Hm.
    destruct (main s) eqn:E; cbn in Hm; try done; [by case_decide|right; left|by left].
    split; [done|]. apply Forall_lookup. intros i c Hc. destruct (Forall_lookup_1 _ _ _ _ Hcs Hc) as [|Hr]; [done|]. subst c.
    destruct (inv_returned s He i Hc) as [Hst|]; [|congruence]. destruct (inv_blocked s He E Hst) as [j Hj].
    by destruct (Forall_lookup_1 _ _ _ _ Hcs Hj).
  - right. right. pose proof (proj1 (inv_main s He) Ho) as Hm. destruct (on_main s) as [i|] eqn:E.
    + destruct (inv_signal s He i E) as (c & Hc & H1 & H2). exists i. split; [done|].
      by destruct (stuck_call s i c Hs Hc) as [->|[->|[-> _]]].
    + destruct Hs as [Hs _]. unfold main_step in Hs. rewrite E, Hm in Hs. by case_decide.
Qed.

(** The request comes in time: the predicate is false, the thread sleeps, a call stores
    and notifies. *)
Definition sample_moves : list Move := [MMain; MMain; MArrive 0 false; MCall 0; MCall 0; MCall 0; MCall 0; MCall 0; MMain; MMain; MMain].

Definition sample_end : Sys := default (start 0) (exec (start 2) sample_moves).

Lemma request_not_lost_witness :
  main sample_end = Stopped /\ Forall (fun c => c = Idle \/ c = Returned) (calls sample_end)
  \/ main sample_end = Blocked /\ Forall (fun c => c = Idle) (calls sample_end) \/ self_deadlock sample_end.
Proof.
  apply (request_not_lost 2 sample_moves sample_end); [vm_compute; reflexivity|].
  split; [vm_compute; reflexivity|]. intros [|[|i]]; vm_compute; reflexivity.
Defined.

(** The signal hits the main thread between taking the mutex and releasing it in
    [wait]: nothing ever moves again. *)
Theorem signal_deadlocks : exists ms s, exec (start 1) ms = Some s /\ stuck s /\ self_deadlock s.
Proof.
  exists [MMain; MArrive 0 true; MCall 0; MCall 0]. eexists. split; [vm_compute; reflexivity|].
  split; [split; [reflexivity|by intros [|i]]|by exists 0%nat].
Qed.
End ShutdownWait.
