(* ===== verification/OrderedMap.v ===== *)
(** * OrderedMap: [std::map] as its in-order sequence of pairs

    Lookup, assignment, erasure and the bounds, with the facts the storage uses:
    the sequence stays strictly sorted by key, the usual lookup laws, and what
    the iterator returned by a bound points at. *)

From S2P Require Import Prelude Containers.

Section ordered_map.
Context {K V : Type} (R : relation K) `{!RelDecision R, !EqDecision K}.

Abbreviation omap := (list (K * V)).

(** [m.find(k)]: the value there, if any. *)
Fixpoint om_find (k : K) (m : omap) : option V :=
  match m with
  | [] => None
  | (k', v) :: m => if decide (k = k') then Some v else om_find k m
  end.

(** [m[k] = v] *)
Fixpoint om_assign (k : K) (v : V) (m : omap) : omap :=
  match m with
  | [] => [(k, v)]
  | (k', v') :: m' =>
      if decide (k = k') then (k, v) :: m'
      else if decide (R k k') then (k, v) :: m
      else (k', v') :: om_assign k v m'
  end.

(** [m.erase(k)] *)
Fixpoint om_erase (k : K) (m : omap) : omap :=
  match m with
  | [] => []
  | (k', v') :: m' => if decide (k = k') then m' else (k', v') :: om_erase k m'
  end.

(** [m.lower_bound(k)]: the elements from the first key not below [k] on. *)
Fixpoint om_lower_bound (k : K) (m : omap) : omap :=
  match m with
  | [] => []
  | p :: m' => if decide (R p.1 k) then om_lower_bound k m' else m
  end.

(** [m.upper_bound(k)]: the elements from the first key above [k] on. *)
Fixpoint om_upper_bound (k : K) (m : omap) : omap :=
  match m with
  | [] => []
  | p :: m' => if decide (R k p.1) then m else om_upper_bound k m'
  end.

(** The elements before [m.lower_bound(k)]. *)
Definition om_below (k : K) (m : omap) : omap := take (length m - length (om_lower_bound k m)) m.

End ordered_map.

Section find_lemmas.
Context {K V : Type} `{!EqDecision K}.
Implicit Types (k : K) (v : V) (m : list (K * V)).

Lemma om_find_elem k v m : om_find k m = Some v -> (k, v) ∈ m.
Proof.
  induction m as [|[k' v'] m IH]; cbn; [done|]. case_decide as Hk; [intros [= ->]; subst; left|]. right. auto.
Qed.

Lemma om_find_None k m : om_find k m = None <-> k ∉ m.*1.
Proof.
  induction m as [|[k' v'] m IH]; cbn; [set_solver|]. rewrite not_elem_of_cons. case_decide; naive_solver.
Qed.

Lemma om_erase_sublist k m p : p ∈ om_erase k m -> p ∈ m.
Proof.
  induction m as [|[k0 v0] m IH]; cbn; [done|]. destruct (decide (k = k0)); set_solver.
Qed.

End find_lemmas.

Section lemmas.
Context {K V : Type} (R : relation K) `{!RelDecision R, !EqDecision K, !StrictOrder R, !Trichotomy R}.
Implicit Types (k : K) (v : V) (m : list (K * V)).

Abbreviation sorted := (StronglySorted (fun p q : K * V => R p.1 q.1)).

Lemma om_find_sorted k v m : sorted m -> (k, v) ∈ m -> om_find k m = Some v.
Proof.
  intros Hs. induction Hs as [|[k' v'] m Hm IH Hall]; [by intros ?%not_elem_of_nil|]. cbn.
  rewrite elem_of_cons. intros [[= -> ->]|Hin]; [by rewrite decide_True|].
  rewrite Forall_forall in Hall. specialize (Hall _ Hin). cbn in Hall.
  rewrite decide_False; [by apply IH|]. intros ->. by apply (irreflexivity R k').
Qed.

Lemma om_assign_find k k' v m :
  om_find k' (om_assign R k v m) = if decide (k' = k) then Some v else om_find k' m.
Proof.
  induction m as [|[k0 v0] m IH]; cbn; [done|].
  destruct (decide (k = k0)) as [->|Hne]; cbn; [by case_decide|].
  destruct (decide (R k k0)); cbn; [done|]. rewrite IH. repeat case_decide; congruence.
Qed.

Lemma om_assign_keys k v m x : x ∈ (om_assign R k v m).*1 <-> x = k \/ x ∈ m.*1.
Proof.
  induction m as [|[k0 v0] m IH]; cbn; [set_solver|].
  destruct (decide (k = k0)) as [->|]; [cbn; set_solver|]. destruct (decide (R k k0)); cbn; set_solver.
Qed.

Lemma om_assign_sorted k v m : sorted m -> sorted (om_assign R k v m).
Proof.
  induction 1 as [|[k0 v0] m Hm IH Hall]; cbn; [by repeat constructor|].
  destruct (decide (k = k0)) as [->|Hne]; [by constructor|]. destruct (decide (R k k0)).
  - constructor; [by constructor|]. constructor; [done|]. eapply Forall_impl; [exact Hall|].
    intros [k1 v1]; cbn. intros ?. by trans k0.
  - constructor; [done|]. rewrite Forall_forall in Hall |- *. intros [k1 v1] Hin. cbn.
    assert (k1 ∈ (om_assign R k v m).*1) as [->|Hk1]%om_assign_keys by (by apply (list_elem_of_fmap_2 fst _ (k1, v1))).
    + destruct (trichotomy R k0 k) as [|[|]]; naive_solver.
    + apply list_elem_of_fmap in Hk1 as ([k2 v2] & -> & Hin2). apply (Hall _ Hin2).
Qed.

Lemma om_erase_find k k' m :
  sorted m -> om_find k' (om_erase k m) = if decide (k' = k) then None else om_find k' m.
Proof.
  induction 1 as [|[k0 v0] m Hm IH Hall]; cbn; [by case_decide|].
  destruct (decide (k = k0)) as [->|Hne]; cbn.
  - case_decide as Hk; [|done]. subst. apply om_find_None. intros ([k1 v1] & Heq & Hin)%list_elem_of_fmap.
    rewrite Forall_forall in Hall. specialize (Hall _ Hin). cbn in *. subst. by apply (irreflexivity R k1).
  - rewrite IH. repeat case_decide; congruence.
Qed.

Lemma om_erase_sorted k m : sorted m -> sorted (om_erase k m).
Proof.
  induction 1 as [|[k0 v0] m Hm IH Hall]; cbn; [constructor|].
  destruct (decide (k = k0)); [done|]. constructor; [done|].
  rewrite Forall_forall in Hall |- *. intros p Hp%om_erase_sublist. auto.
Qed.

(** A bound splits the sequence. *)
Lemma om_lower_bound_split k m :
  sorted m -> exists l, m = l ++ om_lower_bound R k m
    /\ Forall (fun p => R p.1 k) l /\ Forall (fun p => ¬ R p.1 k) (om_lower_bound R k m).
Proof.
  induction 1 as [|p m Hm (l & IHm & Hl & Hr) Hall]; cbn; [exists []; by repeat constructor|].
  case_decide as Hp.
  - exists (p :: l). cbn. split; [by f_equal|]. by split; [constructor|].
  - exists []. split; [done|]. split; [constructor|]. constructor; [done|].
    eapply Forall_impl; [exact Hall|]. cbn. intros q Hpq Hqk. apply Hp. by trans q.1.
Qed.

Lemma om_upper_bound_split k m :
  sorted m -> exists l, m = l ++ om_upper_bound R k m
    /\ Forall (fun p => ¬ R k p.1) l /\ Forall (fun p => R k p.1) (om_upper_bound R k m).
Proof.
  induction 1 as [|p m Hm (l & IHm & Hl & Hr) Hall]; cbn; [exists []; by repeat constructor|].
  case_decide as Hp.
  - exists []. split; [done|]. split; [constructor|]. constructor; [done|].
    eapply Forall_impl; [exact Hall|]. cbn. intros q Hpq. by trans p.1.
  - exists (p :: l). cbn. split; [by f_equal|]. by split; [constructor|].
Qed.

Lemma om_below_eq k m l : m = l ++ om_lower_bound R k m -> om_below R k m = l.
Proof.
  intros Hm. unfold om_below. rewrite Hm at 1 3. rewrite length_app.
  replace (length l + length (om_lower_bound R k m) - length (om_lower_bound R k m))%nat with (length l) by lia.
  by rewrite take_app_length.
Qed.

End lemmas.
