(* ===== verification/Storage.v ===== *)
(** * Storage: the key-value interfaces

    [src/src/storage/face/*.hpp], [storage_error.hpp], [spaces.hpp].  The abstract
    classes [Readable], [Writeable], [WriteBatch] and [MapCursor] are type classes
    of operations, each with a class of laws stating what a client may rely on:
    a storage represents a finite map from byte strings to byte strings, a batch a
    list of pending writes, a cursor a position in the key order.  [seekReverse],
    implemented in the base class over the abstract operations, is verified
    against the laws. *)

From S2P Require Import Prelude Containers Common.

Inductive StorageError : Type :=
| OK | NOT_SUPPORTED | CORRUPTION | INVALID_ARGUMENT | IO_ERROR | NOT_FOUND
| DB_PATH_NOT_CREATED | STORAGE_GONE | UNKNOWN.

#[export] Instance StorageError_eq_dec : EqDecision StorageError.
Proof. solve_decision. Defined.

(** [StorageError : int] and its message. *)
Definition error_code (e : StorageError) : Z :=
  match e with
  | OK => 0 | NOT_SUPPORTED => 1 | CORRUPTION => 2 | INVALID_ARGUMENT => 3 | IO_ERROR => 4 | NOT_FOUND => 5
  | DB_PATH_NOT_CREATED => 6 | STORAGE_GONE => 7 | UNKNOWN => 1000
  end.

Definition error_message (e : StorageError) : string :=
  match e with
  | OK => "success"
  | NOT_SUPPORTED => "operation is not supported in storage"
  | CORRUPTION => "data corruption in storage"
  | INVALID_ARGUMENT => "invalid argument to storage"
  | IO_ERROR => "IO error in storage"
  | NOT_FOUND => "entry not found in storage"
  | DB_PATH_NOT_CREATED => "storage path was not created"
  | STORAGE_GONE => "storage instance has been uninitialized"
  | UNKNOWN => "unknown error"
  end.

(** [enum class Space]; [Total] is the number of spaces, not a space. *)
Inductive Space : Type := Default | Total.

#[export] Instance Space_eq_dec : EqDecision Space.
Proof. solve_decision. Defined.

#[export] Instance Space_countable : Countable Space.
Proof.
  refine (inj_countable' (fun s => match s with Default => true | Total => false end)
    (fun b : bool => if b then Default else Total) _). by intros [].
Defined.

Definition space_code (s : Space) : Z := match s with Default => 0 | Total => 1 end.
Definition SpacesCount : Z := space_code Total.

Abbreviation result := (run StorageError).
Abbreviation contents := (gmap Bytes Bytes).

(** Keys are sequences of octets. *)
Definition is_bytes (k : Bytes) : Prop := Forall is_byte k.

(** ** Readable and Writeable *)

Class BufferStorage (S : Type) : Type := {
  contains : S -> Bytes -> result bool;
  get : S -> Bytes -> result Bytes;
  tryGet : S -> Bytes -> result (option Bytes);
  put : S -> Bytes -> Bytes -> result S;
  remove : S -> Bytes -> result S
}.

(** [rep s m]: the storage [s] holds [m].  [fits s n]: [n] more bytes of values
    can be written to [s]. *)
Class BufferStorageOk (S : Type) `{!BufferStorage S} (rep : S -> contents -> Prop) (fits : S -> Z -> Prop)
    : Prop := {
  law_contains s m k : rep s m -> is_bytes k -> contains s k = Done (bool_decide (is_Some (m !! k)));
  law_get s m k : rep s m -> is_bytes k -> get s k = match m !! k with Some v => Done v | None => Fail NOT_FOUND end;
  law_tryGet s m k : rep s m -> is_bytes k -> tryGet s k = Done (m !! k);
  law_put s m k v n : rep s m -> is_bytes k -> 0 <= n -> fits s (Z.of_nat (length v) + n) ->
    exists s', put s k v = Done s' /\ rep s' (<[k := v]> m) /\ fits s' n;
  law_remove s m k n : rep s m -> is_bytes k -> fits s n ->
    exists s', remove s k = Done s' /\ rep s' (delete k m) /\ fits s' n
}.

(** ** WriteBatch *)

(** The pending operations of a batch, oldest first. *)
Inductive Write : Type := WPut (k v : Bytes) | WRemove (k : Bytes).

Definition written (w : Write) : Bytes := match w with WPut k _ | WRemove k => k end.

Definition apply_write (m : contents) (w : Write) : contents :=
  match w with WPut k v => <[k := v]> m | WRemove k => delete k m end.

Definition apply_writes (m : contents) (ws : list Write) : contents := foldl apply_write m ws.

Class BufferBatch (B S : Type) : Type := {
  batch_put : B -> Bytes -> Bytes -> result B;
  batch_remove : B -> Bytes -> result B;
  batch_commit : B -> S -> result S;
  batch_clear : B -> B
}.

(** What the documentation promises: [commit] executes all accumulated
    operations. *)
Class BufferBatchOk (B S : Type) `{!BufferBatch B S} (rep : S -> contents -> Prop) (pending : B -> list Write -> Prop)
    : Prop := {
  law_batch_put b ws k v : pending b ws -> is_bytes k -> exists b', batch_put b k v = Done b' /\ pending b' (ws ++ [WPut k v]);
  law_batch_remove b ws k : pending b ws -> is_bytes k -> exists b', batch_remove b k = Done b' /\ pending b' (ws ++ [WRemove k]);
  law_batch_commit b ws s m : pending b ws -> rep s m ->
    exists s', batch_commit b s = Done s' /\ rep s' (apply_writes m ws);
  law_batch_clear b ws : pending b ws -> pending (batch_clear b) []
}.

(** ** MapCursor *)

Class MapCursor (C : Type) : Type := {
  seekFirst : C -> result (C * bool);
  seek : C -> Bytes -> result (C * bool);
  seekLast : C -> result (C * bool);
  isValid : C -> bool;
  next : C -> result C;
  prev : C -> result C;
  key : C -> option Bytes;
  cursor_value : C -> option Bytes
}.

(** [View<K>{*key()}]: dereferencing an empty optional is undefined. *)
Definition deref {A} (o : option A) : result A :=
  match o with Some a => Done a | None => Undef end.

(** [seekReverse] of the base class. *)
Definition seekReverse `{MapCursor C} (c : C) (prefix : Bytes) : result (C * bool) :=
  '(c, ok) ← seek c prefix;
  if negb ok then seekLast c
  else
    k ← deref (key c);
    if bool_decide (bytes_lt prefix k) then
      c ← prev c;
      mret (c, isValid c)
    else mret (c, true).

(** [o] is the least (greatest) key of [m] with property [P], if there is one. *)
Definition least (m : contents) (P : Bytes -> Prop) (o : option Bytes) : Prop :=
  match o with
  | Some k => is_Some (m !! k) /\ P k /\ forall k', is_Some (m !! k') -> P k' -> ¬ bytes_lt k' k
  | None => forall k', is_Some (m !! k') -> ¬ P k'
  end.

Definition greatest (m : contents) (P : Bytes -> Prop) (o : option Bytes) : Prop :=
  match o with
  | Some k => is_Some (m !! k) /\ P k /\ forall k', is_Some (m !! k') -> P k' -> ¬ bytes_lt k k'
  | None => forall k', is_Some (m !! k') -> ¬ P k'
  end.

(** A result of a seek: the cursor is still over the same map, stands at a key
    with property [Q], and the returned flag says whether there is one. *)
Definition seeks {C} `{MapCursor C} (rep : C -> contents -> Prop) (m : contents) (r : result (C * bool))
    (Q : option Bytes -> Prop) : Prop :=
  exists c, r = Done (c, bool_decide (is_Some (key c))) /\ rep c m /\ Q (key c).

Class MapCursorOk (C : Type) `{!MapCursor C} (rep : C -> contents -> Prop) : Prop := {
  law_isValid c m : rep c m -> isValid c = bool_decide (is_Some (key c));
  law_value c m : rep c m -> cursor_value c = k ← key c; m !! k;
  law_seekFirst c m : rep c m -> seeks rep m (seekFirst c) (least m (fun _ => True));
  law_seek c m k : rep c m -> is_bytes k -> seeks rep m (seek c k) (least m (fun k' => ¬ bytes_lt k' k));
  law_seekLast c m : rep c m -> seeks rep m (seekLast c) (greatest m (fun _ => True));
  law_next c m k : rep c m -> key c = Some k ->
    exists c', next c = Done c' /\ rep c' m /\ least m (fun k' => bytes_lt k k') (key c');
  law_prev c m k : rep c m -> key c = Some k ->
    exists c', prev c = Done c' /\ rep c' m /\ greatest m (fun k' => bytes_lt k' k) (key c')
}.

(** ** Clients of the interfaces *)

(** Direct writes, one after the other. *)
Definition write {S : Type} `{!BufferStorage S} (s : S) (w : Write) : result S :=
  match w with WPut k v => put s k v | WRemove k => remove s k end.

(** The bytes of values a sequence of writes adds at most. *)
Fixpoint bytes_written (ws : list Write) : Z :=
  match ws with
  | [] => 0
  | WPut _ v :: ws => Z.of_nat (length v) + bytes_written ws
  | WRemove _ :: ws => bytes_written ws
  end.

Section client.
Context {S : Type} `{!BufferStorage S} (rep : S -> contents -> Prop) (fits : S -> Z -> Prop)
  `{!BufferStorageOk S rep fits}.

(** What is read after a sequence of writes is the last write to the key. *)
Definition last_write (k : Bytes) (ws : list Write) (v0 : option Bytes) : option Bytes :=
  foldl (fun v w => match w with
    | WPut k' v' => if decide (k' = k) then Some v' else v
    | WRemove k' => if decide (k' = k) then None else v
    end) v0 ws.

Lemma apply_writes_lookup k ws m : apply_writes m ws !! k = last_write k ws (m !! k).
Proof.
  unfold apply_writes, last_write. revert m. induction ws as [|[k' v'|k'] ws IH]; intros m; cbn; [done|..]; rewrite IH; f_equal.
  - case_decide; subst; [by rewrite lookup_insert_eq|by rewrite lookup_insert_ne].
  - case_decide; subst; [by rewrite lookup_delete_eq|by rewrite lookup_delete_ne].
Qed.

Lemma bytes_written_nonneg ws : 0 <= bytes_written ws.
Proof. induction ws as [|[] ws IH]; cbn; lia. Qed.

Lemma writes_rep s m ws :
  rep s m -> fits s (bytes_written ws) -> Forall (fun w => is_bytes (written w)) ws ->
  exists s', foldM write s ws = Done s' /\ rep s' (apply_writes m ws).
Proof.
  intros Hs Hfits Hws. revert s m Hs Hfits. induction Hws as [|w ws Hk Hws IH]; intros s m Hs Hfits; [by exists s|].
  pose proof (bytes_written_nonneg ws).
  assert (exists s1, write s w = Done s1 /\ rep s1 (apply_write m w) /\ fits s1 (bytes_written ws)) as (s1 & Hw & Hs1 & Hf1).
  { destruct w as [k v|k]; cbn; [by apply law_put|by apply (law_remove (rep := rep))]. }
  cbn [foldM]. rewrite Hw. by apply IH.
Qed.

(** Reading a key after a sequence of writes gives its last write. *)
Lemma writes_read s m ws k :
  rep s m -> fits s (bytes_written ws) -> Forall (fun w => is_bytes (written w)) ws -> is_bytes k ->
  exists s', foldM write s ws = Done s'
    /\ tryGet s' k = Done (last_write k ws (m !! k))
    /\ get s' k = (match last_write k ws (m !! k) with Some v => Done v | None => Fail NOT_FOUND end)
    /\ contains s' k = Done (bool_decide (is_Some (last_write k ws (m !! k)))).
Proof.
  intros Hs Hf Hws Hk. destruct (writes_rep s m ws Hs Hf Hws) as (s' & Hw & Hs'). exists s'. split; [done|].
  rewrite <-apply_writes_lookup. split; [|split].
  - by apply (law_tryGet (rep := rep)).
  - by apply (law_get (rep := rep)).
  - by apply (law_contains (rep := rep)).
Qed.

End client.

(** Operations recorded in a batch, oldest first. *)
Definition batch_write {B S : Type} `{!BufferBatch B S} (b : B) (w : Write) : result B :=
  match w with WPut k v => batch_put b k v | WRemove k => batch_remove b k end.

Section batch_client.
Context {B S : Type} `{!BufferBatch B S} (rep : S -> contents -> Prop) (pending : B -> list Write -> Prop)
  `{!BufferBatchOk B S rep pending}.

Lemma batch_writes_pending ws0 ws b :
  pending b ws0 -> Forall (fun w => is_bytes (written w)) ws ->
  exists b', foldM batch_write b ws = Done b' /\ pending b' (ws0 ++ ws).
Proof.
  intros Hb Hws. revert b ws0 Hb. induction Hws as [|w ws Hk Hws IH]; intros b ws0 Hb; [by exists b; rewrite app_nil_r|].
  assert (exists b1, batch_write b w = Done b1 /\ pending b1 (ws0 ++ [w])) as (b1 & Hw & Hb1).
  { destruct w; cbn; [by apply law_batch_put|by apply law_batch_remove]. }
  cbn [foldM]. rewrite Hw. destruct (IH b1 _ Hb1) as (b' & ? & ?). exists b'. split; [done|]. by rewrite <-app_assoc in *.
Qed.

Lemma batch_writes_commit ws b s m :
  pending b [] -> rep s m -> Forall (fun w => is_bytes (written w)) ws ->
  exists b' s', foldM batch_write b ws = Done b' /\ batch_commit b' s = Done s' /\ rep s' (apply_writes m ws).
Proof.
  intros Hb Hs Hws. destruct (batch_writes_pending [] ws b Hb Hws) as (b' & Hrun & Hb').
  destruct (law_batch_commit b' _ s m Hb' Hs) as (s' & ? & ?). by exists b', s'.
Qed.

End batch_client.

Section cursor_client.
Context {C : Type} `{!MapCursor C} (rep : C -> contents -> Prop) `{!MapCursorOk C rep}.

Lemma not_lt_le x y : ¬ bytes_lt x y <-> x = y \/ bytes_lt y x.
Proof.
  destruct (trichotomy bytes_lt x y) as [Hxy|[->|Hyx]]; split; try tauto.
  - intros [->|Hyx]; [by destruct (irreflexivity bytes_lt y)|]. intros _.
    destruct (irreflexivity bytes_lt x). by trans y.
  - intros _. apply irreflexivity, _.
  - intros _ Hxy. destruct (irreflexivity bytes_lt x). by trans y.
Qed.

(** The greatest key not above [prefix]. *)
Lemma seekReverse_spec c m prefix :
  rep c m -> is_bytes prefix -> seeks rep m (seekReverse c prefix) (greatest m (fun k => ¬ bytes_lt prefix k)).
Proof.
  intros Hc Hb. unfold seekReverse. destruct (law_seek c m prefix Hc Hb) as (c1 & -> & Hc1 & Hk1). cbn [mbind run_bind].
  destruct (key c1) as [k|] eqn:Hk.
  - rewrite bool_decide_eq_true_2 by done. cbn [negb mbind run_bind deref].
    destruct Hk1 as (Hin & Hge & Hmin). case_bool_decide as Hlt.
    + destruct (law_prev c1 m k Hc1 Hk) as (c2 & -> & Hc2 & Hk2). cbn.
      exists c2. rewrite (law_isValid (rep := rep) c2 m) by done. split; [done|]. split; [done|].
      destruct (key c2) as [k2|] eqn:Hk2'; cbn in *.
      * destruct Hk2 as (Hin2 & Hk2k & Hmax). split; [done|]. split.
        -- intros Hp. destruct (Hmin k2 Hin2); [|done]. apply not_lt_le. by right.
        -- intros k' Hk' Hle Hlt'. destruct (decide (bytes_lt k' prefix)) as [Hp|Hp].
           ++ apply (Hmax k' Hk'); [|done]. by trans prefix.
           ++ apply (Hmin k' Hk' Hp). apply not_lt_le in Hp as [->|]; [done|tauto].
      * intros k' Hk' Hle. apply (Hk2 k' Hk'). apply not_lt_le in Hle as [->|Hlt']; [done|]. by trans prefix.
    + exists c1. rewrite Hk, bool_decide_eq_true_2 by done. split; [done|]. split; [done|]. cbn.
      split; [done|]. split; [done|]. intros k' Hk' Hle Hkk'.
      assert (k = prefix) as -> by (apply not_lt_le in Hge as [|]; tauto). done.
  - rewrite bool_decide_eq_false_2 by (by intros [? ?]). cbn [negb].
    destruct (law_seekLast c1 m Hc1) as (c2 & -> & Hc2 & Hk2). exists c2. split; [done|]. split; [done|].
    destruct (key c2) as [k2|]; cbn in *.
    + destruct Hk2 as (Hin2 & _ & Hmax). split; [done|]. split.
      * intros Hp. apply (Hk1 k2 Hin2). apply not_lt_le. by right.
      * intros k' Hk' _. by apply Hmax.
    + intros k' Hk' _. by apply (Hk2 k' Hk').
Qed.

(** The entries met from the cursor's position on. *)
Fixpoint walk (fuel : nat) (c : C) : result (list (Bytes * Bytes)) :=
  match key c, cursor_value c with
  | Some k, Some v =>
      match fuel with
      | O => Undef
      | Datatypes.S fuel => c ← next c; l ← walk fuel c; mret ((k, v) :: l)
      end
  | _, _ => mret []
  end.

(** A full scan: [seekFirst], then [next] until the cursor is not valid. *)
Definition scan (fuel : nat) (c : C) : result (list (Bytes * Bytes)) :=
  '(c, _) ← seekFirst c; walk fuel c.

Definition from (k0 : Bytes) (m : contents) : gset Bytes := filter (fun k => ¬ bytes_lt k k0) (dom m).

Lemma elem_of_from k k0 m : k ∈ from k0 m <-> ¬ bytes_lt k k0 /\ is_Some (m !! k).
Proof. unfold from. by rewrite elem_of_filter, elem_of_dom. Qed.

Lemma not_lt_trans x y z : ¬ bytes_lt y x -> bytes_lt y z -> bytes_lt x z.
Proof. intros [->|Hxy]%not_lt_le Hyz; [done|]. by trans y. Qed.

Lemma from_next k0 k1 m : bytes_lt k0 k1 -> is_Some (m !! k0) -> (size (from k1 m) < size (from k0 m))%nat.
Proof.
  intros Hlt Hk0. apply subset_size. split.
  - intros k [Hge Hk]%elem_of_from. apply elem_of_from. split; [|done]. intros Hk'. apply Hge. by trans k0.
  - intros Hsub. assert (k0 ∈ from k0 m) as Hin by (apply elem_of_from; split; [apply irreflexivity, _|done]).
    apply Hsub, elem_of_from in Hin as [Hn _]. done.
Qed.

Lemma walk_spec fuel c m k0 :
  rep c m -> key c = Some k0 -> is_Some (m !! k0) -> (size (from k0 m) <= fuel)%nat ->
  exists l, walk fuel c = Done l /\ StronglySorted (fun p q => bytes_lt p.1 q.1) l
    /\ forall p, p ∈ l <-> m !! p.1 = Some p.2 /\ ¬ bytes_lt p.1 k0.
Proof.
  revert c k0. induction fuel as [|fuel IH]; intros c k0 Hc Hk [v Hv] Hfuel.
  { assert (k0 ∈ from k0 m) as Hin by (apply elem_of_from; split; [apply irreflexivity, _|by exists v]).
    assert (size (from k0 m) = 0)%nat as Hz by lia. apply size_empty_inv in Hz. set_solver. }
  cbn [walk]. rewrite (law_value (rep := rep) c m Hc), Hk. cbn [mbind option_bind]. rewrite Hv.
  destruct (law_next c m k0 Hc Hk) as (c1 & -> & Hc1 & Hk1). cbn [mbind run_bind].
  destruct (key c1) as [k1|] eqn:Hkey1.
  - destruct Hk1 as (Hin1 & Hlt & Hmin).
    destruct (IH c1 k1 Hc1 Hkey1 Hin1) as (l & -> & Hs & Hl).
    { pose proof (from_next k0 k1 m Hlt ltac:(by exists v)). lia. }
    exists ((k0, v) :: l). split; [done|]. split.
    + constructor; [done|]. apply Forall_forall. intros p [_ Hp]%Hl. cbn.
      destruct (decide (bytes_lt k0 p.1)) as [|Hn]; [done|]. destruct Hp. by apply (not_lt_trans _ k0).
    + intros [k w]. rewrite elem_of_cons, Hl. cbn. split.
      * intros [[= -> ->]|[Hw Hge]]; [split; [done|apply irreflexivity, _]|]. split; [done|].
        intros Hk0. apply Hge. by trans k0.
      * intros [Hw Hge]. apply not_lt_le in Hge as [->|Hgt]; [left; congruence|].
        right. split; [done|]. apply Hmin; [by exists w|done].
  - exists [(k0, v)].
    assert (walk fuel c1 = Done []) as -> by (destruct fuel; cbn [walk]; by rewrite Hkey1). split; [done|]. split; [by repeat constructor|].
    intros [k w]. rewrite list_elem_of_singleton. cbn. split.
    + intros [= -> ->]. split; [done|apply irreflexivity, _].
    + intros [Hw Hge]. apply not_lt_le in Hge as [->|Hgt]; [congruence|]. destruct (Hk1 k); [by exists w|done].
Qed.

(** A scan returns every entry once, in the order of the keys. *)
Lemma scan_spec c m fuel :
  rep c m -> (size m <= fuel)%nat ->
  exists l, scan fuel c = Done l /\ StronglySorted (fun p q => bytes_lt p.1 q.1) l
    /\ forall p, p ∈ l <-> m !! p.1 = Some p.2.
Proof.
  intros Hc Hfuel. unfold scan. destruct (law_seekFirst c m Hc) as (c1 & -> & Hc1 & Hk). cbn [mbind run_bind].
  destruct (key c1) as [k|] eqn:Hkey.
  - destruct Hk as (Hin & _ & Hmin). destruct (walk_spec fuel c1 m k Hc1 Hkey Hin) as (l & Hw & Hs & Hl).
    { rewrite <-(size_dom (D := gset Bytes)) in Hfuel. etrans; [|exact Hfuel]. apply subseteq_size.
      intros x [_ Hx]%elem_of_from. by apply elem_of_dom. }
    exists l. split; [done|]. split; [done|]. intros p. rewrite Hl. split; [by intros [? _]|].
    intros Hp. split; [done|]. apply Hmin; [by exists p.2|done].
  - exists []. split; [destruct fuel; cbn [walk]; by rewrite Hkey|]. split; [constructor|].
    intros p. split; [by intros []%not_elem_of_nil|]. intros Hp. destruct (Hk p.1); [by exists p.2|done].
Qed.

End cursor_client.
