(* ===== verification/InMemory.v ===== *)
(** * InMemory: the in-memory storage

    [src/src/storage/in_memory/]: storage, batch, cursor and spaces over
    [std::map<std::string, ByteVec>] keyed by the hexadecimal form of the key.
    The hexadecimal conversion is a parameter. *)

From S2P Require Import Prelude Containers Common OrderedMap Storage.

(** [ByteView::toHex] and [ByteVec::fromHex]; strings are lists of codes. *)
Class Hex : Type := {
  toHex : Bytes -> Bytes;
  fromHex : Bytes -> option Bytes
}.

(** Decoding inverts encoding, and encoding keeps the lexicographic order. *)
Class HexOk `(H : Hex) : Prop := {
  fromHex_toHex k : is_bytes k -> fromHex (toHex k) = Some k;
  toHex_lt k k' : is_bytes k -> is_bytes k' -> bytes_lt k k' -> bytes_lt (toHex k) (toHex k')
}.

Module InMemory.
Section operations.
Context `{HX : Hex}.

Record InMemoryStorage : Type := MkStorage { storage_ : list (Bytes * Bytes); size_ : Z }.

Definition empty : InMemoryStorage := MkStorage [] 0.

Definition size_of (v : Bytes) : Z := Z.of_nat (length v).

Definition get (db : InMemoryStorage) (key : Bytes) : result Bytes :=
  match om_find (toHex key) (storage_ db) with
  | Some v => mret v
  | None => Fail NOT_FOUND
  end.

Definition tryGet (db : InMemoryStorage) (key : Bytes) : result (option Bytes) :=
  mret (om_find (toHex key) (storage_ db)).

Definition put (db : InMemoryStorage) (key value : Bytes) : result InMemoryStorage :=
  size ← match om_find (toHex key) (storage_ db) with
         | Some old => require (size_of old <=? size_ db);; mret (u64 (size_ db - size_of old))
         | None => mret (size_ db)
         end;
  mret (MkStorage (om_assign bytes_lt (toHex key) value (storage_ db)) (u64 (size + size_of value))).

Definition contains (db : InMemoryStorage) (key : Bytes) : result bool :=
  mret (bool_decide (is_Some (om_find (toHex key) (storage_ db)))).

Definition remove (db : InMemoryStorage) (key : Bytes) : result InMemoryStorage :=
  match om_find (toHex key) (storage_ db) with
  | Some old => mret (MkStorage (om_erase (toHex key) (storage_ db)) (u64 (size_ db - size_of old)))
  | None => mret db
  end.

Definition byteSizeHint (db : InMemoryStorage) : option Z := Some (size_ db).

(** *** Batch: its entries; the storage is shared *)

Record InMemoryBatch : Type := MkBatch { entries : list (Bytes * Bytes) }.

Definition batch (_ : InMemoryStorage) : InMemoryBatch := MkBatch [].

Definition bput (b : InMemoryBatch) (key value : Bytes) : result InMemoryBatch :=
  mret (MkBatch (om_assign bytes_lt (toHex key) value (entries b))).

Definition bremove (b : InMemoryBatch) (key : Bytes) : result InMemoryBatch :=
  mret (MkBatch (om_erase (toHex key) (entries b))).

Definition commit (b : InMemoryBatch) (db : InMemoryStorage) : result InMemoryStorage :=
  foldM (fun db entry => key ← value (fromHex entry.1) "bad optional access"; put db key entry.2) db (entries b).

Definition clear (_ : InMemoryBatch) : InMemoryBatch := MkBatch [].

(** *** Cursor: a copy of the entry it stands at; the storage is shared *)

Record InMemoryCursor : Type := MkCursor { db : InMemoryStorage; kv : option (Bytes * Bytes) }.

Definition cursor (s : InMemoryStorage) : InMemoryCursor := MkCursor s None.

Definition isValid (c : InMemoryCursor) : bool := bool_decide (is_Some (kv c)).

(** The private [seek(iterator)]; an iterator is the sequence from it on. *)
Definition seek_it (c : InMemoryCursor) (it : list (Bytes * Bytes)) : result (InMemoryCursor * bool) :=
  c ← match it with
      | [] => mret (MkCursor (db c) None)
      | (k, v) :: _ => key ← value (fromHex k) "bad optional access"; mret (MkCursor (db c) (Some (key, v)))
      end;
  mret (c, isValid c).

Definition seekFirst (c : InMemoryCursor) : result (InMemoryCursor * bool) := seek_it c (storage_ (db c)).

Definition seek (c : InMemoryCursor) (key : Bytes) : result (InMemoryCursor * bool) :=
  seek_it c (om_lower_bound bytes_lt (toHex key) (storage_ (db c))).

(** [std::prev(it)] of the iterator after [l]. *)
Definition last_it (l : list (Bytes * Bytes)) : list (Bytes * Bytes) := drop (length l - 1) l.

Definition seekLast (c : InMemoryCursor) : result (InMemoryCursor * bool) :=
  seek_it c (match storage_ (db c) with [] => [] | l => last_it l end).

Definition next (c : InMemoryCursor) : result InMemoryCursor :=
  p ← deref (kv c);
  '(c, _) ← seek_it c (om_upper_bound bytes_lt (toHex p.1) (storage_ (db c)));
  mret c.

Definition prev (c : InMemoryCursor) : result InMemoryCursor :=
  p ← deref (kv c);
  '(c, _) ← seek_it c (match om_below bytes_lt (toHex p.1) (storage_ (db c)) with [] => [] | l => last_it l end);
  mret c.

Definition key (c : InMemoryCursor) : option Bytes := fst <$> kv c.
Definition value_at (c : InMemoryCursor) : option Bytes := snd <$> kv c.

(** *** Spaces: shared storages created on demand *)

(** The heap of storages a [shared_ptr] points into, and the map of spaces. *)
Record SpacedStorage : Type := MkSpaced { heap : list InMemoryStorage; spaces_ : gmap Space nat }.

Definition getSpace (s : SpacedStorage) (space : Space) : SpacedStorage * nat :=
  match spaces_ s !! space with
  | Some ptr => (s, ptr)
  | None => let ptr := length (heap s) in (MkSpaced (heap s ++ [empty]) (<[space := ptr]> (spaces_ s)), ptr)
  end.

#[export] Instance in_memory_storage : BufferStorage InMemoryStorage :=
  { Storage.contains := contains; Storage.get := get; Storage.tryGet := tryGet; Storage.put := put; Storage.remove := remove }.

#[export] Instance in_memory_batch : BufferBatch InMemoryBatch InMemoryStorage :=
  { batch_put := bput; batch_remove := bremove; batch_commit := commit; batch_clear := clear }.

#[export] Instance in_memory_cursor : MapCursor InMemoryCursor :=
  { Storage.seekFirst := seekFirst; Storage.seek := seek; Storage.seekLast := seekLast; Storage.isValid := isValid;
    Storage.next := next; Storage.prev := prev; Storage.key := key; cursor_value := value_at }.

End operations.
End InMemory.
