(* ===== verification/InMemorySpec.v ===== *)
(** * InMemorySpec: the in-memory storage implements the interfaces

    The storage and the cursor satisfy the laws of [Storage], so [seekReverse] and
    the read-after-write theorem hold for them; the batch satisfies the laws for
    [put] and [clear], and its exact behaviour on [remove] is stated. *)

From S2P Require Import Prelude Containers Common OrderedMap Storage InMemory.

Module InMemorySpec.
Import InMemory.

Section spec.
Context `{HX : Hex, HO : !HexOk HX}.

Abbreviation pairs := (list (Bytes * Bytes)).
Abbreviation sorted := (StronglySorted (fun p q : Bytes * Bytes => bytes_lt p.1 q.1)).

Fixpoint total (l : pairs) : Z :=
  match l with [] => 0 | p :: l => size_of p.2 + total l end.

Record holds (l : pairs) (m : contents) : Prop := {
  holds_sorted : sorted l;
  holds_keys p : p ∈ l -> exists k, is_bytes k /\ p.1 = toHex k;
  holds_bytes k : is_Some (m !! k) -> is_bytes k;
  holds_find k : is_bytes k -> om_find (toHex k) l = m !! k
}.

(** [s] holds [m], and its size is the number of bytes in values. *)
Definition rep (s : InMemoryStorage) (m : contents) : Prop :=
  holds (storage_ s) m /\ size_ s = total (storage_ s) /\ size_ s < 2 ^ 64.

Definition fits (s : InMemoryStorage) (n : Z) : Prop := size_ s + n < 2 ^ 64.

Lemma toHex_inj k k' : is_bytes k -> is_bytes k' -> toHex k = toHex k' -> k = k'.
Proof. intros Hk Hk' Heq. pose proof (fromHex_toHex k Hk) as H1. rewrite Heq, fromHex_toHex in H1; congruence. Qed.

Lemma toHex_lt_iff k k' : is_bytes k -> is_bytes k' -> bytes_lt (toHex k) (toHex k') <-> bytes_lt k k'.
Proof.
  intros Hk Hk'. split; [|by apply toHex_lt]. intros Hlt.
  destruct (trichotomy bytes_lt k k') as [|[->|Hgt]]; [done| |]; exfalso.
  - by apply (irreflexivity bytes_lt (toHex k')).
  - apply (toHex_lt k' k) in Hgt; [|done..]. apply (irreflexivity bytes_lt (toHex k)). by trans (toHex k').
Qed.

(** ** Sizes *)

Lemma total_nonneg l : 0 <= total l.
Proof. induction l as [|p l IH]; cbn; unfold size_of; lia. Qed.

Lemma total_assign k v l :
  sorted l -> total (om_assign bytes_lt k v l) = total l - default 0 (size_of <$> om_find k l) + size_of v.
Proof.
  induction 1 as [|[k0 v0] l Hl IH Hall]; cbn; [lia|].
  destruct (decide (k = k0)); cbn; [lia|].
  destruct (decide (bytes_lt k k0)) as [Hlt|]; cbn; [|rewrite IH; lia].
  rewrite (proj2 (om_find_None k l)); cbn; [lia|].
  intros ([k1 v1] & -> & Hin)%list_elem_of_fmap. rewrite Forall_forall in Hall. specialize (Hall _ Hin). cbn in *.
  apply (irreflexivity bytes_lt k0). by trans k1.
Qed.

Lemma total_erase k l : total (om_erase k l) = total l - default 0 (size_of <$> om_find k l).
Proof.
  induction l as [|[k0 v0] l IH]; cbn; [done|]. destruct (decide (k = k0)); cbn; [lia|]. rewrite IH. lia.
Qed.

Lemma find_le_total k v l : om_find k l = Some v -> size_of v <= total l.
Proof.
  induction l as [|[k0 v0] l IH]; cbn; [done|]. pose proof (total_nonneg l).
  case_decide; [intros [= ->]; unfold size_of; lia|]. intros ?%IH. unfold size_of in *. lia.
Qed.

(** ** Contents *)

Lemma holds_assign l m k v : holds l m -> is_bytes k -> holds (om_assign bytes_lt (toHex k) v l) (<[k := v]> m).
Proof.
  intros [Hs Hk Hb Hf] Hkb. split.
  - by apply om_assign_sorted; try apply _.
  - intros [h w] Hin. assert (h ∈ (om_assign bytes_lt (toHex k) v l).*1) as Hh by (by apply (list_elem_of_fmap_2 fst _ (h, w))).
    rewrite om_assign_keys in Hh by apply _. destruct Hh as [->|([h' w'] & -> & Hin')%list_elem_of_fmap]; [by exists k|].
    apply (Hk _ Hin').
  - intros k' Hk'. destruct (decide (k' = k)) as [->|]; [done|]. rewrite lookup_insert_ne in Hk' by done. by apply Hb.
  - intros k' Hkb'. rewrite om_assign_find by apply _. destruct (decide (k' = k)) as [->|Hne].
    + by rewrite decide_True, lookup_insert_eq.
    + rewrite decide_False, lookup_insert_ne by (try apply not_eq_sym; try done; intros ?%toHex_inj; done). by apply Hf.
Qed.

Lemma holds_erase l m k : holds l m -> is_bytes k -> holds (om_erase (toHex k) l) (delete k m).
Proof.
  intros [Hs Hk Hb Hf] Hkb. split.
  - by apply om_erase_sorted; try apply _.
  - intros p Hp%om_erase_sublist. auto.
  - intros k' [v [_ Hv]%lookup_delete_Some]. apply Hb. by exists v.
  - intros k' Hkb'. rewrite (om_erase_find bytes_lt) by (try apply _; done). destruct (decide (k' = k)) as [->|Hne].
    + by rewrite decide_True, lookup_delete_eq.
    + rewrite decide_False, lookup_delete_ne by (try apply not_eq_sym; try done; intros ?%toHex_inj; done). by apply Hf.
Qed.

Lemma put_rep s m k v :
  rep s m -> is_bytes k -> size_ s - default 0 (size_of <$> m !! k) + size_of v < 2 ^ 64 ->
  exists s', put s k v = Done s' /\ rep s' (<[k := v]> m) /\ size_ s' = size_ s - default 0 (size_of <$> m !! k) + size_of v.
Proof.
  intros (Hh & Hsz & Hlt) Hk Hfit. unfold put.
  pose proof (holds_find _ _ Hh k Hk) as Hfind. rewrite Hfind.
  pose proof (total_nonneg (storage_ s)). assert (0 <= size_of v) by (unfold size_of; lia).
  pose proof (total_assign (toHex k) v _ (holds_sorted _ _ Hh)) as Ht. rewrite Hfind in Ht.
  pose proof (total_nonneg (om_assign bytes_lt (toHex k) v (storage_ s))).
  destruct (m !! k) as [old|]; cbn [from_option fmap option_fmap option_map id] in *.
  - pose proof (find_le_total _ _ _ Hfind). assert (0 <= size_of old) by (unfold size_of; lia).
    rewrite (proj2 (Z.leb_le _ _)) by lia. cbn [require mbind run_bind mret run_ret].
    eexists. split; [done|]. cbn. rewrite (wrap_id 64 (size_ s - size_of old)), wrap_id by lia.
    split; [|done]. split; [by apply holds_assign|]. cbn. lia.
  - cbn [mbind run_bind mret run_ret]. eexists. split; [done|]. cbn. rewrite wrap_id by lia.
    split; [|lia]. split; [by apply holds_assign|]. cbn. lia.
Qed.

#[export] Instance in_memory_storage_ok : BufferStorageOk InMemoryStorage rep fits.
Proof.
  split.
  - intros s m k (Hh & _) Hk. cbn. unfold contains. by rewrite (holds_find _ _ Hh).
  - intros s m k (Hh & _) Hk. cbn. unfold get. rewrite (holds_find _ _ Hh) by done. by destruct (m !! k).
  - intros s m k (Hh & _) Hk. cbn. unfold tryGet. by rewrite (holds_find _ _ Hh).
  - intros s m k v n Hs Hk Hn Hfit. unfold fits in *.
    destruct (put_rep s m k v Hs Hk) as (s' & ? & ? & Hsz).
    { destruct (m !! k); cbn; unfold size_of in *; lia. }
    exists s'. split; [done|]. split; [done|]. rewrite Hsz. destruct (m !! k); cbn; unfold size_of in *; lia.
  - intros s m k n (Hh & Hsz & Hlt) Hk Hfit. unfold fits in *. cbn. unfold remove. pose proof (holds_find _ _ Hh k Hk) as Hfind. rewrite Hfind.
    destruct (m !! k) as [old|] eqn:Hm.
    + eexists. split; [done|]. unfold rep. cbn.
      pose proof (total_erase (toHex k) (storage_ s)) as Ht. rewrite Hfind in Ht. cbn in Ht.
      pose proof (total_nonneg (om_erase (toHex k) (storage_ s))).
      assert (0 <= size_of old) by (unfold size_of; lia). rewrite wrap_id by lia.
      split; [split; [by apply holds_erase|]|]; lia.
    + exists s. split; [done|]. rewrite delete_id by done. by split.
Qed.

(** ** The cursor *)

Definition cursor_rep (c : InMemoryCursor) (m : contents) : Prop :=
  holds (storage_ (db c)) m /\ forall k v, kv c = Some (k, v) -> is_bytes k /\ m !! k = Some v.

(** Where the entries of the map are. *)
Lemma holds_elem l m k : holds l m -> is_Some (m !! k) <-> is_bytes k /\ toHex k ∈ l.*1.
Proof.
  intros [Hs Hk Hb Hf]. split.
  - intros [v Hv]. assert (is_bytes k) as Hkb by (apply Hb; by exists v). split; [done|].
    rewrite <-(Hf k Hkb) in Hv. apply om_find_elem in Hv. by apply (list_elem_of_fmap_2 fst _ (toHex k, v)).
  - intros [Hkb ([h v] & Heq & Hin)%list_elem_of_fmap]. cbn in Heq. subst h. exists v. rewrite <-Hf by done.
    by apply (om_find_sorted bytes_lt); try apply _.
Qed.

Lemma seek_it_spec c m it :
  holds (storage_ (db c)) m -> (forall p, p ∈ it -> p ∈ storage_ (db c)) ->
  exists c', seek_it c it = Done (c', bool_decide (is_Some (key c'))) /\ cursor_rep c' m
    /\ match head it with
       | None => key c' = None
       | Some p => exists k, is_bytes k /\ p.1 = toHex k /\ key c' = Some k
       end.
Proof.
  intros Hh Hsub. destruct it as [|[h v] it]; cbn.
  - exists (MkCursor (db c) None). split; [done|]. split; [|done]. by split.
  - destruct (holds_keys _ _ Hh (h, v)) as (k & Hk & Heq); [apply Hsub; left|]. cbn in Heq. subst h.
    rewrite fromHex_toHex by done. cbn. exists (MkCursor (db c) (Some (k, v))). split; [done|]. split; [|by exists k].
    split; [done|]. cbn. intros k' v' [= <- <-]. split; [done|]. rewrite <-(holds_find _ _ Hh k Hk).
    apply (om_find_sorted bytes_lt); try apply _; [apply Hh|]. apply Hsub. left.
Qed.

Lemma head_least l m l1 it P o :
  holds l m -> l = l1 ++ it ->
  (forall k, is_bytes k -> toHex k ∈ l1.*1 -> ¬ P k) -> (forall k, is_bytes k -> toHex k ∈ it.*1 -> P k) ->
  match head it with
  | None => o = None
  | Some p => exists k, is_bytes k /\ p.1 = toHex k /\ o = Some k
  end -> least m P o.
Proof.
  intros Hh Hl H1 H2 Ho.
  assert (forall k, is_Some (m !! k) -> is_bytes k /\ (toHex k ∈ l1.*1 \/ toHex k ∈ it.*1)) as Hin.
  { intros k [Hk Hkl]%(holds_elem _ _ _ Hh). rewrite Hl, fmap_app, elem_of_app in Hkl. done. }
  destruct it as [|p it]; cbn in Ho.
  - subst o. intros k' [Hk [Hkl|Hkl]]%Hin; [by apply H1|]. by apply not_elem_of_nil in Hkl.
  - destruct Ho as (k & Hk & Hp & ->). cbn. split.
    { apply (holds_elem _ _ _ Hh). split; [done|]. rewrite Hl, fmap_app, elem_of_app. right. cbn. rewrite Hp. left. }
    split; [apply H2; [done|]; cbn; rewrite Hp; left|].
    intros k' [Hk' [Hkl|Hkl]]%Hin HP Hlt; [by apply (H1 k')|].
    pose proof (holds_sorted _ _ Hh) as Hs. rewrite Hl in Hs.
    apply StronglySorted_app_1_r, StronglySorted_inv in Hs as [_ Hall].
    cbn in Hkl. rewrite Hp in Hkl. apply elem_of_cons in Hkl as [Heq|(q & Heq & Hq)%list_elem_of_fmap].
    + apply toHex_inj in Heq; [|done..]. subst. by apply (irreflexivity bytes_lt k).
    + rewrite Forall_forall in Hall. specialize (Hall q Hq). rewrite <-Heq, Hp in Hall.
      rewrite toHex_lt_iff in Hall by done. apply (irreflexivity bytes_lt k). by trans k'.
Qed.

Lemma last_it_head (l1 : pairs) x : head (last_it (l1 ++ [x])) = Some x.
Proof.
  unfold last_it. rewrite length_app. cbn. replace (length l1 + 1 - 1)%nat with (length l1) by lia.
  by rewrite drop_app_length.
Qed.

Lemma last_greatest l m l1 l2 P o :
  holds l m -> l = l1 ++ l2 ->
  (forall k, is_bytes k -> toHex k ∈ l1.*1 -> P k) -> (forall k, is_bytes k -> toHex k ∈ l2.*1 -> ¬ P k) ->
  match head (match l1 with [] => [] | _ => last_it l1 end) with
  | None => o = None
  | Some p => exists k, is_bytes k /\ p.1 = toHex k /\ o = Some k
  end -> greatest m P o.
Proof.
  intros Hh Hl H1 H2 Ho.
  assert (forall k, is_Some (m !! k) -> is_bytes k /\ (toHex k ∈ l1.*1 \/ toHex k ∈ l2.*1)) as Hin.
  { intros k [Hk Hkl]%(holds_elem _ _ _ Hh). rewrite Hl, fmap_app, elem_of_app in Hkl. done. }
  destruct l1 as [|x l1 _] using rev_ind.
  - cbn in Ho. subst o. intros k' [Hk [Hkl|Hkl]]%Hin; [by apply not_elem_of_nil in Hkl|by apply H2].
  - assert (match l1 ++ [x] with [] => [] | _ => last_it (l1 ++ [x]) end = last_it (l1 ++ [x])) as Hm
      by (destruct (l1 ++ [x]) eqn:Hx; [by destruct l1|done]).
    rewrite Hm, last_it_head in Ho. destruct Ho as (k & Hk & Hp & ->). cbn. split.
    { apply (holds_elem _ _ _ Hh). split; [done|]. rewrite Hl, !fmap_app. set_solver. }
    split; [apply H1; [done|]; rewrite fmap_app; set_solver|].
    intros k' [Hk' [Hkl|Hkl]]%Hin HP Hlt; [|by apply (H2 k')].
    pose proof (holds_sorted _ _ Hh) as Hs. rewrite Hl in Hs. apply StronglySorted_app_1_l in Hs.
    rewrite fmap_app in Hkl. apply elem_of_app in Hkl as [(q & Heq & Hq)%list_elem_of_fmap|Heq%list_elem_of_singleton].
    + pose proof (StronglySorted_app_1_elem_of _ _ _ q x Hs Hq ltac:(left)) as Hqx. cbn in Hqx.
      rewrite <-Heq, Hp in Hqx. rewrite toHex_lt_iff in Hqx by done. apply (irreflexivity bytes_lt k). by trans k'.
    + rewrite Hp in Heq. apply toHex_inj in Heq; [|done..]. subst. by apply (irreflexivity bytes_lt k).
Qed.

(** Looking for an iterator's key: the conditions of the two lemmas above for the
    bounds of a key. *)
Lemma bound_below (l : pairs) k Q :
  is_bytes k -> Forall (fun p => Q p.1) l -> forall k', toHex k' ∈ l.*1 -> Q (toHex k').
Proof.
  intros Hk Hl k' (p & -> & Hp)%list_elem_of_fmap. rewrite Forall_forall in Hl. by apply Hl.
Qed.

#[export] Instance in_memory_cursor_ok : MapCursorOk InMemoryCursor cursor_rep.
Proof.
  split.
  - intros c m [_ _]. cbn. unfold isValid, key. by destruct (kv c) as [[]|].
  - intros c m [_ Hkv]. cbn. unfold key, value_at. destruct (kv c) as [[k v]|]; [|done]. cbn.
    symmetry. by apply Hkv.
  - intros c m [Hh _]. destruct (seek_it_spec c m (storage_ (db c)) Hh) as (c' & Hrun & Hc' & Hk); [done|].
    exists c'. split; [exact Hrun|]. split; [done|].
    eapply (head_least _ m [] _ _ _ Hh); [done| |done|exact Hk]. intros k _ []%not_elem_of_nil.
  - intros c m k [Hh _] Hk.
    destruct (om_lower_bound_split bytes_lt (toHex k) _ (holds_sorted _ _ Hh)) as (l & Hl & Hlo & Hhi).
    destruct (seek_it_spec c m (om_lower_bound bytes_lt (toHex k) (storage_ (db c))) Hh) as (c' & Hrun & Hc' & Ho).
    { intros p Hp. rewrite Hl. apply elem_of_app. by right. }
    exists c'. split; [exact Hrun|]. split; [done|]. eapply (head_least _ m l _ _ _ Hh Hl); [..|exact Ho].
    + intros k' Hk' Hin Hge. apply Hge, toHex_lt_iff; [done..|].
      exact (bound_below l k (fun h => bytes_lt h (toHex k)) Hk Hlo k' Hin).
    + intros k' Hk' Hin Hlt. apply (bound_below _ k (fun h => ¬ bytes_lt h (toHex k)) Hk Hhi k' Hin). by apply toHex_lt.
  - intros c m [Hh _].
    destruct (seek_it_spec c m (match storage_ (db c) with [] => [] | _ => last_it (storage_ (db c)) end) Hh)
      as (c' & Hrun & Hc' & Ho).
    { intros p. destruct (storage_ (db c)) eqn:Hst; [done|]. unfold last_it. intros Hp. rewrite <-(take_drop (length (p0 :: l) - 1) (p0 :: l)).
      apply elem_of_app. by right. }
    exists c'. split; [|split; [done|]].
    + cbn. unfold seekLast. destruct (storage_ (db c)); exact Hrun.
    + eapply (last_greatest _ m (storage_ (db c)) [] _ _ Hh); [by rewrite app_nil_r|done| |exact Ho].
      intros k _ []%not_elem_of_nil.
  - intros c m k [Hh Hkv] Hk. cbn in Hk. unfold key in Hk. cbn. unfold next.
    destruct (kv c) as [[k0 v0]|] eqn:Hc; [|done]. injection Hk as ->. destruct (Hkv k v0 eq_refl) as [Hkb _].
    destruct (om_upper_bound_split bytes_lt (toHex k) _ (holds_sorted _ _ Hh)) as (l & Hl & Hlo & Hhi).
    destruct (seek_it_spec c m (om_upper_bound bytes_lt (toHex k) (storage_ (db c))) Hh) as (c' & Hrun & Hc' & Ho).
    { intros p Hp. rewrite Hl. apply elem_of_app. by right. }
    cbn [deref mbind run_bind fst]. rewrite Hrun. exists c'. split; [done|]. split; [done|].
    eapply (head_least _ m l _ _ _ Hh Hl); [..|exact Ho].
    + intros k' Hk' Hin Hlt. apply (bound_below l k (fun h => ¬ bytes_lt (toHex k) h) Hkb Hlo k' Hin). by apply toHex_lt.
    + intros k' Hk' Hin. apply toHex_lt_iff; [done..|].
      exact (bound_below _ k (fun h => bytes_lt (toHex k) h) Hkb Hhi k' Hin).
  - intros c m k [Hh Hkv] Hk. cbn in Hk. unfold key in Hk. cbn. unfold prev.
    destruct (kv c) as [[k0 v0]|] eqn:Hc; [|done]. injection Hk as ->. destruct (Hkv k v0 eq_refl) as [Hkb _].
    destruct (om_lower_bound_split bytes_lt (toHex k) _ (holds_sorted _ _ Hh)) as (l & Hl & Hlo & Hhi).
    cbn [deref mbind run_bind fst]. rewrite (om_below_eq bytes_lt (toHex k) (storage_ (db c)) l) by done.
    destruct (seek_it_spec c m (match l with [] => [] | _ => last_it l end) Hh) as (c' & Hrun & Hc' & Ho).
    { intros p Hp. rewrite Hl. apply elem_of_app. left. destruct l; [done|]. unfold last_it in Hp.
      rewrite <-(take_drop (length (p0 :: l) - 1) (p0 :: l)). apply elem_of_app. by right. }
    exists c'. split; [destruct l; by rewrite Hrun|]. split; [done|].
    eapply (last_greatest _ m l _ _ _ Hh Hl); [..|exact Ho].
    + intros k' Hk' Hin. apply toHex_lt_iff; [done..|].
      exact (bound_below _ k (fun h => bytes_lt h (toHex k)) Hkb Hlo k' Hin).
    + intros k' Hk' Hin Hlt. apply (bound_below _ k (fun h => ¬ bytes_lt h (toHex k)) Hkb Hhi k' Hin). by apply toHex_lt.
Qed.

(** ** The batch *)

(** A batch holds, for each key, the value of its last [put] unless a [remove]
    came after it. *)
Definition pending (b : InMemoryBatch) (ws : list Write) : Prop :=
  holds (entries b) (apply_writes ∅ ws) /\ total (entries b) <= bytes_written ws.

Definition bwrite (b : InMemoryBatch) (w : Write) : result InMemoryBatch :=
  match w with WPut k v => bput b k v | WRemove k => bremove b k end.

Lemma bytes_written_app ws1 ws2 : bytes_written (ws1 ++ ws2) = bytes_written ws1 + bytes_written ws2.
Proof. induction ws1 as [|[] ws1 IH]; cbn; lia. Qed.

Lemma bwrite_pending b ws w :
  pending b ws -> is_bytes (written w) -> exists b', bwrite b w = Done b' /\ pending b' (ws ++ [w]).
Proof.
  intros [Hh Ht] Hk. unfold pending, apply_writes. rewrite bytes_written_app, foldl_app.
  destruct w as [k v|k]; cbn in *; eexists; (split; [done|]); cbn.
  - split; [by apply holds_assign|]. rewrite total_assign by apply Hh.
    destruct (om_find _ _); cbn; unfold size_of; lia.
  - split; [by apply holds_erase|]. rewrite total_erase. destruct (om_find _ _); cbn; unfold size_of; lia.
Qed.

Lemma bwrites_pending ws0 ws b :
  pending b ws0 -> Forall (fun w => is_bytes (written w)) ws ->
  exists b', foldM bwrite b ws = Done b' /\ pending b' (ws0 ++ ws).
Proof.
  intros Hb Hws. revert b ws0 Hb. induction Hws as [|w ws Hk Hws IH]; intros b ws0 Hb; [by exists b; rewrite app_nil_r|].
  destruct (bwrite_pending b ws0 w Hb Hk) as (b1 & Hw & Hb1). cbn [foldM]. rewrite Hw.
  destruct (IH b1 _ Hb1) as (b' & ? & ?). exists b'. split; [done|]. by rewrite <-app_assoc in *.
Qed.

Lemma batch_pending s : pending (batch s) [].
Proof. repeat split; cbn; try lia; try constructor; try done. intros ? []%not_elem_of_nil. by intros ? [? ?]. Qed.

(** Writing a sequence of entries with distinct keys. *)
Lemma commit_entries l s m :
  sorted l -> (forall p, p ∈ l -> exists k, is_bytes k /\ p.1 = toHex k) -> rep s m -> size_ s + total l < 2 ^ 64 ->
  exists s' m', commit (MkBatch l) s = Done s' /\ rep s' m'
    /\ forall k, is_bytes k -> m' !! k = match om_find (toHex k) l with Some v => Some v | None => m !! k end.
Proof.
  unfold commit. cbn [entries]. intros Hl. revert s m. induction Hl as [|[h v] l Hl IH Hall]; intros s m Hkeys Hs Hsz.
  { exists s, m. by split. }
  destruct (Hkeys (h, v)) as (k & Hk & Heq); [left|]. cbn in Heq. subst h.
  pose proof (total_nonneg l). cbn in Hsz.
  destruct (put_rep s m k v Hs Hk) as (s1 & Hput & Hs1 & Hsz1).
  { destruct (m !! k); cbn; unfold size_of in *; lia. }
  cbn [foldM mbind run_bind fst snd]. rewrite fromHex_toHex by done. cbn [value mbind run_bind mret run_ret].
  rewrite Hput. destruct (IH s1 (<[k := v]> m)) as (s' & m' & Hrun & Hs' & Hm').
  { intros p Hp. apply Hkeys. by right. }
  { done. }
  { destruct (m !! k); cbn in *; unfold size_of in *; lia. }
  exists s', m'. split; [done|]. split; [done|]. intros k' Hk'. rewrite Hm' by done. cbn.
  destruct (decide (k' = k)) as [->|Hne].
  - rewrite (decide_True (P := toHex k = toHex k)) by done.
    rewrite (proj2 (om_find_None (toHex k) l)), lookup_insert_eq; [done|].
    intros (p & Heq & Hp)%list_elem_of_fmap. rewrite Forall_forall in Hall. specialize (Hall p Hp). cbn in Hall.
    rewrite Heq in Hall. by apply (irreflexivity bytes_lt p.1).
  - rewrite (decide_False (P := toHex k' = toHex k)) by (by intros ?%toHex_inj).
    by rewrite lookup_insert_ne by done.
Qed.

Lemma commit_batch s m ws :
  rep s m -> Forall (fun w => is_bytes (written w)) ws -> fits s (bytes_written ws) ->
  exists b s' m', foldM bwrite (batch s) ws = Done b /\ commit b s = Done s' /\ rep s' m'
    /\ forall k, is_bytes k -> m' !! k = match last_write k ws None with Some v => Some v | None => m !! k end.
Proof.
  intros Hs Hws Hf. destruct (bwrites_pending [] ws (batch s) (batch_pending s) Hws) as ([l] & Hrun & Hh & Ht). cbn in *.
  unfold fits in Hf.
  destruct (commit_entries l s m) as (s' & m' & Hc & Hs' & Hm'); [apply Hh|apply Hh|done|lia|].
  exists (MkBatch l), s', m'. split; [done|]. split; [done|]. split; [done|]. intros k Hk. rewrite Hm' by done.
  rewrite (holds_find _ _ Hh) by done. by rewrite apply_writes_lookup, lookup_empty.
Qed.

(** C8: Direct writes to the in-memory storage.  After any sequence of puts and
    removes whose values fit in memory, every read ([tryGet], [get], [contains])
    of every key gives its last write, or what the storage held before when the
    key was not written; no operation fails. *)
Theorem in_memory_reads_last_write s m ws k :
  rep s m -> fits s (bytes_written ws) -> Forall (fun w => is_bytes (written w)) ws -> is_bytes k ->
  exists s', foldM write s ws = Done s'
    /\ tryGet s' k = Done (last_write k ws (m !! k))
    /\ get s' k = (match last_write k ws (m !! k) with Some v => Done v | None => Fail NOT_FOUND end)
    /\ contains s' k = Done (bool_decide (is_Some (last_write k ws (m !! k)))).
Proof. exact (writes_read rep fits s m ws k). Qed.

(** Cursors of the in-memory storage.  A fresh cursor walked from [seekFirst]
    by [next] meets every stored entry once, in key order, within as many steps as
    there are entries; and [seekReverse] of the base class positions it at the
    greatest stored key that is not above the prefix, with the stored value, and
    answers whether there is one. *)
Theorem in_memory_cursors s m prefix fuel :
  rep s m -> is_bytes prefix -> (size m <= fuel)%nat ->
  (exists l, scan fuel (cursor s) = Done l /\ StronglySorted (fun p q => bytes_lt p.1 q.1) l
    /\ forall p, p ∈ l <-> m !! p.1 = Some p.2)
  /\ exists c', seekReverse (cursor s) prefix = Done (c', bool_decide (is_Some (key c')))
    /\ greatest m (fun k => ¬ bytes_lt prefix k) (key c')
    /\ value_at c' = k ← key c'; m !! k.
Proof.
  intros [Hh _] Hp Hfuel. assert (cursor_rep (cursor s) m) as Hc by (by split).
  split; [exact (scan_spec cursor_rep (cursor s) m fuel Hc Hfuel)|].
  destruct (seekReverse_spec cursor_rep (cursor s) m prefix Hc Hp) as (c' & Hrun & Hc' & Hg).
  exists c'. split; [done|]. split; [done|]. exact (law_value (rep := cursor_rep) c' m Hc').
Qed.

(** What committing an in-memory batch does, for every sequence of batched
    puts and removes: a key whose last batched operation is a put takes that value,
    and every other key keeps the value it had. *)
Theorem in_memory_commit s m ws k :
  rep s m -> Forall (fun w => is_bytes (written w)) ws -> fits s (bytes_written ws) -> is_bytes k ->
  exists b s', foldM bwrite (batch s) ws = Done b /\ commit b s = Done s'
    /\ tryGet s' k = Done (match last_write k ws None with Some v => Some v | None => m !! k end).
Proof.
  intros Hs Hws Hf Hk. destruct (commit_batch s m ws Hs Hws Hf) as (b & s' & m' & Hb & Hc & Hs' & Hm').
  exists b, s'. split; [done|]. split; [done|]. rewrite <-(Hm' k Hk).
  exact (law_tryGet (rep := rep) s' m' k Hs' Hk).
Qed.

End spec.

(** ** Spaces *)

(** Every registered space points into the heap, and no two to the same storage. *)
Definition spaces_wf (s : SpacedStorage) : Prop :=
  (forall sp p, spaces_ s !! sp = Some p -> (p < length (heap s))%nat)
  /\ forall sp sp' p, spaces_ s !! sp = Some p -> spaces_ s !! sp' = Some p -> sp = sp'.

(** Requesting a list of spaces in order; the pointers returned. *)
Fixpoint getSpaces (s : SpacedStorage) (sps : list Space) : SpacedStorage * list nat :=
  match sps with
  | [] => (s, [])
  | sp :: sps => let '(s, p) := getSpace s sp in let '(s, ps) := getSpaces s sps in (s, p :: ps)
  end.

Lemma getSpace_spec s sp s' p :
  spaces_wf s -> getSpace s sp = (s', p) ->
  spaces_wf s' /\ spaces_ s' !! sp = Some p /\ spaces_ s ⊆ spaces_ s' /\ heap s `prefix_of` heap s'.
Proof.
  intros [Hlt Hinj] Hg. unfold getSpace in Hg. destruct (spaces_ s !! sp) as [q|] eqn:Hsp; injection Hg as <- <-.
  { by repeat split. }
  cbn. split; [split; cbn|split; [by rewrite lookup_insert_eq|split; [by apply insert_subseteq|by eexists]]].
  - intros sp' q. rewrite length_app. cbn.
    intros [[<- <-]|[_ Hq%Hlt]]%lookup_insert_Some; lia.
  - intros sp1 sp2 q [[<- <-]|[Hn1 H1]]%lookup_insert_Some [[<- Heq]|[Hn2 H2]]%lookup_insert_Some; [done|..].
    + apply Hlt in H2. lia.
    + subst q. apply Hlt in H1. lia.
    + by apply (Hinj _ _ q).
Qed.

Lemma getSpaces_spec sps s s' ps :
  spaces_wf s -> getSpaces s sps = (s', ps) ->
  spaces_wf s' /\ spaces_ s ⊆ spaces_ s' /\ heap s `prefix_of` heap s'
  /\ Forall2 (fun sp p => spaces_ s' !! sp = Some p) sps ps.
Proof.
  revert s s' ps. induction sps as [|sp sps IH]; intros s s' ps Hwf Hg; cbn in Hg.
  { injection Hg as <- <-. split; [done|]. split; [done|]. split; [done|]. by constructor. }
  destruct (getSpace s sp) as [s1 p] eqn:H1. destruct (getSpaces s1 sps) as [s2 qs] eqn:H2. injection Hg as <- <-.
  apply getSpace_spec in H1 as (Hwf1 & Hp & Hsub1 & Hpre1); [|done].
  apply IH in H2 as (Hwf2 & Hsub2 & Hpre2 & Hall); [|done].
  split; [done|]. split; [by trans (spaces_ s1)|]. split; [by trans (heap s1)|]. constructor; [|done].
  by eapply lookup_weaken.
Qed.

(** [InMemorySpacedStorage::getSpace].  In any sequence of requests, starting
    from the empty storage, two requests return the same storage exactly when they
    are for the same space, and every returned storage exists. *)
Theorem getSpace_shares sps s' ps i j sp sp' p p' :
  getSpaces (MkSpaced [] ∅) sps = (s', ps) ->
  sps !! i = Some sp -> sps !! j = Some sp' -> ps !! i = Some p -> ps !! j = Some p' ->
  (p = p' <-> sp = sp') /\ is_Some (heap s' !! p).
Proof.
  intros Hg Hi Hj Hpi Hpj. apply getSpaces_spec in Hg as ([Hlt Hinj] & _ & _ & Hall); [|by split; [intros ??|intros ???]; cbn; rewrite lookup_empty].
  pose proof (Forall2_lookup_lr _ _ _ _ _ _ Hall Hi Hpi) as H1. pose proof (Forall2_lookup_lr _ _ _ _ _ _ Hall Hj Hpj) as H2.
  cbn in *. split; [|by apply lookup_lt_is_Some, (Hlt sp)]. split; [intros <-; by apply (Hinj _ _ p)|intros <-; congruence].
Qed.

(** ** Witnesses, with lower-case hexadecimal digits *)

Module Samples.

Definition digit (d : Z) : Z := if d <? 10 then 48 + d else 87 + d.
Definition undigit (c : Z) : Z := if c <? 58 then c - 48 else c - 87.

Fixpoint encode (k : Bytes) : Bytes :=
  match k with [] => [] | b :: k => digit (b / 16) :: digit (b mod 16) :: encode k end.

Fixpoint decode (h : Bytes) : option Bytes :=
  match h with
  | [] => Some []
  | x :: y :: h => k ← decode h; Some (16 * undigit x + undigit y :: k)
  | _ => None
  end.

#[export] Instance hex : Hex := { toHex := encode; fromHex := decode }.

Lemma undigit_digit d : 0 <= d < 16 -> undigit (digit d) = d.
Proof. intros. unfold undigit, digit. repeat case_match; lia. Qed.

Lemma digit_lt d d' : 0 <= d < 16 -> 0 <= d' < 16 -> d < d' -> digit d < digit d'.
Proof. intros. unfold digit. repeat case_match; lia. Qed.

#[export] Instance hex_ok : HexOk hex.
Proof.
  split.
  - intros k Hk. unfold is_bytes, is_byte in Hk. cbn. induction Hk as [|b k Hb Hk IH]; [done|]. cbn. rewrite IH. cbn.
    rewrite !undigit_digit by (pose proof (Z.div_lt_upper_bound b 16 16); pose proof (Z.div_pos b 16);
      pose proof (Z.mod_pos_bound b 16); lia).
    pose proof (Z.div_mod b 16). do 2 f_equal. lia.
  - intros k k' Hk. unfold is_bytes, is_byte in *. revert k'. cbn.
    induction Hk as [|b k Hb Hk IH]; intros [|b' k'] Hk'; cbn; [done|done|done|].
    apply Forall_cons in Hk' as [Hb' Hk'].
    pose proof (Z.div_mod b 16). pose proof (Z.div_mod b' 16). pose proof (Z.mod_pos_bound b 16).
    pose proof (Z.mod_pos_bound b' 16).
    intros [Hlt|[-> Hlt]]; [|right; split; [done|]; right; split; [done|]; by apply IH].
    destruct (decide (b / 16 = b' / 16)) as [Heq|Hne].
    + right. rewrite Heq. split; [done|]. left. apply digit_lt; lia.
    + left. apply digit_lt; lia.
Qed.

(** A storage with two entries. *)
Definition db0 : InMemoryStorage := MkStorage [(encode [7], [1; 2]); (encode [200; 1], [3])] 3.
Definition m0 : contents := {[ [7] := [1; 2]; [200; 1] := [3] ]}.

Lemma empty_rep : rep empty ∅.
Proof. repeat split; cbn; try lia; try constructor; try done. intros ? []%not_elem_of_nil. by intros ? [? ?]. Qed.

Lemma db0_rep : rep db0 m0.
Proof.
  destruct (writes_rep rep fits empty ∅ [WPut [200; 1] [3]; WPut [7] [1; 2]]) as (s & Hrun & Hs).
  - apply empty_rep.
  - done.
  - repeat constructor; unfold is_byte; lia.
  - vm_compute in Hrun. injection Hrun as <-. exact Hs.
Qed.

Lemma in_memory_reads_last_write_witness :
  exists s', foldM write db0 [WPut [8] [5]; WRemove [7]; WPut [8] [6]] = Done s'
    /\ tryGet s' [8] = Done (Some [6]) /\ get s' [8] = Done [6] /\ contains s' [8] = Done true.
Proof.
  apply (in_memory_reads_last_write db0 m0 [WPut [8] [5]; WRemove [7]; WPut [8] [6]] [8]).
  - apply db0_rep.
  - done.
  - repeat constructor; unfold is_byte; lia.
  - repeat constructor; unfold is_byte; lia.
Defined.

Lemma in_memory_cursors_witness :
  (exists l, scan 2 (cursor db0) = Done l /\ StronglySorted (fun p q => bytes_lt p.1 q.1) l
    /\ forall p, p ∈ l <-> m0 !! p.1 = Some p.2)
  /\ exists c', seekReverse (cursor db0) [9] = Done (c', bool_decide (is_Some (key c')))
    /\ greatest m0 (fun k => ¬ bytes_lt [9] k) (key c')
    /\ value_at c' = k ← key c'; m0 !! k.
Proof.
  apply in_memory_cursors.
  - apply db0_rep.
  - repeat constructor; unfold is_byte; lia.
  - vm_compute. lia.
Defined.

Lemma in_memory_commit_witness :
  exists b s', foldM bwrite (batch db0) [WRemove [7]; WPut [9] [1]] = Done b /\ commit b db0 = Done s'
    /\ tryGet s' [9] = Done (Some [1]).
Proof.
  apply (in_memory_commit db0 m0 [WRemove [7]; WPut [9] [1]] [9]).
  - apply db0_rep.
  - repeat constructor; unfold is_byte; lia.
  - done.
  - repeat constructor; unfold is_byte; lia.
Defined.

Lemma getSpace_shares_witness : (0%nat = 0%nat <-> Default = Default) /\ is_Some ([empty] !! 0%nat).
Proof.
  apply (getSpace_shares [Default; Default] (MkSpaced [empty] {[ Default := 0%nat ]}) [0%nat; 0%nat] 0 1 Default Default 0 0);
    vm_compute; reflexivity.
Defined.

(** The in-memory batch does not implement the write batch it documents:
    whatever relates its batches to pending writes, with a fresh batch having none,
    the laws of a batch fail, because a batched [remove] of a stored key is lost at
    [commit]. *)
Theorem in_memory_batch_loses_removes :
  ~ exists pend, (forall s, pend (batch s) []) /\ BufferBatchOk InMemoryBatch InMemoryStorage rep pend.
Proof.
  intros (pend & Hfresh & Hok). assert (is_bytes [7]) as H7 by (repeat constructor; unfold is_byte; lia).
  destruct (law_batch_remove (BufferBatchOk := Hok) _ _ [7] (Hfresh db0) H7) as (b' & Hb & Hp).
  injection Hb as <-. destruct (law_batch_commit (BufferBatchOk := Hok) _ _ db0 m0 Hp db0_rep) as (s' & Hc & Hs').
  injection Hc as <-. pose proof (law_tryGet (rep := rep) _ _ [7] Hs' H7) as Hget. vm_compute in Hget. discriminate Hget.
Qed.

End Samples.
End InMemorySpec.
