(* ===== verification/RocksDb.v ===== *)
(** * RocksDb: the persistent storage

    [src/src/storage/rocksdb/]: the wrapper that opens a RocksDB database with one
    column family per space, and the storage, batch and cursor over a column.  The
    RocksDB library is a type class of the calls the wrapper makes; what the
    operating system and the library answer while the database is opened is a
    record of observations.  A space refers to the *slot* of its column handle, as
    the reference member [column_] does. *)

From S2P Require Import Prelude Containers Common Storage Parsers.
From Stdlib Require Import SpecFloat.

(** ** Configuration values handed to the library *)

Record TableOptions : Type := MkTableOptions {
  format_version : Z; block_cache : Z; block_size : Z; cache_index_and_filter_blocks : bool;
  bloom_bits : Z; bloom_block_based : bool
}.

Record ColumnOptions : Type := MkColumnOptions { level_budget : Z; column_table : TableOptions }.

Record Options : Type := MkOptions {
  create_if_missing : bool; create_missing_column_families : bool; optimize_filters_for_hits : bool;
  max_open_files : Z; table : TableOptions
}.

(** ** The library *)

Class RocksDbLib : Type := {
  Status : Type;
  ok : Status -> bool;
  IsNotFound : Status -> bool;
  IsIOError : Status -> bool;
  IsInvalidArgument : Status -> bool;
  IsCorruption : Status -> bool;
  IsNotSupported : Status -> bool;
  IsPathNotFound : Status -> bool;
  DB : Type;
  Handle : Type;
  Handle_eq_dec :: EqDecision Handle;  (** handles are pointers *)
  GetName : Handle -> string;
  Get : DB -> Handle -> Bytes -> Status * Bytes;
  Put : DB -> Handle -> Bytes -> Bytes -> Status * DB;
  Delete : DB -> Handle -> Bytes -> Status * DB;
  Batch : Type;
  batch_new : Batch;
  BatchPut : Batch -> Handle -> Bytes -> Bytes -> Batch;
  BatchDelete : Batch -> Handle -> Bytes -> Batch;
  BatchClear : Batch -> Batch;
  DBWrite : DB -> Batch -> Status * DB;
  DropColumnFamily : DB -> Handle -> Status * DB;
  DestroyColumnFamilyHandle : DB -> Handle -> Status * DB;
  CreateColumnFamily : DB -> string -> Status * DB * option Handle;
  GetProperty : DB -> option Handle -> string -> option string;
  Iterator : Type;
  NewIterator : DB -> Handle -> Iterator;
  SeekToFirst : Iterator -> Iterator;
  Seek : Iterator -> Bytes -> Iterator;
  SeekToLast : Iterator -> Iterator;
  Valid : Iterator -> bool;
  Next : Iterator -> Iterator;
  Prev : Iterator -> Iterator;
  iter_key : Iterator -> Bytes;
  iter_value : Iterator -> Bytes;
  CompactRange : DB -> Handle -> Bytes -> Bytes -> DB;
  Flush : DB -> Status * DB;
  WaitForCompact : DB -> Status * DB;
  Close : DB -> Status * DB
}.

Module RocksDb.
Section operations.
Context `{L : RocksDbLib}.

(** ** Utilities *)

Definition status_as_error (s : Status) : StorageError :=
  if IsNotFound s then NOT_FOUND
  else if IsIOError s then IO_ERROR
  else if IsInvalidArgument s then INVALID_ARGUMENT
  else if IsCorruption s then CORRUPTION
  else if IsNotSupported s then NOT_SUPPORTED
  else UNKNOWN.

(** [qtils::raise(e)] and [throw e]. *)
Definition raise {A} (e : StorageError) : result A := Raise (error_message e).

(** *** Names of the spaces *)

Definition kNames : list string := [""%string].
Definition kDefaultColumnFamilyName : string := "default".

Definition spaceName (space : Space) : result string :=
  if bool_decide (space ≠ Default) then
    require (space_code space <? space_code Total);;
    at_idx kNames (u64 (space_code space - 1))
  else mret kDefaultColumnFamilyName.

(** The code of the space; the enumeration has no check of its own. *)
Definition spaceFromString (s : string) : option Z :=
  '(i, _) ← list_find (fun name => name = s) kNames; Some (Z.of_nat i).

(** ** Options *)

(** [uint32_t] products, converted afterwards. *)
Definition tableOptionsConfiguration (lru_cache_size_mib block_size_kib : Z) : TableOptions :=
  MkTableOptions 5 (u32 (u32 (lru_cache_size_mib * 1024) * 1024)) (u32 (block_size_kib * 1024)) true 10 false.

Definition kDefaultLruCacheSizeMiB : Z := 512.
Definition kDefaultBlockSizeKiB : Z := 32.

Definition configureColumn (memory_budget : Z) : ColumnOptions :=
  MkColumnOptions memory_budget (tableOptionsConfiguration kDefaultLruCacheSizeMiB kDefaultBlockSizeKiB).

(** *** [double] *)

Definition double : Type := spec_float.
Definition to_double (n : Z) : double := binary_normalize 53 1024 n 0 false.
Definition dadd : double -> double -> double := SFadd 53 1024.
Definition dsub : double -> double -> double := SFsub 53 1024.
Definition dmul : double -> double -> double := SFmul 53 1024.
Definition ddiv : double -> double -> double := SFdiv 53 1024.

(** Conversion to [uint64_t]: the fraction is dropped; out of range is undefined. *)
Definition to_u64 (d : double) : result Z :=
  match d with
  | S754_zero _ => mret 0
  | S754_finite false m e =>
      let n := Z.shiftl (Zpos m) e in
      require (n <? 2 ^ 64);; mret n
  | S754_finite true m e => require (Z.shiftl (Zpos m) e =? 0);; mret 0
  | _ => Undef
  end.

(** [column_cache_sizes] in the order the hash map is walked. *)
Definition configureColumnFamilies (cf_names : list string) (column_ttl : gmap string Z)
    (column_cache_sizes : list (string * double)) (memory_budget : Z)
    : result (list (string * ColumnOptions) * list Z) :=
  let '(distributed_cache_part, count) :=
    foldl (fun '(part, count) '(column, v) =>
      if bool_decide (column ∈ cf_names) then (dadd part v, count + 1) else (part, count))
      (to_double 0, 0) column_cache_sizes in
  require (SFleb distributed_cache_part (to_double 1));;
  let size := Z.of_nat (length cf_names) in
  other_spaces_cache_size ←
    (if count <? size
     then to_u64 (ddiv (dmul (to_double memory_budget) (dsub (to_double 1) distributed_cache_part)) (to_double (size - count)))
     else mret 0);
  foldM (fun '(descriptors, ttls) space_name =>
    let ttl := default 0 (column_ttl !! space_name) in
    cache_size ← match list_find (fun p => p.1 = space_name) column_cache_sizes with
                 | Some (_, (_, v)) => to_u64 (dmul (to_double memory_budget) v)
                 | None => mret other_spaces_cache_size
                 end;
    mret (descriptors ++ [(space_name, configureColumn cache_size)], ttls ++ [ttl]))
    ([], []) cf_names.

(** ** The database object *)

(** A storage of one column: [column_] is the slot of its handle. *)
Record RocksDbSpace : Type := MkSpace { column_ : nat }.

Record Rocks : Type := MkRocks {
  db_ : option DB;                        (** the pointer; null until opened *)
  column_family_handles_ : list Handle;
  spaces_ : gmap Space RocksDbSpace
}.

(** The operating system and the library while the database is opened. *)
Record Env : Type := MkEnv {
  fd_limit : option Z;                    (** [getFdLimit] *)
  path_exists : bool;
  create_directories_ec : option string;
  create_directory : bool * option string;  (** returned value and error code *)
  is_directory : bool;
  list_families : Status * list string;   (** [ListColumnFamilies] *)
  hash_order : list string -> list string;  (** iteration order of a hash set *)
  cache_size : Z;                         (** [app_config->database().cache_size] *)
  open_db : Options -> list (string * ColumnOptions) -> list Z -> Status * list Handle * option DB
}.

Definition createDirectory (env : Env) : result unit :=
  let '(created, ec) := create_directory env in
  if negb created && bool_decide (is_Some ec) then Fail IO_ERROR
  else if negb (is_directory env) then Fail IO_ERROR
  else mret tt.

(** Writes the two members of the object whatever the status. *)
Definition openDatabaseWithTTL (env : Env) (options : Options) (descriptors : list (string * ColumnOptions))
    (ttls : list Z) (r : Rocks) : Rocks * result unit :=
  let '(status, handles, db) := open_db env options descriptors ttls in
  (MkRocks db handles (spaces_ r), if negb (ok status) then Fail (status_as_error status) else mret tt).

(** Conversion to [int]. *)
Definition i32 (x : Z) : Z := let y := u32 x in if y <? 2 ^ 31 then y else y - 2 ^ 32.

(** Members of the hash set, in insertion order. *)
Definition set_insert (l : list string) (x : string) : list string := if bool_decide (x ∈ l) then l else l ++ [x].

(** [std::stoull]: leading white space, a sign, digits. *)
Definition stoull (s : string) : result Z :=
  let s := Parsers.skip Parsers.isspace (Parsers.chars s) in
  let '(neg, s) := match s with
                   | c :: s' => if Parsers.code c =? 45 then (true, s') else if Parsers.code c =? 43 then (false, s') else (false, s)
                   | [] => (false, s)
                   end in
  let '(ds, _) := Parsers.span_digits s in
  match ds with
  | [] => Raise "stoull"
  | _ => let n := Parsers.digits_value ds in
      if n <? 2 ^ 64 then mret (u64 (if neg : bool then - n else n)) else Raise "stoull"
  end.

(** The printed sizes: what can go wrong while they are read. *)
Definition print_sizes (r : Rocks) : result unit :=
  foldM (fun _ handle =>
    db ← deref (db_ r);
    match GetProperty db (Some handle) "rocksdb.estimate-live-data-size" with
    | Some size_str => stoull size_str;; mret tt
    | None => mret tt
    end) tt (column_family_handles_ r).

(** The constructor. *)
Definition construct (env : Env) : result Rocks :=
  soft_limit ← match fd_limit env with Some l => mret l | None => raise UNKNOWN end;
  let options max := MkOptions true max true (i32 (soft_limit / 2))
    (tableOptionsConfiguration kDefaultLruCacheSizeMiB kDefaultBlockSizeKiB) in
  let no_db_presented := negb (path_exists env) in
  match create_directories_ec env with Some ec => Raise ec | None => mret tt end;;
  match createDirectory env with Done _ => mret tt | _ => Raise "Success" end;;
  let '(res, existing_families) := list_families env in
  (if negb (ok res) && negb (IsPathNotFound res) then raise (status_as_error res) else mret tt);;
  required_families ← foldM (fun fs space => name ← spaceName space; mret (set_insert fs name)) [] [Default];
  let all_families := hash_order env (foldl set_insert required_families existing_families) in
  '(descriptors, ttls) ← configureColumnFamilies all_families ∅ [] (cache_size env);
  let r := MkRocks None [] ∅ in
  r ← (if no_db_presented then
         match openDatabaseWithTTL env (options true) descriptors ttls r with
         | (r, Done _) => mret r
         | (_, Fail e) => raise e
         | (_, _) => Undef
         end
       else mret r);
  print_sizes r;;
  mret r.

(** The destructor: the handles it destroys, in order; then [delete db_]. *)
Definition destruct_ (r : Rocks) : result (option DB) :=
  db ← foldM (fun db handle => d ← deref db; mret (Some (DestroyColumnFamilyHandle d handle).2))
    (db_ r) (column_family_handles_ r);
  mret db.

Definition find_column (r : Rocks) (space_name : string) : option nat :=
  fst <$> list_find (fun handle => GetName handle = space_name) (column_family_handles_ r).

Definition getSpace (r : Rocks) (space : Space) : result (Rocks * RocksDbSpace) :=
  match spaces_ r !! space with
  | Some s => mret (r, s)
  | None =>
      space_name ← spaceName space;
      match find_column r space_name with
      | None => raise INVALID_ARGUMENT
      | Some column =>
          let space_ptr := MkSpace column in
          mret (MkRocks (db_ r) (column_family_handles_ r) (<[space := space_ptr]> (spaces_ r)), space_ptr)
      end
  end.

(** The object after the call, and how the call ended. *)
Definition dropColumn (r : Rocks) (space : Space) : Rocks * result unit :=
  match spaceName space with
  | Done space_name =>
      match find_column r space_name with
      | None => (r, raise INVALID_ARGUMENT)
      | Some column =>
          match db_ r, column_family_handles_ r !! column with
          | Some db, Some handle =>
              let upd db handles := MkRocks (Some db) handles (spaces_ r) in
              let '(status, db) := DropColumnFamily db handle in
              if negb (ok status) then (upd db (column_family_handles_ r), raise (status_as_error status))
              else
                let '(status, db) := DestroyColumnFamilyHandle db handle in
                if negb (ok status) then (upd db (column_family_handles_ r), raise (status_as_error status))
                else
                  let '(status, db, created) := CreateColumnFamily db space_name in
                  let handles := match created with
                                 | Some h => <[column := h]> (column_family_handles_ r)
                                 | None => column_family_handles_ r
                                 end in
                  (upd db handles, if negb (ok status) then raise (status_as_error status) else mret tt)
          | _, _ => (r, Undef)
          end
      end
  | _ => (r, Undef)
  end.

(** The guard that closes a database: the calls, in order, whatever they return. *)
Definition guard_clean (db : DB) (handles : list Handle) : DB :=
  let db := (Flush db).2 in
  let db := (WaitForCompact db).2 in
  let db := foldl (fun db handle => (DestroyColumnFamilyHandle db handle).2) db handles in
  (Close db).2.

(** ** A space: [storage_] is a weak pointer to the database object *)

Record World : Type := MkWorld { rocks : option Rocks; space : RocksDbSpace }.

Definition use (w : World) : result Rocks :=
  match rocks w with None => Fail STORAGE_GONE | Some r => mret r end.

(** [rocks->db_] and [column_], dereferenced. *)
Definition handles (w : World) (r : Rocks) : result (DB * Handle) :=
  db ← deref (db_ r);
  h ← deref (column_family_handles_ r !! column_ (space w));
  mret (db, h).

Definition set_db (w : World) (r : Rocks) (db : DB) : World :=
  MkWorld (Some (MkRocks (Some db) (column_family_handles_ r) (spaces_ r))) (space w).

Definition byteSizeHint (w : World) : option Z :=
  match rocks w with
  | None => Some 0
  | Some r =>
      match db_ r with
      | None => Some 0
      | Some db =>
          match GetProperty db None "rocksdb.cur-size-all-mem-tables" with
          | Some usage => match stoull usage with Done n => Some n | _ => Some 0 end
          | None => Some 0
          end
      end
  end.

Definition contains (w : World) (key : Bytes) : result bool :=
  r ← use w;
  '(db, column) ← handles w r;
  let '(status, _) := Get db column key in
  if ok status then mret true
  else if IsNotFound status then mret false
  else Fail (status_as_error status).

Definition get (w : World) (key : Bytes) : result Bytes :=
  r ← use w;
  '(db, column) ← handles w r;
  let '(status, v) := Get db column key in
  if ok status then mret v else Fail (status_as_error status).

Definition tryGet (w : World) (key : Bytes) : result (option Bytes) :=
  r ← use w;
  '(db, column) ← handles w r;
  let '(status, v) := Get db column key in
  if ok status then mret (Some v)
  else if IsNotFound status then mret None
  else Fail (status_as_error status).

(** The world after a write, and how the call ended. *)
Definition written_by (w : World) (f : DB -> Handle -> Status * DB) : World * result unit :=
  match r ← use w; '(db, column) ← handles w r; mret (r, db, column) with
  | Done (r, db, column) =>
      let '(status, db) := f db column in
      (set_db w r db, if ok status then mret tt else Fail (status_as_error status))
  | Fail e => (w, Fail e)
  | Raise e => (w, Raise e)
  | Undef => (w, Undef)
  end.

Definition put (w : World) (key value : Bytes) : World * result unit :=
  written_by w (fun db column => Put db column key value).

Definition remove (w : World) (key : Bytes) : World * result unit :=
  written_by w (fun db column => Delete db column key).

Definition compact (w : World) (first last : Bytes) : result World :=
  match rocks w with
  | None => mret w
  | Some r =>
      match db_ r with
      | None => mret w
      | Some db =>
          column ← deref (column_family_handles_ r !! column_ (space w));
          let begin := match first with [] => SeekToFirst (NewIterator db column) | _ => Seek (NewIterator db column) first end in
          require (Valid begin);;
          let end_ := match last with [] => SeekToLast (NewIterator db column) | _ => Seek (NewIterator db column) last end in
          require (Valid end_);;
          mret (set_db w r (CompactRange db column (iter_key begin) (iter_key end_)))
      end
  end.

(** *** Batch *)

Definition batch (_ : World) : Batch := batch_new.

(** The handle is read from the space's slot when the operation is recorded; a
    slot of a destroyed database dangles. *)
Definition bput (w : World) (b : Batch) (key value : Bytes) : result Batch :=
  r ← deref (rocks w); h ← deref (column_family_handles_ r !! column_ (space w)); mret (BatchPut b h key value).

Definition bremove (w : World) (b : Batch) (key : Bytes) : result Batch :=
  r ← deref (rocks w); h ← deref (column_family_handles_ r !! column_ (space w)); mret (BatchDelete b h key).

Definition commit (w : World) (b : Batch) : World * result unit :=
  match r ← use w; db ← deref (db_ r); mret (r, db) with
  | Done (r, db) =>
      let '(status, db) := DBWrite db b in
      (set_db w r db, if ok status then mret tt else Fail (status_as_error status))
  | Fail e => (w, Fail e)
  | Raise e => (w, Raise e)
  | Undef => (w, Undef)
  end.

Definition clear (b : Batch) : Batch := BatchClear b.

(** *** Cursor *)

Record RocksDBCursor : Type := MkCursor { i_ : Iterator }.

Definition cursor (w : World) : result RocksDBCursor :=
  match rocks w with
  | None => raise STORAGE_GONE
  | Some r => '(db, column) ← handles w r; mret (MkCursor (NewIterator db column))
  end.

Definition isValid (c : RocksDBCursor) : bool := Valid (i_ c).

Definition seekFirst (c : RocksDBCursor) : result (RocksDBCursor * bool) :=
  let c := MkCursor (SeekToFirst (i_ c)) in mret (c, isValid c).

Definition seek (c : RocksDBCursor) (key : Bytes) : result (RocksDBCursor * bool) :=
  let c := MkCursor (Seek (i_ c) key) in mret (c, isValid c).

Definition seekLast (c : RocksDBCursor) : result (RocksDBCursor * bool) :=
  let c := MkCursor (SeekToLast (i_ c)) in mret (c, isValid c).

Definition next (c : RocksDBCursor) : result RocksDBCursor := mret (MkCursor (Next (i_ c))).
Definition prev (c : RocksDBCursor) : result RocksDBCursor := mret (MkCursor (Prev (i_ c))).

Definition key (c : RocksDBCursor) : option Bytes := if isValid c then Some (iter_key (i_ c)) else None.
Definition value_at (c : RocksDBCursor) : option Bytes := if isValid c then Some (iter_value (i_ c)) else None.

(** ** The interfaces *)

(** A write as the interface has it: the world after it, or its error. *)
Definition settle (p : World * result unit) : result World :=
  match p with
  | (w, Done _) => Done w
  | (_, Fail e) => Fail e
  | (_, Raise e) => Raise e
  | (_, Undef) => Undef
  end.

#[export] Instance rocks_storage : BufferStorage World :=
  { Storage.contains := contains; Storage.get := get; Storage.tryGet := tryGet;
    Storage.put := fun w k v => settle (put w k v); Storage.remove := fun w k => settle (remove w k) }.

#[export] Instance rocks_cursor : MapCursor RocksDBCursor :=
  { Storage.seekFirst := seekFirst; Storage.seek := seek; Storage.seekLast := seekLast; Storage.isValid := isValid;
    Storage.next := next; Storage.prev := prev; Storage.key := key; cursor_value := value_at }.

End operations.
End RocksDb.
