(* ===== verification/RocksDbSpec.v ===== *)
(** * RocksDbSpec: the persistent storage implements the interfaces

    Against documented laws of the library (a column family is a finite map, a
    write batch is atomic, an iterator walks a snapshot in key order), a space is a
    storage, its batch executes its operations, its cursor is a cursor, and erasing
    a space empties the storages that refer to it.  The laws speak of calls that
    succeed; nothing is assumed of what a failed call leaves behind.  Opening is looked
    at separately. *)

From S2P Require Import Prelude Containers Common OrderedMap Storage RocksDb.

(** [col db h]: the data of the column family of [h]; [None] when [h] is not a live
    handle.  [healthy db]: the device answers, so no call fails.  [over it m]: the
    iterator walks the snapshot [m] of a column, on a device that answers. *)
Class RocksDbOk `(L : RocksDbLib) : Type := {
  col : DB -> Handle -> option contents;
  healthy : DB -> Prop;
  recorded : Batch -> list (Handle * Write);
  over : Iterator -> contents -> Prop;
  ok_not_found s : ok s = true -> IsNotFound s = false;
  law_Get db h m k : col db h = Some m -> healthy db ->
    match m !! k with
    | Some v => ok (Get db h k).1 = true /\ (Get db h k).2 = v
    | None => ok (Get db h k).1 = false /\ IsNotFound (Get db h k).1 = true
    end;
  law_Put db h m k v h' : col db h = Some m -> ok (Put db h k v).1 = true ->
    col (Put db h k v).2 h' = if bool_decide (h' = h) then Some (<[k := v]> m) else col db h';
  law_Put_healthy db h k v : healthy db -> is_Some (col db h) -> ok (Put db h k v).1 = true /\ healthy (Put db h k v).2;
  law_Delete db h m k h' : col db h = Some m -> ok (Delete db h k).1 = true ->
    col (Delete db h k).2 h' = if bool_decide (h' = h) then Some (delete k m) else col db h';
  law_Delete_healthy db h k : healthy db -> is_Some (col db h) -> ok (Delete db h k).1 = true /\ healthy (Delete db h k).2;
  law_new : recorded batch_new = [];
  law_BatchPut b h k v : recorded (BatchPut b h k v) = recorded b ++ [(h, WPut k v)];
  law_BatchDelete b h k : recorded (BatchDelete b h k) = recorded b ++ [(h, WRemove k)];
  law_BatchClear b : recorded (BatchClear b) = [];
  law_Write db b h' : Forall (fun p => is_Some (col db p.1)) (recorded b) -> ok (DBWrite db b).1 = true ->
    col (DBWrite db b).2 h' = (fun m => apply_writes m (snd <$> filter (fun p => p.1 = h') (recorded b))) <$> col db h';
  law_Write_healthy db b : healthy db -> Forall (fun p => is_Some (col db p.1)) (recorded b) ->
    ok (DBWrite db b).1 = true /\ healthy (DBWrite db b).2;
  law_Drop db h h' : ok (DropColumnFamily db h).1 = true -> h' ≠ h -> col (DropColumnFamily db h).2 h' = col db h';
  law_Destroy db h h' :
    ok (DestroyColumnFamilyHandle db h).1 = true -> h' ≠ h -> col (DestroyColumnFamilyHandle db h).2 h' = col db h';
  law_Destroy_self db h : ok (DestroyColumnFamilyHandle db h).1 = true -> col (DestroyColumnFamilyHandle db h).2 h = None;
  law_Create db name db' st oh : CreateColumnFamily db name = (st, db', oh) -> ok st = true ->
    exists h, oh = Some h /\ GetName h = name /\ col db h = None /\ col db' h = Some ∅
      /\ forall h', h' ≠ h -> col db' h' = col db h';
  law_Drop_healthy db h : healthy db -> is_Some (col db h) ->
    ok (DropColumnFamily db h).1 = true /\ healthy (DropColumnFamily db h).2;
  law_Destroy_healthy db h : healthy db ->
    ok (DestroyColumnFamilyHandle db h).1 = true /\ healthy (DestroyColumnFamilyHandle db h).2;
  law_Create_healthy db name : healthy db -> ok (CreateColumnFamily db name).1.1 = true /\ healthy (CreateColumnFamily db name).1.2;
  law_NewIterator db h m : col db h = Some m -> healthy db -> over (NewIterator db h) m;
  law_SeekToFirst it m : over it m -> over (SeekToFirst it) m;
  law_Seek it m k : over it m -> over (Seek it k) m;
  law_SeekToLast it m : over it m -> over (SeekToLast it) m;
  law_Next it m : over it m -> over (Next it) m;
  law_Prev it m : over it m -> over (Prev it) m;
  law_iter_value it m : over it m -> Valid it = true -> m !! iter_key it = Some (iter_value it);
  law_at_first it m : over it m ->
    least m (fun _ => True) (if Valid (SeekToFirst it) then Some (iter_key (SeekToFirst it)) else None);
  law_at_key it m k : over it m ->
    least m (fun k' => ¬ bytes_lt k' k) (if Valid (Seek it k) then Some (iter_key (Seek it k)) else None);
  law_at_last it m : over it m ->
    greatest m (fun _ => True) (if Valid (SeekToLast it) then Some (iter_key (SeekToLast it)) else None);
  law_at_next it m : over it m -> Valid it = true ->
    least m (fun k' => bytes_lt (iter_key it) k') (if Valid (Next it) then Some (iter_key (Next it)) else None);
  law_at_prev it m : over it m -> Valid it = true ->
    greatest m (fun k' => bytes_lt k' (iter_key it)) (if Valid (Prev it) then Some (iter_key (Prev it)) else None)
}.

Module RocksDbSpec.
Import RocksDb.

Section spec.
Context `{L : RocksDbLib, LO : !RocksDbOk L}.

(** The space's slot holds a live handle of column data [m] in an open database. *)
Definition rep_at (h : Handle) (w : World) (m : contents) : Prop :=
  exists r db, rocks w = Some r /\ db_ r = Some db /\ column_family_handles_ r !! column_ (space w) = Some h
    /\ col db h = Some m /\ healthy db.

Definition rep (w : World) (m : contents) : Prop := exists h, rep_at h w m.

Definition fits (w : World) (n : Z) : Prop := True.

Lemma read_rep (w : World) (h : Handle) (r : Rocks) (db : DB) {A} (f : DB * Handle -> result A) :
  rocks w = Some r -> db_ r = Some db -> column_family_handles_ r !! column_ (space w) = Some h ->
  (r ← use w; p ← handles w r; f p) = f (db, h).
Proof. intros Hr Hdb Hh. unfold use, handles. by rewrite Hr; cbn; rewrite Hdb; cbn; rewrite Hh. Qed.

Lemma written_by_rep w h r db f :
  rocks w = Some r -> db_ r = Some db -> column_family_handles_ r !! column_ (space w) = Some h ->
  written_by w f =
    (set_db w r (f db h).2, if ok (f db h).1 then mret tt else Fail (status_as_error (f db h).1)).
Proof.
  intros Hr Hdb Hh. unfold written_by, use, handles. rewrite Hr. cbn. rewrite Hdb. cbn. rewrite Hh. cbn.
  by destruct (f db h).
Qed.

Lemma written_by_healthy w h m f m' :
  rep_at h w m -> (forall db, col db h = Some m -> healthy db ->
    ok (f db h).1 = true /\ healthy (f db h).2 /\ col (f db h).2 h = Some m') ->
  exists w', settle (written_by w f) = Done w' /\ rep_at h w' m'.
Proof.
  intros (r & db & Hr & Hdb & Hh & Hm & Hok) Hf. destruct (Hf db Hm Hok) as (Hst & Hok' & Hm').
  rewrite (written_by_rep w h r db f Hr Hdb Hh), Hst. eexists. split; [done|].
  eexists _, _. by repeat split.
Qed.

#[export] Instance rocks_storage_ok : BufferStorageOk World rep fits.
Proof.
  split.
  - intros w m k (h & r & db & Hr & Hdb & Hh & Hm & Hok) _. cbn. unfold contains.
    rewrite (read_rep w h r db _ Hr Hdb Hh). pose proof (law_Get db h m k Hm Hok) as Hg.
    destruct (Get db h k) as [st v], (m !! k); cbn in *; destruct Hg as [-> Hv]; [done|by rewrite Hv].
  - intros w m k (h & r & db & Hr & Hdb & Hh & Hm & Hok) _. cbn. unfold get.
    rewrite (read_rep w h r db _ Hr Hdb Hh). pose proof (law_Get db h m k Hm Hok) as Hg. unfold status_as_error.
    destruct (Get db h k) as [st v], (m !! k); cbn in *; destruct Hg as [-> Hv]; [by subst|by rewrite Hv].
  - intros w m k (h & r & db & Hr & Hdb & Hh & Hm & Hok) _. cbn. unfold tryGet.
    rewrite (read_rep w h r db _ Hr Hdb Hh). pose proof (law_Get db h m k Hm Hok) as Hg.
    destruct (Get db h k) as [st v], (m !! k); cbn in *; destruct Hg as [-> Hv]; [by subst|by rewrite Hv].
  - intros w m k v n [h Hw] _ _ _. cbn. unfold put.
    destruct (written_by_healthy w h m (fun db column => Put db column k v) (<[k := v]> m) Hw) as (w' & ? & ?).
    { intros db Hm Hok. destruct (law_Put_healthy db h k v Hok) as [Hst Hok']; [by rewrite Hm|].
      rewrite (law_Put db h m k v h Hm Hst), Hst, bool_decide_eq_true_2 by done. done. }
    exists w'. split; [done|]. split; [by exists h|done].
  - intros w m k n [h Hw] _ _. cbn. unfold remove.
    destruct (written_by_healthy w h m (fun db column => Delete db column k) (delete k m) Hw) as (w' & ? & ?).
    { intros db Hm Hok. destruct (law_Delete_healthy db h k Hok) as [Hst Hok']; [by rewrite Hm|].
      rewrite (law_Delete db h m k h Hm Hst), Hst, bool_decide_eq_true_2 by done. done. }
    exists w'. split; [done|]. split; [by exists h|done].
Qed.

(** ** Batches *)

(** Operations are recorded in the world [w0], through the slot that holds [h]. *)
Section batch.
Context (w0 : World) (h : Handle) (r0 : Rocks)
  (Hr0 : rocks w0 = Some r0) (Hh0 : column_family_handles_ r0 !! column_ (space w0) = Some h).

Definition rocks_batch : BufferBatch Batch World :=
  {| batch_put := bput w0; batch_remove := bremove w0; batch_commit := fun b w => settle (commit w b); batch_clear := clear |}.

Definition pending (b : Batch) (ws : list Write) : Prop := recorded b = (fun x => (h, x)) <$> ws.

Lemma recorded_at (ws : list Write) : snd <$> filter (fun p => p.1 = h) ((fun x => (h, x)) <$> ws) = ws.
Proof. induction ws as [|x ws IH]; [done|]. rewrite fmap_cons, filter_cons_True by done. cbn. by rewrite IH. Qed.

Lemma rocks_batch_ok : @BufferBatchOk Batch World rocks_batch (rep_at h) pending.
Proof.
  split; unfold pending.
  - intros b ws k v Hb _. cbn. unfold bput. rewrite Hr0. cbn. rewrite Hh0. cbn. eexists. split; [done|].
    by rewrite law_BatchPut, Hb, fmap_app.
  - intros b ws k Hb _. cbn. unfold bremove. rewrite Hr0. cbn. rewrite Hh0. cbn. eexists. split; [done|].
    by rewrite law_BatchDelete, Hb, fmap_app.
  - intros b ws w m Hb (r & db & Hr & Hdb & Hh & Hm & Hok). cbn. unfold commit, use. rewrite Hr. cbn. rewrite Hdb. cbn.
    assert (Forall (fun p => is_Some (col db p.1)) (recorded b)) as Hall.
    { rewrite Hb. apply Forall_fmap, Forall_true. intros x. cbn. by rewrite Hm. }
    destruct (law_Write_healthy db b Hok Hall) as [Hst Hok']. pose proof (law_Write db b h Hall Hst) as Hwr.
    destruct (DBWrite db b) as [st db']. cbn in *. rewrite Hst. eexists. split; [done|].
    eexists _, _. split; [done|]. split; [done|]. split; [done|]. split; [|done]. cbn. rewrite Hwr, Hm, Hb. cbn. by rewrite recorded_at.
  - intros b ws _. cbn. unfold clear. by rewrite law_BatchClear.
Qed.

End batch.

(** ** Cursors *)

Definition cursor_rep (c : RocksDBCursor) (m : contents) : Prop := over (i_ c) m.

#[export] Instance rocks_cursor_ok : MapCursorOk RocksDBCursor cursor_rep.
Proof.
  assert (forall it, (if Valid it then Some (iter_key it) else None) = key (MkCursor it)) as Hkey by done.
  assert (forall it, Valid it = bool_decide (is_Some (key (MkCursor it)))) as Hval.
  { intros it. unfold key, isValid. cbn. by destruct (Valid it). }
  split; unfold cursor_rep.
  - intros [it] m _. apply Hval.
  - intros [it] m Ho. cbn. unfold value_at, key, isValid. cbn. destruct (Valid it) eqn:Hv; [|done]. cbn.
    symmetry. by apply law_iter_value.
  - intros [it] m Ho. eexists (MkCursor _). cbn. unfold seekFirst, isValid. cbn. rewrite Hval. split; [done|].
    split; [by apply law_SeekToFirst|by apply law_at_first].
  - intros [it] m k Ho _. eexists (MkCursor _). cbn. unfold seek, isValid. cbn. rewrite Hval. split; [done|].
    split; [by apply law_Seek|by apply law_at_key].
  - intros [it] m Ho. eexists (MkCursor _). cbn. unfold seekLast, isValid. cbn. rewrite Hval. split; [done|].
    split; [by apply law_SeekToLast|by apply law_at_last].
  - intros [it] m k Ho. cbn. unfold key at 1, isValid. cbn. destruct (Valid it) eqn:Hv; [|done]. intros [= <-].
    eexists (MkCursor _). split; [done|]. split; [by apply law_Next|by apply law_at_next].
  - intros [it] m k Ho. cbn. unfold key at 1, isValid. cbn. destruct (Valid it) eqn:Hv; [|done]. intros [= <-].
    eexists (MkCursor _). split; [done|]. split; [by apply law_Prev|by apply law_at_prev].
Qed.

(** ** Reading and writing *)


(** A RocksDB batch.  Recording puts and removes and then committing them
    executes them in order: a key holds its last batched write, removes included. *)
Theorem rocks_commit h w m ws k :
  rep_at h w m -> Forall (fun x => is_bytes (written x)) ws -> is_bytes k ->
  exists b w', foldM (fun b x => match x with WPut k v => bput w b k v | WRemove k => bremove w b k end) (batch w) ws = Done b
    /\ commit w b = (w', Done tt) /\ tryGet w' k = Done (last_write k ws (m !! k)).
Proof.
  intros Hw Hws Hk. pose proof Hw as (r & _ & Hr & _ & Hh & _).
  destruct (@batch_writes_commit _ _ (rocks_batch w) (rep_at h) (pending h) (rocks_batch_ok w h r Hr Hh) ws (batch w) w m)
    as (b & w' & Hb & Hc & Hw'); [apply law_new|done|done|].
  exists b, w'. split; [exact Hb|]. split.
  - cbn in Hc. unfold settle in Hc. destruct (commit w b) as [w1 [[]|?|?|]]; congruence.
  - rewrite <-apply_writes_lookup. assert (rep w' (apply_writes m ws)) as Hrep by (by exists h).
    exact (law_tryGet (rep := rep) w' _ k Hrep Hk).
Qed.


(** ** Erasing a space *)

Lemma spaceName_Default : spaceName Default = Done kDefaultColumnFamilyName.
Proof. done. Qed.

Lemma find_column_Some r name i :
  find_column r name = Some i -> exists h, column_family_handles_ r !! i = Some h /\ GetName h = name.
Proof.
  unfold find_column. intros ((j & h) & Hf & ->)%fmap_Some. apply list_find_Some in Hf as (? & ? & _). by exists h.
Qed.


(** ** Opening *)

Lemma configure_names names ttl budget ds ttls :
  configureColumnFamilies names ttl [] budget = Done (ds, ttls) -> ds.*1 = names /\ length ttls = length names.
Proof.
  unfold configureColumnFamilies. cbn [foldl].
  match goal with |- context [require ?b] => destruct b end; [|done]. cbn [require mbind run_bind].
  intros (n & _ & Hrun)%bind_Done.
  assert (forall l ds0 ttls0, foldM (fun '(ds, ttls) name =>
    c ← mret n; mret (ds ++ [(name, configureColumn c)], ttls ++ [default 0 (ttl !! name)])) (ds0, ttls0) l
    = Done (E := StorageError) (ds, ttls) -> ds.*1 = ds0.*1 ++ l /\ length ttls = (length ttls0 + length l)%nat) as Hloop.
  { clear Hrun. induction l as [|x l IH]; intros ds0 ttls0 Hrun; cbn in Hrun.
    - injection Hrun as -> ->. by rewrite app_nil_r, Nat.add_0_r.
    - apply IH in Hrun as [-> ->]. rewrite fmap_app, length_app, <-app_assoc. cbn. split; [done|lia]. }
  apply (Hloop names [] []). exact Hrun.
Qed.

(** What the constructor did, when it returned. *)
Lemma construct_Done env r :
  construct env = Done r ->
  exists existing ds ttls opts r1,
    list_families env = existing
    /\ configureColumnFamilies (hash_order env (foldl set_insert [kDefaultColumnFamilyName] existing.2)) ∅ [] (cache_size env)
       = Done (ds, ttls)
    /\ r = r1
    /\ if path_exists env then r1 = MkRocks None [] ∅
       else exists st hs db, open_db env opts ds ttls = (st, hs, db) /\ ok st = true /\ r1 = MkRocks db hs ∅.
Proof.
  unfold construct. destruct (fd_limit env) as [lim|]; [|done]. cbn [mret run_ret mbind run_bind].
  destruct (create_directories_ec env); [done|]. cbn [mret run_ret mbind run_bind].
  destruct (createDirectory env); [|done..]. cbn [mret run_ret mbind run_bind].
  destruct (list_families env) as [st existing]. destruct (negb (ok st) && negb (IsPathNotFound st)); [done|].
  cbn [mret run_ret mbind run_bind foldM]. rewrite spaceName_Default. cbn [mret run_ret mbind run_bind].
  change (set_insert [] kDefaultColumnFamilyName) with [kDefaultColumnFamilyName].
  destruct (configureColumnFamilies _ _ _ _) as [[ds ttls]|?|?|] eqn:Hcfg; [|done..]. cbn [mret run_ret mbind run_bind].
  destruct (path_exists env); cbn [negb].
  - cbn [mret run_ret mbind run_bind]. destruct (print_sizes _); [|done..]. cbn. intros [= <-].
    exists (st, existing), ds, ttls. eexists _, _. by repeat split.
  - unfold openDatabaseWithTTL. destruct (open_db _ _ _ _) as [[st' hs] db] eqn:Hopen.
    destruct (ok st') eqn:Hst; cbn [negb]; [|done].
    cbn [mret run_ret mbind run_bind]. destruct (print_sizes _); [|done..]. cbn. intros [= <-].
    exists (st, existing), ds, ttls. eexists _, _. split; [done|]. split; [done|]. split; [done|].
    by exists st', hs, db.
  Unshelve. all: exact (MkOptions true true true 0 (tableOptionsConfiguration 0 0)).
Qed.

(** What the library promises of an open that succeeds: one live handle per
    descriptor, in their order, in an open database. *)
Definition opens (env : Env) : Prop := forall o ds ttls st hs db,
  open_db env o ds ttls = (st, hs, db) -> ok st = true ->
  exists d, db = Some d /\ healthy d /\ GetName <$> hs = ds.*1 /\ Forall (fun h => is_Some (col d h)) hs.

Lemma set_insert_elem l x y : y ∈ set_insert l x <-> y ∈ l \/ y = x.
Proof. unfold set_insert. case_bool_decide; [|rewrite elem_of_app, list_elem_of_singleton]; set_solver. Qed.

Lemma set_inserts_elem l xs y : y ∈ l -> y ∈ foldl set_insert l xs.
Proof. revert l. induction xs as [|x xs IH]; intros l Hy; cbn; [done|]. apply IH, set_insert_elem. by left. Qed.

(** Opening where nothing existed before: whenever the constructor returns, the
    default space can be requested, its storage is readable and writeable, and
    requesting it again gives the same storage. *)
Theorem construct_fresh env r :
  path_exists env = false -> (forall l, hash_order env l ≡ₚ l) -> opens env -> construct env = Done r ->
  exists r' s m, getSpace r Default = Done (r', s) /\ rep (MkWorld (Some r') s) m
    /\ getSpace r' Default = Done (r', s).
Proof.
  intros Hex Hord Hopen (existing & ds & ttls & o & r1 & _ & Hcfg & -> & Hr)%construct_Done. rewrite Hex in Hr.
  destruct Hr as (st & hs & db & Ho & Hst & ->). destruct (Hopen _ _ _ _ _ _ Ho Hst) as (d & -> & Hok & Hnames & Hlive).
  apply configure_names in Hcfg as [Hds _]. rewrite Hds in Hnames.
  assert (kDefaultColumnFamilyName ∈ GetName <$> hs) as (h & Hname & Hin)%list_elem_of_fmap.
  { rewrite Hnames, Hord. apply set_inserts_elem. left. }
  assert (exists i h', list_find (fun h => GetName h = kDefaultColumnFamilyName) hs = Some (i, h')) as (i & h' & Hf).
  { destruct (list_find (fun h => GetName h = kDefaultColumnFamilyName) hs) as [[i h']|] eqn:Hf; [by exists i, h'|].
    apply list_find_None in Hf. rewrite Forall_forall in Hf. by destruct (Hf h Hin). }
  pose proof Hf as Hf'. apply list_find_Some in Hf' as (Hi & _ & _).
  rewrite Forall_forall in Hlive. destruct (Hlive h') as [m Hm]; [by apply list_elem_of_lookup_2 in Hi|].
  assert (getSpace (MkRocks (Some d) hs ∅) Default
    = Done (MkRocks (Some d) hs (<[Default := MkSpace i]> ∅), MkSpace i)) as Hget.
  { unfold getSpace. cbn [spaces_]. rewrite lookup_empty, spaceName_Default. cbn [mbind run_bind]. unfold find_column.
    cbn [column_family_handles_]. by rewrite Hf. }
  eexists _, _, m. split; [exact Hget|]. split; [|unfold getSpace; cbn [spaces_]; by rewrite lookup_insert_eq].
  exists h', (MkRocks (Some d) hs (<[Default := MkSpace i]> ∅)), d. done.
Qed.

(** Opening where the path already exists: whenever the constructor returns,
    no database has been opened, and every request of a space throws
    "invalid argument". *)
Theorem construct_existing env r :
  path_exists env = true -> construct env = Done r ->
  db_ r = None /\ getSpace r Default = Raise (error_message INVALID_ARGUMENT).
Proof.
  intros Hex (existing & ds & ttls & o & r1 & _ & _ & -> & Hr)%construct_Done. rewrite Hex in Hr. by subst.
Qed.

(** The two conversions between spaces and names do not invert each other: the
    name of the default space is not recognised, and the unused name of the table
    is read as the default space. *)
Theorem space_names_mismatch :
  spaceName Default = Done "default"%string /\ spaceFromString "default" = None
  /\ spaceFromString "" = Some (space_code Default).
Proof. repeat split. Qed.

End spec.
End RocksDbSpec.
