(* ===== verification/RocksDbWitness.v ===== *)
(** * RocksDbWitness: a library that satisfies the laws

    A database in memory, as the RocksDB library of [RocksDb]: a finite map from
    handles to column data.  It satisfies every law of [RocksDbSpec], and the
    theorems about the persistent storage are applied to it. *)

From S2P Require Import Prelude Containers Common OrderedMap Storage RocksDb RocksDbSpec.

Module RocksDbWitness.
Import RocksDb RocksDbSpec.

(** The extreme element of a list under [R]. *)
Section best.
Context (R : Bytes -> Bytes -> Prop) `{!RelDecision R, !StrictOrder R, !Trichotomy R}.

Fixpoint best (l : list Bytes) : option Bytes :=
  match l with
  | [] => None
  | k :: l => match best l with
              | None => Some k
              | Some k' => if decide (R k k') then Some k else Some k'
              end
  end.

Lemma best_spec l :
  match best l with
  | None => l = []
  | Some k => k ∈ l /\ forall k', k' ∈ l -> ¬ R k' k
  end.
Proof.
  induction l as [|k l IH]; [done|]. cbn. destruct (best l) as [k'|].
  - destruct IH as [Hin Hmin]. destruct (decide (R k k')) as [Hlt|Hn].
    + split; [left|]. intros x [->|Hx]%elem_of_cons; [apply irreflexivity, _|]. intros Hxk. apply (Hmin x Hx). by trans k.
    + split; [by right|]. intros x [->|Hx]%elem_of_cons; auto.
  - subst l. split; [left|]. intros x ->%list_elem_of_singleton. apply irreflexivity, _.
Qed.

(** The extreme key of a map with property [P]. *)
Definition best_key (P : Bytes -> Prop) `{!forall k, Decision (P k)} (m : contents) : option Bytes :=
  best (filter P (elements (dom m))).

Lemma best_key_spec P `{!forall k, Decision (P k)} m :
  match best_key P m with
  | Some k => is_Some (m !! k) /\ P k /\ forall k', is_Some (m !! k') -> P k' -> ¬ R k' k
  | None => forall k', is_Some (m !! k') -> ¬ P k'
  end.
Proof.
  unfold best_key. pose proof (best_spec (filter P (elements (dom m)))) as Hb.
  assert (forall k, k ∈ filter P (elements (dom m)) <-> P k /\ is_Some (m !! k)) as Hel.
  { intros k. by rewrite list_elem_of_filter, elem_of_elements, elem_of_dom. }
  destruct (best _) as [k|].
  - destruct Hb as [[HP Hk]%Hel Hmin]. split; [done|]. split; [done|]. intros k' Hk' HP'. by apply Hmin, Hel.
  - intros k' Hk' HP'. assert (k' ∈ filter P (elements (dom m))) as Hin by (by apply Hel). rewrite Hb in Hin.
    by apply not_elem_of_nil in Hin.
Qed.
End best.

#[export] Instance flip_trichotomy : Trichotomy (flip bytes_lt).
Proof. intros x y. cbn. destruct (trichotomy bytes_lt x y) as [|[|]]; tauto. Qed.

#[export] Instance flip_strict : StrictOrder (flip bytes_lt).
Proof. split; [intros x; apply (irreflexivity bytes_lt)|intros x y z Hxy Hyz; cbn in *; by trans y]. Qed.

Abbreviation CF := (nat * string)%type.
Abbreviation data := (gmap CF contents).
Abbreviation St := (option StorageError).

Definition code_is (e : StorageError) (s : St) : bool := bool_decide (s = Some e).

Definition on_live (d : data) (h : CF) (f : contents -> contents) : St * data :=
  match d !! h with Some m => (None, <[h := f m]> d) | None => (Some INVALID_ARGUMENT, d) end.

Definition write_all (d : data) (b : list (CF * Write)) : data :=
  map_imap (fun h m => Some (apply_writes m (snd <$> filter (fun p => p.1 = h) b))) d.

Definition create (d : data) (name : string) : St * data * option CF :=
  let h := (fresh (A := nat) (set_map (C := gset CF) (D := gset nat) fst (dom d)), name) in (None, <[h := ∅]> d, Some h).

(** An iterator: its snapshot and where it stands. *)
Abbreviation Iter := (contents * option Bytes)%type.

#[export] Instance lib : RocksDbLib := {
  Status := St; ok := fun s => bool_decide (s = None);
  IsNotFound := code_is NOT_FOUND; IsIOError := code_is IO_ERROR; IsInvalidArgument := code_is INVALID_ARGUMENT;
  IsCorruption := code_is CORRUPTION; IsNotSupported := code_is NOT_SUPPORTED; IsPathNotFound := fun _ => false;
  DB := data; Handle := CF; Handle_eq_dec := _; GetName := snd;
  Get := fun d h k => match m ← d !! h; m !! k with Some v => (None, v) | None => (Some NOT_FOUND, []) end;
  Put := fun d h k v => on_live d h (fun m => <[k := v]> m);
  Delete := fun d h k => on_live d h (fun m => delete k m);
  Batch := list (CF * Write); batch_new := [];
  BatchPut := fun b h k v => b ++ [(h, WPut k v)]; BatchDelete := fun b h k => b ++ [(h, WRemove k)];
  BatchClear := fun _ => [];
  DBWrite := fun d b => (None, write_all d b);
  DropColumnFamily := fun d h => (None, delete h d);
  DestroyColumnFamilyHandle := fun d h => (None, delete h d);
  CreateColumnFamily := create;
  GetProperty := fun _ _ _ => Some "0"%string;
  Iterator := Iter; NewIterator := fun d h => (default ∅ (d !! h), None);
  SeekToFirst := fun it => (it.1, best_key bytes_lt (fun _ => True) it.1);
  Seek := fun it k => (it.1, best_key bytes_lt (fun k' => ¬ bytes_lt k' k) it.1);
  SeekToLast := fun it => (it.1, best_key (flip bytes_lt) (fun _ => True) it.1);
  Valid := fun it => bool_decide (is_Some it.2);
  Next := fun it => (it.1, k ← it.2; best_key bytes_lt (fun k' => bytes_lt k k') it.1);
  Prev := fun it => (it.1, k ← it.2; best_key (flip bytes_lt) (fun k' => bytes_lt k' k) it.1);
  iter_key := fun it => default [] it.2;
  iter_value := fun it => default [] (k ← it.2; it.1 !! k);
  CompactRange := fun d _ _ _ => d;
  Flush := fun d => (None, d); WaitForCompact := fun d => (None, d); Close := fun d => (None, d)
}.

Definition iter_over (it : Iter) (m : contents) : Prop := it.1 = m /\ forall k, it.2 = Some k -> is_Some (m !! k).

Lemma on_live_col d h m f h' :
  d !! h = Some m ->
  ok (on_live d h f).1 = true /\ (on_live d h f).2 !! h' = if bool_decide (h' = h) then Some (f m) else d !! h'.
Proof.
  intros Hm. unfold on_live. rewrite Hm. split; [done|]. cbn. case_bool_decide; subst.
  - by rewrite lookup_insert_eq.
  - by rewrite lookup_insert_ne.
Qed.

Lemma at_pos (it : Iter) : (if Valid (RocksDbLib := lib) it then Some (iter_key (RocksDbLib := lib) it) else None) = it.2.
Proof. by destruct it as [m [k|]]. Qed.

Lemma seek_over (m : contents) R P `{!RelDecision R, !StrictOrder R, !forall k, Decision (P k)} :
  iter_over (m, best_key R P m) m.
Proof.
  split; [done|]. cbn. intros k Hk. pose proof (best_key_spec R P m) as Hb. rewrite Hk in Hb. apply Hb.
Qed.

Lemma create_fresh (d : data) name :
  d !! (fresh (A := nat) (set_map (C := gset CF) (D := gset nat) fst (dom d)), name) = None.
Proof.
  apply not_elem_of_dom. intros Hin. apply (is_fresh (A := nat) (set_map (C := gset CF) (D := gset nat) fst (dom d))).
  apply elem_of_map. eexists (_, name). split; [|exact Hin]. reflexivity.
Qed.

#[export] Instance lib_ok : RocksDbOk lib.
Proof.
  apply (Build_RocksDbOk lib (fun (d : data) (h : CF) => d !! h) (fun _ => True) (fun b => b) iter_over).
  - intros [s|] Hs; [discriminate Hs|reflexivity].
  - intros d h m k Hm _. cbn in *. rewrite Hm. cbn. by destruct (m !! k).
  - intros d h m k v h' Hm _. destruct (on_live_col d h m (fun m => <[k := v]> m) h' Hm) as [_ Hc]. cbn in *. by rewrite Hc.
  - intros d h k v _ [m Hm]. destruct (on_live_col d h m (fun m => <[k := v]> m) h Hm) as [Hok _]. by split.
  - intros d h m k h' Hm _. destruct (on_live_col d h m (fun m => delete k m) h' Hm) as [_ Hc]. cbn in *. by rewrite Hc.
  - intros d h k _ [m Hm]. destruct (on_live_col d h m (fun m => delete k m) h Hm) as [Hok _]. by split.
  - done.
  - done.
  - done.
  - done.
  - intros d b h' _ _. cbn. unfold write_all. rewrite map_lookup_imap. by destruct (d !! h').
  - done.
  - intros d h h' _ Hne. cbn. by rewrite lookup_delete_ne.
  - intros d h h' _ Hne. cbn. by rewrite lookup_delete_ne.
  - intros d h _. apply lookup_delete_eq.
  - intros d name d' st oh Hcr _. injection Hcr as <- <- <-. eexists. split; [done|]. split; [done|].
    split; [apply create_fresh|]. split; [apply lookup_insert_eq|]. intros h' Hne. by apply lookup_insert_ne.
  - done.
  - done.
  - done.
  - intros d h m Hm _. cbn. rewrite Hm. by split.
  - intros it m [<- _]. apply seek_over; apply _.
  - intros it m k [<- _]. apply seek_over; apply _.
  - intros it m [<- _]. apply seek_over; apply _.
  - intros [m' [k|]] m [<- _]; [apply seek_over; apply _|by split].
  - intros [m' [k|]] m [<- _]; [apply seek_over; apply _|by split].
  - intros [m' [k|]] m [<- Hk] Hv; [|done]. destruct (Hk k eq_refl) as [v Hkv]. cbn in *. by rewrite Hkv.
  - intros it m [<- _]. rewrite at_pos. apply (best_key_spec bytes_lt (fun _ => True)).
  - intros it m k [<- _]. rewrite at_pos. apply (best_key_spec bytes_lt (fun k' => ¬ bytes_lt k' k)).
  - intros it m [<- _]. rewrite at_pos. apply (best_key_spec (flip bytes_lt) (fun _ => True)).
  - intros [m' [k|]] m [<- _] Hv; [|done]. rewrite at_pos. apply (best_key_spec bytes_lt (fun k' => bytes_lt k k')).
  - intros [m' [k|]] m [<- _] Hv; [|done]. rewrite at_pos. apply (best_key_spec (flip bytes_lt) (fun k' => bytes_lt k' k)).
Defined.

(** ** An open database with the default column *)

Definition h0 : CF := (0%nat, "default"%string).
Definition h1 : CF := (1%nat, "other"%string).
Definition m0 : contents := {[ [7] := [1; 2]; [9] := [3] ]}.
Definition db0 : data := {[ h0 := m0; h1 := {[ [5] := [5] ]} ]}.
Definition r0 : Rocks := MkRocks (Some (db0 : DB)) [h0; h1] ∅.
Definition w0 : World := MkWorld (Some r0) (MkSpace 0).

Lemma w0_rep : rep_at h0 w0 m0.
Proof. exists r0, db0. repeat split. Qed.

Definition two_writes : list Write := [WRemove [7]; WPut [8] [4]].

Lemma two_writes_bytes : Forall (fun x => is_bytes (written x)) two_writes.
Proof. repeat constructor; unfold is_byte; lia. Qed.


Lemma rocks_commit_witness :
  exists b w', foldM (fun b x => match x with WPut k v => bput w0 b k v | WRemove k => bremove w0 b k end) (batch w0) two_writes
      = Done b
    /\ commit w0 b = (w', Done tt) /\ tryGet w' [7] = Done None.
Proof.
  apply (rocks_commit (L := lib) h0 w0 m0 two_writes [7]).
  - apply w0_rep.
  - apply two_writes_bytes.
  - repeat constructor; unfold is_byte; lia.
Defined.



(** ** Opening *)

(** A system where everything works; [found]: the path existed. *)
Definition env0 (found : bool) : Env :=
  MkEnv (Some 1024) found None (negb found, None) true (None, []) (fun l => l) (2 ^ 30)
    (fun _ ds _ => let hs := imap (fun i d => (i, d.1)) ds in
      (None, hs, Some (list_to_map ((fun h => (h, ∅)) <$> hs) : data))).

Lemma env0_opens found : opens (env0 found).
Proof.
  intros o ds ttls st hs db Ho _. cbn in Ho. injection Ho as <- <- <-. eexists. split; [done|]. split; [done|]. split.
  - cbn. rewrite fmap_imap. apply list_eq. intros i. rewrite list_lookup_imap, list_lookup_fmap. by destruct (ds !! i).
  - apply Forall_forall. intros h Hh. cbn. apply elem_of_dom. rewrite dom_list_to_map, elem_of_list_to_set.
    rewrite <-list_fmap_compose. apply list_elem_of_fmap. by exists h.
Qed.

Definition r_fresh : Rocks := MkRocks (Some ({[ (0%nat, "default"%string) := ∅ ]} : data)) [(0%nat, "default"%string)] ∅.

Lemma construct_fresh_witness :
  exists r' s m, getSpace r_fresh Default = Done (r', s) /\ rep (MkWorld (Some r') s) m
    /\ getSpace r' Default = Done (r', s).
Proof.
  apply (construct_fresh (env0 false)).
  - reflexivity.
  - intros l. exact (Permutation_refl l).
  - apply env0_opens.
  - vm_cast_no_check (@eq_refl (result (Rocks (L := lib))) (Done r_fresh)).
Defined.

Lemma construct_existing_witness :
  db_ (MkRocks None [] ∅) = None
  /\ getSpace (MkRocks None [] ∅) Default = Raise (error_message INVALID_ARGUMENT).
Proof.
  apply (construct_existing (env0 true)).
  - reflexivity.
  - vm_cast_no_check (@eq_refl (result (Rocks (L := lib))) (Done (MkRocks None [] ∅))).
Defined.

(** The memory given to the only column is the configured cache size. *)
Example configure_default :
  configureColumnFamilies ["default"%string] ∅ [] (2 ^ 30) = Done ([("default"%string, configureColumn (2 ^ 30))], [0]).
Proof. vm_compute. reflexivity. Qed.

Example configure_three :
  configureColumnFamilies ["a"; "b"; "c"]%string {["b"%string := 60]} [] 1000
  = Done ([("a", configureColumn 333); ("b", configureColumn 333); ("c", configureColumn 333)]%string, [0; 60; 0]).
Proof. vm_compute. reflexivity. Qed.

End RocksDbWitness.
