(* ===== verification/FdLimit.v ===== *)
(** * FdLimit: the limit on open files

    [src/src/utils/fd_limit.cpp].  The kernel's answer to [getrlimit] and
    [setrlimit] is a parameter; [setFdLimit] asks for the requested limit, and when
    that is refused finds the largest acceptable one by [std::upper_bound] over
    the candidates, setting each probe as it goes. *)

From S2P Require Import Prelude.

Module FdLimit.

Record rlimit : Type := MkRlimit { rlim_cur : Z; rlim_max : Z }.

Section operations.
(** [getrlimit] succeeds; [setrlimit] accepts a request in a state. *)
Context (get_ok : bool) (accepts : rlimit -> rlimit -> bool).

(** The limits of the process before and after the call. *)
Definition setrlimit (sys r : rlimit) : rlimit * bool :=
  if accepts sys r then (r, true) else (sys, false).

Definition getFdLimit (sys : rlimit) : option Z :=
  if get_ok then Some (rlim_cur sys) else None.

(** [std::upper_bound] over counting iterators from [first], [len] values; the
    comparison sets the limit and is true when that fails. *)
Fixpoint probe (fuel : nat) (sys : rlimit) (max first len : Z) : option rlimit :=
  if 0 <? len then
    match fuel with
    | O => None
    | S fuel =>
        let half := Z.shiftr len 1 in
        let middle := first + half in
        let '(sys, set) := setrlimit sys (MkRlimit middle max) in
        if set : bool then probe fuel sys max (middle + 1) (len - half - 1)
        else probe fuel sys max first half
    end
  else Some sys.

(** Halving a 64-bit range takes at most 64 rounds. *)
Definition setFdLimit (sys : rlimit) (limit : Z) : option rlimit :=
  if get_ok then
    let r := sys in
    let current := rlim_cur r in
    if limit =? current then Some sys
    else
      let r := MkRlimit limit (rlim_max r) in
      if limit <? current then Some (setrlimit sys r).1
      else
        let '(sys, set) := setrlimit sys r in
        if set : bool then Some sys
        else probe 64 sys (rlim_max r) current (limit - current)
  else Some sys.

(** ** What the search finds *)

Context (max : Z) (Hacc : forall cur x, accepts (MkRlimit cur max) (MkRlimit x max) = bool_decide (x <= max)).

(** Invariant: the limit in force is the value before [first], or is below it
    because [first] is the start of the search. *)
Lemma probe_spec fuel cur first len :
  0 <= len < 2 ^ Z.of_nat fuel -> cur <= max -> (cur = first - 1 \/ cur = first /\ (0 < len \/ max < first)) ->
  max < first + len ->
  exists c, probe fuel (MkRlimit cur max) max first len = Some (MkRlimit c max)
    /\ (c = max \/ c = cur /\ max < first).
Proof.
  revert cur first len. induction fuel as [|fuel IH]; intros cur first len Hlen Hcur Hinv Hmax.
  { change (2 ^ Z.of_nat 0) with 1 in Hlen. assert (len = 0) as -> by lia. exists cur. cbn. split; [done|]. lia. }
  cbn [probe]. destruct (Z.ltb_spec 0 len) as [Hpos|Hz]; [|exists cur; split; [done|lia]].
  rewrite Z.shiftr_div_pow2 by lia. change (2 ^ 1) with 2.
  rewrite Nat2Z.inj_succ, Z.pow_succ_r in Hlen by lia.
  assert (0 <= len / 2 < len /\ len - len / 2 - 1 <= len / 2 /\ len / 2 < 2 ^ Z.of_nat fuel) as (Hhalf & Hrest & Hpow).
  { pose proof (Z.div_mod len 2). pose proof (Z.mod_pos_bound len 2). lia. }
  unfold setrlimit. rewrite Hacc. case_bool_decide as Hle.
  - destruct (IH (first + len / 2) (first + len / 2 + 1) (len - len / 2 - 1)) as (c & -> & Hc); [lia..|].
    exists c. split; [done|]. lia.
  - destruct (IH cur first (len / 2)) as (c & -> & Hc); [lia|lia| |lia|by exists c].
    lia.
Qed.

(** Raising or lowering the limit on open files.  When the kernel reports limits
    and accepts exactly the requests up to the hard limit, [setFdLimit] ends with the
    soft limit at the requested value, or at the hard limit if that is smaller: the
    binary search neither stops short nor leaves an earlier probe in force. *)
Theorem setFdLimit_spec cur limit :
  get_ok = true -> 0 <= cur <= max -> 0 <= limit < 2 ^ 63 ->
  setFdLimit (MkRlimit cur max) limit = Some (MkRlimit (Z.min limit max) max).
Proof.
  intros Hok Hcur Hlim. unfold setFdLimit. rewrite Hok. cbn [rlim_cur rlim_max].
  destruct (Z.eqb_spec limit cur) as [->|Hne]; [by rewrite Z.min_l by lia|].
  destruct (Z.ltb_spec limit cur) as [Hlt|Hge]; unfold setrlimit; rewrite Hacc; case_bool_decide as Hle.
  - by rewrite Z.min_l.
  - lia.
  - by rewrite Z.min_l.
  - destruct (probe_spec 64 cur cur (limit - cur)) as (c & -> & Hc); [lia..|].
    do 2 f_equal. lia.
Qed.

End operations.

Lemma setFdLimit_spec_witness :
  setFdLimit true (fun sys r => bool_decide (rlim_cur r <= rlim_max sys)) (MkRlimit 1024 4096) 1000000
  = Some (MkRlimit (Z.min 1000000 4096) 4096).
Proof. apply setFdLimit_spec; [done|done|lia|lia]. Defined.

End FdLimit.
