(* ===== verification/Watchdog.v ===== *)
(** * Watchdog: detection of stuck threads

    [src/src/app/impl/watchdog.hpp].  A thread registers and gets a [Ping], a shared
    32-bit counter; a periodic check aborts the process when a registered thread has
    not increased its counter for longer than the timeout.  The shared counters live
    in a store with their reference counts; time is the steady clock in
    nanoseconds. *)

From S2P Require Import Prelude.

Module Watchdog.

Abbreviation tid := nat (only parsing).
Abbreviation ptr := nat (only parsing).

(** A shared counter: its value and how many [Ping]s hold it. *)
Record Atomic : Type := MkAtomic { count_value : Z; pings : nat }.

(** An entry of [threads_]; a null counter is [None]. *)
Record Thread : Type := MkThread {
  last_time : Z; last_count : Z; count : option ptr; platform_id : Z; name : string
}.

Record Watchdog : Type := MkWatchdog {
  threads_ : list (tid * Thread);
  store : list Atomic;
  stopped_ : bool
}.

(** [std::abort()] for a thread, or the state after the call. *)
Inductive outcome (A : Type) : Type := Ok (a : A) | Abort (t : tid).
Arguments Ok {A} a.
Arguments Abort {A} t.

Fixpoint find_thread (t : tid) (l : list (tid * Thread)) : option Thread :=
  match l with
  | [] => None
  | (t', th) :: l => if decide (t = t') then Some th else find_thread t l
  end.

Fixpoint set_thread (t : tid) (th : Thread) (l : list (tid * Thread)) : list (tid * Thread) :=
  match l with
  | [] => [(t, th)]
  | (t', th') :: l => if decide (t = t') then (t, th) :: l else (t', th') :: set_thread t th l
  end.

Definition default_thread : Thread := MkThread 0 0 None 0 "".

(** [Ping::operator()]. *)
Definition ping (w : Watchdog) (p : ptr) : Watchdog :=
  MkWatchdog (threads_ w) (alter (fun a => MkAtomic (u32 (count_value a + 1)) (pings a)) p (store w)) (stopped_ w).

(** A [Ping] is destroyed. *)
Definition drop (w : Watchdog) (p : ptr) : Watchdog :=
  MkWatchdog (threads_ w) (alter (fun a => MkAtomic (count_value a) (pings a - 1)) p (store w)) (stopped_ w).

(** [add], called in thread [t] at time [now]. *)
Definition add (w : Watchdog) (t : tid) (now platform : Z) (thread_name : string) : Watchdog * ptr :=
  let thread := default default_thread (find_thread t (threads_ w)) in
  match count thread with
  | Some p =>
      (MkWatchdog (set_thread t thread (threads_ w))
        (alter (fun a => MkAtomic (count_value a) (pings a + 1)) p (store w)) (stopped_ w), p)
  | None =>
      let p := length (store w) in
      (MkWatchdog (set_thread t (MkThread now 0 (Some p) platform thread_name) (threads_ w))
        (store w ++ [MkAtomic 0 1]) (stopped_ w), p)
  end.

(** [use_count()]: the entry itself and the [Ping]s. *)
Definition use_count (w : Watchdog) (th : Thread) : nat :=
  match p ← count th; store w !! p with Some a => 1 + pings a | None => 0 end.

(** One entry in the loop of [check]: erased, kept, updated, or the abort. *)
Definition check_thread (w : Watchdog) (timeout now : Z) (e : tid * Thread) : outcome (option (tid * Thread)) :=
  let '(t, th) := e in
  if bool_decide (use_count w th = 1%nat) then Ok None
  else
    match p ← count th; store w !! p with
    | None => Ok (Some (t, th))
    | Some a =>
        let c := count_value a in
        if negb (last_count th =? c) then Ok (Some (t, MkThread now c (count th) (platform_id th) (name th)))
        else
          let lag := now - last_time th in
          if timeout * 1000000000 <? lag then Abort t
          else Ok (Some (t, th))
    end.

Fixpoint check_threads (w : Watchdog) (timeout now : Z) (l : list (tid * Thread)) : outcome (list (tid * Thread)) :=
  match l with
  | [] => Ok []
  | e :: l =>
      match check_thread w timeout now e with
      | Abort t => Abort t
      | Ok o =>
          match check_threads w timeout now l with
          | Abort t => Abort t
          | Ok l => Ok (match o with Some e => e :: l | None => l end)
          end
      end
  end.

(** [check(timeout)]; the timeout is in seconds. *)
Definition check (w : Watchdog) (timeout now : Z) : outcome Watchdog :=
  match check_threads w timeout now (threads_ w) with
  | Abort t => Abort t
  | Ok l => Ok (MkWatchdog l (store w) (stopped_ w))
  end.

Definition stop (w : Watchdog) : Watchdog := MkWatchdog (threads_ w) (store w) true.

(** [run(io)]: for each round, what the loop condition sees of [stopped_] and of
    [io.use_count()]; a round runs a task for at most the granularity and pings. *)
Fixpoint run_rounds (w : Watchdog) (p : ptr) (rounds : list (bool * nat)) : Watchdog :=
  match rounds with
  | (stopped, uses) :: rounds =>
      if negb stopped && negb (bool_decide (uses = 1%nat)) then run_rounds (ping w p) p rounds else w
  | [] => w
  end.

Definition run (w : Watchdog) (t : tid) (now platform : Z) (thread_name : string) (rounds : list (bool * nat)) : Watchdog * ptr :=
  let '(w, p) := add w t now platform thread_name in (run_rounds w p rounds, p).

(** What happens to a watchdog between and at the rounds of [checkLoop]. *)
Inductive event : Type :=
| EPing (p : ptr)
| EDrop (p : ptr)
| EAdd (t : tid) (now platform : Z) (thread_name : string)
| ECheck (now : Z).

Definition step (timeout : Z) (w : Watchdog) (e : event) : outcome Watchdog :=
  match e with
  | EPing p => Ok (ping w p)
  | EDrop p => Ok (drop w p)
  | EAdd t now platform n => Ok (add w t now platform n).1
  | ECheck now => check w timeout now
  end.

Fixpoint steps (timeout : Z) (w : Watchdog) (es : list event) : outcome Watchdog :=
  match es with
  | [] => Ok w
  | e :: es => match step timeout w e with Ok w => steps timeout w es | Abort t => Abort t end
  end.

(** ** Invariant *)

(** Entries are unique per thread and hold a counter; counters are 32-bit numbers. *)
Record wf (w : Watchdog) : Prop := {
  wf_nodup : NoDup (threads_ w).*1;
  wf_counter t th : (t, th) ∈ threads_ w -> exists p, count th = Some p /\ is_Some (store w !! p);
  wf_u32 p a : store w !! p = Some a -> 0 <= count_value a < 2 ^ 32
}.

(** The entry is watched: its counter, and some [Ping] holds it. *)
Definition watched (w : Watchdog) (t : tid) (th : Thread) (a : Atomic) : Prop :=
  (t, th) ∈ threads_ w /\ (exists p, count th = Some p /\ store w !! p = Some a) /\ (0 < pings a)%nat.

(** A watched thread whose counter stands still for longer than the timeout. *)
Definition stuck (w : Watchdog) (timeout now : Z) (t : tid) : Prop :=
  exists th a, watched w t th a /\ count_value a = last_count th /\ timeout * 1000000000 < now - last_time th.

Lemma check_thread_spec w timeout now t th :
  wf w -> (t, th) ∈ threads_ w ->
  exists p a, count th = Some p /\ store w !! p = Some a /\
  check_thread w timeout now (t, th) =
    if decide (pings a = 0%nat) then Ok None
    else if decide (count_value a = last_count th) then
      (if decide (timeout * 1000000000 < now - last_time th) then Abort t else Ok (Some (t, th)))
    else Ok (Some (t, MkThread now (count_value a) (count th) (platform_id th) (name th))).
Proof.
  intros Hwf Hin. destruct (wf_counter _ Hwf t th Hin) as (p & Hp & [a Ha]). exists p, a. split; [done|]. split; [done|].
  unfold check_thread, use_count. rewrite Hp. cbn. rewrite Ha.
  destruct (decide (pings a = 0%nat)) as [->|Hn]; [done|].
  rewrite bool_decide_eq_false_2 by lia.
  destruct (Z.eqb_spec (last_count th) (count_value a)); cbn; [rewrite decide_True by done|by rewrite decide_False by done].
  destruct (Z.ltb_spec (timeout * 1000000000) (now - last_time th)); [by rewrite decide_True|by rewrite decide_False by lia].
Qed.

Lemma check_threads_Abort w timeout now l t :
  check_threads w timeout now l = Abort t -> exists e, e ∈ l /\ check_thread w timeout now e = Abort t.
Proof.
  induction l as [|e l IH]; [done|]. cbn. destruct (check_thread w timeout now e) as [o|t'] eqn:He.
  - destruct (check_threads w timeout now l) as [l'|t'] eqn:Hl; [done|]. intros [= ->].
    destruct (IH eq_refl) as (e' & Hin & He'). exists e'. split; [by right|done].
  - intros [= ->]. exists e. split; [left|done].
Qed.

Lemma check_threads_Ok w timeout now l l' :
  check_threads w timeout now l = Ok l' ->
  (forall e, e ∈ l -> exists o, check_thread w timeout now e = Ok o)
  /\ forall e', e' ∈ l' <-> exists e, e ∈ l /\ check_thread w timeout now e = Ok (Some e').
Proof.
  revert l'. induction l as [|e l IH]; intros l'; cbn.
  { intros [= <-]. split; [by intros ? []%not_elem_of_nil|]. intros e'. split; [by intros []%not_elem_of_nil|].
    by intros (? & []%not_elem_of_nil & _). }
  destruct (check_thread w timeout now e) as [o|t'] eqn:He; [|done].
  destruct (check_threads w timeout now l) as [l1|t'] eqn:Hl; [|done]. intros [= <-].
  destruct (IH l1 eq_refl) as [Hall Hel]. split.
  - intros e1 [->|Hin]%elem_of_cons; [by exists o|by apply Hall].
  - intros e'. assert (e' ∈ match o with Some e => e :: l1 | None => l1 end <-> o = Some e' \/ e' ∈ l1) as ->.
    { destruct o; [rewrite elem_of_cons|]; naive_solver. }
    rewrite Hel. split.
    + intros [->|(e1 & Hin & He1)]; [exists e; split; [left|done]|exists e1; split; [by right|done]].
    + intros (e1 & [->|Hin]%elem_of_cons & He1); [left; congruence|right; by exists e1].
Qed.

Lemma check_aborts w timeout now :
  wf w -> (exists t, check w timeout now = Abort t) <-> exists t, stuck w timeout now t.
Proof.
  intros Hwf. unfold check. split.
  - intros [t Hc]. destruct (check_threads w timeout now (threads_ w)) as [l|t'] eqn:Hl; [done|].
    apply check_threads_Abort in Hl as ([t0 th] & Hin & He). exists t0.
    destruct (check_thread_spec w timeout now t0 th Hwf Hin) as (p & a & Hp & Ha & Heq). rewrite Heq in He.
    destruct (decide (pings a = 0%nat)); [done|]. destruct (decide (count_value a = last_count th)); [|done].
    destruct (decide (timeout * 1000000000 < now - last_time th)); [|done].
    exists th, a. split; [|done]. split; [done|]. split; [by exists p|lia].
  - intros (t & th & a & (Hin & (p & Hp & Ha) & Hping) & Hcount & Hlag).
    destruct (check_threads w timeout now (threads_ w)) as [l|t'] eqn:Hl; [|by exists t'].
    destruct (proj1 (check_threads_Ok _ _ _ _ _ Hl) (t, th) Hin) as [o Ho].
    destruct (check_thread_spec w timeout now t th Hwf Hin) as (p' & a' & Hp' & Ha' & Heq).
    assert (p' = p) as -> by congruence. assert (a' = a) as -> by congruence.
    rewrite Heq, decide_False, decide_True, decide_True in Ho by (done || lia). done.
Qed.

(** ** After a check *)

(** The last seen count is the counter's. *)
Definition synced (w : Watchdog) : Prop := forall t th, (t, th) ∈ threads_ w ->
  exists p a, count th = Some p /\ store w !! p = Some a /\ last_count th = count_value a.

Lemma check_entries w timeout now l l' :
  (forall e o, e ∈ l -> check_thread w timeout now e = Ok (Some o) -> o.1 = e.1) ->
  check_threads w timeout now l = Ok l' -> l'.*1 `sublist_of` l.*1.
Proof.
  revert l'. induction l as [|e l IH]; intros l' Hkeep; cbn.
  { intros [= <-]. constructor. }
  destruct (check_thread w timeout now e) as [o|t'] eqn:He; [|done].
  destruct (check_threads w timeout now l) as [l1|t'] eqn:Hl; [|done]. intros [= <-].
  assert (l1.*1 `sublist_of` l.*1) as Hsub by (apply IH; [|done]; intros e' o' Hin; apply Hkeep; by right).
  destruct o as [e'|]; cbn; [|by constructor]. rewrite (Hkeep e e'); [by constructor|left|done].
Qed.

Lemma check_Ok w timeout now w' :
  wf w -> check w timeout now = Ok w' ->
  wf w' /\ store w' = store w /\ synced w'
  /\ forall t th', (t, th') ∈ threads_ w' -> exists th a, watched w t th a /\ count th' = count th
       /\ (last_time th' = last_time th \/ last_time th' = now).
Proof.
  intros Hwf. unfold check. destruct (check_threads w timeout now (threads_ w)) as [l|t] eqn:Hl; [|done].
  intros [= <-]. pose proof (check_threads_Ok _ _ _ _ _ Hl) as [_ Hel].
  assert (forall t th', (t, th') ∈ l -> exists th p a, (t, th) ∈ threads_ w /\ count th = Some p /\ store w !! p = Some a
    /\ (0 < pings a)%nat /\ count th' = count th /\ last_count th' = count_value a
    /\ (last_time th' = last_time th \/ last_time th' = now)) as Hnew.
  { intros t th' ([t0 th] & Hin & Hc)%Hel.
    destruct (check_thread_spec w timeout now t0 th Hwf Hin) as (p & a & Hp & Ha & Heq). rewrite Heq in Hc.
    destruct (decide (pings a = 0%nat)); [done|].
    destruct (decide (count_value a = last_count th)); [destruct (decide _); [done|]|]; injection Hc as <- <-;
      exists th, p, a; cbn; repeat split; try done; try lia; auto. }
  split; [|split; [done|split]].
  - split; cbn.
    + eapply sublist_NoDup; [apply (wf_nodup _ Hwf)|]. eapply check_entries; [|exact Hl].
      intros [t th] o Hin Ho. destruct (check_thread_spec w timeout now t th Hwf Hin) as (p & a & _ & _ & Heq).
      rewrite Heq in Ho. repeat (destruct (decide _); try done); by injection Ho as <-.
    + intros t th' Hin. destruct (Hnew t th' Hin) as (th & p & a & _ & Hp & Ha & _ & -> & _). exists p. by rewrite Ha.
    + apply (wf_u32 _ Hwf).
  - intros t th' Hin. destruct (Hnew t th' Hin) as (th & p & a & _ & Hp & Ha & _ & -> & Hlc & _). by exists p, a.
  - intros t th' Hin. destruct (Hnew t th' Hin) as (th & p & a & Hin0 & Hp & Ha & Hping & Hc & _ & Ht). exists th, a.
    split; [|done]. split; [done|]. split; [by exists p|done].
Qed.

(** ** Pings *)

Definition ping_or_drop (e : event) : Prop := match e with EPing _ | EDrop _ => True | _ => False end.

Fixpoint pinged (p : ptr) (es : list event) : Z :=
  match es with
  | [] => 0
  | EPing q :: es => (if decide (p = q) then 1 else 0) + pinged p es
  | _ :: es => pinged p es
  end.

Lemma pinged_nonneg p es : 0 <= pinged p es.
Proof. induction es as [|[] es IH]; cbn; try case_decide; lia. Qed.

Lemma pings_effect timeout w es :
  Forall ping_or_drop es -> (forall p a, store w !! p = Some a -> 0 <= count_value a < 2 ^ 32) ->
  exists w', steps timeout w es = Ok w' /\ threads_ w' = threads_ w
    /\ forall p a, store w !! p = Some a -> exists a', store w' !! p = Some a' /\ count_value a' = u32 (count_value a + pinged p es).
Proof.
  intros Hes. revert w. induction Hes as [|e es He Hes IH]; intros w Hu.
  { exists w. split; [done|]. split; [done|]. intros p a Ha. exists a. split; [done|]. cbn.
    rewrite Z.add_0_r, wrap_id; [done|]. by apply (Hu p). }
  destruct e as [q|q|t n pl nm|n]; [..|done|done]; cbn [steps step].
  - destruct (IH (ping w q)) as (w' & Hrun & Hth & Hst).
    { intros p a. cbn. destruct (decide (p = q)) as [->|Hne].
      - rewrite list_lookup_alter_eq. intros (a0 & Ha0 & ->)%fmap_Some. cbn. apply Z.mod_pos_bound. lia.
      - rewrite list_lookup_alter_ne by done. apply Hu. }
    exists w'. split; [done|]. split; [by rewrite Hth|]. intros p a Ha. cbn [pinged].
    destruct (decide (p = q)) as [->|Hne].
    + destruct (Hst q (MkAtomic (u32 (count_value a + 1)) (pings a))) as (a' & Ha' & Hv).
      { cbn. by rewrite list_lookup_alter_eq, Ha. }
      exists a'. split; [done|]. rewrite Hv. cbn. unfold wrap. rewrite Zplus_mod_idemp_l. f_equal. lia.
    + destruct (Hst p a) as (a' & Ha' & Hv); [cbn; by rewrite list_lookup_alter_ne|]. by exists a'.
  - destruct (IH (drop w q)) as (w' & Hrun & Hth & Hst).
    { intros p a. cbn. destruct (decide (p = q)) as [->|Hne].
      - rewrite list_lookup_alter_eq. intros (a0 & Ha0 & ->)%fmap_Some. cbn. by apply (Hu q).
      - rewrite list_lookup_alter_ne by done. apply Hu. }
    exists w'. split; [done|]. split; [by rewrite Hth|]. intros p a Ha. cbn [pinged].
    destruct (decide (p = q)) as [->|Hne].
    + destruct (Hst q (MkAtomic (count_value a) (pings a - 1))) as (a' & Ha' & Hv).
      { cbn. by rewrite list_lookup_alter_eq, Ha. }
      by exists a'.
    + destruct (Hst p a) as (a' & Ha' & Hv); [cbn; by rewrite list_lookup_alter_ne|]. by exists a'.
Qed.

Lemma steps_length timeout w es w' :
  Forall ping_or_drop es -> steps timeout w es = Ok w' -> length (store w') = length (store w).
Proof.
  intros Hes. revert w. induction Hes as [|e es He Hes IH]; intros w; cbn; [by intros [= <-]|].
  destruct e; [..|done|done]; cbn; intros ->%IH; cbn; by rewrite length_alter.
Qed.

(** ** Registration *)

Lemma find_thread_elem t l th : NoDup l.*1 -> find_thread t l = Some th <-> (t, th) ∈ l.
Proof.
  induction l as [|[t0 th0] l IH]; cbn; intros Hnd.
  { split; [done|by intros []%not_elem_of_nil]. }
  apply NoDup_cons in Hnd as [Hn Hnd]. rewrite elem_of_cons. destruct (decide (t = t0)) as [->|Hne].
  - split; [intros [= ->]; by left|]. intros [[= ->]|Hin]; [done|]. destruct Hn. by apply (list_elem_of_fmap_2 fst l (t0, th)).
  - rewrite IH by done. split; [by right|]. intros [[= -> ->]|]; done.
Qed.

Lemma set_thread_elem t th l t0 x :
  NoDup l.*1 -> (t0, x) ∈ set_thread t th l <-> (t0 = t /\ x = th) \/ (t0 ≠ t /\ (t0, x) ∈ l).
Proof.
  induction l as [|[t1 th1] l IH]; cbn; intros Hnd.
  { rewrite list_elem_of_singleton. set_solver. }
  apply NoDup_cons in Hnd as [Hn Hnd].
  assert (forall y, (t1, y) ∈ l -> False) as Hout by (intros y Hy; apply Hn; by apply (list_elem_of_fmap_2 fst l (t1, y))).
  destruct (decide (t = t1)) as [->|Hne]; rewrite !elem_of_cons; [|rewrite IH by done].
  - split.
    + intros [[= -> ->]|Hin]; [by left|]. right. split; [|by right]. intros ->. by apply (Hout x).
    + intros [[-> ->]|[Hne [[= -> ->]|Hin]]]; [by left|done|by right].
  - split.
    + intros [[= -> ->]|[[-> ->]|[Hne' Hin]]]; [right; split; [done|by left]|by left|right; split; [done|by right]].
    + intros [[-> ->]|[Hne' [[= -> ->]|Hin]]]; [by right; left|by left|by right; right].
Qed.

Lemma set_thread_nodup t th l : NoDup l.*1 -> NoDup (set_thread t th l).*1.
Proof.
  induction l as [|[t1 th1] l IH]; cbn; intros Hnd; [apply NoDup_singleton|].
  apply NoDup_cons in Hnd as [Hn Hnd]. destruct (decide (t = t1)) as [->|Hne]; cbn; apply NoDup_cons; [done|].
  split; [|by apply IH]. intros ([t2 x] & -> & Hin)%list_elem_of_fmap. apply set_thread_elem in Hin as [[-> ->]|[_ Hin]]; [done| |done].
  apply Hn. by apply (list_elem_of_fmap_2 fst l (t2, x)).
Qed.

(** The effect of any event on the entry of a thread: [kept] unless the event is a
    ping or a drop of its counter, or a check that aborts. *)
Definition kept (w : Watchdog) (t : tid) (th : Thread) (p : ptr) (c : Z) : Prop :=
  wf w /\ (t, th) ∈ threads_ w /\ count th = Some p /\ exists a, store w !! p = Some a /\ count_value a = c /\ (0 < pings a)%nat.

Definition touches (p : ptr) (e : event) : Prop := match e with EPing q | EDrop q => p = q | _ => False end.

Lemma store_alter_kept (st : list Atomic) q f p a :
  st !! p = Some a -> (p = q -> count_value (f a) = count_value a /\ (pings a <= pings (f a))%nat) ->
  exists a', alter f q st !! p = Some a' /\ count_value a' = count_value a /\ (pings a <= pings a')%nat.
Proof.
  intros Ha Hf. destruct (decide (p = q)) as [->|Hne].
  - exists (f a). rewrite list_lookup_alter_eq, Ha. split; [done|]. by apply Hf.
  - exists a. by rewrite list_lookup_alter_ne by done.
Qed.

Lemma alter_wf w q f :
  wf w -> (forall a, 0 <= count_value a < 2 ^ 32 -> 0 <= count_value (f a) < 2 ^ 32) ->
  wf (MkWatchdog (threads_ w) (alter f q (store w)) (stopped_ w)).
Proof.
  intros [Hnd Hc Hu] Hf. split; cbn; [done|..].
  - intros t th Hin. destruct (Hc t th Hin) as (p & Hp & Ha). exists p. split; [done|].
    rewrite list_lookup_alter. case_decide; subst; [by apply fmap_is_Some|done].
  - intros p a. rewrite list_lookup_alter. case_decide; subst; [|by apply Hu].
    intros (a0 & Ha0 & ->)%fmap_Some. apply Hf. by eapply Hu.
Qed.

Lemma add_wf w t now pl n : wf w -> wf (add w t now pl n).1.
Proof.
  intros Hwf. unfold add. destruct (count (default default_thread (find_thread t (threads_ w)))) as [p|] eqn:Hc; cbn.
  - assert ((t, default default_thread (find_thread t (threads_ w))) ∈ threads_ w) as Hin.
    { destruct (find_thread t (threads_ w)) as [th|] eqn:Hf; [|done]. by apply find_thread_elem; [apply Hwf|]. }
    pose proof (alter_wf w p (fun a => MkAtomic (count_value a) (pings a + 1)) Hwf) as [Hnd Hcn Hu]; [done|].
    split; cbn in *; [by apply set_thread_nodup, Hwf| |done].
    intros t0 x [[-> ->]|[_ Hx]]%set_thread_elem; [|by apply (Hcn t0)|apply Hwf]. by apply (Hcn t).
  - split; cbn; [by apply set_thread_nodup, Hwf|..].
    + intros t0 x [[-> ->]|[_ Hx]]%set_thread_elem; [| |apply Hwf].
      * exists (length (store w)). split; [done|]. by rewrite lookup_app_r, Nat.sub_diag by lia.
      * destruct (wf_counter _ Hwf t0 x Hx) as (p & Hp & [a Ha]). exists p. split; [done|].
        exists a. by apply lookup_app_l_Some.
    + intros p a [Ha|[_ Ha]]%lookup_app_Some; [by apply (wf_u32 _ Hwf p)|].
      destruct (p - length (store w))%nat; [|done]. injection Ha as <-. cbn. lia.
Qed.

Lemma step_kept timeout w e t th p c :
  kept w t th p c -> last_count th = c -> ¬ touches p e ->
  match step timeout w e with Ok w' => kept w' t th p c | Abort _ => True end.
Proof.
  intros (Hwf & Hin & Hp & a & Ha & Hc & Hping) Hlast He. destruct e as [q|q|t0 n pl nm|n]; cbn [step].
  - split; [apply alter_wf; [done|]; intros; cbn; apply Z.mod_pos_bound; lia|]. split; [done|]. split; [done|].
    destruct (store_alter_kept (store w) q (fun a => MkAtomic (u32 (count_value a + 1)) (pings a)) p a Ha) as (a' & ? & ? & ?);
      [by intros ->|]. exists a'. split; [done|]. split; [congruence|lia].
  - split; [by apply alter_wf|]. split; [done|]. split; [done|].
    destruct (store_alter_kept (store w) q (fun a => MkAtomic (count_value a) (pings a - 1)) p a Ha) as (a' & ? & ? & ?);
      [by intros ->|]. exists a'. split; [done|]. split; [congruence|lia].
  - split; [by apply add_wf|]. unfold add. pose proof (wf_nodup _ Hwf) as Hnd.
    destruct (decide (t0 = t)) as [->|Hne].
    + rewrite (proj2 (find_thread_elem t _ th Hnd) Hin). cbn [default from_option id]. rewrite Hp. cbn.
      split; [apply set_thread_elem; [done|by left]|]. split; [done|].
      destruct (store_alter_kept (store w) p (fun a => MkAtomic (count_value a) (pings a + 1)) p a Ha) as (a' & ? & ? & ?);
        [cbn; by split; [|lia]|]. exists a'. split; [done|]. split; [congruence|lia].
    + destruct (count (default default_thread (find_thread t0 (threads_ w)))) as [q|]; cbn;
        (split; [apply set_thread_elem; [done|by right]|]); (split; [done|]).
      * destruct (store_alter_kept (store w) q (fun a => MkAtomic (count_value a) (pings a + 1)) p a Ha) as (a' & ? & ? & ?);
          [cbn; by split; [|lia]|]. exists a'. split; [done|]. split; [congruence|lia].
      * exists a. split; [by apply lookup_app_l_Some|done].
  - destruct (check w timeout n) as [w'|t'] eqn:Hcheck; [|done].
    destruct (check_Ok w timeout n w' Hwf Hcheck) as (Hwf' & Hst & _). split; [done|]. split; [|split; [done|exists a; by rewrite Hst]].
    unfold check in Hcheck. destruct (check_threads w timeout n (threads_ w)) as [l|] eqn:Hl; [|done]. injection Hcheck as <-.
    pose proof (check_threads_Ok _ _ _ _ _ Hl) as [Hall Hel]. cbn. apply Hel. exists (t, th). split; [done|].
    destruct (Hall _ Hin) as [o Ho]. destruct (check_thread_spec w timeout n t th Hwf Hin) as (p' & a' & Hp' & Ha' & Heq).
    assert (p' = p) as -> by congruence. assert (a' = a) as -> by congruence.
    rewrite Heq in Ho |- *. rewrite decide_False, decide_True in Ho |- * by (lia || congruence). by destruct (decide _).
Qed.

Lemma steps_kept timeout w es t th p c :
  kept w t th p c -> last_count th = c -> Forall (fun e => ¬ touches p e) es ->
  match steps timeout w es with Ok w' => kept w' t th p c | Abort _ => True end.
Proof.
  intros Hk Hl Hes. revert w Hk. induction Hes as [|e es He Hes IH]; intros w Hk; [done|]. cbn.
  pose proof (step_kept timeout w e t th p c Hk Hl He) as Hstep. destruct (step timeout w e); [by apply IH|done].
Qed.

Lemma watch_steps_app timeout w es es' :
  steps timeout w (es ++ es') = match steps timeout w es with Ok w' => steps timeout w' es' | Abort t => Abort t end.
Proof. revert w. induction es as [|e es IH]; intros w; [done|]. cbn. by destruct (step timeout w e). Qed.

(** When the watchdog aborts.  A check aborts the process exactly when some
    registered thread is stuck: it still holds its [Ping], its counter is the one
    seen before, and it was last seen moving longer ago than the timeout. *)
Theorem check_aborts_iff w timeout now :
  wf w -> (exists t, check w timeout now = Abort t) <-> exists t, stuck w timeout now t.
Proof. apply check_aborts. Qed.

(** C25: A stuck thread is detected.  If a thread is registered after a check at time
    [t1] and does not ping any more (nor gives up its [Ping]), then, whatever other
    threads and checks do meanwhile, the process has been aborted by the time a check
    at any [t2] more than the timeout after [t1] is done. *)
Theorem silent_thread_detected w timeout t1 w1 t th p es t2 :
  wf w -> (forall t th, (t, th) ∈ threads_ w -> last_time th <= t1) ->
  check w timeout t1 = Ok w1 -> (t, th) ∈ threads_ w1 -> count th = Some p ->
  Forall (fun e => ¬ touches p e) es -> timeout * 1000000000 < t2 - t1 ->
  exists t', steps timeout w1 (es ++ [ECheck t2]) = Abort t'.
Proof.
  intros Hwf Htime Hc Hin Hp Hes Hlag. destruct (check_Ok w timeout t1 w1 Hwf Hc) as (Hwf1 & Hst & Hsync & Hfrom).
  destruct (Hsync t th Hin) as (p' & a & Hp' & Ha & Hlast). assert (p' = p) as -> by congruence.
  destruct (Hfrom t th Hin) as (th0 & a0 & (Hin0 & (q & Hq & Ha0) & Hping) & Hcount & Ht).
  assert (a0 = a) as -> by congruence. pose proof (Htime t th0 Hin0).
  assert (kept w1 t th p (last_count th)) as Hk.
  { split; [done|]. split; [done|]. split; [done|]. by exists a. }
  pose proof (steps_kept timeout w1 es t th p _ Hk eq_refl Hes) as Hk2. rewrite watch_steps_app.
  destruct (steps timeout w1 es) as [w2|t'] eqn:Hrun; [|by exists t']. cbn.
  destruct Hk2 as (Hwf2 & Hin2 & _ & a2 & Ha2 & Hc2 & Hping2).
  destruct (proj2 (check_aborts w2 timeout t2 Hwf2)) as [t' Hab]; [|exists t'; by rewrite Hab].
  exists t, th, a2. split; [|split; [done|lia]]. split; [done|]. split; [by exists p|done].
Qed.

(** A pinging thread is never taken for a stuck one.  If after a check every
    registered thread pings at least once, and fewer than 2^32 times, before the
    next check (threads may also end), that check does not abort, whenever it
    happens. *)
Theorem pinging_threads_pass w timeout t1 w1 es t2 :
  wf w -> check w timeout t1 = Ok w1 -> Forall ping_or_drop es ->
  (forall t th p, (t, th) ∈ threads_ w1 -> count th = Some p -> 0 < pinged p es < 2 ^ 32) ->
  exists w2, steps timeout w1 (es ++ [ECheck t2]) = Ok w2.
Proof.
  intros Hwf Hc Hes Hpinged. destruct (check_Ok w timeout t1 w1 Hwf Hc) as (Hwf1 & _ & Hsync & _).
  destruct (pings_effect timeout w1 es Hes (wf_u32 _ Hwf1)) as (w' & Hrun & Hth & Hst). rewrite watch_steps_app, Hrun. cbn.
  assert (wf w') as Hwf'.
  { split; [rewrite Hth; apply Hwf1|..].
    - intros t th. rewrite Hth. intros Hin. destruct (wf_counter _ Hwf1 t th Hin) as (p & Hp & [a Ha]).
      exists p. split; [done|]. destruct (Hst p a Ha) as (a' & ? & _). by exists a'.
    - intros p a Ha. destruct (store w1 !! p) as [a1|] eqn:Ha1.
      + destruct (Hst p a1 Ha1) as (a' & Ha' & Hv). assert (a' = a) as -> by congruence. rewrite Hv.
        apply Z.mod_pos_bound. lia.
      + apply lookup_ge_None in Ha1. apply lookup_lt_Some in Ha. exfalso. revert Ha Ha1. rewrite (steps_length timeout w1 es w'); [lia|done|done]. }
  destruct (check w' timeout t2) as [w2|t'] eqn:Hcheck; [by exists w2|].
  destruct (proj1 (check_aborts w' timeout t2 Hwf')) as (t & th & a' & (Hin & (p & Hp & Ha') & _) & Hcount & _); [by exists t'|].
  exfalso. rewrite Hth in Hin. destruct (Hsync t th Hin) as (p' & a & Hp' & Ha & Hlast). assert (p' = p) as -> by congruence.
  destruct (Hst p a Ha) as (a'' & Ha'' & Hv). assert (a'' = a') as -> by congruence.
  pose proof (Hpinged t th p Hin Hp) as Hn. pose proof (wf_u32 _ Hwf1 p a Ha) as Hu.
  rewrite Hcount, Hlast in Hv. unfold wrap in Hv.
  pose proof (Z.div_mod (count_value a + pinged p es) (2 ^ 32)) as Hdm. rewrite <-Hv in Hdm.
  assert ((count_value a + pinged p es) / 2 ^ 32 = 0 \/ (count_value a + pinged p es) / 2 ^ 32 = 1) by (
    pose proof (Z.div_pos (count_value a + pinged p es) (2 ^ 32));
    pose proof (Z.div_lt_upper_bound (count_value a + pinged p es) (2 ^ 32) 2); lia).
  lia.
Qed.

(** ** Witnesses: two registered threads, one holding two pings *)

Module Samples.

Definition w0 : Watchdog := MkWatchdog
  [(1%nat, MkThread 100 4 (Some 0%nat) 11 "a"); (2%nat, MkThread 200 9 (Some 1%nat) 12 "b")]
  [MkAtomic 5 1; MkAtomic 9 2] false.

Definition w1 : Watchdog := MkWatchdog
  [(1%nat, MkThread 1000 5 (Some 0%nat) 11 "a"); (2%nat, MkThread 200 9 (Some 1%nat) 12 "b")]
  [MkAtomic 5 1; MkAtomic 9 2] false.

Lemma w0_wf : wf w0.
Proof.
  split; cbn.
  - apply NoDup_cons. split; [by intros ?%list_elem_of_singleton|apply NoDup_singleton].
  - intros t th [[= -> ->]|[= -> ->]%list_elem_of_singleton]%elem_of_cons; cbn; eexists; split; done.
  - intros [|[|p]] a; cbn; [intros [= <-]; cbn; lia|intros [= <-]; cbn; lia|done].
Qed.

Lemma check_aborts_iff_witness :
  (exists t, check w0 1 2000000000 = Abort t) <-> exists t, stuck w0 1 2000000000 t.
Proof. apply check_aborts_iff. apply w0_wf. Defined.

Lemma silent_thread_detected_witness :
  exists t', steps 1 w1 ([EPing 0; EAdd 3 5000 13 "c"; ECheck 6000] ++ [ECheck 1000002000]) = Abort t'.
Proof.
  apply (silent_thread_detected w0 1 1000 w1 2 (MkThread 200 9 (Some 1%nat) 12 "b") 1).
  - apply w0_wf.
  - intros t th [[= -> ->]|[= -> ->]%list_elem_of_singleton]%elem_of_cons; cbn; lia.
  - reflexivity.
  - right. left.
  - reflexivity.
  - repeat constructor; cbn; auto.
  - lia.
Defined.

Lemma pinging_threads_pass_witness :
  exists w2, steps 1 w1 ([EPing 0; EPing 1; EDrop 1; EPing 1] ++ [ECheck 900000000000]) = Ok w2.
Proof.
  apply (pinging_threads_pass w0 1 1000 w1).
  - apply w0_wf.
  - reflexivity.
  - repeat constructor.
  - intros t th p [[= -> ->]|[= -> ->]%list_elem_of_singleton]%elem_of_cons [= <-]; split; vm_compute; reflexivity.
Defined.

End Samples.
End Watchdog.
