(* ===== verification/Scheduler.v ===== *)
(** * Scheduler: the task queue of a worker thread

    [src/src/se/impl/scheduler_impl.hpp] and the event of [common.hpp].  Every
    member function that takes the lock is one operation on the state; the worker's
    loop [process] alternates between extracting a due task and waiting.  Other
    threads' calls interleave with the worker at lock granularity, so the behaviour
    of a scheduler is a sequence of operations.  Points of time are nanoseconds,
    timeouts microseconds. *)

From S2P Require Import Prelude.

Module Scheduler.

(** The identity of a task; a null function is [None]. *)
Record TimedTask : Type := MkTask {
  created : Z;
  timeout : Z;
  predic : option nat;
  task : option nat
}.

Definition due (t : TimedTask) : Z := created t + 1000 * timeout t.

Record Scheduler : Type := MkScheduler {
  proceed_ : bool;
  tasks_ : list TimedTask;
  signaled : bool;       (** the event is set *)
  is_busy_ : bool
}.

(** [std::upper_bound] over a random-access range: the first of [len] positions from
    [first] where [comp] holds, by halving. *)
Fixpoint upper_bound {A} (fuel : nat) (comp : A -> bool) (l : list A) (first len : nat) : nat :=
  match fuel with
  | O => first
  | S fuel =>
      if (0 <? len)%nat then
        let half := Nat.div2 len in
        let middle := (first + half)%nat in
        match l !! middle with
        | Some x => if comp x then upper_bound fuel comp l first half
                    else upper_bound fuel comp l (middle + 1) (len - half - 1)
        | None => first
        end
      else first
  end.

(** The constructor. *)
Definition construct : Scheduler := MkScheduler true [] false false.

(** The position behind every task due at [tp] or before. *)
Definition after (s : Scheduler) (tp : Z) : nat :=
  upper_bound (length (tasks_ s)) (fun r => tp <? due r) (tasks_ s) 0 (length (tasks_ s)).

Definition insert (s : Scheduler) (pos : nat) (t : TimedTask) : Scheduler :=
  MkScheduler (proceed_ s) (take pos (tasks_ s) ++ t :: drop pos (tasks_ s)) (signaled s) (is_busy_ s).

Definition extractExpired (s : Scheduler) (before : Z) : Scheduler * option TimedTask :=
  match tasks_ s with
  | first_task :: rest =>
      if due first_task <=? before then (MkScheduler (proceed_ s) rest (signaled s) true, Some first_task)
      else (MkScheduler (proceed_ s) (tasks_ s) (signaled s) false, None)
  | [] => (MkScheduler (proceed_ s) [] (signaled s) false, None)
  end.

(** Microseconds until the first task is due; ten minutes without tasks. *)
Definition untilFirst (s : Scheduler) (before : Z) : Z :=
  match tasks_ s with
  | first :: _ => if before <? due first then Z.quot (due first - before) 1000 else 0
  | [] => 10 * 60 * 1000000
  end.

Definition set_event (s : Scheduler) : Scheduler := MkScheduler (proceed_ s) (tasks_ s) true (is_busy_ s).

Definition add (s : Scheduler) (t : TimedTask) : Scheduler :=
  let s := if timeout t =? 0 then MkScheduler (proceed_ s) (tasks_ s) (signaled s) true else s in
  set_event (insert s (after s (due t)) t).

Definition dispose (s : Scheduler) : Scheduler := set_event (MkScheduler false (tasks_ s) (signaled s) (is_busy_ s)).

Definition isBusy (s : Scheduler) : bool := is_busy_ s.

(** The task comes back when it is refused. *)
Definition uploadIfFree (s : Scheduler) (now timeout : Z) (t : option nat) : Scheduler * option (option nat) :=
  if is_busy_ s then (s, Some t) else (add s (MkTask now timeout None t), None).

Definition addDelayed (s : Scheduler) (now timeout : Z) (t : option nat) : Scheduler :=
  add s (MkTask now timeout None t).

Definition repeat (s : Scheduler) (now timeout : Z) (t : option nat) (pred : option nat) : Scheduler :=
  add s (MkTask now timeout pred t).

(** What the user's functions do in one round: the predicate's answer (or that it
    throws), whether the task throws. *)
Record Behaviour : Type := MkBehaviour { pred_result : option bool; task_throws : bool }.

(** One round of [process] after extraction: the task to execute, if any, and the
    task to put back once it has been executed. *)
Definition execute (t : TimedTask) (b : Behaviour) : option nat * bool :=
  match task t with
  | None => (None, false)
  | Some f =>
      match predic t with
      | None => (Some f, false)
      | Some _ =>
          match pred_result b with
          | Some true => (Some f, negb (task_throws b))
          | _ => (None, false)
          end
      end
  end.

(** The operations of a scheduler: calls of other threads, and the worker's. *)
Inductive Op : Type :=
| OAdd (now timeout : Z) (t pred : option nat)      (** [addDelayed] and [repeat] *)
| OUpload (now timeout : Z) (t : option nat)
| OExtract (now : Z) (b : Behaviour)                (** the worker takes a task and runs it *)
| OAgain (now : Z)                                  (** the worker puts a repeated task back *)
| ODispose.

(** The scheduler, the worker's local task waiting to be put back, and the tasks
    executed so far with the time they were taken, in order. *)
Record World : Type := MkWorld { sch : Scheduler; again : option TimedTask; log : list (TimedTask * Z) }.

Definition step (w : World) (o : Op) : World :=
  match o with
  | OAdd now timeout t pred => MkWorld (repeat (sch w) now timeout t pred) (again w) (log w)
  | OUpload now timeout t => MkWorld (uploadIfFree (sch w) now timeout t).1 (again w) (log w)
  | OExtract now b =>
      match again w with
      | Some _ => w
      | None =>
          let '(s, taken) := extractExpired (sch w) now in
          match taken with
          | Some t =>
              let '(run, back) := execute t b in
              MkWorld s (if back : bool then Some t else None) (log w ++ match run with Some _ => [(t, now)] | None => [] end)
          | None => MkWorld s None (log w)
          end
      end
  | OAgain now =>
      match again w with
      | Some t => MkWorld (add (sch w) (MkTask now (timeout t) (predic t) (task t))) None (log w)
      | None => w
      end
  | ODispose => MkWorld (dispose (sch w)) (again w) (log w)
  end.

Definition steps (w : World) (os : list Op) : World := foldl step w os.

Definition initial : World := MkWorld construct None [].

#[global] Arguments add : simpl never.

(** ** [upper_bound] on a partitioned range *)

Lemma upper_bound_spec {A} (comp : A -> bool) (l1 l2 : list A) fuel first len :
  Forall (fun x => comp x = false) l1 -> Forall (fun x => comp x = true) l2 ->
  (first <= length l1 <= first + len)%nat -> (first + len <= length (l1 ++ l2))%nat -> (len <= fuel)%nat ->
  upper_bound fuel comp (l1 ++ l2) first len = length l1.
Proof.
  intros H1 H2. revert first len. induction fuel as [|fuel IH]; intros first len Hb Hlen Hfuel; cbn [upper_bound]; [lia|].
  destruct (Nat.ltb_spec 0 len) as [Hpos|Hz]; [|lia].
  assert (Nat.div2 len < len)%nat as Hhalf by (apply Nat.lt_div2; lia).
  revert Hhalf. generalize (Nat.div2 len) as half. intros half Hhalf.
  destruct (lookup_lt_is_Some_2 (l1 ++ l2) (first + half)) as [x Hx]; [lia|]. rewrite Hx.
  destruct (decide (first + half < length l1)%nat) as [Hlt|Hge].
  - rewrite lookup_app_l in Hx by done. rewrite Forall_lookup in H1. rewrite (H1 _ _ Hx). cbn match. apply IH; lia.
  - rewrite lookup_app_r in Hx by lia. rewrite Forall_lookup in H2. rewrite (H2 _ _ Hx). cbn match. apply IH; lia.
Qed.

(** ** The queue is sorted, first come first served among equals *)

Abbreviation sorted := (StronglySorted (fun a b => due a <= due b)).

Lemma after_split s tp l1 l2 :
  tasks_ s = l1 ++ l2 -> Forall (fun x => due x <= tp) l1 -> Forall (fun x => tp < due x) l2 -> after s tp = length l1.
Proof.
  intros Heq H1 H2. unfold after. rewrite Heq. apply upper_bound_spec; rewrite ?length_app; try lia.
  - eapply Forall_impl; [exact H1|]. cbn. intros x ?. apply Z.ltb_ge. lia.
  - eapply Forall_impl; [exact H2|]. cbn. intros x ?. apply Z.ltb_lt. lia.
Qed.

(** Where a new task goes: behind all tasks due no later. *)
Lemma add_split s t :
  sorted (tasks_ s) ->
  exists l1 l2, tasks_ s = l1 ++ l2 /\ Forall (fun x => due x <= due t) l1 /\ Forall (fun x => due t < due x) l2
    /\ tasks_ (add s t) = l1 ++ t :: l2.
Proof.
  intros Hs. assert (exists l1 l2, tasks_ s = l1 ++ l2 /\ Forall (fun x => due x <= due t) l1
    /\ Forall (fun x => due t < due x) l2) as (l1 & l2 & Heq & H1 & H2).
  { induction Hs as [|x l Hl IH Hall]; [by exists [], []|]. destruct (decide (due x <= due t)) as [Hle|Hgt].
    - destruct IH as (l1 & l2 & -> & H1 & H2). exists (x :: l1), l2. split; [done|]. split; [by constructor|done].
    - exists [], (x :: l). split; [done|]. split; [done|]. constructor; [lia|].
      eapply Forall_impl; [exact Hall|]. cbn. intros y. lia. }
  exists l1, l2. split; [done|]. split; [done|]. split; [done|]. unfold add, set_event, insert.
  destruct (timeout t =? 0); cbn [tasks_]; rewrite (after_split _ _ l1 l2) by done; cbn [tasks_];
    by rewrite Heq, take_app_length, drop_app_length.
Qed.

Lemma add_sorted s t : sorted (tasks_ s) -> sorted (tasks_ (add s t)).
Proof.
  intros Hs. destruct (add_split s t Hs) as (l1 & l2 & Heq & H1 & H2 & ->). rewrite Heq in Hs.
  apply StronglySorted_app in Hs as (Hx & Hs1 & Hs2). apply StronglySorted_app. split; [|split; [done|]].
  - intros x y Hin [->|Hy]%elem_of_cons; [|by apply Hx]. rewrite Forall_forall in H1. by apply H1.
  - constructor; [done|]. eapply Forall_impl; [exact H2|]. cbn. lia.
Qed.

Lemma add_stable s t d :
  sorted (tasks_ s) ->
  filter (fun x => due x = d) (tasks_ (add s t)) = filter (fun x => due x = d) (tasks_ s) ++ filter (fun x => due x = d) [t].
Proof.
  intros Hs. destruct (add_split s t Hs) as (l1 & l2 & Heq & H1 & H2 & ->). rewrite Heq, !filter_app, filter_cons.
  rewrite <-app_assoc. f_equal. destruct (decide (due t = d)) as [Hd|Hd].
  - rewrite (filter_cons_True _ t []), filter_nil by done. rewrite (filter_none _ l2); [done|].
    eapply Forall_impl; [exact H2|]. cbn. lia.
  - by rewrite (filter_cons_False _ t []), filter_nil, app_nil_r by done.
Qed.

Lemma add_permutation s t : sorted (tasks_ s) -> tasks_ (add s t) ≡ₚ tasks_ s ++ [t].
Proof.
  intros Hs. destruct (add_split s t Hs) as (l1 & l2 & Heq & _ & _ & ->). rewrite Heq, <-app_assoc. f_equiv.
  apply Permutation_cons_append.
Qed.

Lemma extract_sorted s now : sorted (tasks_ s) -> sorted (tasks_ (extractExpired s now).1).
Proof.
  unfold extractExpired. destruct (tasks_ s) as [|t l] eqn:Hl; [done|].
  destruct (due t <=? now); cbn; [by intros [? _]%StronglySorted_inv|done].
Qed.

(** What is executed was due. *)
Definition on_time (p : TimedTask * Z) : Prop := due p.1 <= p.2.

Lemma step_sorted w o :
  sorted (tasks_ (sch w)) -> Forall on_time (log w) ->
  sorted (tasks_ (sch (step w o))) /\ Forall on_time (log (step w o)).
Proof.
  intros Hs Hl. destruct o as [now tm t pred|now tm t|now b|now|]; cbn.
  - split; [by apply add_sorted|done].
  - unfold uploadIfFree. destruct (is_busy_ (sch w)); cbn; split; try done. by apply add_sorted.
  - destruct (again w); [done|]. pose proof (extract_sorted (sch w) now Hs) as Hs'. unfold extractExpired in *.
    destruct (tasks_ (sch w)) as [|t l] eqn:Hq; [done|].
    destruct (Z.leb_spec (due t) now) as [Hle|Hgt]; [|done]. destruct (execute t b) as [run back]. cbn in *.
    split; [done|]. apply Forall_app. split; [done|]. destruct run; repeat constructor. exact Hle.
  - destruct (again w); [|done]. split; [by apply add_sorted|done].
  - done.
Qed.

Lemma steps_sorted w os :
  sorted (tasks_ (sch w)) -> Forall on_time (log w) ->
  sorted (tasks_ (sch (steps w os))) /\ Forall on_time (log (steps w os)).
Proof.
  revert w. induction os as [|o os IH]; intros w Hs Hl; [done|]. cbn.
  destruct (step_sorted w o Hs Hl). by apply IH.
Qed.

Lemma steps_app w os os' : steps w (os ++ os') = steps (steps w os) os'.
Proof. apply foldl_app. Qed.

(** ** Draining *)

(** A task without predicate, whatever it does. *)
Definition plain (t : TimedTask) : Prop := predic t = None /\ is_Some (task t).

Lemma drain_spec (bs : list Behaviour) w now l1 l2 :
  again w = None -> tasks_ (sch w) = l1 ++ l2 -> length bs = length l1 ->
  Forall (fun t => due t <= now /\ plain t) l1 ->
  let w' := steps w (OExtract now <$> bs) in
  tasks_ (sch w') = l2 /\ again w' = None /\ log w' = log w ++ ((fun t => (t, now)) <$> l1).
Proof.
  revert w l1. induction bs as [|b bs IH]; intros w l1 Hag Hq Hlen Hall.
  { destruct l1; [|done]. cbn. by rewrite app_nil_r. }
  destruct l1 as [|t l1]; [done|]. apply Forall_cons in Hall as [[Hdue [Hpred [f Hf]]] Hall]. cbn [fmap list_fmap steps foldl].
  cbn [step]. rewrite Hag. unfold extractExpired. rewrite Hq. cbn [app]. rewrite (proj2 (Z.leb_le _ _) Hdue).
  unfold execute. rewrite Hf, Hpred.
  destruct (IH (MkWorld (MkScheduler (proceed_ (sch w)) (l1 ++ l2) (signaled (sch w)) true) None (log w ++ [(t, now)])) l1)
    as (H1 & H2 & H3); [done|done|by injection Hlen|done|]. cbn zeta in *. cbn in H3.
  rewrite <-app_assoc in H3. done.
Qed.

Lemma adds_spec w (ts : list (Z * Z * nat)) :
  sorted (tasks_ (sch w)) -> again w = None ->
  let new := (fun p => MkTask p.1.1 p.1.2 None (Some p.2)) <$> ts in
  let w' := steps w ((fun p => OAdd p.1.1 p.1.2 (Some p.2) None) <$> ts) in
  sorted (tasks_ (sch w')) /\ again w' = None /\ log w' = log w /\ tasks_ (sch w') ≡ₚ tasks_ (sch w) ++ new
  /\ (forall d, filter (fun x => due x = d) (tasks_ (sch w'))
        = filter (fun x => due x = d) (tasks_ (sch w)) ++ filter (fun x => due x = d) new).
Proof.
  revert w. induction ts as [|[[now tm] f] ts IH]; intros w Hs Hag; cbn zeta.
  { cbn. rewrite app_nil_r. repeat split; try done. intros d. by rewrite app_nil_r. }
  rewrite !fmap_cons. cbn [steps foldl].
  destruct (IH (step w (OAdd now tm (Some f) None))) as (H1 & H2 & H3 & H4 & H5); [by apply add_sorted|done|].
  cbn zeta in *. split; [exact H1|]. split; [exact H2|]. split; [exact H3|]. split.
  - rewrite H4. cbn. unfold repeat. rewrite add_permutation by done. by rewrite <-app_assoc.
  - intros d. rewrite H5. cbn [step sch]. unfold repeat. rewrite add_stable by done. rewrite <-app_assoc. f_equal.
    by rewrite <-filter_app.
Qed.

(** Under every interleaving of calls and rounds of the worker, no task is taken
    before its time: every executed task was due when it was taken, and the queue
    stays sorted by due time. *)
Theorem never_early os :
  let w := steps initial os in
  StronglySorted (fun a b => due a <= due b) (tasks_ (sch w)) /\ Forall (fun p => due p.1 <= p.2) (log w).
Proof. apply steps_sorted; [constructor|constructor]. Qed.

(** C17: Order of execution.  Tasks added to a new scheduler and then taken once they
    are all due are executed exactly once each, in the order of their due times, and
    in the order in which they were added among tasks due at the same time; the
    queue is empty afterwards. *)
Theorem executes_in_order (ts : list (Z * Z * nat)) (bs : list Behaviour) now :
  length bs = length ts -> Forall (fun p => p.1.1 + 1000 * p.1.2 <= now) ts ->
  let new := (fun p => MkTask p.1.1 p.1.2 None (Some p.2)) <$> ts in
  let w := steps initial (((fun p => OAdd p.1.1 p.1.2 (Some p.2) None) <$> ts) ++ (OExtract now <$> bs)) in
  tasks_ (sch w) = [] /\ (log w).*1 ≡ₚ new
  /\ StronglySorted (fun a b => due a <= due b) (log w).*1
  /\ forall d, filter (fun x => due x = d) (log w).*1 = filter (fun x => due x = d) new.
Proof.
  intros Hlen Hdue new. cbn zeta. rewrite steps_app.
  destruct (adds_spec initial ts) as (Hs & Hag & Hlog & Hperm & Hstable); [constructor|done|].
  fold new in Hperm, Hstable. cbn zeta in *. set (w1 := steps initial _) in *. cbn [initial sch construct tasks_ app] in *.
  destruct (drain_spec bs w1 now (tasks_ (sch w1)) []) as (H1 & _ & H3).
  - done.
  - by rewrite app_nil_r.
  - rewrite Hlen, Hperm. unfold new. by rewrite length_fmap.
  - rewrite Hperm. unfold new. apply Forall_fmap. eapply Forall_impl; [exact Hdue|]. intros [[c tm] f] Hd. cbn in *.
    split; [exact Hd|]. split; [done|by exists f].
  - cbn zeta in *. rewrite Hlog in H3. cbn in H3.
    assert ((log (steps w1 (OExtract now <$> bs))).*1 = tasks_ (sch w1)) as Heq.
    { rewrite H3, <-list_fmap_compose. apply list_fmap_id. }
    rewrite Heq. split; [exact H1|]. split; [exact Hperm|]. split; [exact Hs|exact Hstable].
Qed.

(** The worker's choice between working and waiting.  On a sorted queue it takes
    a task exactly when some task is due, and the task it takes is due first; when it
    waits, it waits until the first due time, to the microsecond below, or ten
    minutes when there is no task. *)
Theorem worker_round s now :
  StronglySorted (fun a b => due a <= due b) (tasks_ s) ->
  match (extractExpired s now).2 with
  | Some t => t ∈ tasks_ s /\ due t <= now /\ Forall (fun x => due t <= due x) (tasks_ s)
  | None => Forall (fun x => now < due x) (tasks_ s)
      /\ match tasks_ s with
         | first :: _ => 1000 * untilFirst s now <= due first - now < 1000 * (untilFirst s now + 1)
         | [] => untilFirst s now = 600000000
         end
  end.
Proof.
  unfold extractExpired, untilFirst. intros Hs. destruct (tasks_ s) as [|t l] eqn:Hl; [done|].
  apply StronglySorted_inv in Hs as [_ Hall]. destruct (Z.leb_spec (due t) now) as [Hle|Hgt]; cbn.
  - split; [left|]. split; [done|]. constructor; [lia|done].
  - rewrite (proj2 (Z.ltb_lt _ _) Hgt). split.
    + constructor; [done|]. eapply Forall_impl; [exact Hall|]. cbn. lia.
    + rewrite Z.quot_div_nonneg by lia. pose proof (Z.div_mod (due t - now) 1000). pose proof (Z.mod_pos_bound (due t - now) 1000). lia.
Qed.

(** ** Witnesses *)

Lemma executes_in_order_witness :
  let ts := [(0, 5, 1%nat); (0, 2, 2%nat); (3000, 2, 3%nat)] in
  let new := (fun p => MkTask p.1.1 p.1.2 None (Some p.2)) <$> ts in
  let w := steps initial (((fun p => OAdd p.1.1 p.1.2 (Some p.2) None) <$> ts)
             ++ (OExtract 9000 <$> replicate 3 (MkBehaviour None true))) in
  tasks_ (sch w) = [] /\ (log w).*1 ≡ₚ new
  /\ StronglySorted (fun a b => due a <= due b) (log w).*1
  /\ forall d, filter (fun x => due x = d) (log w).*1 = filter (fun x => due x = d) new.
Proof.
  apply (executes_in_order [(0, 5, 1%nat); (0, 2, 2%nat); (3000, 2, 3%nat)] (replicate 3 (MkBehaviour None true)) 9000).
  - reflexivity.
  - repeat constructor; cbn; lia.
Defined.

Lemma worker_round_witness :
  Forall (fun x => 10 < due x) [MkTask 0 3 None (Some 1%nat)]
  /\ 1000 * 2 <= due (MkTask 0 3 None (Some 1%nat)) - 10 < 1000 * (2 + 1).
Proof.
  apply (worker_round (MkScheduler true [MkTask 0 3 None (Some 1%nat)] false false) 10).
  repeat constructor.
Defined.

End Scheduler.
