(* ===== verification/Subscription.v ===== *)
(** * Subscription: the event engine

    [src/src/se/impl/subscription_engine.hpp], [subscriber_impl.hpp] and
    [subscription_manager.hpp].  The engine keeps, per event key, a [std::list] of
    weak references to subscribers; a subscriber keeps iterators into those lists.
    An iterator is the identity of a list node, and erasing an iterator that is not
    in the list is undefined; a weak pointer is the identity of a subscriber, expired
    when the subscriber is no longer in the store.  The locks of the classes make
    each operation atomic; [Locks] has the locks themselves. *)

From S2P Require Import Prelude Murmur.

Module Subscription.

Abbreviation result := (run unit).
Abbreviation key := Z (only parsing).
Abbreviation set_id := Z (only parsing).
Abbreviation sub_ptr := nat (only parsing).
Abbreviation iterator := nat (only parsing).

(** A node of a list: the tuple (thread id, set id, weak pointer). *)
Record Node : Type := MkNode { node : iterator; n_tid : Z; n_set : set_id; n_sub : sub_ptr }.

Record Engine : Type := MkEngine {
  subscribers_map_ : gmap key (list Node);
  dispatcher_ : bool     (** not reset *)
}.

Record SubscriberImpl : Type := MkSub {
  next_id_ : Z;
  subscriptions_sets_ : gmap set_id (gmap key iterator);
  on_notify_callback_ : bool  (** a callback is set *)
}.

(** The engine (gone when [None]), the live subscribers, and the next identities. *)
Record World : Type := MkWorld {
  engine : option Engine;
  subs : gmap sub_ptr SubscriberImpl;
  fresh_node : iterator;
  fresh_sub : sub_ptr
}.

Definition expired (w : World) (s : sub_ptr) : bool := bool_decide (subs w !! s = None).

(** ** The engine *)

(** [subscribe]: the node goes to the end of the key's list. *)
Definition engine_subscribe (e : Engine) (it : iterator) (tid : Z) (id : set_id) (k : key) (ptr : sub_ptr) : Engine :=
  let l := default [] (subscribers_map_ e !! k) in
  MkEngine (<[k := l ++ [MkNode it tid id ptr]]> (subscribers_map_ e)) (dispatcher_ e).

(** [list.erase(it)]. *)
Fixpoint erase (it : iterator) (l : list Node) : result (list Node) :=
  match l with
  | [] => Undef
  | n :: l => if decide (node n = it) then mret l else l' ← erase it l; mret (n :: l')
  end.

Definition engine_unsubscribe (e : Engine) (k : key) (it : iterator) : result Engine :=
  match subscribers_map_ e !! k with
  | None => mret e
  | Some l =>
      l ← erase it l;
      mret (MkEngine (match l with [] => delete k (subscribers_map_ e) | _ => <[k := l]> (subscribers_map_ e) end)
                     (dispatcher_ e))
  end.

Definition size (e : Engine) (k : key) : nat := length (default [] (subscribers_map_ e !! k)).

(** A task handed to the dispatcher by a notification. *)
Record Dispatched : Type := MkDispatched { d_tid : Z; d_timeout : Z; d_sub : sub_ptr; d_set : set_id; d_key : key; d_args : Z }.

(** [notifyDelayed]: the tasks dispatched, and the engine without the expired nodes. *)
Definition notifyDelayed (w : World) (timeout : Z) (k : key) (args : Z) : World * list Dispatched :=
  match engine w with
  | None => (w, [])
  | Some e =>
      if negb (dispatcher_ e) then (w, [])
      else
        match subscribers_map_ e !! k with
        | None => (w, [])
        | Some l =>
            let live := filter (fun n => expired w (n_sub n) = false) l in
            (MkWorld (Some (MkEngine (<[k := live]> (subscribers_map_ e)) (dispatcher_ e))) (subs w) (fresh_node w) (fresh_sub w),
             (fun n => MkDispatched (n_tid n) timeout (n_sub n) (n_set n) k args) <$> live)
        end
  end.

Definition notify (w : World) (k : key) (args : Z) : World * list Dispatched := notifyDelayed w 0 k args.

(** What the task does when it is executed: the call of the subscriber's callback. *)
Definition on_notify (w : World) (d : Dispatched) : option (sub_ptr * set_id * key * Z) :=
  match subs w !! d_sub d with
  | Some s => if on_notify_callback_ s then Some (d_sub d, d_set d, d_key d, d_args d) else None
  | None => None
  end.

Definition engine_dispose (e : Engine) : Engine := MkEngine (subscribers_map_ e) false.

(** ** The subscriber *)

Definition with_sub (w : World) (s : sub_ptr) (x : SubscriberImpl) : World :=
  MkWorld (engine w) (<[s := x]> (subs w)) (fresh_node w) (fresh_sub w).

Definition with_engine (w : World) (e : Engine) : World := MkWorld (Some e) (subs w) (fresh_node w) (fresh_sub w).

Definition create (w : World) : World * sub_ptr :=
  (MkWorld (engine w) (<[fresh_sub w := MkSub 0 ∅ false]> (subs w)) (fresh_node w) (fresh_sub w + 1), fresh_sub w).

Definition setCallback (w : World) (s : sub_ptr) : World :=
  match subs w !! s with
  | Some x => with_sub w s (MkSub (next_id_ x) (subscriptions_sets_ x) true)
  | None => w
  end.

Definition generateSubscriptionSetId (w : World) (s : sub_ptr) : World * set_id :=
  match subs w !! s with
  | Some x => let id := u32 (next_id_ x + 1) in (with_sub w s (MkSub id (subscriptions_sets_ x) (on_notify_callback_ x)), id)
  | None => (w, 0)
  end.

(** The members below are called on a live subscriber. *)
Definition subscribe (w : World) (s : sub_ptr) (id : set_id) (k : key) (tid : Z) : World :=
  match engine w, subs w !! s with
  | Some e, Some x =>
      let set := default ∅ (subscriptions_sets_ x !! id) in
      match set !! k with
      | Some _ => with_sub w s (MkSub (next_id_ x) (<[id := set]> (subscriptions_sets_ x)) (on_notify_callback_ x))
      | None =>
          let it := fresh_node w in
          MkWorld (Some (engine_subscribe e it tid id k s))
            (<[s := MkSub (next_id_ x) (<[id := <[k := it]> set]> (subscriptions_sets_ x)) (on_notify_callback_ x)]> (subs w))
            (it + 1) (fresh_sub w)
      end
  | _, _ => w
  end.

Definition drop_from_engine (w : World) (k : key) (it : iterator) : result World :=
  match engine w with
  | Some e => e ← engine_unsubscribe e k it; mret (with_engine w e)
  | None => mret w
  end.

Definition unsubscribe_key (w : World) (s : sub_ptr) (id : set_id) (k : key) : result (World * bool) :=
  match subs w !! s with
  | None => mret (w, false)
  | Some x =>
      match subscriptions_sets_ x !! id with
      | None => mret (w, false)
      | Some set =>
          match set !! k with
          | None => mret (w, false)
          | Some it =>
              w ← drop_from_engine w k it;
              mret (with_sub w s (MkSub (next_id_ x) (<[id := delete k set]> (subscriptions_sets_ x)) (on_notify_callback_ x)), true)
          end
      end
  end.

(** The loop over one set. *)
Definition drop_set (w : World) (set : gmap key iterator) : result World :=
  foldM (fun w p => drop_from_engine w p.1 p.2) w (map_to_list set).

Definition unsubscribe_set (w : World) (s : sub_ptr) (id : set_id) : result (World * bool) :=
  match subs w !! s with
  | None => mret (w, false)
  | Some x =>
      match subscriptions_sets_ x !! id with
      | None => mret (w, false)
      | Some set =>
          w ← drop_set w set;
          mret (with_sub w s (MkSub (next_id_ x) (delete id (subscriptions_sets_ x)) (on_notify_callback_ x)), true)
      end
  end.

Definition unsubscribe (w : World) (s : sub_ptr) : result World :=
  match subs w !! s with
  | None => mret w
  | Some x =>
      w ← foldM (fun w p => drop_set w p.2) w (map_to_list (subscriptions_sets_ x));
      mret (with_sub w s (MkSub (next_id_ x) ∅ (on_notify_callback_ x)))
  end.

(** The last owner lets a subscriber, or the engine, go. *)
Definition release (w : World) (s : sub_ptr) : World := MkWorld (engine w) (delete s (subs w)) (fresh_node w) (fresh_sub w).
Definition release_engine (w : World) : World := MkWorld None (subs w) (fresh_node w) (fresh_sub w).

(** ** Sequences of operations *)

Inductive Op : Type :=
| OCreate | OSetCallback (s : sub_ptr) | OGenerate (s : sub_ptr)
| OSubscribe (s : sub_ptr) (id : set_id) (k : key) (tid : Z)
| OUnsubscribeKey (s : sub_ptr) (id : set_id) (k : key)
| OUnsubscribeSet (s : sub_ptr) (id : set_id)
| OUnsubscribe (s : sub_ptr)
| ORelease (s : sub_ptr) | OReleaseEngine | ODisposeEngine
| ONotify (timeout : Z) (k : key) (args : Z).

Definition step (w : World) (o : Op) : result World :=
  match o with
  | OCreate => mret (create w).1
  | OSetCallback s => mret (setCallback w s)
  | OGenerate s => mret (generateSubscriptionSetId w s).1
  | OSubscribe s id k tid => mret (subscribe w s id k tid)
  | OUnsubscribeKey s id k => p ← unsubscribe_key w s id k; mret p.1
  | OUnsubscribeSet s id => p ← unsubscribe_set w s id; mret p.1
  | OUnsubscribe s => unsubscribe w s
  | ORelease s => mret (release w s)
  | OReleaseEngine => mret (release_engine w)
  | ODisposeEngine => mret (match engine w with Some e => with_engine w (engine_dispose e) | None => w end)
  | ONotify timeout k args => mret (notifyDelayed w timeout k args).1
  end.

Definition steps (w : World) (os : list Op) : result World := foldM step w os.

Definition initial : World := MkWorld (Some (MkEngine ∅ true)) ∅ 0 0.

(** ** The manager: one engine per list of event data types *)

Section manager.
(** The text the compiler gives for the function that hashes a list of types. *)
Context (FUNCTION_NAME : list string -> list Z).

(** The type an engine was created with: its event key and its event data. *)
Record EngineType : Type := MkEngineType { EventKey : string; Args : list string }.

Record Manager : Type := MkManager {
  engines_ : gmap Z nat;              (** hash to engine *)
  created_engines : list (EngineType * bool);  (** the engines, with "not disposed" *)
  m_dispatcher : bool;
  disposed_ : bool
}.

Definition getSubscriptionHash (args : list string) : Z := Murmur.CT_MURMUR2 (FUNCTION_NAME args).

Definition getEngine (m : Manager) (t : EngineType) : Manager * nat :=
  let engineId := getSubscriptionHash (Args t) in
  match engines_ m !! engineId with
  | Some p => (m, p)
  | None =>
      let p := length (created_engines m) in
      (MkManager (<[engineId := p]> (engines_ m)) (created_engines m ++ [(t, true)]) (m_dispatcher m) (disposed_ m), p)
  end.

Definition manager_dispose (m : Manager) : Manager :=
  if disposed_ m then m
  else MkManager (engines_ m)
    (imap (fun i e => if bool_decide (i ∈ (map_to_list (engines_ m)).*2) then (e.1, false) else e) (created_engines m))
    false true.

Definition manager_notify (m : Manager) (t : EngineType) : option nat := engines_ m !! getSubscriptionHash (Args t).

End manager.
End Subscription.
