(* ===== verification/SubscriptionSpec.v ===== *)
(** * SubscriptionSpec: the event engine is memory-safe and exact

    The iterators kept by live subscribers always point into the engine's lists, so
    no operation erases a dangling iterator; a notification reaches each current
    subscription to its key exactly once, in the order of subscription, and no
    other. *)

From S2P Require Import Prelude Murmur Subscription.

Module SubscriptionSpec.
Import Subscription.

Definition nodes (w : World) (k : Z) : list Node :=
  match engine w with Some e => default [] (subscribers_map_ e !! k) | None => [] end.

(** Subscriber [s] holds the iterator [it] for key [k] in its set [id]. *)
Definition registered (w : World) (s : nat) (id k : Z) (it : nat) : Prop :=
  exists x set, subs w !! s = Some x /\ subscriptions_sets_ x !! id = Some set /\ set !! k = Some it.

Record wf (w : World) : Prop := {
  wf_sorted k : StronglySorted (fun n n' => node n < node n')%nat (nodes w k);
  wf_unique k k' n n' : n ∈ nodes w k -> n' ∈ nodes w k' -> node n = node n' -> k = k' /\ n = n';
  wf_fresh k n : n ∈ nodes w k -> (node n < fresh_node w)%nat /\ (n_sub n < fresh_sub w)%nat;
  wf_subs s : is_Some (subs w !! s) -> (s < fresh_sub w)%nat;
  wf_iterators s id k it : is_Some (engine w) -> registered w s id k it ->
    exists n, n ∈ nodes w k /\ node n = it /\ n_sub n = s /\ n_set n = id;
  wf_listed k n : n ∈ nodes w k -> is_Some (subs w !! n_sub n) -> registered w (n_sub n) (n_set n) k (node n)
}.

Lemma registered_fun w s id k it it' : registered w s id k it -> registered w s id k it' -> it = it'.
Proof. intros (x & set & ? & ? & ?) (x' & set' & ? & ? & ?). congruence. Qed.

(** ** Erasing nodes *)

Lemma erase_spec it l n :
  StronglySorted (fun n n' => node n < node n')%nat l -> n ∈ l -> node n = it ->
  erase it l = Done (filter (fun n => node n ≠ it) l).
Proof.
  intros Hs. revert n. induction Hs as [|m l Hl IH Hall]; intros n; [by intros []%not_elem_of_nil|].
  intros Hin Hn. cbn [erase]. destruct (decide (node m = it)) as [Hm|Hm].
  - rewrite filter_cons_False by tauto. rewrite filter_all; [done|]. eapply Forall_impl; [exact Hall|]. cbn. lia.
  - rewrite filter_cons_True by done. apply elem_of_cons in Hin as [->|Hin]; [done|]. by rewrite (IH n Hin Hn).
Qed.

(** The world after the nodes [ps] have left the engine. *)
Record without (w w' : World) (ps : list (Z * nat)) : Prop := {
  without_nodes k : nodes w' k = filter (fun n => (k, node n) ∉ ps) (nodes w k);
  without_subs : subs w' = subs w;
  without_fresh : fresh_node w' = fresh_node w /\ fresh_sub w' = fresh_sub w;
  without_engine : is_Some (engine w') <-> is_Some (engine w)
}.

Lemma without_nil w : without w w [].
Proof. split; [|done..]. intros k. rewrite filter_all; [done|]. apply Forall_true. intros n. by apply not_elem_of_nil. Qed.

Lemma drop_spec w k it n :
  (forall k, StronglySorted (fun n n' => node n < node n')%nat (nodes w k)) ->
  (is_Some (engine w) -> n ∈ nodes w k /\ node n = it) ->
  exists w', drop_from_engine w k it = Done w' /\ without w w' [(k, it)].
Proof.
  intros Hs Hn. unfold drop_from_engine. destruct (engine w) as [e|] eqn:He.
  - destruct Hn as [Hin Hit]; [done|]. unfold engine_unsubscribe.
    assert (exists l, subscribers_map_ e !! k = Some l /\ nodes w k = l) as (l & Hl & Hnl).
    { unfold nodes in *. rewrite He in *. destruct (subscribers_map_ e !! k); [by eexists|by apply not_elem_of_nil in Hin]. }
    rewrite Hl. rewrite Hnl in Hin. pose proof (Hs k) as Hsk. rewrite Hnl in Hsk.
    rewrite (erase_spec it l n Hsk Hin Hit). cbn. eexists. split; [done|]. split; cbn; [|done|done|by rewrite He].
    intros k'. assert (filter (fun n => (k', node n) ∉ [(k, it)]) (nodes w k')
      = if decide (k' = k) then filter (fun n => node n ≠ it) l else nodes w k') as ->.
    { destruct (decide (k' = k)) as [->|Hne].
      - rewrite Hnl. apply list_filter_iff. intros m. rewrite list_elem_of_singleton. split; [intros H1 H2; by apply H1; rewrite H2|].
        intros H1 [= H2]. done.
      - apply filter_all, Forall_true. intros m. rewrite list_elem_of_singleton. congruence. }
    unfold nodes. cbn. rewrite He. destruct (decide (k' = k)) as [->|Hne].
    + destruct (filter _ l) as [|m l']; [by rewrite lookup_delete_eq|by rewrite lookup_insert_eq].
    + destruct (filter _ l) as [|m l']; [by rewrite lookup_delete_ne|by rewrite lookup_insert_ne].
  - exists w. split; [done|]. split; [|done|done|done]. intros k'. unfold nodes. by rewrite He.
Qed.

(** Several nodes, as the loops of the subscriber take them. *)
Lemma drops_spec w ps :
  (forall k, StronglySorted (fun n n' => node n < node n')%nat (nodes w k)) -> NoDup ps ->
  (is_Some (engine w) -> forall k it, (k, it) ∈ ps -> exists n, n ∈ nodes w k /\ node n = it) ->
  exists w', foldM (fun w p => drop_from_engine w p.1 p.2) w ps = Done w' /\ without w w' ps.
Proof.
  intros Hs Hnd. revert w Hs. induction Hnd as [|[k it] ps Hnin Hnd IH]; intros w Hs Hps.
  { exists w. split; [done|apply without_nil]. }
  assert (exists n, is_Some (engine w) -> n ∈ nodes w k /\ node n = it) as [n Hn].
  { destruct (engine w) as [e|] eqn:He.
    - destruct (Hps ltac:(done) k it) as (n & ? & ?); [left|]. by exists n.
    - exists (MkNode 0 0 0 0). by intros [? ?]. }
  destruct (drop_spec w k it n Hs Hn) as (w1 & Hd & [Hn1 Hs1 Hf1 He1]). cbn [foldM fst snd]. rewrite Hd.
  destruct (IH w1) as (w' & Hrun & [Hn2 Hs2 Hf2 He2]).
  { intros k'. rewrite Hn1. by apply sorted_filter. }
  { intros Hsome k' it' Hin. destruct (Hps ltac:(by apply He1) k' it') as (n' & Hn' & Hit'); [by right|].
    exists n'. split; [|done]. rewrite Hn1. apply list_elem_of_filter. split; [|done].
    rewrite list_elem_of_singleton, Hit'. intros [= -> ->]. done. }
  exists w'. split; [done|]. split.
  - intros k'. rewrite Hn2, Hn1, list_filter_filter. apply list_filter_iff. intros m. set_solver.
  - congruence.
  - split; etrans; [apply Hf2|apply Hf1|apply Hf2|apply Hf1].
  - by rewrite He2, He1.
Qed.

(** ** Preservation *)

Lemma wf_no_engine w : engine w = None -> (forall s, is_Some (subs w !! s) -> (s < fresh_sub w)%nat) -> wf w.
Proof.
  intros He Hs. assert (forall k, nodes w k = []) as Hn by (intros k; unfold nodes; by rewrite He).
  split.
  - intros k. rewrite Hn. constructor.
  - intros k k' n n'. rewrite Hn. by intros []%not_elem_of_nil.
  - intros k n. rewrite Hn. by intros []%not_elem_of_nil.
  - done.
  - intros s id k it. rewrite He. by intros [? ?].
  - intros k n. rewrite Hn. by intros []%not_elem_of_nil.
Qed.

Lemma same_iterator w s id s' id' k it :
  wf w -> is_Some (engine w) -> registered w s id k it -> registered w s' id' k it -> s = s' /\ id = id'.
Proof.
  intros Hwf He H1 H2. destruct (wf_iterators w Hwf _ _ _ _ He H1) as (n & Hn & <- & <- & <-).
  destruct (wf_iterators w Hwf _ _ _ _ He H2) as (n' & Hn' & Heq & <- & <-).
  by destruct (wf_unique w Hwf k k n n' Hn Hn' (eq_sym Heq)) as [_ ->].
Qed.

(** Removing registrations together with their nodes. *)
Lemma wf_remove w w1 w2 ps :
  wf w -> is_Some (engine w) -> without w w1 ps ->
  engine w2 = engine w1 -> fresh_node w2 = fresh_node w1 -> fresh_sub w2 = fresh_sub w1 ->
  (forall s, is_Some (subs w2 !! s) <-> is_Some (subs w !! s)) ->
  (forall s id k it, registered w2 s id k it <-> registered w s id k it /\ (k, it) ∉ ps) ->
  wf w2.
Proof.
  intros Hwf He [Hn Hs1 [Hf1 Hf2] He1] Heq Hfn Hfs Hdom Hreg.
  assert (forall k, nodes w2 k = filter (fun n => (k, node n) ∉ ps) (nodes w k)) as Hn2.
  { intros k. rewrite <-Hn. unfold nodes. by rewrite Heq. }
  assert (forall k n, n ∈ nodes w2 k -> n ∈ nodes w k /\ (k, node n) ∉ ps) as Hsub.
  { intros k n. rewrite Hn2, list_elem_of_filter. tauto. }
  split.
  - intros k. rewrite Hn2. apply sorted_filter, Hwf.
  - intros k k' n n' [H1 _]%Hsub [H2 _]%Hsub. by apply (wf_unique w Hwf).
  - intros k n [H1 _]%Hsub. rewrite Hfn, Hfs, Hf1, Hf2. by apply (wf_fresh w Hwf k).
  - intros s. rewrite Hdom, Hfs, Hf2. apply (wf_subs w Hwf).
  - intros s id k it _ [Hr Hnin]%Hreg. destruct (wf_iterators w Hwf s id k it He Hr) as (n & Hin & <- & ? & ?).
    exists n. split; [|done]. rewrite Hn2. by apply list_elem_of_filter.
  - intros k n [Hin Hnin]%Hsub Hsome%Hdom. apply Hreg. split; [by apply (wf_listed w Hwf)|done].
Qed.

Lemma registered_insert w e fn fs s x x' s' id k it :
  subs w !! s = Some x ->
  registered (MkWorld e (<[s := x']> (subs w)) fn fs) s' id k it <->
    if decide (s' = s) then exists set, subscriptions_sets_ x' !! id = Some set /\ set !! k = Some it
    else registered w s' id k it.
Proof.
  intros Hx. unfold registered. cbn. destruct (decide (s' = s)) as [->|Hne].
  - rewrite lookup_insert_eq. split; [intros (y & set & [= <-] & ? & ?); by exists set|]. intros (set & ? & ?). by exists x', set.
  - by rewrite lookup_insert_ne by done.
Qed.

(** The subscriber's sets after a removal. *)
Lemma registered_with_sub w1 w s x x' s' id k it :
  subs w1 = subs w -> subs w !! s = Some x ->
  registered (with_sub w1 s x') s' id k it <->
    if decide (s' = s) then exists set, subscriptions_sets_ x' !! id = Some set /\ set !! k = Some it
    else registered w s' id k it.
Proof. intros Hs Hx. unfold with_sub. rewrite Hs. by apply (registered_insert w _ _ _ s x). Qed.

Lemma with_sub_dom w s x x' s' : subs w !! s = Some x -> is_Some (subs (with_sub w s x') !! s') <-> is_Some (subs w !! s').
Proof.
  intros Hx. cbn. destruct (decide (s' = s)) as [->|Hne]; [by rewrite lookup_insert_eq, Hx|by rewrite lookup_insert_ne].
Qed.

Lemma foldM_flat {A B} (f : World -> B -> result World) (g : A -> list B) w (l : list A) :
  foldM (fun w a => foldM f w (g a)) w l = foldM f w (l ≫= g).
Proof.
  revert w. induction l as [|a l IH]; intros w; [done|]. cbn. rewrite foldM_app.
  destruct (foldM f w (g a)); cbn; [apply IH|done..].
Qed.

(** Without an engine the loops do nothing. *)
Lemma drops_no_engine w ps : engine w = None -> foldM (fun w p => drop_from_engine w p.1 p.2) w ps = Done w.
Proof.
  intros He. induction ps as [|p ps IH]; [done|]. cbn [foldM].
  assert (drop_from_engine w p.1 p.2 = Done w) as -> by (unfold drop_from_engine; by rewrite He). apply IH.
Qed.

(** A subscriber replaces its sets by [sets'] after its iterators [ps] have left the
    engine; [ps] are the registrations of [s] that [sets'] no longer has. *)
Lemma remove_spec w s x sets' ps :
  wf w -> subs w !! s = Some x -> (is_Some (engine w) -> NoDup ps) ->
  (is_Some (engine w) -> forall k it, (k, it) ∈ ps -> exists id, registered w s id k it) ->
  (is_Some (engine w) -> forall id k it,
    (exists set, sets' !! id = Some set /\ set !! k = Some it) <-> registered w s id k it /\ (k, it) ∉ ps) ->
  exists w1, foldM (fun w p => drop_from_engine w p.1 p.2) w ps = Done w1
    /\ wf (with_sub w1 s (MkSub (next_id_ x) sets' (on_notify_callback_ x))).
Proof.
  intros Hwf Hx Hnd Hps Hsets. destruct (engine w) as [e|] eqn:He.
  - assert (is_Some (engine w)) as Hsome by (by rewrite He).
    destruct (drops_spec w ps (wf_sorted w Hwf)) as (w1 & Hrun & Hw1); [by apply Hnd| |].
    { intros _ k it Hin. destruct (Hps ltac:(done) k it Hin) as [id Hr].
      destruct (wf_iterators w Hwf s id k it Hsome Hr) as (n & ? & ? & _). by exists n. }
    exists w1. split; [done|]. pose proof (without_subs _ _ _ Hw1) as Hs1.
    apply (wf_remove w w1 _ ps); try done.
    + intros s'. rewrite with_sub_dom with (x := x); rewrite Hs1; done.
    + intros s' id k it. rewrite (registered_with_sub w1 w s x) by done. destruct (decide (s' = s)) as [->|Hne].
      * apply (Hsets ltac:(done)).
      * split; [|by intros [? _]]. intros Hr. split; [done|]. intros Hin. destruct (Hps ltac:(done) k it Hin) as [id' Hr'].
        by destruct (same_iterator w s' id s id' k it Hwf Hsome Hr Hr').
  - exists w. split; [by apply drops_no_engine|]. apply wf_no_engine; [done|]. intros s' Hs'.
    apply (wf_subs w Hwf). by apply (with_sub_dom w s x) in Hs'.
Qed.

Lemma unsubscribe_key_spec w s id k :
  wf w -> exists w', unsubscribe_key w s id k = Done (w', bool_decide (is_Some (x ← subs w !! s; set ← subscriptions_sets_ x !! id; set !! k)))
    /\ wf w' /\ (forall it, ¬ registered w' s id k it) /\ (is_Some (engine w') <-> is_Some (engine w)).
Proof.
  intros Hwf. unfold unsubscribe_key. destruct (subs w !! s) as [x|] eqn:Hx.
  2: { exists w. split; [done|]. split; [done|]. split; [|done]. intros it (? & ? & ? & _). congruence. }
  cbn. destruct (subscriptions_sets_ x !! id) as [set|] eqn:Hset.
  2: { exists w. split; [done|]. split; [done|]. split; [|done]. intros it (? & ? & ? & ? & _). congruence. }
  cbn. destruct (set !! k) as [it|] eqn:Hit.
  2: { exists w. split; [done|]. split; [done|]. split; [|done]. intros it (? & ? & ? & ? & ?). congruence. }
  assert (registered w s id k it) as Hr by (by exists x, set).
  destruct (remove_spec w s x (<[id := delete k set]> (subscriptions_sets_ x)) [(k, it)] Hwf Hx) as (w1 & Hrun & Hwf').
  - intros _. apply NoDup_singleton.
  - intros _ k' it' [= -> ->]%list_elem_of_singleton. by exists id.
  - intros He id' k' it'. rewrite list_elem_of_singleton. destruct (decide (id' = id)) as [->|Hne].
    + rewrite lookup_insert_eq. split.
      * intros (set' & [= <-] & [Hk Hl]%lookup_delete_Some). split; [by exists x, set|congruence].
      * intros [(x' & set' & Hx' & Hs' & Hl) Hnin]. assert (set' = set) as -> by congruence.
        exists (delete k set). split; [done|]. apply lookup_delete_Some. split; [|done]. intros ->. congruence.
    + rewrite lookup_insert_ne by done. split.
      * intros (set' & Hs' & Hl). assert (registered w s id' k' it') as Hr' by (by exists x, set'). split; [done|].
        intros [= -> ->]. by destruct (same_iterator w s id s id' k it Hwf He Hr Hr').
      * intros [(x' & set' & Hx' & Hs' & Hl) _]. exists set'. split; [congruence|done].
  - cbn in Hrun. destruct (drop_from_engine w k it) as [w2|?|?|] eqn:Hd; [|done..]. injection Hrun as ->.
    eexists. split; [done|]. split; [done|]. split.
    + intros it' (x' & set' & Hx' & Hs' & Hl). cbn in Hx'. rewrite lookup_insert_eq in Hx'. injection Hx' as <-.
      cbn in Hs'. rewrite lookup_insert_eq in Hs'. injection Hs' as <-. by rewrite lookup_delete_eq in Hl.
    + cbn. unfold drop_from_engine in Hd. destruct (engine w) as [e|] eqn:He.
      * destruct (engine_unsubscribe e k it); [|done..]. injection Hd as <-. done.
      * injection Hd as <-. by rewrite He.
Qed.

Lemma unsubscribe_set_spec w s id :
  wf w -> exists w', unsubscribe_set w s id = Done (w', bool_decide (is_Some (x ← subs w !! s; subscriptions_sets_ x !! id))) /\ wf w'.
Proof.
  intros Hwf. unfold unsubscribe_set. destruct (subs w !! s) as [x|] eqn:Hx; [|by exists w]. cbn.
  destruct (subscriptions_sets_ x !! id) as [set|] eqn:Hset; [|by exists w].
  destruct (remove_spec w s x (delete id (subscriptions_sets_ x)) (map_to_list set) Hwf Hx) as (w1 & Hrun & Hwf').
  - intros _. apply NoDup_map_to_list.
  - intros _ k it Hin%elem_of_map_to_list. by exists id, x, set.
  - intros He id' k it. rewrite elem_of_map_to_list. destruct (decide (id' = id)) as [->|Hne].
    + rewrite lookup_delete_eq. split; [by intros (? & ? & _)|]. intros [(x' & set' & ? & ? & ?) Hn]. congruence.
    + rewrite lookup_delete_ne by done. split.
      * intros (set' & Hs' & Hl). assert (registered w s id' k it) as Hr by (by exists x, set'). split; [done|].
        intros Hl'. destruct (same_iterator w s id s id' k it Hwf He); [by exists x, set|done|done].
      * intros [(x' & set' & ? & ? & ?) _]. exists set'. split; [congruence|done].
  - unfold drop_set. rewrite Hrun. cbn. eexists. by split.
Qed.

Lemma unsubscribe_spec w s : wf w -> exists w', unsubscribe w s = Done w' /\ wf w'.
Proof.
  intros Hwf. unfold unsubscribe. destruct (subs w !! s) as [x|] eqn:Hx; [|by exists w].
  set (ps := map_to_list (subscriptions_sets_ x) ≫= fun p => map_to_list p.2).
  assert (forall k it, (k, it) ∈ ps <-> exists id, registered w s id k it) as Hps.
  { intros k it. unfold ps. rewrite list_elem_of_bind. split.
    - intros ([id set] & Hkit%elem_of_map_to_list & Hin%elem_of_map_to_list). by exists id, x, set.
    - intros (id & x' & set & Hx' & Hset & Hit). assert (x' = x) as -> by congruence.
      exists (id, set). split; by apply elem_of_map_to_list. }
  destruct (remove_spec w s x ∅ ps Hwf Hx) as (w1 & Hrun & Hwf').
  - intros He. apply NoDup_bind; [|intros p _; apply NoDup_map_to_list|apply NoDup_map_to_list].
    intros [id set] [id' set'] [k it] Hin1%elem_of_map_to_list Hin2%elem_of_map_to_list
      H1%elem_of_map_to_list H2%elem_of_map_to_list.
    destruct (same_iterator w s id s id' k it Hwf He) as [_ ->]; [by exists x, set|by exists x, set'|]. congruence.
  - intros _ k it Hin. by apply Hps.
  - intros _ id k it. rewrite lookup_empty. split; [by intros (? & ? & _)|]. intros [Hr Hn]. destruct Hn. apply Hps. by exists id.
  - unfold drop_set. rewrite foldM_flat. fold ps. rewrite Hrun. cbn. eexists. by split.
Qed.

(** A change of a subscriber that keeps its registrations. *)
Lemma wf_with_sub w s x x' :
  wf w -> subs w !! s = Some x ->
  (forall id k it, (exists set, subscriptions_sets_ x' !! id = Some set /\ set !! k = Some it)
    <-> exists set, subscriptions_sets_ x !! id = Some set /\ set !! k = Some it) ->
  wf (with_sub w s x').
Proof.
  intros Hwf Hx Hsets.
  assert (forall s' id k it, registered (with_sub w s x') s' id k it <-> registered w s' id k it) as Hreg.
  { intros s' id k it. unfold with_sub. rewrite (registered_insert w _ _ _ s x) by done.
    destruct (decide (s' = s)) as [->|]; [|done]. rewrite Hsets. unfold registered. rewrite Hx. naive_solver. }
  split; try apply Hwf.
  - intros s' Hs'. apply (wf_subs w Hwf). by apply (with_sub_dom w s x) in Hs'.
  - intros s' id k it He Hr%Hreg. by apply (wf_iterators w Hwf).
  - intros k n Hin Hs'. apply Hreg, (wf_listed w Hwf); [done|]. by apply (with_sub_dom w s x) in Hs'.
Qed.

Lemma subscribe_wf w s id k tid : wf w -> wf (subscribe w s id k tid).
Proof.
  intros Hwf. unfold subscribe. destruct (engine w) as [e|] eqn:He; [|done].
  destruct (subs w !! s) as [x|] eqn:Hx; [|done].
  destruct (default ∅ (subscriptions_sets_ x !! id) !! k) as [it|] eqn:Hk.
  { destruct (subscriptions_sets_ x !! id) as [set|] eqn:Hset; cbn in Hk; [|by rewrite lookup_empty in Hk].
    eapply wf_with_sub; [done|exact Hx|]. intros id' k' it'. cbn. by rewrite insert_id. }
  set (it := fresh_node w). set (w' := MkWorld _ _ _ _).
  assert (forall s' id' k' it', registered w' s' id' k' it' <->
    registered w s' id' k' it' \/ (s' = s /\ id' = id /\ k' = k /\ it' = it)) as Hreg.
  { intros s' id' k' it'. unfold w'. rewrite (registered_insert w _ _ _ s x) by done.
    destruct (decide (s' = s)) as [->|Hne]; [|split; [by left|intros [|(? & _)]; done]]. cbn.
    destruct (decide (id' = id)) as [->|Hid].
    - rewrite lookup_insert_eq. destruct (decide (k' = k)) as [->|Hkk].
      + split; [intros (set & [= <-] & Hl); rewrite lookup_insert_eq in Hl; injection Hl as <-; by right|].
        intros [(x' & set & ? & Hset & Hl)|(_ & _ & _ & ->)].
        * assert (x' = x) as -> by congruence. rewrite Hset in Hk. cbn in Hk. congruence.
        * eexists. split; [done|]. by rewrite lookup_insert_eq.
      + split.
        * intros (set & [= <-] & Hl). rewrite lookup_insert_ne in Hl by done. left. exists x.
          destruct (subscriptions_sets_ x !! id) as [set|]; cbn in Hl; [by exists set|by rewrite lookup_empty in Hl].
        * intros [(x' & set & ? & Hset & Hl)|(_ & _ & ? & _)]; [|done]. assert (x' = x) as -> by congruence.
          eexists. split; [done|]. rewrite lookup_insert_ne by done. by rewrite Hset.
    - rewrite lookup_insert_ne by done. unfold registered. rewrite Hx. split.
      + intros (set & ? & ?). left. by exists x, set.
      + intros [(x' & set & [= <-] & ? & ?)|(_ & ? & _)]; [by exists set|done]. }
  assert (forall k', nodes w' k' = if decide (k' = k) then nodes w k ++ [MkNode it tid id s] else nodes w k') as Hnodes.
  { intros k'. unfold nodes, w'. cbn. rewrite He. destruct (decide (k' = k)) as [->|Hne]; [by rewrite lookup_insert_eq|by rewrite lookup_insert_ne]. }
  assert (forall k' n, n ∈ nodes w' k' <-> n ∈ nodes w k' \/ (k' = k /\ n = MkNode it tid id s)) as Hel.
  { intros k' n. rewrite Hnodes. destruct (decide (k' = k)) as [->|Hne]; [rewrite elem_of_app, list_elem_of_singleton|]; naive_solver. }
  assert (forall k' n, n ∈ nodes w k' -> (node n < it)%nat) as Hlt by (intros k' n Hn; by apply (wf_fresh w Hwf k')).
  assert (forall s', is_Some (subs w' !! s') -> is_Some (subs w !! s')) as Hdom.
  { intros s'. unfold w'. cbn. destruct (decide (s' = s)) as [->|]; [by rewrite Hx|by rewrite lookup_insert_ne]. }
  split.
  - intros k'. rewrite Hnodes. case_decide; [|apply Hwf]. apply StronglySorted_app. split; [|split; [apply Hwf|by repeat constructor]].
    intros n n' Hn ->%list_elem_of_singleton. by apply (Hlt k).
  - intros k1 k2 n1 n2 [H1|[-> ->]]%Hel [H2|[-> ->]]%Hel Heq; cbn in Heq.
    + by apply (wf_unique w Hwf).
    + apply Hlt in H1. lia.
    + apply Hlt in H2. lia.
    + done.
  - intros k' n [H1|[-> ->]]%Hel; cbn.
    + destruct (wf_fresh w Hwf k' n H1). unfold it. lia.
    + split; [unfold it; lia|]. apply (wf_subs w Hwf). by rewrite Hx.
  - intros s' Hs'%Hdom. by apply (wf_subs w Hwf).
  - intros s' id' k' it' _ [Hr|(-> & -> & -> & ->)]%Hreg.
    + destruct (wf_iterators w Hwf s' id' k' it') as (n & ? & ? & ?); [by rewrite He|done|]. exists n. split; [apply Hel; by left|done].
    + exists (MkNode it tid id s). split; [apply Hel; by right|done].
  - intros k' n [H1|[-> ->]]%Hel Hs'; apply Hreg; [left; by apply (wf_listed w Hwf), Hdom|by right].
Qed.

Lemma create_wf w : wf w -> wf (create w).1.
Proof.
  intros Hwf. set (w' := (create w).1).
  assert (subs w !! fresh_sub w = None) as Hnew.
  { apply eq_None_not_Some. intros Hs%(wf_subs w Hwf). lia. }
  assert (forall s id k it, registered w' s id k it <-> registered w s id k it) as Hreg.
  { intros s id k it. unfold registered, w'. cbn. destruct (decide (s = fresh_sub w)) as [->|Hne]; [|by rewrite lookup_insert_ne].
    rewrite lookup_insert_eq, Hnew. split; [|by intros (? & ? & ? & _)]. intros (x & set & [= <-] & Hs & _).
    cbn in Hs. by rewrite lookup_empty in Hs. }
  split; try apply Hwf.
  - intros k n Hn. destruct (wf_fresh w Hwf k n Hn). cbn. lia.
  - intros s. unfold w'. cbn. destruct (decide (s = fresh_sub w)) as [->|Hne]; [lia|]. rewrite lookup_insert_ne by done.
    intros Hs%(wf_subs w Hwf). lia.
  - intros s id k it He Hr%Hreg. by apply (wf_iterators w Hwf).
  - intros k n Hn Hs. apply Hreg, (wf_listed w Hwf); [done|]. destruct (wf_fresh w Hwf k n Hn) as [_ Hlt].
    revert Hs. unfold w'. cbn. rewrite lookup_insert_ne by lia. done.
Qed.

Lemma release_wf w s : wf w -> wf (release w s).
Proof.
  intros Hwf. set (w' := release w s).
  assert (forall s', is_Some (subs w' !! s') <-> s' ≠ s /\ is_Some (subs w !! s')) as Hdom.
  { intros s'. unfold w'. cbn. destruct (decide (s' = s)) as [->|]; [rewrite lookup_delete_eq; split; [by intros [? ?]|by intros []]|].
    rewrite lookup_delete_ne by done. naive_solver. }
  assert (forall s' id k it, registered w' s' id k it <-> s' ≠ s /\ registered w s' id k it) as Hreg.
  { intros s' id k it. unfold registered, w'. cbn. destruct (decide (s' = s)) as [->|].
    - rewrite lookup_delete_eq. split; [by intros (? & ? & ? & _)|by intros []].
    - rewrite lookup_delete_ne by done. naive_solver. }
  split; try apply Hwf.
  - intros s' [_ Hs']%Hdom. by apply (wf_subs w Hwf).
  - intros s' id k it He [_ Hr]%Hreg. by apply (wf_iterators w Hwf).
  - intros k n Hn [Hne Hs']%Hdom. apply Hreg. split; [done|]. by apply (wf_listed w Hwf).
Qed.

(** The nodes a notification leaves are those of live subscribers. *)
Lemma notify_nodes w timeout k args k' :
  let w' := (notifyDelayed w timeout k args).1 in
  nodes w' k' = nodes w k'
  \/ nodes w' k' = filter (fun n => expired w (n_sub n) = false) (nodes w k').
Proof.
  cbn zeta. unfold notifyDelayed. destruct (engine w) as [e|] eqn:He; [|by left].
  destruct (dispatcher_ e); [|by left]. cbn. destruct (subscribers_map_ e !! k) as [l|] eqn:Hl; [|by left].
  cbn. unfold nodes. cbn. rewrite He. destruct (decide (k' = k)) as [->|Hne].
  - right. by rewrite lookup_insert_eq, Hl.
  - left. by rewrite lookup_insert_ne.
Qed.

Lemma notify_wf w timeout k args : wf w -> wf (notifyDelayed w timeout k args).1.
Proof.
  intros Hwf. set (w' := (notifyDelayed w timeout k args).1).
  pose proof (notify_nodes w timeout k args) as Hnn. cbn zeta in Hnn. fold w' in Hnn.
  assert (subs w' = subs w /\ fresh_node w' = fresh_node w /\ fresh_sub w' = fresh_sub w
    /\ (is_Some (engine w') <-> is_Some (engine w))) as (Hs & Hf1 & Hf2 & He).
  { unfold w', notifyDelayed. destruct (engine w) as [e|] eqn:He; [|by cbn; rewrite He]. destruct (dispatcher_ e); cbn; [|by rewrite He].
    destruct (subscribers_map_ e !! k); cbn; [done|by rewrite He]. }
  assert (forall s id k it, registered w' s id k it <-> registered w s id k it) as Hreg by (intros; unfold registered; by rewrite Hs).
  assert (forall k n, n ∈ nodes w' k -> n ∈ nodes w k) as Hsub.
  { intros k' n. destruct (Hnn k') as [-> | ->]; [done|]. by intros [_ ?]%list_elem_of_filter. }
  split.
  - intros k'. destruct (Hnn k') as [-> | ->]; [apply Hwf|]. apply sorted_filter, Hwf.
  - intros k1 k2 n1 n2 H1%Hsub H2%Hsub. by apply (wf_unique w Hwf).
  - intros k' n Hn%Hsub. rewrite Hf1, Hf2. by apply (wf_fresh w Hwf k').
  - intros s. rewrite Hs, Hf2. apply (wf_subs w Hwf).
  - intros s id k' it Hsome%He Hr%Hreg. destruct (wf_iterators w Hwf s id k' it Hsome Hr) as (n & Hn & Hrest).
    exists n. split; [|done]. destruct (Hnn k') as [-> | ->]; [done|]. apply list_elem_of_filter.
    split; [|done]. unfold expired. apply bool_decide_eq_false. destruct Hrest as (_ & -> & _). destruct Hr as (x & ? & Hx & _). congruence.
  - intros k' n Hn%Hsub. rewrite Hs. intros Hsome. apply Hreg. by apply (wf_listed w Hwf).
Qed.

Lemma step_wf w o : wf w -> exists w', step w o = Done w' /\ wf w'.
Proof.
  intros Hwf. destruct o as [|s|s|s id k tid|s id k|s id|s|s| | |tm k args]; cbn [step].
  - eexists. split; [done|by apply create_wf].
  - eexists. split; [done|]. unfold setCallback. destruct (subs w !! s) eqn:Hx; [|done]. by eapply wf_with_sub.
  - eexists. split; [done|]. unfold generateSubscriptionSetId. destruct (subs w !! s) eqn:Hx; [|done]. by eapply wf_with_sub.
  - eexists. split; [done|by apply subscribe_wf].
  - destruct (unsubscribe_key_spec w s id k Hwf) as (w' & -> & ? & _). by exists w'.
  - destruct (unsubscribe_set_spec w s id Hwf) as (w' & -> & ?). by exists w'.
  - by apply unsubscribe_spec.
  - eexists. split; [done|by apply release_wf].
  - eexists. split; [done|]. apply wf_no_engine; [done|]. apply (wf_subs w Hwf).
  - destruct (engine w) as [e|] eqn:He; (eexists; split; [done|]); [|done].
    assert (forall k, nodes (with_engine w (engine_dispose e)) k = nodes w k) as Hn by (intros k; unfold nodes; cbn; by rewrite He).
    split; try apply Hwf.
    + intros k. rewrite Hn. apply Hwf.
    + intros k k' n n'. rewrite !Hn. apply Hwf.
    + intros k n. rewrite Hn. apply Hwf.
    + intros s id k it _ Hr. rewrite Hn. apply (wf_iterators w Hwf); [by rewrite He|done].
    + intros k n. rewrite Hn. apply (wf_listed w Hwf).
  - eexists. split; [done|by apply notify_wf].
Qed.

Lemma initial_wf : wf initial.
Proof.
  assert (forall k, nodes initial k = []) as Hn by (intros k; cbn; by rewrite lookup_empty).
  split.
  - intros k. rewrite Hn. constructor.
  - intros k k' n n'. rewrite Hn. by intros []%not_elem_of_nil.
  - intros k n. rewrite Hn. by intros []%not_elem_of_nil.
  - intros s. cbn. rewrite lookup_empty. by intros [? ?].
  - intros s id k it _ (x & ? & Hx & _). cbn in Hx. by rewrite lookup_empty in Hx.
  - intros k n. rewrite Hn. by intros []%not_elem_of_nil.
Qed.

Lemma steps_wf os w : wf w -> exists w', steps w os = Done w' /\ wf w'.
Proof.
  revert w. induction os as [|o os IH]; intros w Hwf; [by exists w|]. unfold steps. cbn [foldM].
  destruct (step_wf w o Hwf) as (w1 & -> & Hwf1). by apply IH.
Qed.

(** The dispatched calls, as subscriber and set. *)
Definition targets (ds : list Dispatched) : list (nat * Z) := (fun d => (d_sub d, d_set d)) <$> ds.

Lemma notify_targets w e timeout k args :
  wf w -> engine w = Some e -> dispatcher_ e = true ->
  let ds := (notifyDelayed w timeout k args).2 in
  targets ds = (fun n => (n_sub n, n_set n)) <$> filter (fun n => expired w (n_sub n) = false) (nodes w k)
  /\ Forall (fun d => d_timeout d = timeout /\ d_key d = k /\ d_args d = args) ds.
Proof.
  intros Hwf He Hd. cbn zeta. unfold notifyDelayed, nodes. rewrite He, Hd. cbn.
  destruct (subscribers_map_ e !! k) as [l|] eqn:Hl; cbn; [|by split; [|constructor]].
  unfold targets. rewrite <-list_fmap_compose. split; [done|]. apply Forall_fmap, Forall_true. done.
Qed.

Lemma live_listed w k s id :
  wf w -> is_Some (engine w) ->
  (s, id) ∈ (fun n => (n_sub n, n_set n)) <$> filter (fun n => expired w (n_sub n) = false) (nodes w k)
  <-> exists it, registered w s id k it.
Proof.
  intros Hwf He. rewrite list_elem_of_fmap. split.
  - intros (n & [= -> ->] & [Hx Hn]%list_elem_of_filter). exists (node n). apply (wf_listed w Hwf); [done|].
    unfold expired in Hx. apply bool_decide_eq_false in Hx. by apply not_eq_None_Some.
  - intros [it Hr]. destruct (wf_iterators w Hwf s id k it He Hr) as (n & Hn & _ & <- & <-). exists n. split; [done|].
    apply list_elem_of_filter. split; [|done]. unfold expired. apply bool_decide_eq_false.
    destruct Hr as (x & ? & Hx & _). congruence.
Qed.

Lemma live_nodup w k :
  wf w -> NoDup ((fun n => (n_sub n, n_set n)) <$> filter (fun n => expired w (n_sub n) = false) (nodes w k)).
Proof.
  intros Hwf. apply NoDup_fmap_2_strong.
  - intros n n' [Hx Hn]%list_elem_of_filter [Hx' Hn']%list_elem_of_filter [= Hsub Hset].
    assert (forall m, expired w (n_sub m) = false -> is_Some (subs w !! n_sub m)) as Hal.
    { intros m Hm. unfold expired in Hm. apply bool_decide_eq_false in Hm. by apply not_eq_None_Some. }
    pose proof (wf_listed w Hwf k n Hn (Hal n Hx)) as H1. pose proof (wf_listed w Hwf k n' Hn' (Hal n' Hx')) as H2.
    rewrite Hsub, Hset in H1. pose proof (registered_fun _ _ _ _ _ _ H1 H2) as Heq.
    by destruct (wf_unique w Hwf k k n n' Hn Hn' Heq).
  - apply NoDup_filter. pose proof (wf_sorted w Hwf k) as Hs. induction Hs as [|n l Hl IH Hall]; constructor; [|done].
    rewrite Forall_forall in Hall. intros Hin%Hall. lia.
Qed.

(** C14: No operation ever erases a dangling iterator.  Every sequence of
    subscriptions, unsubscriptions, notifications and releases, of any number of
    subscribers and of the engine itself, only ever erases list nodes that are in the
    list of their key (the mutexes, which are no part of this model, are the subject of
    [Locks]). *)
Theorem engine_memory_safe os : exists w, steps initial os = Done w.
Proof. destruct (steps_wf os initial initial_wf) as (w & Hw & _). by exists w. Qed.

(** C13: A notification is exact.  After any sequence of operations that leaves the
    engine in place, [notifyDelayed] hands to the dispatcher one task for each
    current subscription to the key, no task twice, none for another key or a
    released subscriber, each with the given delay and data. *)
Theorem notify_exact os w e timeout k args :
  steps initial os = Done w -> engine w = Some e -> dispatcher_ e = true ->
  let ds := (notifyDelayed w timeout k args).2 in
  NoDup (targets ds)
  /\ (forall s id, (s, id) ∈ targets ds <-> exists it, registered w s id k it)
  /\ Forall (fun d => d_timeout d = timeout /\ d_key d = k /\ d_args d = args) ds.
Proof.
  intros Hrun He Hd. destruct (steps_wf os initial initial_wf) as (w' & Hrun' & Hwf).
  assert (w' = w) as -> by congruence. destruct (notify_targets w e timeout k args Hwf He Hd) as [Ht Hall].
  cbn zeta. rewrite Ht. split; [by apply live_nodup|]. split; [|done]. intros s id. apply live_listed; [done|by rewrite He].
Qed.

(** Unsubscribing from a key.  The answer is whether the subscriber was
    subscribed to the key in that set, and afterwards no notification of the key
    dispatches a call to it for that set. *)
Theorem unsubscribe_stops os w s id k :
  steps initial os = Done w ->
  exists w', unsubscribe_key w s id k
      = Done (w', bool_decide (is_Some (x ← subs w !! s; set ← subscriptions_sets_ x !! id; set !! k)))
    /\ forall timeout args, (s, id) ∉ targets (notifyDelayed w' timeout k args).2.
Proof.
  intros Hrun. destruct (steps_wf os initial initial_wf) as (w0 & Hrun' & Hwf). assert (w0 = w) as -> by congruence.
  destruct (unsubscribe_key_spec w s id k Hwf) as (w' & Hu & Hwf' & Hno & _). exists w'. split; [done|].
  intros timeout args Hin. destruct (engine w') as [e|] eqn:He.
  - destruct (dispatcher_ e) eqn:Hd.
    + destruct (notify_targets w' e timeout k args Hwf' He Hd) as [Ht _]. cbn zeta in Ht. rewrite Ht in Hin.
      apply live_listed in Hin as [it Hr]; [by apply (Hno it)|done|by rewrite He].
    + unfold notifyDelayed in Hin. rewrite He, Hd in Hin. cbn in Hin. by apply not_elem_of_nil in Hin.
  - unfold notifyDelayed in Hin. rewrite He in Hin. by apply not_elem_of_nil in Hin.
Qed.

(** Subscribers are called in the order in which they subscribed: the dispatched
    tasks of a notification are those of the key's list in order, and the identities
    of its nodes increase along the list. *)
Theorem notify_order os w e l timeout k args :
  steps initial os = Done w -> engine w = Some e -> dispatcher_ e = true -> subscribers_map_ e !! k = Some l ->
  StronglySorted (fun n n' => node n < node n')%nat l
  /\ targets (notifyDelayed w timeout k args).2
     = (fun n => (n_sub n, n_set n)) <$> filter (fun n => expired w (n_sub n) = false) l.
Proof.
  intros Hrun He Hd Hl. destruct (steps_wf os initial initial_wf) as (w0 & Hrun' & Hwf). assert (w0 = w) as -> by congruence.
  assert (nodes w k = l) as Hn by (unfold nodes; by rewrite He, Hl).
  split; [rewrite <-Hn; apply Hwf|]. destruct (notify_targets w e timeout k args Hwf He Hd) as [Ht _]. cbn zeta in Ht.
  by rewrite Ht, Hn.
Qed.

(** The engine of a list of event data types does not depend on the type of the
    event key: a request with another key type returns the engine created for the
    first one, which the code casts to the requested type. *)
Theorem getEngine_ignores_event_key FN m key1 key2 args :
  engines_ m !! getSubscriptionHash FN args = None ->
  let '(m1, p1) := getEngine FN m (MkEngineType key1 args) in
  let '(_, p2) := getEngine FN m1 (MkEngineType key2 args) in
  p1 = p2 /\ created_engines m1 !! p2 = Some (MkEngineType key1 args, true).
Proof.
  intros Hnew. unfold getEngine. cbn [Args]. rewrite Hnew. cbn [engines_]. rewrite lookup_insert_eq.
  split; [done|]. cbn. by rewrite lookup_app_r, Nat.sub_diag.
Qed.

(** ** Witnesses *)

Module Samples.

Definition demo : list Op :=
  [OCreate; OCreate; OSubscribe 0 1 7 3; OSubscribe 1 1 7 4; OSubscribe 0 2 7 5; ORelease 1].

Definition world_of (r : result World) : World := match r with Done w => w | _ => initial end.
Definition demo_world : World := Eval vm_compute in world_of (steps initial demo).
Definition demo_engine : Engine := Eval vm_compute in default (MkEngine ∅ false) (engine demo_world).

Lemma notify_exact_witness :
  let ds := (notifyDelayed demo_world 10 7 42).2 in
  NoDup (targets ds)
  /\ (forall s id, (s, id) ∈ targets ds <-> exists it, registered demo_world s id 7 it)
  /\ Forall (fun d => d_timeout d = 10 /\ d_key d = 7 /\ d_args d = 42) ds.
Proof. apply (notify_exact demo demo_world demo_engine); reflexivity. Defined.

Lemma unsubscribe_stops_witness :
  exists w', unsubscribe_key demo_world 0 1 7 = Done (w', true)
    /\ forall timeout args, (0%nat, 1) ∉ targets (notifyDelayed w' timeout 7 args).2.
Proof. apply (unsubscribe_stops demo demo_world 0 1 7). reflexivity. Defined.

Lemma notify_order_witness :
  StronglySorted (fun n n' => node n < node n')%nat [MkNode 0 3 1 0; MkNode 1 4 1 1; MkNode 2 5 2 0]
  /\ targets (notifyDelayed demo_world 10 7 42).2 = [(0%nat, 1); (0%nat, 2)].
Proof.
  apply (notify_order demo demo_world demo_engine [MkNode 0 3 1 0; MkNode 1 4 1 1; MkNode 2 5 2 0]); reflexivity.
Defined.

Lemma getEngine_ignores_event_key_witness :
  let FN args := Murmur.codes (String.concat "," args) in
  let '(m1, p1) := getEngine FN (MkManager ∅ [] true false) (MkEngineType "EventTypes" ["int"%string]) in
  let '(_, p2) := getEngine FN m1 (MkEngineType "OtherKeys" ["int"%string]) in
  p1 = p2 /\ created_engines m1 !! p2 = Some (MkEngineType "EventTypes" ["int"%string], true).
Proof. apply getEngine_ignores_event_key. reflexivity. Defined.

(** [unsubscribe(id)] answers [true] for a set in which nothing is subscribed any
    more: after a subscriber has subscribed to one key and unsubscribed from it, it is
    registered for no key of the set, and [unsubscribe(id)] still answers [true]. *)
Theorem unsubscribe_set_of_nothing :
  exists w w', steps initial [OCreate; OSubscribe 0 1 7 3; OUnsubscribeKey 0 1 7] = Done w
    /\ (forall k it, ¬ registered w 0 1 k it) /\ unsubscribe_set w 0 1 = Done (w', true).
Proof.
  eexists _, _. split; [vm_compute; reflexivity|]. split; [|vm_compute; reflexivity].
  intros k it (x & set & Hx & Hs & Hk). vm_compute in Hx. injection Hx as <-. vm_compute in Hs. injection Hs as <-.
  change ((∅ : gmap Z nat) !! k = Some it) in Hk. by rewrite lookup_empty in Hk.
Qed.

End Samples.
End SubscriptionSpec.
