(* ===== verification/Dispatcher.v ===== *)
(** * Dispatcher: routing of tasks to worker threads

    [src/src/se/impl/async_dispatcher_impl.hpp] and [sync_dispatcher_impl.hpp].
    The schedulers are those of [Scheduler], shared by pointer; a task handed to the
    dispatcher goes to a handler's scheduler, to a bound one, to the first free one
    of the pool, or to a new temporary one. *)

From S2P Require Import Prelude Scheduler.

Module Dispatcher.

Abbreviation result := (run unit).
Abbreviation Tid := Z (only parsing).
Abbreviation ptr := nat (only parsing).

Definition kExecuteInPool : Tid := 2 ^ 32 - 1.

Record AsyncDispatcher : Type := MkDispatcher {
  schedulers : list Scheduler.Scheduler;  (** every scheduler created or bound *)
  handlers_ : list ptr;
  pool_ : list ptr;
  next_tid_offset : Z;
  contexts : gmap Tid ptr;
  temporary_handlers_tasks_counter_ : Z;
  is_disposed_ : bool
}.

Definition kHandlersCount (d : AsyncDispatcher) : Z := Z.of_nat (length (handlers_ d)).

(** The constructor: one scheduler per handler and per thread of the pool. *)
Definition construct (kCount kPoolSize : nat) : AsyncDispatcher :=
  MkDispatcher (replicate (kCount + kPoolSize) Scheduler.construct) (seq 0 kCount) (seq kCount kPoolSize) 0 ∅ 0 false.

Definition on_scheduler (d : AsyncDispatcher) (p : ptr) (f : Scheduler.Scheduler -> Scheduler.Scheduler) : AsyncDispatcher :=
  MkDispatcher (alter f p (schedulers d)) (handlers_ d) (pool_ d) (next_tid_offset d) (contexts d)
    (temporary_handlers_tasks_counter_ d) (is_disposed_ d).

(** The loop over the pool: the first scheduler that takes the task. *)
Fixpoint first_free (d : AsyncDispatcher) (now timeout : Z) (task : option nat) (pool : list ptr) : option AsyncDispatcher :=
  match pool with
  | [] => None
  | p :: pool =>
      match schedulers d !! p with
      | Some s =>
          match Scheduler.uploadIfFree s now timeout task with
          | (s', None) => Some (on_scheduler d p (fun _ => s'))
          | (_, Some task) => first_free d now timeout task pool
          end
      | None => first_free d now timeout task pool
      end
  end.

(** A new thread for one task. *)
Definition temporary (d : AsyncDispatcher) (now timeout : Z) (task : option nat) : AsyncDispatcher :=
  MkDispatcher (schedulers d ++ [Scheduler.addDelayed Scheduler.construct now timeout task])
    (handlers_ d) (pool_ d) (next_tid_offset d) (contexts d) (temporary_handlers_tasks_counter_ d + 1) (is_disposed_ d).

(** The end of the temporary task: it ran unless the dispatcher was disposed of. *)
Definition temporary_done (d : AsyncDispatcher) (p : ptr) : AsyncDispatcher :=
  let d := on_scheduler d p Scheduler.dispose in
  MkDispatcher (schedulers d) (handlers_ d) (pool_ d) (next_tid_offset d) (contexts d)
    (temporary_handlers_tasks_counter_ d - 1) (is_disposed_ d).

Definition give (timeout now : Z) (task pred : option nat) (s : Scheduler.Scheduler) : Scheduler.Scheduler :=
  match pred with
  | Some _ => Scheduler.repeat s now timeout task pred
  | None => Scheduler.addDelayed s now timeout task
  end.

Definition uploadToHandler (d : AsyncDispatcher) (now : Z) (tid : Tid) (timeout : Z) (task pred : option nat)
    : result AsyncDispatcher :=
  require (negb (tid =? kExecuteInPool) || bool_decide (pred = None));;
  if is_disposed_ d then mret d
  else if tid <? kHandlersCount d then
    p ← at_idx (handlers_ d) tid;
    mret (on_scheduler d p (give timeout now task pred))
  else
    match contexts d !! tid with
    | Some p => mret (on_scheduler d p (give timeout now task pred))
    | None =>
        match first_free d now timeout task (pool_ d) with
        | Some d => mret d
        | None => mret (temporary d now timeout task)
        end
    end.

Definition add (d : AsyncDispatcher) (now : Z) (tid : Tid) (task : option nat) : result AsyncDispatcher :=
  uploadToHandler d now tid 0 task None.

Definition addDelayed (d : AsyncDispatcher) (now : Z) (tid : Tid) (timeout : Z) (task : option nat) : result AsyncDispatcher :=
  uploadToHandler d now tid timeout task None.

Definition repeat (d : AsyncDispatcher) (now : Z) (tid : Tid) (timeout : Z) (task pred : option nat) : result AsyncDispatcher :=
  uploadToHandler d now tid timeout task pred.

(** Disposal stops the handlers and the pool; then it waits for the temporary
    tasks, so it returns only when their counter is zero. *)
Definition dispose (d : AsyncDispatcher) : AsyncDispatcher :=
  let d := MkDispatcher (schedulers d) (handlers_ d) (pool_ d) (next_tid_offset d) (contexts d)
    (temporary_handlers_tasks_counter_ d) true in
  foldl (fun d p => on_scheduler d p Scheduler.dispose) d (handlers_ d ++ pool_ d).

Definition bind (d : AsyncDispatcher) (scheduler : option ptr) : result (AsyncDispatcher * option Tid) :=
  match scheduler with
  | None => mret (d, None)
  | Some p =>
      let execution_tid := u32 (kHandlersCount d + next_tid_offset d) in
      require (bool_decide (contexts d !! execution_tid = None));;
      mret (MkDispatcher (schedulers d) (handlers_ d) (pool_ d) (u32 (next_tid_offset d + 1))
              (<[execution_tid := p]> (contexts d)) (temporary_handlers_tasks_counter_ d) (is_disposed_ d), Some execution_tid)
  end.

Definition unbind (d : AsyncDispatcher) (tid : Tid) : AsyncDispatcher * bool :=
  (MkDispatcher (schedulers d) (handlers_ d) (pool_ d) (next_tid_offset d) (delete tid (contexts d))
     (temporary_handlers_tasks_counter_ d) (is_disposed_ d), bool_decide (is_Some (contexts d !! tid))).

(** ** The synchronous dispatcher: tasks run in the calling thread *)

Module Sync.

(** The tasks executed by a call, given what the predicate answers. *)
Definition add (task : nat) : list nat := [task].
Definition addDelayed (timeout : Z) (task : nat) : list nat := [task].
Definition repeat (timeout : Z) (task : nat) (pred : option bool) : list nat :=
  match pred with None | Some true => [task] | Some false => [] end.
Definition bind (kCount : Z) (scheduler : option ptr) : option Tid := match scheduler with None => None | Some _ => Some kCount end.
Definition unbind (kCount tid : Z) : bool := tid =? kCount.

End Sync.

(** ** Where tasks go *)

(** The pointers of the dispatcher are schedulers, the pool's are distinct. *)
Record wf (d : AsyncDispatcher) : Prop := {
  wf_handlers p : p ∈ handlers_ d -> is_Some (schedulers d !! p);
  wf_pool p : p ∈ pool_ d -> is_Some (schedulers d !! p);
  wf_contexts t p : contexts d !! t = Some p -> is_Some (schedulers d !! p)
}.

(** The new task is in the queue of exactly one scheduler of [d'], which is [q]; every
    other queue, and the dispatcher's tables, are those of [d]. *)
Definition gives (d d' : AsyncDispatcher) (q : ptr) (t : Scheduler.TimedTask) : Prop :=
  (exists s s', default Scheduler.construct (schedulers d !! q) = s /\ schedulers d' !! q = Some s'
    /\ s' = Scheduler.add s t)
  /\ (forall p, p ≠ q -> schedulers d' !! p = schedulers d !! p)
  /\ handlers_ d' = handlers_ d /\ pool_ d' = pool_ d /\ contexts d' = contexts d.

Lemma give_add timeout now task pred s : give timeout now task pred s = Scheduler.add s (Scheduler.MkTask now timeout pred task).
Proof. by destruct pred. Qed.

Lemma on_scheduler_gives d p s t f :
  schedulers d !! p = Some s -> f s = Scheduler.add s t -> gives d (on_scheduler d p f) p t.
Proof.
  intros Hs Hf. split; [|split; [|done]].
  - eexists _, _. split; [done|]. cbn. rewrite list_lookup_alter_eq, Hs. by split.
  - intros q Hne. cbn. by rewrite list_lookup_alter_ne.
Qed.

Lemma give_gives d p timeout now task pred :
  is_Some (schedulers d !! p) ->
  gives d (on_scheduler d p (give timeout now task pred)) p (Scheduler.MkTask now timeout pred task).
Proof. intros [s Hs]. eapply on_scheduler_gives; [exact Hs|apply give_add]. Qed.

Definition free (d : AsyncDispatcher) (p : ptr) : Prop := exists s, schedulers d !! p = Some s /\ Scheduler.is_busy_ s = false.

(** The pool: the first free scheduler, if there is one. *)
Lemma first_free_spec d now timeout task pool :
  (forall p, p ∈ pool -> is_Some (schedulers d !! p)) ->
  match first_free d now timeout task pool with
  | Some d' => exists pre q post, pool = pre ++ q :: post /\ free d q /\ Forall (fun p => ¬ free d p) pre
      /\ gives d d' q (Scheduler.MkTask now timeout None task)
  | None => Forall (fun p => ¬ free d p) pool
  end.
Proof.
  induction pool as [|p pool IH]; intros Hp; [constructor|]. cbn [first_free].
  destruct (Hp p) as [s Hs]; [left|]. rewrite Hs. unfold Scheduler.uploadIfFree.
  destruct (Scheduler.is_busy_ s) eqn:Hb.
  - assert (¬ free d p) as Hn by (intros (s' & ? & ?); congruence).
    pose proof (IH ltac:(intros q Hq; apply Hp; by right)) as IH'.
    destruct (first_free d now timeout task pool) as [d'|]; [|by constructor].
    destruct IH' as (pre & q & post & -> & Hf & Hpre & Hg). exists (p :: pre), q, post. split; [done|]. split; [done|].
    split; [by constructor|done].
  - exists [], p, pool. split; [done|]. split; [by exists s|]. split; [done|].
    by eapply on_scheduler_gives.
Qed.

Lemma temporary_gives d now timeout task :
  gives d (temporary d now timeout task) (length (schedulers d)) (Scheduler.MkTask now timeout None task).
Proof.
  split; [|split; [|done]].
  - eexists _, _. split; [done|]. cbn. rewrite lookup_app_r, Nat.sub_diag by lia.
    rewrite (lookup_ge_None_2 (schedulers d)) by lia. done.
  - intros p Hne. cbn. destruct (decide (p < length (schedulers d))%nat); [by rewrite lookup_app_l|].
    rewrite (lookup_ge_None_2 (schedulers d)) by lia. apply lookup_ge_None_2. rewrite length_app. cbn. lia.
Qed.

(** Every task is queued exactly once, in the right place.  On a dispatcher that
    has not been disposed of, a task goes to the scheduler of its handler or of its
    bound thread id, with its predicate; any other task goes, without predicate, to
    the first free thread of the pool, and to a new thread only when every thread of
    the pool is busy.  No other queue changes. *)
Theorem upload_routes d now tid timeout task pred :
  wf d -> is_disposed_ d = false -> 0 <= tid < 2 ^ 32 -> (tid = kExecuteInPool -> pred = None) ->
  exists d' q, uploadToHandler d now tid timeout task pred = Done d' /\
    if decide (tid < kHandlersCount d) then
      handlers_ d !! Z.to_nat tid = Some q /\ gives d d' q (Scheduler.MkTask now timeout pred task)
    else match contexts d !! tid with
    | Some p => q = p /\ gives d d' q (Scheduler.MkTask now timeout pred task)
    | None => gives d d' q (Scheduler.MkTask now timeout None task)
        /\ ((exists pre post, pool_ d = pre ++ q :: post /\ free d q /\ Forall (fun p => ¬ free d p) pre)
            \/ (Forall (fun p => ¬ free d p) (pool_ d) /\ q = length (schedulers d)))
    end.
Proof.
  intros Hwf Hd Htid Hpred. unfold uploadToHandler.
  assert (negb (tid =? kExecuteInPool) || bool_decide (pred = None) = true) as ->.
  { destruct (Z.eqb_spec tid kExecuteInPool); [|done]. cbn. apply bool_decide_eq_true. auto. }
  cbn [require mbind run_bind]. rewrite Hd. destruct (decide (tid < kHandlersCount d)) as [Hlt|Hge].
  - rewrite (proj2 (Z.ltb_lt _ _) Hlt). unfold kHandlersCount in Hlt.
    destruct (lookup_lt_is_Some_2 (handlers_ d) (Z.to_nat tid)) as [p Hp]; [lia|].
    unfold at_idx. rewrite decide_True, Hp by lia. cbn. eexists _, p. split; [done|]. split; [done|].
    apply give_gives, (wf_handlers d Hwf). by eapply list_elem_of_lookup_2.
  - rewrite (proj2 (Z.ltb_ge _ _)) by lia. destruct (contexts d !! tid) as [p|] eqn:Hc.
    + eexists _, p. split; [done|]. split; [done|]. by apply give_gives, (wf_contexts d Hwf tid).
    + pose proof (first_free_spec d now timeout task (pool_ d) (wf_pool d Hwf)) as Hff.
      destruct (first_free d now timeout task (pool_ d)) as [d'|].
      * destruct Hff as (pre & q & post & Hpool & Hf & Hpre & Hg). exists d', q. split; [done|]. split; [done|]. left. by exists pre, post.
      * exists (temporary d now timeout task), (length (schedulers d)). split; [done|]. split; [apply temporary_gives|by right].
Qed.

(** Thread ids handed out by [bind] are not in use: a new id is not one of the
    handlers, was not bound before, and tasks for it go to the bound scheduler until
    it is unbound.  This holds as long as fewer than 2^32 ids have been handed out. *)
Theorem bind_fresh d p :
  wf d -> is_Some (schedulers d !! p) ->
  (forall t, is_Some (contexts d !! t) -> kHandlersCount d <= t < kHandlersCount d + next_tid_offset d) ->
  0 <= next_tid_offset d -> kHandlersCount d + next_tid_offset d + 1 < 2 ^ 32 ->
  exists d' tid, bind d (Some p) = Done (d', Some tid) /\ kHandlersCount d <= tid /\ contexts d !! tid = None
    /\ contexts d' !! tid = Some p
    /\ (forall t, is_Some (contexts d' !! t) -> kHandlersCount d' <= t < kHandlersCount d' + next_tid_offset d')
    /\ (unbind d' tid).2 = true /\ contexts (unbind d' tid).1 = contexts d.
Proof.
  intros Hwf Hp Hctx Hoff Hbound. unfold bind. set (tid := u32 (kHandlersCount d + next_tid_offset d)).
  assert (0 <= kHandlersCount d) by (unfold kHandlersCount; lia).
  assert (tid = kHandlersCount d + next_tid_offset d) as Htid by (apply wrap_id; lia).
  assert (contexts d !! tid = None) as Hnone.
  { destruct (contexts d !! tid) as [q|] eqn:Hq; [|done]. destruct (Hctx tid) as [_ Hlt]; [by rewrite Hq|]. lia. }
  rewrite bool_decide_eq_true_2 by done. cbn [require mbind run_bind].
  eexists _, tid. split; [done|]. split; [lia|]. split; [done|]. cbn. split; [by rewrite lookup_insert_eq|].
  split; [|split; [by rewrite lookup_insert_eq|by rewrite delete_insert_id]].
  change (kHandlersCount (MkDispatcher _ _ _ _ _ _ _)) with (kHandlersCount d).
  rewrite wrap_id by lia. intros t. destruct (decide (t = tid)) as [->|Hne]; [lia|].
  rewrite lookup_insert_ne by done. intros Ht%Hctx. lia.
Qed.

(** A repeated task for a thread id that is no handler and is not bound (any more)
    loses its predicate: it is queued in the pool as a task to run once. *)
Theorem repeat_unbound_runs_once d now tid timeout task pred :
  wf d -> is_disposed_ d = false -> kHandlersCount d <= tid < kExecuteInPool -> contexts d !! tid = None ->
  exists d' q, repeat d now tid timeout task (Some pred) = Done d'
    /\ gives d d' q (Scheduler.MkTask now timeout None task).
Proof.
  intros Hwf Hd Htid Hc. unfold repeat, uploadToHandler. rewrite (proj2 (Z.eqb_neq _ _)) by lia. cbn [negb orb require mbind run_bind].
  rewrite Hd, (proj2 (Z.ltb_ge _ _)), Hc by lia.
  pose proof (first_free_spec d now timeout task (pool_ d) (wf_pool d Hwf)) as Hff.
  destruct (first_free d now timeout task (pool_ d)) as [d'|].
  - destruct Hff as (pre & q & post & _ & _ & _ & Hg). by exists d', q.
  - eexists _, _. split; [done|apply temporary_gives].
Qed.

(** ** Witnesses: one handler and a pool of three threads *)

Definition d0 : AsyncDispatcher := construct 1 3.

Lemma construct_wf kCount kPool : wf (construct kCount kPool).
Proof.
  split; cbn.
  - intros p Hp%elem_of_seq. apply lookup_lt_is_Some_2. rewrite length_replicate. lia.
  - intros p Hp%elem_of_seq. apply lookup_lt_is_Some_2. rewrite length_replicate. lia.
  - intros t p. by rewrite lookup_empty.
Qed.

Lemma upload_routes_witness :
  exists d' q, uploadToHandler d0 5 kExecuteInPool 0 (Some 9%nat) None = Done d' /\
    gives d0 d' q (Scheduler.MkTask 5 0 None (Some 9%nat))
    /\ ((exists pre post, pool_ d0 = pre ++ q :: post /\ free d0 q /\ Forall (fun p => ¬ free d0 p) pre)
        \/ (Forall (fun p => ¬ free d0 p) (pool_ d0) /\ q = length (schedulers d0))).
Proof.
  apply (upload_routes d0 5 kExecuteInPool 0 (Some 9%nat) None).
  - apply construct_wf.
  - reflexivity.
  - unfold kExecuteInPool. lia.
  - done.
Defined.

Lemma bind_fresh_witness :
  exists d' tid, bind d0 (Some 2%nat) = Done (d', Some tid) /\ kHandlersCount d0 <= tid /\ contexts d0 !! tid = None
    /\ contexts d' !! tid = Some 2%nat
    /\ (forall t, is_Some (contexts d' !! t) -> kHandlersCount d' <= t < kHandlersCount d' + next_tid_offset d')
    /\ (unbind d' tid).2 = true /\ contexts (unbind d' tid).1 = contexts d0.
Proof.
  apply bind_fresh.
  - apply construct_wf.
  - vm_compute. by eexists.
  - intros t. cbn. rewrite lookup_empty. by intros [? ?].
  - done.
  - vm_compute. reflexivity.
Defined.

Lemma repeat_unbound_runs_once_witness :
  exists d' q, repeat d0 5 17 100 (Some 9%nat) (Some 4%nat) = Done d'
    /\ gives d0 d' q (Scheduler.MkTask 5 100 None (Some 9%nat)).
Proof.
  apply repeat_unbound_runs_once.
  - apply construct_wf.
  - reflexivity.
  - vm_compute. split; [discriminate|reflexivity].
  - reflexivity.
Defined.

End Dispatcher.
