(* ===== verification/Locks.v ===== *)
(** * Locks: the mutexes of the subscription engine

    Which mutex every operation of [src/src/se/impl/] takes, in which order, and what it
    touches while it holds it: [subscriber_impl.hpp], [subscription_engine.hpp],
    [subscription_manager.hpp], [async_dispatcher_impl.hpp] and [scheduler_impl.hpp].  An
    operation is a program of guarded blocks, which may also wait for other threads to
    end; threads run any sequence of operations and interleave.  The values themselves are in [Subscription], [Dispatcher] and
    [Scheduler]; here an operation is told what it finds. *)

From S2P Require Import Prelude.

Module Locks.

(** ** Mutexes, variables and programs *)

Inductive Mutex : Type :=
| subscriptions_cs_ (s : nat)            (** of a subscriber *)
| engines_cs_                            (** of the manager *)
| subscribers_map_cs_ (e : nat)          (** of an engine *)
| subscribers_list_cs (e k : nat)        (** of a key of an engine *)
| bound_cs_                              (** of the dispatcher's bound contexts *)
| tasks_cs_ (h : nat)                    (** of a scheduler *)
| wait_m_ (h : nat).                     (** of a scheduler's event *)

#[export] Instance Mutex_eq_dec : EqDecision Mutex.
Proof. solve_decision. Defined.

Inductive Var : Type :=
| subscriptions_sets_ (s : nat) | engines_ | subscribers_map_ (e : nat) | subscribers_list (e k : nat)
| dispatcher_ (e : nat) | bound_ | tasks_ (h : nat) | flag_ (h : nat)
| on_notify_callback_ (s : nat) | object_ (s : nat).

#[export] Instance Var_eq_dec : EqDecision Var.
Proof. solve_decision. Defined.

(** A guard is exclusive or shared; a mutex can be destroyed with the object it is in; a
    thread can wait for others, given by their numbers, to be done. *)
Inductive Prog : Type :=
| Skip
| Seq (p q : Prog)
| Guard (m : Mutex) (exclusive : bool) (p : Prog)
| Touch (x : Var) (write : bool)
| Destroy (m : Mutex)
| Await (js : list nat).

Declare Scope prog_scope.
Delimit Scope prog_scope with prog.
Bind Scope prog_scope with Prog.
Notation "p ⨾ q" := (Seq p q) (at level 66, right associativity) : prog_scope.
#[local] Open Scope prog_scope.

Definition each {A} (f : A -> Prog) (l : list A) : Prog := foldr (fun a p => f a ⨾ p) Skip l.

(** ** The operations *)

(** *** Scheduler *)

Definition event_set (h : nat) : Prog := Guard (wait_m_ h) true (Touch (flag_ h) true).

(** [wait_cv_.wait_for]: the predicate is evaluated under the mutex, which is released
    while the thread blocks and taken again at each of its [wakes] wake-ups; the timeout
    is the last of them at the latest. *)
Definition event_wait (h wakes : nat) : Prog :=
  each (fun _ => Guard (wait_m_ h) true (Touch (flag_ h) true)) (seq 0 (S wakes)).

(** [add] is called with the mutex held. *)
Definition scheduler_add (h : nat) : Prog := Touch (tasks_ h) true ⨾ event_set h.
Definition extractExpired (h : nat) : Prog := Guard (tasks_cs_ h) true (Touch (tasks_ h) true).
Definition untilFirst (h : nat) : Prog := Guard (tasks_cs_ h) true (Touch (tasks_ h) false).
Definition isBusy (h : nat) : Prog := Guard (tasks_cs_ h) true (Touch (tasks_ h) false).
Definition addDelayed (h : nat) : Prog := Guard (tasks_cs_ h) true (scheduler_add h).
Definition uploadIfFree (h : nat) (busy : bool) : Prog :=
  Guard (tasks_cs_ h) true (Touch (tasks_ h) false ⨾ if busy then Skip else scheduler_add h).
Definition scheduler_dispose (h : nat) : Prog := event_set h.

(** A round of [process] without a task; the task of another round runs between
    [extractExpired] and, when it repeats, [addDelayed]. *)
Definition idle_round (h wakes : nat) : Prog := extractExpired h ⨾ untilFirst h ⨾ event_wait h wakes.

(** [ThreadHandler::dispose]: the thread [j] of the scheduler is joined; a temporary
    handler disposes of itself and detaches its thread. *)
Definition handler_dispose (h j : nat) : Prog := scheduler_dispose h ⨾ Await [j].
Definition handler_detach (h : nat) : Prog := scheduler_dispose h.

(** *** Dispatcher *)

(** Where [uploadToHandler] leaves a task: the schedulers of the pool it finds busy come
    first; a temporary handler is one nobody else knows. *)
Inductive Route : Type :=
| Disposed | ToHandler (h : nat) | ToBound (h : nat) | ToPool (busy : list nat) (h : nat) | ToTemporary (busy : list nat) (h : nat).

Definition find_bound : Prog := Guard bound_cs_ false (Touch bound_ false).

Definition uploadToHandler (r : Route) : Prog :=
  match r with
  | Disposed => Skip
  | ToHandler h => addDelayed h
  | ToBound h => find_bound ⨾ addDelayed h
  | ToPool busy h => find_bound ⨾ each (fun b => uploadIfFree b true) busy ⨾ uploadIfFree h false
  | ToTemporary busy h => find_bound ⨾ each (fun b => uploadIfFree b true) busy ⨾ addDelayed h
  end.

(** [AsyncDispatcher::dispose]: the handlers and the pool, with their threads, and then the
    loop that waits until the tasks of the temporary handlers, on the threads [temps], are
    done. *)
Definition dispatcher_dispose (hs : list (nat * nat)) (temps : list nat) : Prog :=
  each (fun hj => handler_dispose hj.1 hj.2) hs ⨾ Await temps.

Definition bind : Prog := Guard bound_cs_ true (Touch bound_ true).
Definition unbind : Prog := Guard bound_cs_ true (Touch bound_ true).

(** *** Engine *)

Definition engine_dispose (e : nat) : Prog := Touch (dispatcher_ e) true.

Definition engine_subscribe (e k : nat) : Prog :=
  Guard (subscribers_map_cs_ e) true
    (Touch (subscribers_map_ e) true ⨾ Guard (subscribers_list_cs e k) true (Touch (subscribers_list e k) true)).

(** Whether the key is found, and whether its list is empty afterwards: then the context
    is erased from the map, with the mutex in it. *)
Definition engine_unsubscribe (e k : nat) (found : option bool) : Prog :=
  Guard (subscribers_map_cs_ e) true
    (Touch (subscribers_map_ e) false ⨾
     match found with
     | None => Skip
     | Some last =>
         Guard (subscribers_list_cs e k) true
           (Touch (subscribers_list e k) true ⨾
            if last then Touch (subscribers_map_ e) true ⨾ Destroy (subscribers_list_cs e k) else Skip)
     end).

Definition engine_size (e k : nat) (found : bool) : Prog :=
  Guard (subscribers_map_cs_ e) false
    (Touch (subscribers_map_ e) false ⨾
     if found then Guard (subscribers_list_cs e k) true (Touch (subscribers_list e k) false) else Skip).

(** Nothing without a dispatcher or without the key; otherwise a task for each live
    subscriber, expired ones being erased. *)
Definition engine_notify (e k : nat) (found : option (option (list Route))) : Prog :=
  Touch (dispatcher_ e) false ⨾
  match found with
  | None => Skip
  | Some o =>
      Guard (subscribers_map_cs_ e) false
        (Touch (subscribers_map_ e) false ⨾
         match o with
         | None => Skip
         | Some routes => Guard (subscribers_list_cs e k) true (Touch (subscribers_list e k) true ⨾ each uploadToHandler routes)
         end)
  end.

(** *** Subscriber *)

(** The engine [e], if it still exists; whether the key is new in the set. *)
Definition subscribe (s : nat) (engine : option nat) (k : nat) (inserted : bool) : Prog :=
  match engine with
  | None => Skip
  | Some e => Guard (subscriptions_cs_ s) true (Touch (subscriptions_sets_ s) true ⨾ if inserted then engine_subscribe e k else Skip)
  end.

(** The three ways to unsubscribe: from the keys in [ks], with what the engine finds. *)
Definition unsubscribe (s : nat) (engine : option nat) (ks : list (nat * option bool)) : Prog :=
  Guard (subscriptions_cs_ s) true
    (Touch (subscriptions_sets_ s) true ⨾
     match engine with None => Skip | Some e => each (fun kf => engine_unsubscribe e kf.1 kf.2) ks end).

(** Neither [setCallback] nor [on_notify] takes a mutex; [on_notify] passes the receiver
    object on to the callback, if there is one, and [get] to its caller: [w] is whether it
    is written. *)
Definition setCallback (s : nat) : Prog := Touch (on_notify_callback_ s) true.
Definition on_notify (s : nat) (callback : option bool) : Prog :=
  Touch (on_notify_callback_ s) false ⨾ match callback with None => Skip | Some w => Touch (object_ s) w end.
Definition get (s : nat) (w : bool) : Prog := Touch (object_ s) w.

(** *** Manager *)

Definition getEngine (found again : bool) : Prog :=
  Guard engines_cs_ false (Touch engines_ false) ⨾
  if found then Skip
  else Guard engines_cs_ true (Touch engines_ false ⨾ if again then Skip else Touch engines_ true).

Definition notify (engine : option nat) (k : nat) (found : option (option (list Route))) : Prog :=
  Guard engines_cs_ false (Touch engines_ false) ⨾
  match engine with None => Skip | Some e => engine_notify e k found end.

(** [first]: whether [disposed_] was not set before. The dispatcher is disposed of after
    the guard. *)
Definition manager_dispose (first : bool) (engines : list nat) (hs : list (nat * nat)) (temps : list nat) : Prog :=
  if first then
    Guard engines_cs_ false (Touch engines_ false ⨾ each engine_dispose engines) ⨾ dispatcher_dispose hs temps
  else Skip.

Inductive Op : Type :=
| OExtract (h : nat) | OIdle (h wakes : nat) | OAgain (h : nat) | OBusy (h : nat) | OUpload (r : Route) | OBind | OUnbind
| OSubscribe (s : nat) (engine : option nat) (k : nat) (inserted : bool)
| OUnsubscribe (s : nat) (engine : option nat) (ks : list (nat * option bool))
| OSize (e k : nat) (found : bool)
| OGetEngine (found again : bool)
| ONotify (engine : option nat) (k : nat) (found : option (option (list Route)))
| ODispose (first : bool) (engines : list nat) (hs : list (nat * nat)) (temps : list nat)
| ODetach (h : nat)
| OSetCallback (s : nat) | OOnNotify (s : nat) (callback : option bool) | OGet (s : nat) (w : bool).

Definition prog_of (o : Op) : Prog :=
  match o with
  | OExtract h => extractExpired h
  | OIdle h n => idle_round h n
  | OAgain h => addDelayed h
  | OBusy h => isBusy h
  | OUpload r => uploadToHandler r
  | OBind => bind
  | OUnbind => unbind
  | OSubscribe s e k i => subscribe s e k i
  | OUnsubscribe s e ks => unsubscribe s e ks
  | OSize e k f => engine_size e k f
  | OGetEngine f a => getEngine f a
  | ONotify e k f => notify e k f
  | ODispose f es hs ts => manager_dispose f es hs ts
  | ODetach h => handler_detach h
  | OSetCallback s => setCallback s
  | OOnNotify s c => on_notify s c
  | OGet s w => get s w
  end.

(** ** Threads *)

Inductive Instr : Type := Acquire (m : Mutex) (exclusive : bool) | Release (m : Mutex) (exclusive : bool) | Access (x : Var) (write : bool) | Kill (m : Mutex) | Join (js : list nat).

Fixpoint flatten (p : Prog) : list Instr :=
  match p with
  | Skip => []
  | Seq p q => flatten p ++ flatten q
  | Guard m ex p => Acquire m ex :: flatten p ++ [Release m ex]
  | Touch x w => [Access x w]
  | Destroy m => [Kill m]
  | Await js => [Join js]
  end.

Record Thread : Type := MkThread { held : list (Mutex * bool); rest : list Instr }.

(** The mutexes that were destroyed; a mutex that is made anew has another address. *)
Record State : Type := MkState { threads : list Thread; destroyed : list Mutex }.

Definition program (ops : list Op) : list Instr := ops ≫= fun o => flatten (prog_of o).
Definition start (opss : list (list Op)) : State := MkState ((fun ops => MkThread [] (program ops)) <$> opss) [].

(** Whether a mutex can be taken: exclusively when nobody has it, shared when nobody has
    it exclusively; a [shared_mutex] may in addition let waiting writers go first. *)
Definition holds (m : Mutex) (t : Thread) : bool := existsb (fun h => bool_decide (h.1 = m)) (held t).
Definition holds_exclusively (m : Mutex) (t : Thread) : bool := bool_decide ((m, true) ∈ held t).
Definition awaits (m : Mutex) (t : Thread) : bool :=
  match rest t with Acquire m' true :: _ => bool_decide (m' = m) | _ => false end.

Definition available (writers_first : bool) (st : State) (m : Mutex) (exclusive : bool) : bool :=
  if exclusive then negb (existsb (holds m) (threads st))
  else negb (existsb (holds_exclusively m) (threads st)) && negb (writers_first && existsb (awaits m) (threads st)).

(** Whether the threads are done. *)
Definition done_ (st : State) (js : list nat) : bool :=
  forallb (fun j => match threads st !! j with Some t => bool_decide (rest t = []) | None => true end) js.

Definition set_thread (st : State) (i : nat) (t : Thread) (d : list Mutex) : State := MkState (<[i := t]> (threads st)) (d ++ destroyed st).

Definition step (wf : bool) (st : State) (i : nat) : option State :=
  t ← threads st !! i;
  match rest t with
  | [] => None
  | Acquire m ex :: l => if available wf st m ex then Some (set_thread st i (MkThread ((m, ex) :: held t) l) []) else None
  | Release m ex :: l => Some (set_thread st i (MkThread (tail (held t)) l) [])
  | Access x w :: l => Some (set_thread st i (MkThread (held t) l) [])
  | Kill m :: l => Some (set_thread st i (MkThread (held t) l) [m])
  | Join js :: l => if done_ st js then Some (set_thread st i (MkThread (held t) l) []) else None
  end.

Fixpoint exec (wf : bool) (st : State) (sched : list nat) : option State :=
  match sched with [] => Some st | i :: sched => st' ← step wf st i; exec wf st' sched end.

Definition finished (st : State) : Prop := Forall (fun t => rest t = []) (threads st).

(** ** The discipline *)

(** The order in which mutexes are taken. *)
Definition rank (m : Mutex) : nat :=
  match m with
  | subscriptions_cs_ _ | engines_cs_ => 0
  | subscribers_map_cs_ _ => 1
  | subscribers_list_cs _ _ => 2
  | bound_cs_ => 3
  | tasks_cs_ _ => 4
  | wait_m_ _ => 5
  end.

(** The mutex that protects a variable; the dispatcher of an engine, the callback of a
    subscriber and its receiver object have none. *)
Definition guard_of (x : Var) : option Mutex :=
  match x with
  | subscriptions_sets_ s => Some (subscriptions_cs_ s)
  | engines_ => Some engines_cs_
  | subscribers_map_ e => Some (subscribers_map_cs_ e)
  | subscribers_list e k => Some (subscribers_list_cs e k)
  | dispatcher_ _ | on_notify_callback_ _ | object_ _ => None
  | bound_ => Some bound_cs_
  | tasks_ h => Some (tasks_cs_ h)
  | flag_ h => Some (wait_m_ h)
  end.

Definition below (n : nat) (hs : list (Mutex * bool)) : Prop := Forall (fun h => (rank h.1 < n)%nat) hs.

Definition protected (x : Var) (w : bool) (hs : list (Mutex * bool)) : Prop :=
  match guard_of x with
  | None => True
  | Some m => (m, true) ∈ hs \/ (w = false /\ (m, false) ∈ hs)
  end.

Fixpoint checked (hs : list (Mutex * bool)) (p : Prog) : Prop :=
  match p with
  | Skip | Destroy _ => True
  | Seq p q => checked hs p /\ checked hs q
  | Guard m ex p => below (rank m) hs /\ checked ((m, ex) :: hs) p
  | Touch x w => protected x w hs
  | Await _ => hs = []
  end.

Fixpoint disciplined (hs : list (Mutex * bool)) (l : list Instr) : Prop :=
  match l with
  | [] => hs = []
  | Acquire m ex :: l => below (rank m) hs /\ disciplined ((m, ex) :: hs) l
  | Release m ex :: l => exists hs', hs = (m, ex) :: hs' /\ disciplined hs' l
  | Access x w :: l => protected x w hs /\ disciplined hs l
  | Kill _ :: l => disciplined hs l
  | Join _ :: l => hs = [] /\ disciplined hs l
  end.

Lemma checked_disciplined hs p l : checked hs p -> disciplined hs l -> disciplined hs (flatten p ++ l).
Proof.
  revert hs l. induction p as [|p IHp q IHq|m ex p IHp|x w|m|js]; cbn; intros hs l Hp Hl; try done.
  - rewrite <- app_assoc. apply IHp; [tauto|]. apply IHq; tauto.
  - split; [tauto|]. rewrite <- app_assoc. apply IHp; [tauto|]. cbn. eauto.
Qed.

Lemma checked_each {A} hs (f : A -> Prog) l : (forall a, checked hs (f a)) -> checked hs (each f l).
Proof. intros Hf. induction l; cbn; auto. Qed.

Lemma below_cons n h hs : below n (h :: hs) <-> (rank h.1 < n)%nat /\ below n hs.
Proof. unfold below. by rewrite Forall_cons. Qed.

Lemma below_mono n n' hs : below n hs -> (n <= n')%nat -> below n' hs.
Proof. intros H Hn. eapply Forall_impl; [exact H|]. cbn. lia. Qed.

Ltac member := solve [repeat first [apply list_elem_of_here | apply list_elem_of_further]].

(** Guards in order, variables under their mutex. *)
Ltac guards :=
  repeat match goal with
  | |- _ /\ _ => split
  | |- True => exact I
  | |- [] = [] => reflexivity
  | |- checked _ (each _ _) => apply checked_each; intros ?
  | |- below _ [] => constructor
  | |- below _ (_ :: _) => apply below_cons; cbn
  | |- (_ < _)%nat => lia
  | H : below _ ?hs |- below _ ?hs => apply (below_mono _ _ _ H); cbn; lia
  | |- protected _ _ _ => unfold protected; cbn
  | |- _ ∈ _ \/ _ => solve [left; member | right; split; [reflexivity|member]]
  | |- checked _ _ => cbn
  end.

Lemma uploadToHandler_checked r hs : below 3 hs -> checked hs (uploadToHandler r).
Proof. intros Hhs. destruct r; unfold find_bound, addDelayed, uploadIfFree, scheduler_add, event_set; guards. Qed.

Lemma engine_unsubscribe_checked e k found hs : below 1 hs -> checked hs (engine_unsubscribe e k found).
Proof. intros Hhs. destruct found as [[]|]; guards. Qed.

Lemma event_wait_checked h n hs : below 5 hs -> checked hs (event_wait h n).
Proof. intros Hhs. apply checked_each. intros _. guards. Qed.

Lemma prog_of_checked o : checked [] (prog_of o).
Proof.
  destruct o as [h|h n|h|h|r| | |s e k i|s e ks|e k f|f a|e k f|f es hs ts|h|s|s c|s w]; cbn [prog_of].
  all: try by guards.
  - split; [guards|]. split; [guards|]. apply event_wait_checked. constructor.
  - apply uploadToHandler_checked. constructor.
  - destruct e; [destruct i|]; guards.
  - destruct e; guards. apply engine_unsubscribe_checked. guards.
  - destruct f; guards.
  - destruct f; [|destruct a]; guards.
  - destruct e, f as [[]|]; guards. apply uploadToHandler_checked. guards.
  - destruct f; [unfold manager_dispose, dispatcher_dispose, handler_dispose|]; guards.
  - destruct c; guards.
Qed.

Lemma program_disciplined ops : disciplined [] (program ops).
Proof. induction ops as [|o ops IH]; [done|]. apply checked_disciplined; [apply prog_of_checked|exact IH]. Qed.

(** ** What holds at every moment *)

Record sound (st : State) : Prop := MkSound {
  all_disciplined : forall i t, threads st !! i = Some t -> disciplined (held t) (rest t);
  exclusion : forall i j t t' m ex ex', i <> j -> threads st !! i = Some t -> threads st !! j = Some t' ->
    (m, ex) ∈ held t -> (m, ex') ∈ held t' -> ex = false /\ ex' = false
}.

Lemma holds_spec m t : holds m t = true <-> exists ex, (m, ex) ∈ held t.
Proof.
  unfold holds. rewrite existsb_exists. setoid_rewrite <- list_elem_of_In. setoid_rewrite bool_decide_eq_true. split.
  - intros ([m' ex] & H & E). cbn in E. subst. eauto.
  - intros [ex H]. by exists (m, ex).
Qed.

Lemma available_spec wf st m ex i t ex' :
  available wf st m ex = true -> threads st !! i = Some t -> (m, ex') ∈ held t -> ex = false /\ ex' = false.
Proof.
  unfold available. intros Ha Ht%list_elem_of_lookup_2%list_elem_of_In Hm. destruct ex.
  - apply negb_true_iff, not_true_iff_false in Ha. destruct Ha. apply existsb_exists. exists t. split; [done|].
    apply holds_spec. eauto.
  - apply andb_true_iff in Ha as [Ha _]. destruct ex'; [|done].
    apply negb_true_iff, not_true_iff_false in Ha. destruct Ha. apply existsb_exists. exists t. split; [done|].
    by apply bool_decide_eq_true.
Qed.

(** Who stands in the way: a holder, or a writer that goes first. *)
Lemma unavailable wf st m ex :
  available wf st m ex = false ->
  exists i t, threads st !! i = Some t /\ ((exists ex', (m, ex') ∈ held t) \/ ex = false /\ awaits m t = true).
Proof.
  assert (forall f, existsb f (threads st) = true -> exists i t, threads st !! i = Some t /\ f t = true) as Hex.
  { intros f (t & Ht & Hf)%existsb_exists. apply list_elem_of_In, list_elem_of_lookup_1 in Ht as [i Hi]. eauto. }
  unfold available. destruct ex.
  - intros (i & t & Ht & Hm)%negb_false_iff%Hex. apply holds_spec in Hm. eauto 6.
  - intros [Ha|Ha]%andb_false_iff; apply negb_false_iff in Ha.
    + apply Hex in Ha as (i & t & Ht & Hm). apply bool_decide_eq_true in Hm. eauto 6.
    + apply andb_true_iff in Ha as [_ Ha]. apply Hex in Ha as (i & t & Ht & Hm). eauto 6.
Qed.

(** A step changes one thread, which goes on by one instruction. *)
Definition kills (ins : Instr) : list Mutex := match ins with Kill m => [m] | _ => [] end.

Lemma step_inv wf st i st' :
  step wf st i = Some st' -> exists t ins l hs, threads st !! i = Some t /\ rest t = ins :: l
    /\ st' = set_thread st i (MkThread hs l) (kills ins)
    /\ match ins with
       | Acquire m ex => hs = (m, ex) :: held t /\ available wf st m ex = true
       | Release _ _ => hs = tail (held t)
       | Join js => hs = held t /\ done_ st js = true
       | _ => hs = held t
       end.
Proof.
  unfold step. destruct (threads st !! i) as [t|] eqn:Ht; [|done]. cbn. destruct (rest t) as [|ins l] eqn:Hr; [done|].
  intros Hs. exists t, ins, l. destruct ins as [m ex|m ex|x w|m|js]; [destruct (available wf st m ex) eqn:Ha; [|done]| | | |destruct (done_ st js) eqn:Ha; [|done]];
    injection Hs as <-; by eexists.
Qed.

Lemma set_thread_lookup st i t d j t' :
  threads (set_thread st i t d) !! j = Some t' -> (j = i /\ t' = t) \/ (j <> i /\ threads st !! j = Some t').
Proof. cbn. intros [(-> & -> & _)|[Hj Hl]]%list_lookup_insert_Some; auto. Qed.

Lemma sound_step wf st i st' : sound st -> step wf st i = Some st' -> sound st'.
Proof.
  intros [Hd Hx] (t & ins & l & hs & Ht & Hr & -> & Hcase)%step_inv.
  pose proof (Hd i t Ht) as Hdt. rewrite Hr in Hdt.
  assert (disciplined hs l) as Hnew.
  { destruct ins as [m ex|m ex|x w|m|js]; [destruct Hcase as [-> _]|rewrite Hcase..|destruct Hcase as [-> _]]; [apply Hdt| |apply Hdt..].
    by destruct Hdt as (hs' & -> & Hl). }
  assert (forall m ex j t' ex', j <> i -> threads st !! j = Some t' -> (m, ex) ∈ hs -> (m, ex') ∈ held t' -> ex = false /\ ex' = false) as Hnx.
  { intros m ex j t' ex' Hj Ht' Hm Hm'. assert ((m, ex) ∈ held t \/ available wf st m ex = true) as [Hold|Ha].
    - destruct ins as [m1 ex1|m1 ex1|x w|m1|js]; [destruct Hcase as [-> Ha]|subst hs..|destruct Hcase as [-> _]]; [|left|by left..].
      + apply elem_of_cons in Hm as [[= -> ->]|Hm]; auto.
      + destruct (held t); [done|]. by apply list_elem_of_further.
    - by eapply (Hx i j).
    - by eapply available_spec. }
  split.
  - intros j t' [[-> ->]|[_ Hj]]%set_thread_lookup; [exact Hnew|by eapply Hd].
  - intros j k tj tk m ex ex' Hjk Hj%set_thread_lookup Hk%set_thread_lookup Hm Hm'.
    destruct Hj as [[-> ->]|[Hji Hj]], Hk as [[-> ->]|[Hki Hk]]; [done|by eapply (Hnx m ex k)| |by eapply (Hx j k)].
    apply and_comm. by eapply (Hnx m ex' j).
Qed.

Lemma sound_start opss : sound (start opss).
Proof.
  split; cbn.
  - intros i t (ops & -> & _)%list_lookup_fmap_Some. apply program_disciplined.
  - intros i j t t' m ex ex' _ (ops & -> & _)%list_lookup_fmap_Some _ Hm. by apply elem_of_nil in Hm.
Qed.

(** ** Progress *)

Lemma moves_unless_acquire wf st i t ins l :
  threads st !! i = Some t -> rest t = ins :: l -> (forall m ex, ins <> Acquire m ex) -> (forall js, ins = Join js -> done_ st js = true) ->
  is_Some (step wf st i).
Proof.
  intros Ht Hr Hn Hj. unfold step. rewrite Ht. cbn. rewrite Hr. destruct ins; [by destruct (Hn m exclusive)|eauto..|].
  rewrite (Hj js) by done. eauto.
Qed.

(** A thread that holds a mutex can go on or waits for one of a higher rank. *)
Lemma holder_moves wf st i t m ex :
  sound st -> threads st !! i = Some t -> (m, ex) ∈ held t ->
  is_Some (step wf st i) \/ exists m' ex' l, rest t = Acquire m' ex' :: l /\ (rank m < rank m')%nat.
Proof.
  intros [Hd _] Ht Hm. pose proof (Hd i t Ht) as Hdt. destruct (rest t) as [|ins l] eqn:Hr.
  { cbn in Hdt. rewrite Hdt in Hm. by apply elem_of_nil in Hm. }
  destruct ins as [m' ex'|m' ex'|x w|m'|js]; [right|left; by eapply moves_unless_acquire..|].
  2: { cbn in Hdt. destruct Hdt as [Hdt _]. rewrite Hdt in Hm. by apply elem_of_nil in Hm. }
  exists m', ex', l. split; [done|]. destruct Hdt as [Hb _]. unfold below in Hb. rewrite Forall_forall in Hb. apply (Hb _ Hm).
Qed.

Lemma rank_bound m : (rank m <= 5)%nat.
Proof. destruct m; cbn; lia. Qed.

Lemma waiting_moves wf st i t m ex l :
  sound st -> threads st !! i = Some t -> rest t = Acquire m ex :: l -> exists j, is_Some (step wf st j).
Proof.
  intros Hs. remember (5 - rank m)%nat as n eqn:Hn. revert i t m ex l Hn.
  induction (lt_wf n) as [n _ IH]. intros i t m ex l Hn Ht Hr.
  assert (forall j t' ex', threads st !! j = Some t' -> (m, ex') ∈ held t' -> exists k, is_Some (step wf st k)) as Hheld.
  { intros j t' ex' Ht' Hm'. destruct (holder_moves wf st j t' m ex' Hs Ht' Hm') as [Hj|(m2 & ex2 & l2 & Hr2 & Hlt)]; [eauto|].
    pose proof (rank_bound m2). eapply (IH (5 - rank m2)%nat); eauto. lia. }
  assert (forall j t' l', threads st !! j = Some t' -> rest t' = Acquire m true :: l' -> exists k, is_Some (step wf st k)) as Hwriter.
  { intros j t' l' Ht' Hr'. destruct (available wf st m true) eqn:Ha.
    - exists j. unfold step. rewrite Ht'. cbn. rewrite Hr', Ha. eauto.
    - apply unavailable in Ha as (k & tk & Hk & [[ex' Hm']|[? _]]); [by eapply Hheld|done]. }
  destruct (available wf st m ex) eqn:Ha.
  - exists i. unfold step. rewrite Ht. cbn. rewrite Hr, Ha. eauto.
  - apply unavailable in Ha as (k & tk & Hk & [[ex' Hm']|[_ Hw]]); [by eapply Hheld|].
    unfold awaits in Hw. destruct (rest tk) as [|[m' []| | | |] l'] eqn:Hrk; try done. apply bool_decide_eq_true in Hw. subst. by eapply Hwriter.
Qed.

(** *** Waiting for threads *)

(** A thread that others wait for does not itself wait for others. *)
Definition joins (t : Thread) (js : list nat) : Prop := Join js ∈ rest t.
Definition ordered (st : State) : Prop :=
  forall i t js j t' js', threads st !! i = Some t -> joins t js -> j ∈ js -> threads st !! j = Some t' -> ~ joins t' js'.

Lemma ordered_step wf st i st' : ordered st -> step wf st i = Some st' -> ordered st'.
Proof.
  intros Ho (t & ins & l & hs & Ht & Hr & -> & _)%step_inv.
  assert (forall k tk, threads (set_thread st i (MkThread hs l) (kills ins)) !! k = Some tk ->
    exists tk0, threads st !! k = Some tk0 /\ forall js, joins tk js -> joins tk0 js) as Hold.
  { intros k tk [[-> ->]|[_ Hk]]%set_thread_lookup; [|by eauto]. exists t. split; [done|]. intros js Hj. unfold joins in *. cbn in Hj.
    rewrite Hr. by apply list_elem_of_further. }
  intros i1 t1 js j t2 js' (t10 & H10 & Hj1)%Hold H1 Hin (t20 & H20 & Hj2)%Hold H2.
  exact (Ho i1 t10 js j t20 js' H10 (Hj1 _ H1) Hin H20 (Hj2 _ H2)).
Qed.

Lemma not_done st js : done_ st js = false -> exists j t ins l, j ∈ js /\ threads st !! j = Some t /\ rest t = ins :: l.
Proof.
  unfold done_. intros Hf. apply not_true_iff_false in Hf. setoid_rewrite forallb_forall in Hf.
  assert (exists j, j ∈ js /\ match threads st !! j with Some t => bool_decide (rest t = []) | None => true end = false) as (j & Hj & Hb).
  { destruct (decide (Forall (fun j => match threads st !! j with Some t => bool_decide (rest t = []) | None => true end = true) js)) as [Ha|Ha].
    - destruct Hf. intros j Hj%list_elem_of_In. by eapply Forall_forall in Ha.
    - apply not_Forall_Exists in Ha; [|intros ?; apply _]. apply Exists_exists in Ha as (j & Hj & Hb). exists j. split; [done|].
      by apply not_true_iff_false. }
  destruct (threads st !! j) as [t|] eqn:Ht; [|done]. apply bool_decide_eq_false in Hb. destruct (rest t) as [|ins l] eqn:Hr; [done|].
  by eauto 8.
Qed.

Lemma progress wf st : sound st -> ordered st -> finished st \/ exists i, is_Some (step wf st i).
Proof.
  intros Hs Ho. destruct (decide (finished st)) as [Hf|Hf]; [by left|right].
  apply not_Forall_Exists in Hf; [|intros ?; apply _]. apply Exists_exists in Hf as (t & [i Hi]%list_elem_of_lookup_1 & Hr).
  destruct (rest t) as [|ins l] eqn:E; [done|]. destruct ins as [m ex| | | |js]; [by eapply waiting_moves|exists i; by eapply moves_unless_acquire..|].
  destruct (done_ st js) eqn:Hd; [exists i; eapply moves_unless_acquire; [done..|]; by intros js' [= <-]|].
  apply not_done in Hd as (j & tj & ins & lj & Hj & Htj & Hrj).
  assert (forall js', ins <> Join js') as Hn.
  { intros js' ->. apply (Ho i t js j tj js' Hi); unfold joins; [rewrite E; by apply list_elem_of_here|done..|]. rewrite Hrj. by apply list_elem_of_here. }
  destruct ins as [m ex| | | |js']; [by eapply waiting_moves|exists j; by eapply moves_unless_acquire..|by destruct (Hn js')].
Qed.

(** The instructions left. *)
Definition remaining (st : State) : nat := sum_list ((fun t => length (rest t)) <$> threads st).

Lemma sum_insert (ts : list Thread) i t t' :
  ts !! i = Some t -> length (rest t) = S (length (rest t')) ->
  sum_list ((fun t => length (rest t)) <$> ts) = S (sum_list ((fun t => length (rest t)) <$> <[i := t']> ts)).
Proof.
  revert i. induction ts as [|u ts IH]; intros [|i] Hi Hl; cbn in Hi; simplify_eq; rewrite !fmap_cons; cbn [sum_list].
  - cbn. unfold id. lia.
  - rewrite (IH i Hi Hl). change (<[S i := t']> (u :: ts)) with (u :: <[i := t']> ts). rewrite fmap_cons. cbn [sum_list]. unfold id. lia.
Qed.

Lemma step_remaining wf st i st' : step wf st i = Some st' -> remaining st = S (remaining st').
Proof.
  intros (t & ins & l & hs & Ht & Hr & -> & _)%step_inv. eapply sum_insert; [exact Ht|]. by rewrite Hr.
Qed.

Lemma exec_sound wf st sched st' :
  sound st -> exec wf st sched = Some st' -> sound st' /\ (ordered st -> ordered st') /\ remaining st = (length sched + remaining st')%nat.
Proof.
  revert st. induction sched as [|i sched IH]; cbn; intros st Hs He; [by simplify_eq|].
  destruct (step wf st i) as [st1|] eqn:H1; [|done]. destruct (IH st1) as (Hs' & Ho & Hr); [by eapply sound_step|done|].
  split; [done|]. split; [intros; apply Ho; by eapply ordered_step|]. apply step_remaining in H1. lia.
Qed.

Lemma can_finish wf st : sound st -> ordered st -> exists more st', exec wf st more = Some st' /\ finished st'.
Proof.
  remember (remaining st) as n eqn:Hn. revert st Hn. induction n as [n IH] using lt_wf_ind. intros st -> Hs Ho.
  destruct (progress wf st Hs Ho) as [Hf|(i & st1 & H1)]; [by exists [], st|].
  destruct (IH (remaining st1)) with (st := st1) as (more & st' & He & Hf); [|done|by eapply sound_step|by eapply ordered_step|].
  - rewrite (step_remaining wf st i st1 H1). lia.
  - exists (i :: more), st'. cbn. by rewrite H1.
Qed.

(** The threads an operation waits for: those of the handlers, of the pool and of the
    temporary handlers. *)
Definition awaited (o : Op) : list nat := match o with ODispose true _ hs ts => (hs.*2) ++ ts | _ => [] end.

Definition is_dispose (o : Op) : Prop := match o with ODispose true _ _ _ => True | _ => False end.

(** No thread of the dispatcher disposes of the manager. *)
Definition workers_never_dispose (opss : list (list Op)) : Prop :=
  forall ops o j ops' o', ops ∈ opss -> o ∈ ops -> j ∈ awaited o -> opss !! j = Some ops' -> o' ∈ ops' -> ~ is_dispose o'.

Lemma Forall_flatten_each {A} (P : Instr -> Prop) (f : A -> Prog) l :
  (forall a, a ∈ l -> Forall P (flatten (f a))) -> Forall P (flatten (each f l)).
Proof.
  induction l as [|a l IH]; cbn; intros Hf; [constructor|]. apply Forall_app. split; [apply Hf, list_elem_of_here|].
  apply IH. intros b Hb. by apply Hf, list_elem_of_further.
Qed.

(** Every instruction of a program is of a kind. *)
Ltac every :=
  repeat match goal with
  | |- Forall _ (flatten (each _ _)) => apply Forall_flatten_each; intros ? ?
  | |- Forall _ (_ ++ _) => apply Forall_app; split
  | |- Forall _ (_ :: _) => constructor
  | |- Forall _ [] => constructor
  | |- Forall _ (flatten (event_wait _ _)) => unfold event_wait
  | |- Forall _ (flatten _) => progress cbn [flatten]
  end.

(** Look into the cases of an operation. *)
Ltac operations o :=
  destruct o as [h|h n|h|h|r| | |s e k i|s e ks|e k f|f a|e k f|f es hs ts|h|s|s c|s w]; cbn [prog_of];
  [ unfold extractExpired | unfold idle_round, extractExpired, untilFirst | unfold addDelayed, scheduler_add, event_set | unfold isBusy
  | destruct r; unfold uploadToHandler, find_bound, addDelayed, uploadIfFree, scheduler_add, event_set
  | unfold bind | unfold unbind | destruct e; [destruct i|]; unfold subscribe, engine_subscribe
  | destruct e; unfold unsubscribe, engine_unsubscribe | destruct f; unfold engine_size
  | destruct f; [|destruct a]; unfold getEngine
  | destruct e, f as [[]|]; unfold notify, engine_notify
  | destruct f; unfold manager_dispose, dispatcher_dispose, handler_dispose, scheduler_dispose, event_set, engine_dispose
  | unfold handler_detach, scheduler_dispose, event_set | unfold setCallback | destruct c; unfold on_notify | unfold get ].

(** The uploads within a notification. *)
Ltac uploads := repeat match goal with
  | |- Forall _ (flatten (uploadToHandler ?r)) => destruct r; unfold uploadToHandler, find_bound, addDelayed, uploadIfFree, scheduler_add, event_set; every
  | |- Forall _ (flatten (match ?o with _ => _ end)) => destruct o as [[]|] eqn:?; every
  end.

(** Only the disposal waits for threads, and for those it names. *)
Lemma joins_awaited o : Forall (fun ins => forall js, ins = Join js -> is_dispose o /\ js ⊆ awaited o) (flatten (prog_of o)).
Proof.
  operations o; every; uploads; try done; intros js [= <-]; (split; [done|]); cbn.
  - intros j [->|[]%elem_of_nil]%elem_of_cons. apply elem_of_app. left. apply list_elem_of_fmap. by eexists.
  - intros j Hj. apply elem_of_app. by right.
Qed.

Lemma program_joins ops js : Join js ∈ program ops -> exists o, o ∈ ops /\ is_dispose o /\ js ⊆ awaited o.
Proof.
  unfold program. intros (o & Hj & Ho)%list_elem_of_bind. exists o. split; [done|].
  pose proof (joins_awaited o) as Ha. rewrite Forall_forall in Ha. by apply (Ha _ Hj).
Qed.

Lemma ordered_start opss : workers_never_dispose opss -> ordered (start opss).
Proof.
  intros Hw i t js j t' js' (ops & -> & Hi)%list_lookup_fmap_Some Hj Hin (ops' & -> & Hi')%list_lookup_fmap_Some Hj'.
  apply program_joins in Hj as (o & Ho & _ & Hsub). apply program_joins in Hj' as (o' & Ho' & Hd & _).
  exact (Hw ops o j ops' o' (list_elem_of_lookup_2 _ _ _ Hi) Ho (Hsub j Hin) Hi' Ho' Hd).
Qed.

(** C15: no deadlock, with the asynchronous dispatcher. Whatever operations any number of
    threads perform on subscribers, engines, the manager, the dispatcher and its
    schedulers, however they interleave, and whether or not shared mutexes prefer writers:
    no schedule is longer than the instructions of all threads; and if the manager is not
    disposed of by one of the threads that its disposal joins or waits for (those of the
    handlers, of the pool and of the temporary handlers), the threads can go on after
    every schedule until all of them are done, the disposing one included. *)
Theorem subscriptions_deadlock_free wf opss sched st :
  exec wf (start opss) sched = Some st ->
  (length sched <= remaining (start opss))%nat
  /\ (workers_never_dispose opss ->
      (finished st \/ exists i, is_Some (step wf st i)) /\ exists more st', exec wf st more = Some st' /\ finished st').
Proof.
  intros He. destruct (exec_sound wf _ _ _ (sound_start opss) He) as (Hs & Ho & Hr).
  split; [lia|]. intros Hw. specialize (Ho (ordered_start opss Hw)). split; [by apply progress|by apply can_finish].
Qed.

(** The condition is needed: a worker whose task disposes of the manager waits for its own
    end. *)
Theorem dispose_from_worker wf :
  exists n st, exec wf (start [[OExtract 4; ODispose true [] [(4, 0)]%nat []]]) (replicate n 0%nat) = Some st
    /\ ~ finished st /\ forall i, step wf st i = None.
Proof.
  exists 9%nat. eexists. split; [by destruct wf; vm_compute|]. split.
  - intros Hf. apply Forall_cons in Hf as [Hf _]. done.
  - intros [|i]; by destruct wf; vm_compute.
Qed.

(** ** Races *)

Definition about_to (t : Thread) (x : Var) (w : bool) : Prop := exists l, rest t = Access x w :: l.

(** Two threads about to access the same variable, one of them to write. *)
Definition race (st : State) (x : Var) : Prop :=
  exists i j t t' w w', i <> j /\ threads st !! i = Some t /\ threads st !! j = Some t'
    /\ about_to t x w /\ about_to t' x w' /\ w || w' = true.

Lemma guarded_no_race st x m : sound st -> guard_of x = Some m -> ~ race st x.
Proof.
  intros [Hd Hx] Hg (i & j & t & t' & w & w' & Hij & Ht & Ht' & [l Hl] & [l' Hl'] & Hw).
  pose proof (Hd i t Ht) as H1. pose proof (Hd j t' Ht') as H2. rewrite Hl in H1. rewrite Hl' in H2.
  destruct H1 as [H1 _], H2 as [H2 _]. unfold protected in H1, H2. rewrite Hg in H1, H2.
  destruct H1 as [H1|[-> H1]], H2 as [H2|[-> H2]]; [by edestruct (Hx i j t t' m)..|done].
Qed.

(** What no thread has before it at the beginning never comes. *)
Definition ahead (P : Instr -> Prop) (st : State) : Prop :=
  Forall (fun t => Forall P (rest t)) (threads st) /\ Forall (fun m => P (Kill m)) (destroyed st).

Lemma exec_ahead wf P st sched st' : ahead P st -> exec wf st sched = Some st' -> ahead P st'.
Proof.
  revert st. induction sched as [|i sched IH]; cbn; intros st Hp He; [by simplify_eq|].
  destruct (step wf st i) as [st1|] eqn:H1; [|done]. apply (IH st1); [|done]. destruct Hp as [Hp Hk].
  apply step_inv in H1 as (t & ins & l & hs & Ht & Hr & -> & _). pose proof (Forall_lookup_1 _ _ _ _ Hp Ht) as Hpt. cbn in Hpt.
  rewrite Hr in Hpt. apply Forall_cons in Hpt as [Hi Hl]. split; cbn.
  - by apply Forall_insert.
  - apply Forall_app. split; [|done]. destruct ins; constructor; done.
Qed.

Lemma start_ahead P opss : Forall (Forall (fun o => Forall P (flatten (prog_of o)))) opss -> ahead P (start opss).
Proof.
  intros H. split; [|constructor]. cbn. apply Forall_fmap. eapply Forall_impl; [exact H|]. intros ops Hops. cbn.
  unfold program. apply Forall_bind. exact Hops.
Qed.

(** What a thread releases was destroyed while it was held. *)
Definition undefined (st : State) : Prop :=
  exists i t m ex l, threads st !! i = Some t /\ rest t = Release m ex :: l /\ m ∈ destroyed st.

(** The operations that write a variable without a mutex. *)
Definition writes_unguarded (o : Op) (x : Var) : Prop :=
  match o, x with
  | ODispose true es _ _, dispatcher_ e => e ∈ es
  | OSetCallback s, on_notify_callback_ s' => s = s'
  | (OOnNotify s (Some true) | OGet s true), object_ s' => s = s'
  | _, _ => False
  end.

Definition empties (o : Op) : Prop := match o with OUnsubscribe _ (Some _) ks => exists k, (k, Some true) ∈ ks | _ => False end.

Lemma unguarded_writes o : Forall (fun ins => forall x, ins = Access x true -> guard_of x = None -> writes_unguarded o x) (flatten (prog_of o)).
Proof. operations o; every; uploads; intros x [=]; subst; try done. Qed.

Lemma keeps_mutexes o : Forall (fun ins => forall m, ins = Kill m -> empties o) (flatten (prog_of o)).
Proof.
  operations o; every; uploads; try done. match goal with kf : nat * option bool |- _ => destruct kf as [k ?] end. cbn in *. subst.
  intros m _. by exists k.
Qed.

(** C16: no races, with the asynchronous dispatcher. However the threads interleave, two
    threads are about to access the same variable at once with one of them writing only if
    some thread has an operation that writes that variable without a mutex: the pointer of
    an engine to its dispatcher, when the manager is disposed of; the callback of a
    subscriber, when [setCallback] is called; the receiver object of a subscriber, when a
    callback or the user of [get] writes it. All other variables (the subscription sets,
    the maps and lists of the engines, the bound contexts, the task queues and the events)
    are never raced for. A mutex is never released after it was destroyed, unless some
    thread gives up the last subscription to a key. *)
Theorem subscriptions_race_free wf opss sched st :
  exec wf (start opss) sched = Some st ->
  (forall x, race st x -> exists ops o, ops ∈ opss /\ o ∈ ops /\ writes_unguarded o x)
  /\ (Forall (Forall (fun o => ~ empties o)) opss -> ~ undefined st).
Proof.
  intros He. destruct (exec_sound wf _ _ _ (sound_start opss) He) as (Hs & _). split.
  - intros x Hr. destruct (guard_of x) as [m|] eqn:E; [by destruct (guarded_no_race st x m Hs E)|].
    set (P := fun ins => ins = Access x true -> exists ops o, ops ∈ opss /\ o ∈ ops /\ writes_unguarded o x).
    assert (ahead P st) as [Ha _].
    { eapply exec_ahead; [|exact He]. apply start_ahead. apply Forall_forall. intros ops Hops. apply Forall_forall. intros o Ho.
      eapply Forall_impl; [apply unguarded_writes|]. intros ins Hins ->. exists ops, o. auto. }
    destruct Hr as (i & j & t & t' & w & w' & _ & Ht & Ht' & [l Hl] & [l' Hl'] & Hw).
    pose proof (Forall_lookup_1 _ _ _ _ Ha Ht) as H1. pose proof (Forall_lookup_1 _ _ _ _ Ha Ht') as H2. cbn in H1, H2.
    rewrite Hl in H1. rewrite Hl' in H2. apply Forall_cons in H1 as [H1 _]. apply Forall_cons in H2 as [H2 _].
    destruct w; [by apply H1|]. destruct w'; [by apply H2|done].
  - intros Hops (i & t & m & ex & l & _ & _ & Hm). set (P := fun ins => forall m, ins <> Kill m).
    assert (ahead P st) as [_ Hk].
    { eapply exec_ahead; [|exact He]. apply start_ahead. eapply Forall_impl; [exact Hops|]. intros ops Ho. eapply Forall_impl; [exact Ho|].
      intros o Hn. cbn in Hn. eapply Forall_impl; [apply keeps_mutexes|]. intros ins Hins m0 ->. by apply Hn, (Hins m0). }
    rewrite Forall_forall in Hk. by destruct (Hk m Hm m).
Qed.

(** ** What goes wrong *)

(** Giving up the last subscription to a key: [unsubscribe] of the engine erases the
    context from the map while the guard of its mutex is alive, and the guard then
    unlocks the mutex that is gone. *)
Theorem last_unsubscribe_unlocks_destroyed wf :
  exists sched st, exec wf (start [[OUnsubscribe 1 (Some 2%nat) [(3%nat, Some true)]]]) sched = Some st /\ undefined st.
Proof.
  exists (replicate 8 0%nat). eexists. split; [by destruct wf; vm_compute|].
  exists 0%nat. repeat eexists. by apply list_elem_of_here.
Qed.

(** Disposing of the manager while another thread notifies: the pointer to the
    dispatcher is reset and copied at the same time. *)
Theorem dispose_races wf :
  exists sched st, exec wf (start [[ODispose true [2%nat] [] []]; [ONotify (Some 2%nat) 3 None]]) sched = Some st /\ race st (dispatcher_ 2).
Proof.
  exists [0; 0; 1; 1; 1]%nat. eexists. split; [by destruct wf; vm_compute|].
  exists 0%nat, 1%nat. do 4 eexists. split; [done|]. do 2 (split; [reflexivity|]). do 2 (split; [by eexists|]). reflexivity.
Qed.

(** Replacing the callback of a subscriber while a handler thread passes it a
    notification. *)
Theorem callback_races wf :
  exists sched st, exec wf (start [[OSetCallback 1]; [OOnNotify 1 (Some false)]]) sched = Some st /\ race st (on_notify_callback_ 1).
Proof.
  exists [], (start [[OSetCallback 1]; [OOnNotify 1 (Some false)]]). split; [reflexivity|].
  exists 0%nat, 1%nat. do 4 eexists. split; [done|]. do 2 (split; [reflexivity|]). do 2 (split; [by eexists|]). reflexivity.
Qed.

(** [notifyDelayed] with the synchronous dispatcher runs the callback under both
    mutexes. *)
Definition sync_notify (e k : nat) (callback : Prog) : Prog :=
  Touch (dispatcher_ e) false ⨾
  Guard (subscribers_map_cs_ e) false
    (Touch (subscribers_map_ e) false ⨾
     Guard (subscribers_list_cs e k) true (Touch (subscribers_list e k) true ⨾ callback)).

(** A callback that notifies of its own key, or subscribes to anything at the same
    engine, waits for its own thread for ever. *)
Theorem sync_callback_stuck wf callback :
  callback ∈ [sync_notify 2 3 Skip; engine_subscribe 2 4] ->
  exists n st, exec wf (MkState [MkThread [] (flatten (sync_notify 2 3 callback))] []) (replicate n 0%nat) = Some st
    /\ ~ finished st /\ forall i, step wf st i = None.
Proof.
  rewrite !elem_of_cons, elem_of_nil. intros [->|[->|[]]].
  - exists 8%nat. eexists. split; [by destruct wf; vm_compute|]. split.
    + intros Hf. apply Forall_cons in Hf as [Hf _]. done.
    + intros [|i]; by destruct wf; vm_compute.
  - exists 5%nat. eexists. split; [by destruct wf; vm_compute|]. split.
    + intros Hf. apply Forall_cons in Hf as [Hf _]. done.
    + intros [|i]; by destruct wf; vm_compute.
Qed.

(** Four threads: one subscribes and unsubscribes, one notifies through the pool, a worker
    takes a task and then waits, one disposes of the manager and joins the worker. *)
Definition sample_opss : list (list Op) :=
  [[OSubscribe 1 (Some 2%nat) 3 true; OUnsubscribe 1 (Some 2%nat) [(3%nat, Some false)]];
   [ONotify (Some 2%nat) 3 (Some (Some [ToPool [5%nat] 6%nat; ToHandler 4%nat]))];
   [OExtract 4; OOnNotify 1 (Some true); OIdle 4 1];
   [OSetCallback 5; ODispose true [] [(4, 2)]%nat []]].

Definition sample_sched : list nat := [0; 1; 2; 1; 0; 1; 0; 2; 1; 2]%nat.

Definition sample_state : State := default (start []) (exec true (start sample_opss) sample_sched).

Lemma subscriptions_deadlock_free_witness : exists more st, exec true sample_state more = Some st /\ finished st.
Proof.
  refine (proj2 (proj2 (subscriptions_deadlock_free true sample_opss sample_sched sample_state eq_refl) _)).
  intros ops o j ops' o' Hops Ho Hj Hl Ho'. unfold sample_opss in Hops.
  repeat (apply elem_of_cons in Hops as [->|Hops]; [repeat (apply elem_of_cons in Ho as [->|Ho]; [cbn in Hj|]); try by apply elem_of_nil in Ho|]);
    try by apply elem_of_nil in Hops.
  all: try by apply elem_of_nil in Hj.
  apply elem_of_cons in Hj as [->|Hj]; [|by apply elem_of_nil in Hj]. injection Hl as <-.
  repeat (apply elem_of_cons in Ho' as [->|Ho']; [by intros []|]). by apply elem_of_nil in Ho'.
Defined.

Lemma subscriptions_race_free_witness :
  exec true (start sample_opss) sample_sched = Some sample_state /\ ~ race sample_state (subscribers_map_ 2).
Proof.
  split; [reflexivity|]. intros Hr.
  destruct (proj1 (subscriptions_race_free true sample_opss sample_sched sample_state eq_refl) _ Hr) as (ops & o & _ & _ & Hw).
  destruct o as [| | | | | | | | | | | |[]| | | ? [[]|] | ? []]; exact Hw.
Defined.
End Locks.
