(* ===== verification/Channel.v ===== *)
(** * Channel: the one-slot channel between two endpoints

    [src/src/utils/channel.hpp] and the event of [src/src/se/impl/common.hpp].  A
    sender and a receiver hold pointers to each other that every move and every
    destruction has to keep up to date.  The endpoints live in a store; following a
    pointer to an endpoint that is gone, and a failed [assert], are undefined.  Here
    every call runs to its end before the next; calls that run at the same time are
    the subject of [ChannelRace]. *)

From S2P Require Import Prelude.

Module Channel.
Section operations.
Context {T : Type}.

Abbreviation result := (run unit).
Abbreviation ptr := nat (only parsing).

(** [std::optional<T>] with what a move leaves behind. *)
Inductive Slot : Type := Empty | Value (t : T) | MovedFrom.

(** [event_]: the flag of [WaitForSingleObject], [true] when set. *)
Record Receiver : Type := MkReceiver { data_ : Slot; r_opp : option ptr; event_ : bool }.
Record Sender : Type := MkSender { s_opp : option ptr }.

Record World : Type := MkWorld { receivers : gmap ptr Receiver; senders : gmap ptr Sender; fresh : ptr }.

Definition get_r (w : World) (r : ptr) : result Receiver := match receivers w !! r with Some x => mret x | None => Undef end.
Definition get_s (w : World) (s : ptr) : result Sender := match senders w !! s with Some x => mret x | None => Undef end.

Definition set_r (w : World) (r : ptr) (x : Receiver) : World := MkWorld (<[r := x]> (receivers w)) (senders w) (fresh w).
Definition set_s (w : World) (s : ptr) (x : Sender) : World := MkWorld (receivers w) (<[s := x]> (senders w)) (fresh w).

(** *** Linking *)

Definition r_register_opp (w : World) (r s : ptr) : result World :=
  x ← get_r w r; mret (set_r w r (MkReceiver (data_ x) (Some s) (event_ x))).

(** The sender's mutex is tried; nobody else holds it here. *)
Definition s_register_opp (w : World) (s r : ptr) : result World :=
  _ ← get_s w s; mret (set_s w s (MkSender (Some r))).

Definition r_unregister_opp (w : World) (r s : ptr) : result World :=
  x ← get_r w r;
  require (bool_decide (r_opp x = Some s));;
  mret (set_r w r (MkReceiver (data_ x) None (event_ x))).

Definition s_unregister_opp (w : World) (s r : ptr) : result World :=
  x ← get_s w s;
  require (bool_decide (s_opp x = Some r));;
  mret (set_s w s (MkSender None)).

(** *** Moves *)

(** The body shared by the constructor and the assignment of a receiver: what
    becomes the new [opp_]. *)
Definition take_r (w : World) (this other : ptr) : result (World * option ptr) :=
  x ← get_r w other;
  match r_opp x with
  | Some s =>
      w ← s_register_opp w s this;
      x ← get_r w other;
      mret (set_r w other (MkReceiver (data_ x) None (event_ x)), Some s)
  | None => mret (w, None)
  end.

Definition take_s (w : World) (this other : ptr) : result (World * option ptr) :=
  x ← get_s w other;
  match s_opp x with
  | Some r =>
      w ← r_register_opp w r this;
      mret (set_s w other (MkSender None), Some r)
  | None => mret (w, None)
  end.

Definition bump (w : World) : World := MkWorld (receivers w) (senders w) (fresh w + 1).

(** Default construction. *)
Definition new_r (w : World) : World * ptr := (bump (set_r w (fresh w) (MkReceiver Empty None false)), fresh w).
Definition new_s (w : World) : World * ptr := (bump (set_s w (fresh w) (MkSender None)), fresh w).

Definition move_r (w : World) (other : ptr) : result (World * ptr) :=
  let '(w, this) := new_r w in
  '(w, opp) ← take_r w this other;
  mret (set_r w this (MkReceiver Empty opp false), this).

Definition move_s (w : World) (other : ptr) : result (World * ptr) :=
  let '(w, this) := new_s w in
  '(w, opp) ← take_s w this other;
  mret (set_s w this (MkSender opp), this).

Definition assign_r (w : World) (this other : ptr) : result World :=
  if decide (this = other) then mret w
  else
    _ ← get_r w this;
    '(w, opp) ← take_r w this other;
    x ← get_r w this;
    mret (set_r w this (MkReceiver (data_ x) opp (event_ x))).

Definition assign_s (w : World) (this other : ptr) : result World :=
  if decide (this = other) then mret w
  else
    _ ← get_s w this;
    '(w, opp) ← take_s w this other;
    mret (set_s w this (MkSender opp)).

(** *** Destruction *)

Definition destroy_s (w : World) (s : ptr) : result World :=
  x ← get_s w s;
  w ← match s_opp x with
      | Some r =>
          w ← r_unregister_opp w r s;
          y ← get_r w r;
          mret (set_r w r (MkReceiver (data_ y) (r_opp y) true))
      | None => mret w
      end;
  mret (MkWorld (receivers w) (delete s (senders w)) (fresh w)).

Definition destroy_r (w : World) (r : ptr) : result World :=
  x ← get_r w r;
  w ← match r_opp x with
      | Some s => s_unregister_opp w s r
      | None => mret w
      end;
  mret (MkWorld (delete r (receivers w)) (senders w) (fresh w)).

(** *** Sending and receiving *)

Definition set (w : World) (s : ptr) (t : T) : result World :=
  x ← get_s w s;
  match s_opp x with
  | Some r => y ← get_r w r; mret (set_r w r (MkReceiver (Value t) (r_opp y) true))
  | None => mret w
  end.

(** [std::move] of the optional: it stays engaged. *)
Definition moved (d : Slot) : Slot := match d with Empty => Empty | _ => MovedFrom end.

(** [None]: the call blocks. *)
Definition wait (w : World) (r : ptr) : result (option (World * Slot)) :=
  x ← get_r w r;
  if event_ x then mret (Some (set_r w r (MkReceiver (moved (data_ x)) (r_opp x) false), data_ x))
  else mret None.

(** The two locals are linked, moved out, and destroyed in reverse order. *)
Definition create_channel (w : World) : result (World * (ptr * ptr)) :=
  let '(w, r) := new_r w in
  let '(w, s) := new_s w in
  w ← r_register_opp w r s;
  w ← s_register_opp w s r;
  '(w, r') ← move_r w r;
  '(w, s') ← move_s w s;
  w ← destroy_s w s;
  w ← destroy_r w r;
  mret (w, (r', s')).

(** ** Sequences of calls on existing endpoints *)

Inductive Op : Type :=
| OCreate
| OMoveR (r : ptr) | OMoveS (s : ptr)
| OAssignR (this other : ptr) | OAssignS (this other : ptr)
| ODestroyR (r : ptr) | ODestroyS (s : ptr)
| OSet (s : ptr) (t : T) | OWait (r : ptr).

Definition step (w : World) (o : Op) : result World :=
  match o with
  | OCreate => '(w, _) ← create_channel w; mret w
  | OMoveR r => '(w, _) ← move_r w r; mret w
  | OMoveS s => '(w, _) ← move_s w s; mret w
  | OAssignR this other => assign_r w this other
  | OAssignS this other => assign_s w this other
  | ODestroyR r => destroy_r w r
  | ODestroyS s => destroy_s w s
  | OSet s t => set w s t
  | OWait r => o ← wait w r; mret (match o with Some (w, _) => w | None => w end)
  end.

Definition initial : World := MkWorld ∅ ∅ 0.

(** The endpoints a call names exist, and an assignment is not made to an endpoint
    that is linked. *)
Definition allowed (w : World) (o : Op) : Prop :=
  match o with
  | OCreate => True
  | OMoveR r | ODestroyR r | OWait r => is_Some (receivers w !! r)
  | OMoveS s | ODestroyS s | OSet s _ => is_Some (senders w !! s)
  | OAssignR this other =>
      (exists x, receivers w !! this = Some x /\ (this ≠ other -> r_opp x = None)) /\ is_Some (receivers w !! other)
  | OAssignS this other =>
      (exists x, senders w !! this = Some x /\ (this ≠ other -> s_opp x = None)) /\ is_Some (senders w !! other)
  end.

Inductive reachable : World -> Prop :=
| reach_init : reachable initial
| reach_step w o w' : reachable w -> allowed w o -> step w o = Done w' -> reachable w'.

End operations.
Arguments Slot : clear implicits.
Arguments Receiver : clear implicits.
Arguments World : clear implicits.
Arguments Op : clear implicits.
End Channel.
