(* ===== verification/ChannelSpec.v ===== *)
(** * ChannelSpec: the endpoints of a channel stay linked

    The pointers of a sender and of a receiver always point to each other, whatever
    is moved, sent or destroyed, as long as no assignment is made to a linked
    endpoint; so no call follows a dangling pointer.  A value sent is the next one
    received.  What an assignment to a linked endpoint, a move after a send, and a
    second wait do is shown on examples. *)

From S2P Require Import Prelude Channel.

Module ChannelSpec.
Import Channel.

(** ** Links as partial functions *)

Abbreviation links := (nat -> option nat).

Definition upd (f : links) (a : nat) (b : option nat) : links := fun x => if decide (x = a) then b else f x.

Definition linked (ro so : links) : Prop := forall r s, ro r = Some s <-> so s = Some r.

#[export] Instance linked_proper : Proper (pointwise_relation nat eq ==> pointwise_relation nat eq ==> iff) linked.
Proof. intros f f' Hf g g' Hg. unfold linked. split; intros H r s; [rewrite <-Hf, <-Hg|rewrite Hf, Hg]; apply H. Qed.

Lemma linked_sym ro so : linked ro so <-> linked so ro.
Proof. split; intros H r s; symmetry; apply H. Qed.

(** Case analysis on which pointers coincide; what is left follows from [H]. *)
Ltac relink H :=
  let r := fresh "r" in let s := fresh "s" in let E := fresh "E" in
  intros r s; unfold upd; repeat case_decide; subst; split; intros E; simplify_eq; try done;
  try (apply H in E; congruence); try congruence.

(** A link changes hands. *)
Lemma linked_move ro so this other s :
  linked ro so -> ro this = None -> this ≠ other -> ro other = Some s ->
  linked (upd (upd ro other None) this (Some s)) (upd so s (Some this)).
Proof. intros H Hthis Hne Hs. pose proof (proj1 (H other s) Hs) as Hso. relink H. Qed.

Lemma linked_unlink ro so r s : linked ro so -> ro r = Some s -> linked (upd ro r None) (upd so s None).
Proof. intros H Hs. pose proof (proj1 (H r s) Hs) as Hso. relink H. Qed.

Lemma linked_link ro so r s :
  linked ro so -> ro r = None -> so s = None -> linked (upd ro r (Some s)) (upd so s (Some r)).
Proof. intros H Hr Hs. relink H. Qed.

(** ** The links of a world *)

Section spec.
Context {T : Type}.
Implicit Types (w : World T) (t : T).

Definition ro w : links := fun r => x ← receivers w !! r; r_opp x.
Definition so w : links := fun s => x ← senders w !! s; s_opp x.

Record wf w : Prop := {
  wf_linked : linked (ro w) (so w);
  wf_r r : is_Some (receivers w !! r) -> (r < Channel.fresh w)%nat;
  wf_s s : is_Some (senders w !! s) -> (s < Channel.fresh w)%nat
}.

Lemma ro_set_r w r x r' : ro (set_r w r x) r' = upd (ro w) r (r_opp x) r'.
Proof. unfold ro, upd. cbn. case_decide; subst; [by rewrite lookup_insert_eq|by rewrite lookup_insert_ne]. Qed.

Lemma so_set_s w s x s' : so (set_s w s x) s' = upd (so w) s (s_opp x) s'.
Proof. unfold so, upd. cbn. case_decide; subst; [by rewrite lookup_insert_eq|by rewrite lookup_insert_ne]. Qed.

Lemma upd_same f a x : upd f a (f a) x = f x.
Proof. unfold upd. by case_decide; subst. Qed.

(** The same endpoints exist. *)
Definition same_dom w w' : Prop :=
  (forall r, is_Some (receivers w' !! r) <-> is_Some (receivers w !! r))
  /\ (forall s, is_Some (senders w' !! s) <-> is_Some (senders w !! s)) /\ Channel.fresh w' = Channel.fresh w.

Lemma same_dom_refl w : same_dom w w.
Proof. done. Qed.

Lemma same_dom_trans w1 w2 w3 : same_dom w1 w2 -> same_dom w2 w3 -> same_dom w1 w3.
Proof. intros (H1 & H2 & H3) (H4 & H5 & H6). split; [|split; [|congruence]]; intros x; [by rewrite H4|by rewrite H5]. Qed.

Lemma same_dom_set_r w r x y : receivers w !! r = Some x -> same_dom w (set_r w r y).
Proof.
  intros Hx. split; [|done]. intros r'. cbn. destruct (decide (r' = r)) as [->|];
    [by rewrite lookup_insert_eq, Hx|by rewrite lookup_insert_ne].
Qed.

Lemma same_dom_set_s w s x y : senders w !! s = Some x -> same_dom w (set_s w s y).
Proof.
  intros Hx. split; [done|]. split; [|done]. intros s'. cbn. destruct (decide (s' = s)) as [->|];
    [by rewrite lookup_insert_eq, Hx|by rewrite lookup_insert_ne].
Qed.

Lemma wf_same_dom w w' : wf w -> same_dom w w' -> linked (ro w') (so w') -> wf w'.
Proof.
  intros [_ Hr Hs] (H1 & H2 & H3) Hl. split; [done|..]; rewrite H3; [intros r; rewrite H1; apply Hr|intros s; rewrite H2; apply Hs].
Qed.

Lemma so_Some w s r : so w s = Some r -> exists x, senders w !! s = Some x /\ s_opp x = Some r.
Proof. unfold so. intros (x & ? & ?)%bind_Some. by exists x. Qed.

Lemma ro_Some w r s : ro w r = Some s -> exists x, receivers w !! r = Some x /\ r_opp x = Some s.
Proof. unfold ro. intros (x & ? & ?)%bind_Some. by exists x. Qed.

(** What existed still exists. *)
Definition grows w w' : Prop :=
  (forall r, is_Some (receivers w !! r) -> is_Some (receivers w' !! r))
  /\ forall s, is_Some (senders w !! s) -> is_Some (senders w' !! s).

Lemma grows_trans w1 w2 w3 : grows w1 w2 -> grows w2 w3 -> grows w1 w3.
Proof. intros [H1 H2] [H3 H4]. split; auto. Qed.

Lemma grows_same w w' : same_dom w w' -> grows w w'.
Proof. intros (H1 & H2 & _). split; intros x ?; [by apply H1|by apply H2]. Qed.

(** ** Moves *)

Lemma take_r_spec w this other :
  wf w -> is_Some (receivers w !! other) -> this ≠ other -> ro w this = None ->
  exists w' opp, take_r w this other = Done (w', opp) /\ same_dom w w' /\ receivers w' !! this = receivers w !! this
    /\ linked (upd (ro w') this opp) (so w').
Proof.
  intros Hwf [x Hx] Hne Hthis. unfold take_r, get_r. rewrite Hx. cbn. pose proof (wf_linked w Hwf) as Hl.
  destruct (r_opp x) as [s|] eqn:Ho.
  - assert (ro w other = Some s) as Hro by (unfold ro; by rewrite Hx).
    destruct (so_Some w s other (proj1 (Hl other s) Hro)) as (y & Hy & Hyo).
    unfold s_register_opp, get_s. rewrite Hy. cbn. rewrite Hx. cbn. eexists _, _. split; [done|]. split; [|split].
    + eapply same_dom_trans; [by eapply (same_dom_set_s w s)|]. by eapply same_dom_set_r.
    + cbn. by rewrite lookup_insert_ne.
    + eapply linked_proper; [| |exact (linked_move _ _ this other s Hl Hthis Hne Hro)].
      * intros r. unfold upd. case_decide; [done|]. rewrite ro_set_r. unfold upd. by case_decide.
      * intros s'. exact (so_set_s w s (MkSender (Some this)) s').
  - eexists w, None. split; [done|]. split; [apply same_dom_refl|]. split; [done|].
    eapply linked_proper; [| |exact Hl]; [|done]. intros r. rewrite <-(upd_same (ro w) this r), Hthis. done.
Qed.

Lemma take_s_spec w this other :
  wf w -> is_Some (senders w !! other) -> this ≠ other -> so w this = None ->
  exists w' opp, take_s w this other = Done (w', opp) /\ same_dom w w' /\ linked (ro w') (upd (so w') this opp).
Proof.
  intros Hwf [x Hx] Hne Hthis. unfold take_s, get_s. rewrite Hx. cbn. pose proof (wf_linked w Hwf) as Hl.
  destruct (s_opp x) as [r|] eqn:Ho.
  - assert (so w other = Some r) as Hso by (unfold so; by rewrite Hx).
    destruct (ro_Some w r other (proj2 (Hl r other) Hso)) as (y & Hy & Hyo).
    unfold r_register_opp, get_r. rewrite Hy. cbn. eexists _, _. split; [done|]. split.
    + eapply same_dom_trans; [by eapply (same_dom_set_r w r)|]. by eapply same_dom_set_s.
    + apply linked_sym. eapply linked_proper; [| |exact (linked_move _ _ this other r (proj1 (linked_sym _ _) Hl) Hthis Hne Hso)].
      * intros s. unfold upd. case_decide; [done|]. rewrite so_set_s. unfold upd. by case_decide.
      * intros r'. exact (ro_set_r w r (MkReceiver (data_ y) (Some this) (event_ y)) r').
  - eexists w, None. split; [done|]. split; [apply same_dom_refl|].
    eapply linked_proper; [| |exact Hl]; [done|]. intros s. rewrite <-(upd_same (so w) this s), Hthis. done.
Qed.

Lemma new_r_wf w : wf w -> wf (new_r w).1 /\ ro (new_r w).1 (Channel.fresh w) = None
  /\ (forall r, is_Some (receivers w !! r) -> is_Some (receivers (new_r w).1 !! r) /\ ro (new_r w).1 r = ro w r)
  /\ grows w (new_r w).1.
Proof.
  intros Hwf. assert (receivers w !! Channel.fresh w = None) as Hnone.
  { apply eq_None_not_Some. intros H%(wf_r w Hwf). lia. }
  split; [split|split; [|split]].
  - eapply linked_proper; [| |apply (wf_linked w Hwf)]; [|done]. intros r.
    transitivity (ro (set_r w (Channel.fresh w) (MkReceiver Empty None false)) r); [done|]. rewrite ro_set_r. unfold upd.
    case_decide; [|done]. subst. unfold ro. by rewrite Hnone.
  - intros r. cbn. destruct (decide (r = Channel.fresh w)) as [->|Hne]; [lia|]. rewrite lookup_insert_ne by done.
    intros H%(wf_r w Hwf). lia.
  - intros s H%(wf_s w Hwf). cbn. lia.
  - unfold ro. cbn. by rewrite lookup_insert_eq.
  - intros r Hr. assert (r ≠ Channel.fresh w) as Hne by (apply (wf_r w Hwf) in Hr; lia). unfold ro. cbn.
    by rewrite lookup_insert_ne.
  - split; [|done]. intros r Hr. cbn. destruct (decide (r = Channel.fresh w)) as [->|]; [by rewrite lookup_insert_eq|by rewrite lookup_insert_ne].
Qed.

Lemma new_s_wf w : wf w -> wf (new_s w).1 /\ so (new_s w).1 (Channel.fresh w) = None
  /\ (forall s, is_Some (senders w !! s) -> is_Some (senders (new_s w).1 !! s) /\ so (new_s w).1 s = so w s)
  /\ grows w (new_s w).1.
Proof.
  intros Hwf. assert (senders w !! Channel.fresh w = None) as Hnone.
  { apply eq_None_not_Some. intros H%(wf_s w Hwf). lia. }
  split; [split|split; [|split]].
  - eapply linked_proper; [| |apply (wf_linked w Hwf)]; [done|]. intros s.
    transitivity (so (set_s w (Channel.fresh w) (MkSender None)) s); [done|]. rewrite so_set_s. unfold upd.
    case_decide; [|done]. subst. unfold so. by rewrite Hnone.
  - intros r H%(wf_r w Hwf). cbn. lia.
  - intros s. cbn. destruct (decide (s = Channel.fresh w)) as [->|Hne]; [lia|]. rewrite lookup_insert_ne by done.
    intros H%(wf_s w Hwf). lia.
  - unfold so. cbn. by rewrite lookup_insert_eq.
  - intros s Hs. assert (s ≠ Channel.fresh w) as Hne by (apply (wf_s w Hwf) in Hs; lia). unfold so. cbn.
    by rewrite lookup_insert_ne.
  - split; [done|]. intros s Hs. cbn. destruct (decide (s = Channel.fresh w)) as [->|]; [by rewrite lookup_insert_eq|by rewrite lookup_insert_ne].
Qed.

Lemma move_r_wf w r : wf w -> is_Some (receivers w !! r) -> exists w' r', move_r w r = Done (w', r') /\ wf w' /\ grows w w'.
Proof.
  intros Hwf Hr. unfold move_r. destruct (new_r_wf w Hwf) as (Hwf1 & Hnone & Hold & Hg).
  change (new_r w) with ((new_r w).1, Channel.fresh w). cbn zeta beta iota.
  assert (Channel.fresh w ≠ r) as Hne by (apply (wf_r w Hwf) in Hr; lia).
  destruct (take_r_spec _ (Channel.fresh w) r Hwf1 (proj1 (Hold r Hr)) Hne Hnone) as (w' & opp & -> & Hdom & Hsame & Hl). cbn.
  eexists _, _. split; [done|].
  assert (same_dom (new_r w).1 (set_r w' (Channel.fresh w) (MkReceiver Empty opp false))) as Hd.
  { eapply same_dom_trans; [exact Hdom|]. eapply same_dom_set_r. rewrite Hsame. cbn. apply lookup_insert_eq. }
  split; [|eapply grows_trans; [exact Hg|by apply grows_same]]. apply (wf_same_dom (new_r w).1); [done|done|].
  eapply linked_proper; [| |exact Hl]; [|done]. intros x. by rewrite ro_set_r.
Qed.

Lemma move_s_wf w s : wf w -> is_Some (senders w !! s) -> exists w' s', move_s w s = Done (w', s') /\ wf w' /\ grows w w'.
Proof.
  intros Hwf Hs. unfold move_s. destruct (new_s_wf w Hwf) as (Hwf1 & Hnone & Hold & Hg).
  change (new_s w) with ((new_s w).1, Channel.fresh w). cbn zeta beta iota.
  assert (Channel.fresh w ≠ s) as Hne by (apply (wf_s w Hwf) in Hs; lia).
  destruct (take_s_spec _ (Channel.fresh w) s Hwf1 (proj1 (Hold s Hs)) Hne Hnone) as (w' & opp & -> & Hdom & Hl). cbn.
  eexists _, _. split; [done|].
  assert (is_Some (senders w' !! Channel.fresh w)) as [y Hy] by (apply Hdom; cbn; by rewrite lookup_insert_eq).
  assert (same_dom (new_s w).1 (set_s w' (Channel.fresh w) (MkSender opp))) as Hd.
  { eapply same_dom_trans; [exact Hdom|]. by eapply same_dom_set_s. }
  split; [|eapply grows_trans; [exact Hg|by apply grows_same]]. apply (wf_same_dom (new_s w).1); [done|done|].
  eapply linked_proper; [| |exact Hl]; [done|]. intros x. by rewrite so_set_s.
Qed.

Lemma assign_r_wf w this other x :
  wf w -> receivers w !! this = Some x -> (this ≠ other -> r_opp x = None) -> is_Some (receivers w !! other) ->
  exists w', assign_r w this other = Done w' /\ wf w'.
Proof.
  intros Hwf Hx Hfree Hother. unfold assign_r. destruct (decide (this = other)) as [->|Hne]; [by exists w|].
  assert (get_r w this = Done x) as -> by (unfold get_r; by rewrite Hx). cbn. assert (ro w this = None) as Hnone by (unfold ro; rewrite Hx; cbn; auto).
  destruct (take_r_spec w this other Hwf Hother Hne Hnone) as (w' & opp & -> & Hdom & Hsame & Hl). cbn.
  unfold get_r. rewrite Hsame, Hx. cbn. eexists. split; [done|]. apply (wf_same_dom w); [done| |].
  - eapply same_dom_trans; [exact Hdom|]. eapply same_dom_set_r. by rewrite Hsame.
  - eapply linked_proper; [| |exact Hl]; [|done]. intros r. by rewrite ro_set_r.
Qed.

Lemma assign_s_wf w this other x :
  wf w -> senders w !! this = Some x -> (this ≠ other -> s_opp x = None) -> is_Some (senders w !! other) ->
  exists w', assign_s w this other = Done w' /\ wf w'.
Proof.
  intros Hwf Hx Hfree Hother. unfold assign_s. destruct (decide (this = other)) as [->|Hne]; [by exists w|].
  assert (get_s w this = Done x) as -> by (unfold get_s; by rewrite Hx). cbn. assert (so w this = None) as Hnone by (unfold so; rewrite Hx; cbn; auto).
  destruct (take_s_spec w this other Hwf Hother Hne Hnone) as (w' & opp & -> & Hdom & Hl). cbn.
  eexists. split; [done|]. assert (is_Some (senders w' !! this)) as [y Hy] by (apply Hdom; by rewrite Hx).
  apply (wf_same_dom w); [done| |].
  - eapply same_dom_trans; [exact Hdom|]. by eapply same_dom_set_s.
  - eapply linked_proper; [| |exact Hl]; [done|]. intros s. by rewrite so_set_s.
Qed.

(** ** Destruction *)

Lemma destroy_s_wf w s :
  wf w -> is_Some (senders w !! s) -> exists w', destroy_s w s = Done w' /\ wf w'
    /\ (forall r, is_Some (receivers w !! r) -> is_Some (receivers w' !! r)).
Proof.
  intros Hwf [x Hx]. unfold destroy_s, get_s. rewrite Hx. cbn. pose proof (wf_linked w Hwf) as Hl.
  assert (forall w1, same_dom w w1 -> linked (ro w1) (upd (so w1) s None) ->
    wf (MkWorld (receivers w1) (delete s (senders w1)) (Channel.fresh w1))) as Hend.
  { intros w1 (H1 & H2 & H3) Hlk. split.
    - eapply linked_proper; [| |exact Hlk]; [done|]. intros s'. unfold so, upd. cbn. case_decide; subst;
        [by rewrite lookup_delete_eq|by rewrite lookup_delete_ne].
    - intros r. cbn. rewrite H1, H3. apply (wf_r w Hwf).
    - intros s'. cbn. intros [y [_ Hy]%lookup_delete_Some]. rewrite H3. apply (wf_s w Hwf), H2. by exists y. }
  destruct (s_opp x) as [r|] eqn:Ho.
  - assert (so w s = Some r) as Hso by (unfold so; by rewrite Hx).
    destruct (ro_Some w r s (proj2 (Hl r s) Hso)) as (y & Hy & Hyo).
    unfold r_unregister_opp, get_r. rewrite Hy. cbn. rewrite Hyo, bool_decide_eq_true_2 by done. cbn.
    rewrite lookup_insert_eq. cbn. rewrite insert_insert_eq.
    assert (same_dom w (set_r w r (MkReceiver (data_ y) None true))) as Hd by (by eapply same_dom_set_r).
    eexists. split; [done|]. split; [|intros r' Hr'; by apply Hd].
    apply (Hend (set_r w r (MkReceiver (data_ y) None true)) Hd).
    eapply linked_proper; [| |exact (linked_unlink _ _ r s Hl (proj2 (Hl r s) Hso))]; [|done].
    intros r'. by rewrite ro_set_r.
  - eexists. split; [done|]. split; [|done]. apply (Hend w (same_dom_refl w)).
    eapply linked_proper; [| |exact Hl]; [done|]. intros s'. rewrite <-(upd_same (so w) s s'). unfold so at 3. by rewrite Hx; cbn; rewrite Ho.
Qed.

Lemma destroy_r_wf w r :
  wf w -> is_Some (receivers w !! r) -> exists w', destroy_r w r = Done w' /\ wf w'.
Proof.
  intros Hwf [x Hx]. unfold destroy_r, get_r. rewrite Hx. cbn. pose proof (wf_linked w Hwf) as Hl.
  assert (forall w1, same_dom w w1 -> linked (upd (ro w1) r None) (so w1) ->
    wf (MkWorld (delete r (receivers w1)) (senders w1) (Channel.fresh w1))) as Hend.
  { intros w1 (H1 & H2 & H3) Hlk. split.
    - eapply linked_proper; [| |exact Hlk]; [|done]. intros r'. unfold ro, upd. cbn. case_decide; subst;
        [by rewrite lookup_delete_eq|by rewrite lookup_delete_ne].
    - intros r'. cbn. intros [y [_ Hy]%lookup_delete_Some]. rewrite H3. apply (wf_r w Hwf), H1. by exists y.
    - intros s'. cbn. rewrite H2, H3. apply (wf_s w Hwf). }
  destruct (r_opp x) as [s|] eqn:Ho.
  - assert (ro w r = Some s) as Hro by (unfold ro; by rewrite Hx).
    destruct (so_Some w s r (proj1 (Hl r s) Hro)) as (y & Hy & Hyo).
    unfold s_unregister_opp, get_s. rewrite Hy. cbn. rewrite Hyo, bool_decide_eq_true_2 by done. cbn.
    eexists. split; [done|]. apply (Hend (set_s w s (MkSender None))); [by eapply same_dom_set_s|].
    eapply linked_proper; [| |exact (linked_unlink _ _ r s Hl Hro)]; [done|]. intros s'. by rewrite so_set_s.
  - eexists. split; [done|]. apply (Hend w (same_dom_refl w)).
    eapply linked_proper; [| |exact Hl]; [|done]. intros r'. rewrite <-(upd_same (ro w) r r'). unfold ro at 3. by rewrite Hx; cbn; rewrite Ho.
Qed.

(** A change of a receiver that keeps its pointer. *)
Lemma set_r_wf w r x y : wf w -> receivers w !! r = Some x -> r_opp y = r_opp x -> wf (set_r w r y).
Proof.
  intros Hwf Hx Hy. apply (wf_same_dom w); [done|by eapply same_dom_set_r|].
  eapply linked_proper; [| |apply (wf_linked w Hwf)]; [|done]. intros r'. rewrite ro_set_r, Hy.
  rewrite <-(upd_same (ro w) r r'). unfold ro at 3. by rewrite Hx.
Qed.

Lemma channel_create_wf w : wf w -> exists w' rs, create_channel w = Done (w', rs) /\ wf w'.
Proof.
  intros Hwf. unfold create_channel.
  destruct (new_r_wf w Hwf) as (Hwf1 & Hr1 & Hold1 & _). change (new_r w) with ((new_r w).1, Channel.fresh w). cbn zeta beta iota.
  set (r := Channel.fresh w) in *. set (w1 := (new_r w).1) in *.
  destruct (new_s_wf w1 Hwf1) as (Hwf2 & Hs2 & _ & Hg2). change (new_s w1) with ((new_s w1).1, Channel.fresh w1). cbn zeta beta iota.
  set (s := Channel.fresh w1) in *. set (w2 := (new_s w1).1) in *.
  assert (is_Some (receivers w2 !! r)) as [x Hx] by (apply Hg2; unfold w1; cbn; by rewrite lookup_insert_eq).
  assert (is_Some (senders w2 !! s)) as [y Hy] by (unfold w2; cbn; by rewrite lookup_insert_eq).
  unfold r_register_opp, get_r. rewrite Hx. cbn [mbind run_bind mret run_ret].
  set (w3 := set_r w2 r (MkReceiver (data_ x) (Some s) (event_ x))).
  unfold s_register_opp, get_s. change (senders w3) with (senders w2). rewrite Hy. cbn [mbind run_bind mret run_ret].
  set (w4 := set_s w3 s (MkSender (Some r))).
  assert (same_dom w2 w4) as Hd4.
  { eapply same_dom_trans; [by eapply (same_dom_set_r w2 r)|]. by eapply (same_dom_set_s w3 s). }
  assert (wf w4) as Hwf4.
  { apply (wf_same_dom w2 w4 Hwf2 Hd4).
    eapply linked_proper; [| |exact (linked_link _ _ r s (wf_linked w2 Hwf2) Hr1 Hs2)].
    - intros r'. exact (ro_set_r w2 r (MkReceiver (data_ x) (Some s) (event_ x)) r').
    - intros s'. unfold w4. by rewrite so_set_s. }
  destruct (move_r_wf w4 r Hwf4) as (w5 & r' & -> & Hwf5 & Hg5); [apply Hd4; by rewrite Hx|]. cbn [mbind run_bind].
  assert (is_Some (senders w5 !! s)) as Hs5 by (apply Hg5, Hd4; by rewrite Hy).
  destruct (move_s_wf w5 s Hwf5 Hs5) as (w6 & s' & -> & Hwf6 & Hg6). cbn [mbind run_bind].
  destruct (destroy_s_wf w6 s Hwf6) as (w7 & -> & Hwf7 & Hg7); [by apply Hg6|]. cbn [mbind run_bind].
  destruct (destroy_r_wf w7 r Hwf7) as (w8 & -> & Hwf8); [apply Hg7, Hg6, Hg5, Hd4; by rewrite Hx|]. cbn.
  by exists w8, (r', s').
Qed.

Lemma channel_initial_wf : wf initial.
Proof. split; [intros r s; unfold ro, so; cbn; by rewrite !lookup_empty|..]; intros x; cbn; rewrite lookup_empty; by intros [? ?]. Qed.

Lemma channel_step_wf w o : wf w -> allowed w o -> exists w', step w o = Done w' /\ wf w'.
Proof.
  intros Hwf Ha. destruct o as [|r|s|this other|this other|r|s|s t|r]; cbn [step allowed] in *.
  - destruct (channel_create_wf w Hwf) as (w' & [? ?] & -> & ?). by exists w'.
  - destruct (move_r_wf w r Hwf Ha) as (w' & ? & -> & ? & _). by exists w'.
  - destruct (move_s_wf w s Hwf Ha) as (w' & ? & -> & ? & _). by exists w'.
  - destruct Ha as [(x & Hx & Hfree) Hother]. by eapply assign_r_wf.
  - destruct Ha as [(x & Hx & Hfree) Hother]. by eapply assign_s_wf.
  - by apply destroy_r_wf.
  - destruct (destroy_s_wf w s Hwf Ha) as (w' & ? & ? & _). by exists w'.
  - destruct Ha as [x Hx]. unfold set, get_s. rewrite Hx. cbn. destruct (s_opp x) as [r|] eqn:Ho; [|by exists w].
    assert (so w s = Some r) as Hso by (unfold so; by rewrite Hx).
    destruct (ro_Some w r s (proj2 (wf_linked w Hwf r s) Hso)) as (y & Hy & _).
    unfold get_r. rewrite Hy. cbn. eexists. split; [done|]. by eapply set_r_wf.
  - destruct Ha as [x Hx]. unfold wait, get_r. rewrite Hx. cbn. destruct (event_ x); cbn; eexists; (split; [done|]); [|done].
    by eapply set_r_wf.
Qed.

Lemma reachable_wf w : reachable w -> wf w.
Proof.
  induction 1 as [|w o w' _ IH Ha Hs]; [apply channel_initial_wf|]. destruct (channel_step_wf w o IH Ha) as (w1 & ? & ?). congruence.
Qed.

(** The endpoints of channels stay linked.  After any calls on existing endpoints
    (creation, moves, sends, waits, destructions, and assignments to endpoints that
    are not linked), the next such call follows no dangling pointer and fails no
    assertion, and a receiver points to a sender exactly when the sender points to
    the receiver. *)
Theorem channel_safe w o :
  reachable w -> allowed w o ->
  exists w', step w o = Done w' /\ forall r s, ro w' r = Some s <-> so w' s = Some r.
Proof.
  intros Hw Ha. destruct (channel_step_wf w o (reachable_wf w Hw) Ha) as (w' & Hs & Hwf). exists w'. split; [done|]. apply Hwf.
Qed.

Lemma sets_spec w s r ts t :
  wf w -> so w s = Some r ->
  exists w' x, foldM (fun w t => set w s t) w (ts ++ [t]) = Done w' /\ receivers w' !! r = Some x
    /\ data_ x = Value t /\ event_ x = true.
Proof.
  revert w. induction ts as [|t0 ts IH]; intros w Hwf Hso.
  - destruct (so_Some w s r Hso) as (y & Hy & Hyo). destruct (ro_Some w r s (proj2 (wf_linked w Hwf r s) Hso)) as (x & Hx & _).
    cbn. unfold set, get_s. rewrite Hy. cbn. rewrite Hyo. unfold get_r. rewrite Hx. cbn. eexists _, _. split; [done|].
    cbn. by rewrite lookup_insert_eq.
  - destruct (so_Some w s r Hso) as (y & Hy & Hyo). destruct (ro_Some w r s (proj2 (wf_linked w Hwf r s) Hso)) as (x & Hx & _).
    change ((t0 :: ts) ++ [t]) with (t0 :: (ts ++ [t])). cbn [foldM].
    assert (set w s t0 = Done (set_r w r (MkReceiver (Value t0) (r_opp x) true))) as ->.
    { unfold set, get_s. rewrite Hy. cbn. rewrite Hyo. unfold get_r. by rewrite Hx. }
    cbn [mbind run_bind]. apply IH; [by eapply set_r_wf|done].
Qed.

(** What is sent is received.  On a linked pair, after one or more sends the
    receiver's [wait] returns at once with the value sent last (earlier ones are
    overwritten), and a further [wait] blocks until there is news. *)
Theorem channel_delivers w s r ts t :
  reachable w -> so w s = Some r ->
  exists w1 w2, foldM (fun w t => set w s t) w (ts ++ [t]) = Done w1
    /\ wait w1 r = Done (Some (w2, Value t)) /\ wait w2 r = Done None.
Proof.
  intros Hw Hso. destruct (sets_spec w s r ts t (reachable_wf w Hw) Hso) as (w1 & x & Hrun & Hx & Hd & He).
  exists w1, (set_r w1 r (MkReceiver (moved (data_ x)) (r_opp x) false)). split; [done|]. unfold wait, get_r. rewrite Hx. cbn.
  rewrite He, Hd. split; [done|]. by rewrite lookup_insert_eq.
Qed.

End spec.

(** ** Examples: calls outside the theorem's reach *)

Module Samples.

Definition run_ops (os : list (Op Z)) : Channel.World Z := match foldM step initial os with Done w => w | _ => initial end.

(** Two channels: receivers 2 and 6, senders 3 and 7. *)
Definition two : Channel.World Z := Eval vm_compute in run_ops [OCreate; OCreate].

Lemma two_links : ro two 2 = Some 3%nat /\ ro two 6 = Some 7%nat.
Proof. done. Qed.

Lemma reachable_two : reachable two.
Proof.
  apply (reach_step (run_ops [OCreate]) OCreate); [|exact I|vm_compute; reflexivity].
  apply (reach_step initial OCreate); [apply reach_init|exact I|vm_compute; reflexivity].
Qed.

Lemma channel_safe_witness :
  exists w', step two (OMoveR 2) = Done w' /\ forall r s, ro w' r = Some s <-> so w' s = Some r.
Proof. apply channel_safe; [apply reachable_two|]. vm_compute. by eexists. Defined.

Lemma channel_delivers_witness :
  exists w1 w2, foldM (fun w t => set w 3 t) two ([10; 20] ++ [30]) = Done w1
    /\ wait w1 2 = Done (Some (w2, Value 30)) /\ wait w2 2 = Done None.
Proof. apply channel_delivers; [apply reachable_two|reflexivity]. Defined.

(** Assigning to a receiver that is linked: its previous sender keeps pointing to
    it, a value sent there arrives in the wrong channel, and the destruction of that
    sender fails the assertion in [unregister_opp]. *)
Theorem assign_to_linked :
  exists w w1 w2, foldM step two [OAssignR 2 6] = Done w
    /\ so w 3 = Some 2%nat /\ ro w 2 = Some 7%nat
    /\ set w 3 5 = Done w1 /\ wait w1 2 = Done (Some (w2, Value 5))
    /\ destroy_s w 3 = Undef.
Proof. eexists _, _, _. repeat split; vm_compute; reflexivity. Qed.

(** A value sent before the receiver is moved is not received: the new receiver
    has neither the value nor the signal, and its [wait] blocks. *)
Theorem move_loses_value :
  exists w w' r', set two 3 5 = Done w /\ move_r w 2 = Done (w', r') /\ ro w' r' = Some 3%nat /\ wait w' r' = Done None.
Proof. eexists _, _, _. repeat split; vm_compute; reflexivity. Qed.

(** A [wait] that ends because the sender is gone, after a value was received,
    returns the moved-from value of the earlier [wait], not an empty optional. *)
Theorem wait_after_close :
  exists w w1 w2 w3, set two 3 5 = Done w /\ wait w 2 = Done (Some (w1, Value 5)) /\ destroy_s w1 3 = Done w2
    /\ wait w2 2 = Done (Some (w3, MovedFrom)).
Proof. eexists _, _, _, _. repeat split; vm_compute; reflexivity. Qed.

End Samples.
End ChannelSpec.
