(* ===== verification/ChannelRace.v ===== *)
(** * ChannelRace: the two endpoints used by two threads

    The locking of [src/src/utils/channel.hpp] when the sender's thread sends and
    possibly destroys the sender, while the receiver's thread destroys the receiver.
    Each access under a mutex, each attempt to lock and each access to the peer's
    event is one step; the steps of the two threads interleave freely.  The sender
    blocks on the receiver's mutex while it holds its own; the receiver only tries
    the sender's, and starts over when the attempt fails. *)

From S2P Require Import Prelude.

Module ChannelRace.

Inductive Who : Type := TS | TR.

#[export] Instance Who_eq_dec : EqDecision Who.
Proof. solve_decision. Defined.

(** Where the sender's thread is; [k] more values are to be sent after this one. *)
Inductive SPc : Type :=
| SStart (k : nat)                 (** between calls, [k] values left *)
| SSet1 (k : nat)                  (** [set]: own mutex held *)
| SSet2 (k : nat)                  (** a receiver is linked: lock its mutex *)
| SSet3 (k : nat)                  (** store the value, unlock *)
| SSet4 (k : nat)                  (** [event_.set()] of the receiver *)
| SSet5 (k : nat)                  (** unlock *)
| SDel1 | SDel2 | SDel3 | SDel4 | SDel5  (** the same stages of the destructor *)
| SDone.

(** Where the receiver's thread is in the destructor. *)
Inductive RPc : Type :=
| RStart                           (** lock the own mutex *)
| R1                               (** is a sender linked? *)
| R2                               (** try the sender's mutex *)
| R3                               (** unlink the sender, unlock it *)
| R4                               (** unlock, leave *)
| R5                               (** unlock, start over *)
| RDone.                           (** the receiver's memory is gone *)

Record Sys : Type := MkSys {
  s_mutex : option Who; r_mutex : option Who;
  s_opp : bool; r_opp : bool;      (** the pointers to the peer are set *)
  spc : SPc; rpc : RPc;
  bad : bool                       (** a failed assertion, or an access to a destroyed peer *)
}.

(** The receiver still exists. *)
Definition r_alive (c : Sys) : bool := match rpc c with RDone => false | _ => true end.
Definition s_alive (c : Sys) : bool := match spc c with SDone => false | _ => true end.

(** The sender's program ends with the destructor when [destroys]. *)
Definition sender_step (destroys : bool) (c : Sys) : option Sys :=
  let go sm rm so ro pc b := Some (MkSys sm rm so ro pc (rpc c) (bad c || b)) in
  let '(MkSys sm rm so ro pc rp _) := c in
  match pc with
  | SStart k =>
      match k, destroys with
      | O, false => None
      | O, true => if decide (sm = None) then go (Some TS) rm so ro SDel1 false else None
      | S k, _ => if decide (sm = None) then go (Some TS) rm so ro (SSet1 k) false else None
      end
  | SSet1 k => go sm rm so ro (if so then SSet2 k else SSet5 k) false
  | SSet2 k => if decide (rm = None) then go sm (Some TS) so ro (SSet3 k) (negb (r_alive c)) else None
  | SSet3 k => go sm None so ro (SSet4 k) (negb (r_alive c))
  | SSet4 k => go sm rm so ro (SSet5 k) (negb (r_alive c))
  | SSet5 k => go None rm so ro (SStart k) false
  | SDel1 => go sm rm so ro (if so then SDel2 else SDel5) false
  | SDel2 => if decide (rm = None) then go sm (Some TS) so ro SDel3 (negb (r_alive c)) else None
  | SDel3 => go sm None so false SDel4 (negb (r_alive c) || negb ro)
  | SDel4 => go sm rm so ro SDel5 (negb (r_alive c))
  | SDel5 => go None rm false ro SDone false
  | SDone => None
  end.

Definition receiver_step (c : Sys) : option Sys :=
  let go sm rm so ro pc b := Some (MkSys sm rm so ro (spc c) pc (bad c || b)) in
  let '(MkSys sm rm so ro sp pc _) := c in
  match pc with
  | RStart => if decide (rm = None) then go sm (Some TR) so ro R1 false else None
  | R1 => go sm rm so ro (if ro then R2 else R4) false
  | R2 => if decide (sm = None) then go (Some TR) rm so ro R3 (negb (s_alive c)) else go sm rm so ro R5 (negb (s_alive c))
  | R3 => go None rm false false R4 (negb (s_alive c) || negb so)
  | R4 => go sm None so ro RDone false
  | R5 => go sm None so ro RStart false
  | RDone => None
  end.

Inductive step (destroys : bool) : Sys -> Sys -> Prop :=
| step_sender c c' : sender_step destroys c = Some c' -> step destroys c c'
| step_receiver c c' : receiver_step c = Some c' -> step destroys c c'.

(** A linked pair; the sender is about to send [k] values. *)
Definition start (k : nat) : Sys := MkSys None None true true (SStart k) RStart false.

Definition finished (destroys : bool) (c : Sys) : Prop :=
  rpc c = RDone /\ (spc c = SDone \/ (destroys = false /\ spc c = SStart 0)).

(** ** Invariant *)

Definition sender_mutex (pc : SPc) : bool := match pc with SStart _ | SDone => false | _ => true end.
Definition sender_in_receiver (pc : SPc) : bool := match pc with SSet3 _ | SDel3 => true | _ => false end.
Definition receiver_mutex (pc : RPc) : bool := match pc with RStart | RDone => false | _ => true end.
Definition sender_sees_link (pc : SPc) : bool :=
  match pc with SSet2 _ | SSet3 _ | SSet4 _ | SDel2 | SDel3 | SDel4 => true | _ => false end.
Definition sender_unlinked (pc : SPc) : bool := match pc with SDel4 | SDel5 => true | _ => false end.

(** The mutexes are where the program counters say; the pointers are set together,
    except while the destructor of the sender is under way; whoever has seen its
    pointer set still has it set. *)
Record inv (c : Sys) : Prop := {
  inv_s_mutex : s_mutex c = if sender_mutex (spc c) then Some TS else match rpc c with R3 => Some TR | _ => None end;
  inv_r_mutex : r_mutex c = if sender_in_receiver (spc c) then Some TS else if receiver_mutex (rpc c) then Some TR else None;
  inv_excl : (sender_mutex (spc c) = true -> rpc c ≠ R3) /\ (sender_in_receiver (spc c) = true -> receiver_mutex (rpc c) = false);
  inv_opp : if sender_unlinked (spc c) then r_opp c = false
            else match spc c with SDone => s_opp c = false /\ r_opp c = false | _ => s_opp c = r_opp c end;
  inv_sees : sender_sees_link (spc c) = true -> s_opp c = true;
  inv_r : match rpc c with R2 | R3 => r_opp c = true | R4 | RDone => r_opp c = false | _ => True end
}.

Lemma inv_start k : inv (start k).
Proof. by repeat split. Qed.

Ltac crush :=
  repeat match goal with
  | H : Some _ = Some _ |- _ => injection H as <-
  | H : None = Some _ |- _ => discriminate H
  | H : context [decide ?P] |- _ => destruct (decide P)
  end; cbn in *; try done; intuition congruence.

Lemma inv_step destroys c c' : inv c -> step destroys c c' -> inv c'.
Proof.
  intros [H1 H2 [H3 H3'] H4 H5 H6] Hst. destruct c as [sm rm so ro sp rp b]. cbn in *.
  inversion Hst as [c0 c1 Hs E1 E2|c0 c1 Hs E1 E2]; subst c0 c1; clear Hst; cbn in Hs.
  - destruct sp as [[|k]|k|k|k|k|k| | | | | |]; try destruct destroys; try destruct so; destruct rp, ro; cbn in *; subst; cbn in *; split; crush.
  - destruct rp; destruct so, ro; destruct sp as [[|k]|k|k|k|k|k| | | | | |]; cbn in *; subst; cbn in *; split; crush.
Qed.

(** The steps that can go wrong do so only in one place: the event after the sender's
    destructor has unlinked the receiver. *)
Lemma step_bad destroys c c' :
  inv c -> step destroys c c' -> bad c' = bad c \/ (spc c = SDel4 /\ rpc c = RDone).
Proof.
  intros [H1 H2 [H3 H3'] H4 H5 H6] Hst. destruct c as [sm rm so ro sp rp b]. cbn in *.
  inversion Hst as [c0 c1 Hs E1 E2|c0 c1 Hs E1 E2]; subst c0 c1; clear Hst; cbn in Hs.
  - destruct sp as [[|k]|k|k|k|k|k| | | | | |]; try destruct destroys; try destruct so; destruct rp, ro; cbn in *; subst; cbn in *;
      rewrite ?orb_false_r in Hs; crush.
  - destruct rp; destruct so, ro; destruct sp as [[|k]|k|k|k|k|k| | | | | |]; cbn in *; subst; cbn in *;
      rewrite ?orb_false_r in Hs; crush.
Qed.

(** Some thread can go on, unless both are done. *)
Lemma inv_progress destroys c : inv c -> finished destroys c \/ exists c', step destroys c c'.
Proof.
  intros [H1 H2 [H3 H3'] H4 H5 H6]. destruct c as [sm rm so ro sp rp b]. cbn in *.
  destruct (sender_step destroys (MkSys sm rm so ro sp rp b)) as [c'|] eqn:Hs; [right; exists c'; by constructor|].
  destruct (receiver_step (MkSys sm rm so ro sp rp b)) as [c'|] eqn:Hr; [right; exists c'; by constructor|].
  left. unfold finished. cbn.
  destruct sp as [[|k]|k|k|k|k|k| | | | | |]; destruct destroys; destruct rp; cbn in *; subst; cbn in *; crush.
Qed.

Lemma reach_inv destroys k c : rtc (step destroys) (start k) c -> inv c.
Proof. apply (rtc_ind_r (fun c => inv c)); [apply inv_start|]. intros c1 c2 _ Hs Hi. by eapply inv_step. Qed.

(** A sender that is not destroyed never gets into the destructor's stages. *)
Lemma reach_no_del k c : rtc (step false) (start k) c ->
  match spc c with SDel1 | SDel2 | SDel3 | SDel4 | SDel5 | SDone => False | _ => True end.
Proof.
  apply (rtc_ind_r (fun c => match spc c with SDel1 | SDel2 | SDel3 | SDel4 | SDel5 | SDone => False | _ => True end)); [done|].
  intros c1 c2 _ Hs Hc. destruct c1 as [sm rm so ro sp rp b]. inversion Hs as [c0 c3 H E1 E2|c0 c3 H E1 E2]; subst c0 c3; cbn in *.
  - destruct sp as [[|j]|j|j|j|j|j| | | | | |]; try done; try destruct so; crush.
  - destruct rp; crush.
Qed.

(** C31: No deadlock between the endpoints.  Whatever the sender's thread does (any
    number of sends, then possibly the destruction of the sender) while the
    receiver's thread destroys the receiver, in every reachable state both threads
    are done or one of them can take a step: the receiver never waits for the
    sender's mutex while it holds its own. *)
Theorem no_deadlock destroys k c :
  rtc (step destroys) (start k) c -> finished destroys c \/ exists c', step destroys c c'.
Proof. intros Hc. eapply inv_progress, reach_inv, Hc. Qed.

(** Sending while the receiver is being destroyed is safe: in every interleaving
    no assertion fails and the sender never touches a destroyed receiver. *)
Theorem send_races_safely k c : rtc (step false) (start k) c -> bad c = false.
Proof.
  intros Hc. assert (bad c = false /\ rtc (step false) (start k) c) as [Hb _]; [|done].
  revert c Hc. apply (rtc_ind_r (fun c => bad c = false /\ rtc (step false) (start k) c)); [by split; [|apply rtc_refl]|].
  intros c1 c2 _ Hs [Hb Hr]. split; [|by eapply rtc_r].
  destruct (step_bad false c1 c2 (reach_inv _ _ _ Hr) Hs) as [->|[Hd _]]; [done|].
  pose proof (reach_no_del k c1 Hr) as Hn. by rewrite Hd in Hn.
Qed.

(** Destroying both endpoints at the same time is not safe: the sender's
    destructor unlinks the receiver and then sets the receiver's event, and in
    between the receiver's destructor can run to its end. *)
Theorem destructors_race : exists c, rtc (step true) (start 0) c /\ bad c = true.
Proof.
  eexists. split.
  - do 4 (eapply rtc_l; [apply step_sender; reflexivity|]).
    do 3 (eapply rtc_l; [apply step_receiver; reflexivity|]).
    eapply rtc_l; [apply step_sender; reflexivity|]. apply rtc_refl.
  - reflexivity.
Qed.

(** ** Witnesses *)

Lemma no_deadlock_witness : finished true (start 2) \/ exists c', step true (start 2) c'.
Proof. apply (no_deadlock true 2). apply rtc_refl. Defined.

Lemma send_races_safely_witness : bad (start 2) = false.
Proof. apply (send_races_safely 2). apply rtc_refl. Defined.

End ChannelRace.
