(* ===== verification/Configurator.v ===== *)
(** * Configurator: the effective configuration

    [src/src/app/configurator.cpp] and [configuration.hpp]: defaults, the
    configuration file, the command line, and the checks of the values.  The YAML
    library, the option parser, the file system and the parsing of addresses are
    parameters; what they return is data of the model. *)

From S2P Require Import Prelude Parsers.

(** YAML nodes, paths and addresses. *)
Class ConfigEnv : Type := {
  buildVersion : string;
  Node : Type;
  IsDefined : Node -> bool;
  IsMap : Node -> bool;
  IsScalar : Node -> bool;
  child : Node -> string -> Node;          (** [node["key"]] *)
  as_string : Node -> string;              (** of a scalar *)
  as_ssize : Node -> option Z;             (** of a scalar; [None] when the conversion throws *)
  is_absolute : string -> bool;
  is_directory : string -> bool;
  is_regular_file : string -> bool;
  path_append : string -> string -> string;
  weakly_canonical : string -> string -> string;  (** current directory and path *)
  Address : Type;
  address_any : Address;
  from_string : string -> option Address
}.

Module Configurator.

Inductive Error : Type := CliArgsParseFailed | ConfigFileParseFailed | InvalidValue.

#[export] Instance Error_eq_dec : EqDecision Error.
Proof. solve_decision. Defined.

Abbreviation result := (run Error).

(** A value of the command line; [defaulted] when the option was not given. *)
Inductive Value : Type := VString (s : string) | VStrings (l : list string) | VU32 (n : Z) | VU16 (n : Z) | VNone.
Record Arg : Type := MkArg { defaulted : bool; arg : Value }.
Abbreviation variables_map := (gmap string Arg).

Section operations.
Context `{E : ConfigEnv}.

Record Endpoint : Type := MkEndpoint { address : Address; port : Z }.

Record Configuration : Type := MkConfiguration {
  version_ : string;
  name_ : string;
  base_path_ : string;
  spec_file_ : string;
  modules_dir_ : string;
  directory : string;         (** of the database *)
  cache_size : Z;
  endpoint : Endpoint;        (** of the metrics *)
  enabled : option bool
}.

(** The configurator while it works: the configuration, the errors of the file, the
    directory the process is in. *)
Record St : Type := MkSt { config_ : Configuration; file_errors_ : list string; file_has_error_ : bool; cwd : string }.

(** *** Arguments *)

(** [it->second.as<T>()] throws when the option holds another type. *)
Definition find_argument {A} (as_T : Value -> option A) (vm : variables_map) (name : string) : result (option A) :=
  match vm !! name with
  | Some a => if defaulted a then mret None else v ← value (as_T (arg a)) "bad any cast"; mret (Some v)
  | None => mret None
  end.

Definition as_str (v : Value) : option string := match v with VString s => Some s | _ => None end.
Definition as_u32 (v : Value) : option Z := match v with VU32 n => Some n | _ => None end.
Definition as_u16 (v : Value) : option Z := match v with VU16 n => Some n | _ => None end.

Definition find_flag (vm : variables_map) (name : string) : bool :=
  match vm !! name with Some a => negb (defaulted a) | None => false end.

(** The options of the command line, with the type each one parses its value to. *)
Inductive Kind : Type := KNone | KString | KStrings | KU32 | KU16.

#[export] Instance Kind_eq_dec : EqDecision Kind.
Proof. solve_decision. Defined.

Definition cli_options : list (string * Kind) :=
  [("help", KNone); ("version", KNone); ("base_path", KString); ("config", KString); ("spec_file", KString);
   ("modules_dir", KString); ("name", KString); ("log", KStrings);
   ("db_path", KString); ("db_cache_size", KU32);
   ("prometheus_disable", KNone); ("prometheus_host", KString); ("prometheus_port", KU16)]%string.

(** *** Updates *)

Definition on_config (f : Configuration -> Configuration) (st : St) : St :=
  MkSt (f (config_ st)) (file_errors_ st) (file_has_error_ st) (cwd st).

Definition complain (msg : string) (st : St) : St :=
  MkSt (config_ st) (file_errors_ st ++ [msg]) (file_has_error_ st) (cwd st).

Definition fail_file (msg : string) (st : St) : St :=
  MkSt (config_ st) (file_errors_ st ++ [msg]) true (cwd st).

Definition set_name (v : string) (c : Configuration) : Configuration :=
  MkConfiguration (version_ c) v (base_path_ c) (spec_file_ c) (modules_dir_ c) (directory c) (cache_size c) (endpoint c) (enabled c).
Definition set_base_path (v : string) (c : Configuration) : Configuration :=
  MkConfiguration (version_ c) (name_ c) v (spec_file_ c) (modules_dir_ c) (directory c) (cache_size c) (endpoint c) (enabled c).
Definition set_spec_file (v : string) (c : Configuration) : Configuration :=
  MkConfiguration (version_ c) (name_ c) (base_path_ c) v (modules_dir_ c) (directory c) (cache_size c) (endpoint c) (enabled c).
Definition set_modules_dir (v : string) (c : Configuration) : Configuration :=
  MkConfiguration (version_ c) (name_ c) (base_path_ c) (spec_file_ c) v (directory c) (cache_size c) (endpoint c) (enabled c).
Definition set_directory (v : string) (c : Configuration) : Configuration :=
  MkConfiguration (version_ c) (name_ c) (base_path_ c) (spec_file_ c) (modules_dir_ c) v (cache_size c) (endpoint c) (enabled c).
Definition set_cache_size (v : Z) (c : Configuration) : Configuration :=
  MkConfiguration (version_ c) (name_ c) (base_path_ c) (spec_file_ c) (modules_dir_ c) (directory c) v (endpoint c) (enabled c).
Definition set_endpoint (v : Endpoint) (c : Configuration) : Configuration :=
  MkConfiguration (version_ c) (name_ c) (base_path_ c) (spec_file_ c) (modules_dir_ c) (directory c) (cache_size c) v (enabled c).
Definition set_enabled (v : option bool) (c : Configuration) : Configuration :=
  MkConfiguration (version_ c) (name_ c) (base_path_ c) (spec_file_ c) (modules_dir_ c) (directory c) (cache_size c) (endpoint c) v.
Definition set_version (v : string) (c : Configuration) : Configuration :=
  MkConfiguration v (name_ c) (base_path_ c) (spec_file_ c) (modules_dir_ c) (directory c) (cache_size c) (endpoint c) (enabled c).

(** *** Construction *)

(** [Configuration::Configuration]: an endpoint without arguments is the port 0 of any
    address. *)
Definition new_configuration : Configuration :=
  MkConfiguration "undefined" "unnamed" "" "" "" "db" (Z.shiftl 1 30) (MkEndpoint address_any 0) None.

(** [Configurator::Configurator] overwrites it. *)
Definition defaults : Configuration :=
  set_enabled None (set_endpoint (MkEndpoint address_any 9615) (set_cache_size (Z.shiftl 512 20)
    (set_directory "db" (set_name "noname" (set_version buildVersion new_configuration))))).

(** A value of a section: nothing when absent, an error when it is not a scalar. *)
Definition scalar (section : Node) (key msg : string) (f : Node -> St -> result St) (st : St) : result St :=
  let v := child section key in
  if IsDefined v then (if IsScalar v then f v st else mret (fail_file msg st)) else mret st.

(** A section of the file: nothing when absent, an error when it is not a map. *)
Definition in_section (file : option Node) (key msg : string) (f : Node -> St -> result St) (st : St) : result St :=
  match file with
  | None => mret st
  | Some root =>
      let section := child root key in
      if IsDefined section then (if IsMap section then f section st else mret (fail_file msg st)) else mret st
  end.

Definition to_config (f : string -> Configuration -> Configuration) (v : Node) (st : St) : result St :=
  mret (on_config (f (as_string v)) st).

Definition from_cli {A} (as_T : Value -> option A) (vm : variables_map) (name : string) (f : A -> Configuration -> Configuration)
    (st : St) : result St :=
  v ← find_argument as_T vm name;
  mret (match v with Some v => on_config (f v) st | None => st end).

(** The errors of the file end the work; the log names the file of [--config]. *)
Definition report_file (vm : variables_map) (st : St) : result unit :=
  if file_has_error_ st then find_argument as_str vm "config";; Fail ConfigFileParseFailed else mret tt.

(** [make_absolute] *)
Definition make_absolute (st : St) (path : string) : string :=
  weakly_canonical (cwd st) (if is_absolute (base_path_ (config_ st)) then path else path_append (base_path_ (config_ st)) path).

(** *** The three parts *)

Definition general_section (section : Node) (st : St) : result St :=
  st ← scalar section "name" "E: Value 'general.name' must be scalar" (to_config set_name) st;
  st ← scalar section "base_path" "E: Value 'general.base_path' must be scalar" (to_config set_base_path) st;
  st ← scalar section "spec_file" "E: Value 'general.spec_file' must be scalar" (to_config set_spec_file) st;
  scalar section "modules_dir" "E: Value 'general.modules_dir' must be scalar" (to_config set_modules_dir) st.

Definition initGeneralConfig (file : option Node) (vm : variables_map) (st : St) : result St :=
  st ← in_section file "general" "E: Section 'general' defined, but is not map" general_section st;
  report_file vm st;;
  st ← from_cli as_str vm "name" set_name st;
  st ← from_cli as_str vm "base_path" set_base_path st;
  st ← from_cli as_str vm "modules_dir" set_modules_dir st;
  st ← from_cli as_str vm "spec_file" set_spec_file st;
  fail_if (negb (is_absolute (base_path_ (config_ st)))) InvalidValue;;
  fail_if (negb (is_directory (base_path_ (config_ st)))) InvalidValue;;
  let st := MkSt (config_ st) (file_errors_ st) (file_has_error_ st) (base_path_ (config_ st)) in
  let st := on_config (set_modules_dir (make_absolute st (modules_dir_ (config_ st)))) st in
  fail_if (negb (is_directory (modules_dir_ (config_ st)))) InvalidValue;;
  let st := on_config (set_spec_file (make_absolute st (spec_file_ (config_ st)))) st in
  fail_if (negb (is_regular_file (spec_file_ (config_ st)))) InvalidValue;;
  mret st.

Definition file_cache_size (v : Node) (st : St) : result St :=
  match Parsers.parseByteQuantity (Parsers.chars (as_string v)) with
  | Some n => mret (on_config (set_cache_size n) st)
  | None => mret (complain "E: Bad 'cache_size' value; Expected: 4096, 512Mb, 1G, etc." st)
  end.

Definition database_section (section : Node) (st : St) : result St :=
  st ← scalar section "path" "E: Value 'database.path' must be scalar" (to_config set_directory) st;
  scalar section "cache_size" "E: Value 'database.cache_size' must be scalar" file_cache_size st.

Definition initDatabaseConfig (file : option Node) (vm : variables_map) (st : St) : result St :=
  st ← in_section file "database" "E: Section 'database' defined, but is not map" database_section st;
  report_file vm st;;
  st ← from_cli as_str vm "db_path" set_directory st;
  st ← from_cli as_u32 vm "db_cache_size" set_cache_size st;
  mret (on_config (set_directory (make_absolute st (directory (config_ st)))) st).

(** An endpoint value switches the metrics on unless they were set already. *)
Definition enable (c : Configuration) : Configuration :=
  match enabled c with None => set_enabled (Some true) c | Some _ => c end.

Definition set_host (a : Address) (c : Configuration) : Configuration := enable (set_endpoint (MkEndpoint a (port (endpoint c))) c).
Definition set_port (p : Z) (c : Configuration) : Configuration := enable (set_endpoint (MkEndpoint (address (endpoint c)) (u16 p)) c).

Definition file_enabled (v : Node) (st : St) : result St :=
  if bool_decide (as_string v = "true") then mret (on_config (set_enabled (Some true)) st)
  else if bool_decide (as_string v = "false") then mret (on_config (set_enabled (Some false)) st)
  else mret (fail_file "E: Value 'network.metrics.enabled' has wrong value. Expected 'true' or 'false'" st).

Definition file_host (v : Node) (st : St) : result St :=
  match from_string (as_string v) with
  | Some a => mret (on_config (set_host a) st)
  | None => mret (complain "E: Value 'network.metrics.host' defined, but has invalid value" st)
  end.

Definition file_port (v : Node) (st : St) : result St :=
  n ← value (as_ssize v) "bad conversion";
  if (0 <? n) && (n <=? 65535) then mret (on_config (set_port n) st)
  else mret (fail_file "E: Value 'network.metrics.port' defined, but has invalid value" st).

Definition metrics_section (section : Node) (st : St) : result St :=
  st ← scalar section "enabled" "E: Value 'metrics.enabled' must be scalar" file_enabled st;
  st ← scalar section "host" "E: Value 'network.metrics.host' defined, but is not scalar" file_host st;
  scalar section "port" "E: Value 'network.metrics.port' defined, but is not scalar" file_port st.

Definition initOpenMetricsConfig (file : option Node) (vm : variables_map) (st : St) : result St :=
  st ← in_section file "metrics" "E: Section 'metrics' defined, but is not map" metrics_section st;
  host ← find_argument as_str vm "prometheus_host";
  st ← match host with
       | Some v => match from_string v with
                   | Some a => mret (on_config (set_host a) st)
                   | None => Fail CliArgsParseFailed
                   end
       | None => mret st
       end;
  port ← find_argument as_u16 vm "prometheus_port";
  st ← match port with
       | Some v => if (0 <? v) && (v <=? 65535) then mret (on_config (set_port v) st) else Fail CliArgsParseFailed
       | None => mret st
       end;
  let st := if find_flag vm "prometheus_disabled" then on_config (set_enabled (Some false)) st else st in
  mret (match enabled (config_ st) with None => on_config (set_enabled (Some false)) st | Some _ => st end).

Definition calculateConfig (file : option Node) (vm : variables_map) (cwd0 : string) : result Configuration :=
  st ← initGeneralConfig file vm (MkSt defaults [] false cwd0);
  st ← initDatabaseConfig file vm st;
  st ← initOpenMetricsConfig file vm st;
  mret (config_ st).

(** *** The first two steps *)

(** What the parser makes of the command line: an error, or the values. *)
Definition step1 (parsed : option variables_map) (load : string -> option Node) : result (bool * option Node) :=
  match parsed with
  | None => Fail CliArgsParseFailed
  | Some vm =>
      if bool_decide (is_Some (vm !! "help"%string)) then mret (true, None)
      else if bool_decide (is_Some (vm !! "version"%string)) then mret (true, None)
      else match vm !! "config"%string with
           | Some a =>
               path ← value (as_str (arg a)) "bad any cast";
               match load path with Some n => mret (false, Some n) | None => Fail ConfigFileParseFailed end
           | None => mret (false, None)
           end
  end.

Definition step2 (parsed : option variables_map) : result variables_map :=
  match parsed with None => Fail CliArgsParseFailed | Some vm => mret vm end.

(** The section for the logging system; [*config_file_] without a file is undefined. *)
Definition getLoggingConfig (file : option Node) (empty : Node) : result Node :=
  match file with
  | None => Undef
  | Some root => let logging := child root "logging" in if IsDefined logging then mret logging else mret empty
  end.

End operations.
End Configurator.
