(* ===== verification/ConfiguratorSpec.v ===== *)
(** * ConfiguratorSpec: command line over file over defaults

    What the configurator answers, as one expression over the file and the command
    line: which mistakes are reported, in which order, and what every field of the
    configuration is otherwise; and the option that has no effect. *)

From S2P Require Import Prelude Parsers Configurator.

Module ConfiguratorSpec.
Import Configurator.

Section spec.
Context `{E : ConfigEnv}.
Implicit Types (file : option Node) (vm : variables_map) (c : Configuration) (st : St).

(** ** The sources of a value *)

(** A section of the file that is a map. *)
Definition map_of file (section : string) : option Node :=
  root ← file;
  let s := child root section in if IsDefined s && IsMap s then Some s else None.

Definition scalar_of (s : Node) (key : string) : option Node :=
  let v := child s key in if IsDefined v && IsScalar v then Some v else None.

Definition file_value file (section key : string) : option Node := s ← map_of file section; scalar_of s key.
Definition file_string file (section key : string) : option string := v ← file_value file section key; Some (as_string v).

Definition yaml_bool (v : Node) : option bool :=
  if bool_decide (as_string v = "true") then Some true else if bool_decide (as_string v = "false") then Some false else None.
Definition yaml_address (v : Node) : option Address := from_string (as_string v).
Definition yaml_bytes (v : Node) : option Z := Parsers.parseByteQuantity (Parsers.chars (as_string v)).
Definition port_ok (n : Z) : bool := (0 <? n) && (n <=? 65535).
Definition yaml_port (v : Node) : option Z := n ← as_ssize v; if port_ok n then Some n else None.

(** A section that is not a map, or a value in it that is not a scalar. *)
Definition malformed_in (s : Node) (keys : list string) : bool :=
  existsb (fun k => IsDefined (child s k) && negb (IsScalar (child s k))) keys.

Definition malformed file (section : string) (keys : list string) : bool :=
  match file with
  | None => false
  | Some root => let s := child root section in IsDefined s && (negb (IsMap s) || (IsMap s && malformed_in s keys))
  end.

(** An option given on the command line. *)
Definition cli_value {A} (as_T : Value -> option A) vm (name : string) : option A :=
  a ← vm !! name; if defaulted a then None else as_T (arg a).

(** What the option parser delivers: known options, with values of their type. *)
Definition kind_of (v : Value) : Kind :=
  match v with VString _ => KString | VStrings _ => KStrings | VU32 _ => KU32 | VU16 _ => KU16 | VNone => KNone end.

Definition typed vm : Prop := map_Forall (fun k a => (k, kind_of (arg a)) ∈ cli_options) vm.

(** ** The answer *)

(** The command line wins over the file, the file over the default. *)
Definition pick {A} (cli file : option A) (d : A) : A := default (default d file) cli.

Definition text file vm (section key option : string) (d : string) : string :=
  pick (cli_value as_str vm option) (file_string file section key) d.

Definition base_of file vm : string := text file vm "general" "base_path" "base_path" "".

(** Relative paths are resolved against the base path. *)
Definition resolved file vm (section key option d : string) : string :=
  weakly_canonical (base_of file vm) (text file vm section key option d).

Definition host_of file vm : option Address :=
  match cli_value as_str vm "prometheus_host" with
  | Some s => from_string s
  | None => file_value file "metrics" "host" ≫= yaml_address
  end.

Definition port_of file vm : option Z :=
  match cli_value as_u16 vm "prometheus_port" with
  | Some n => Some n
  | None => file_value file "metrics" "port" ≫= yaml_port
  end.

(** The metrics are on when the file says so; when it is silent, when an address or
    a port is given.  (The valid address of the file counts even under an option.) *)
Definition enabled_of file vm : bool :=
  default (bool_decide (is_Some (file_value file "metrics" "host" ≫= yaml_address) \/ is_Some (file_value file "metrics" "port" ≫= yaml_port)
                        \/ is_Some (cli_value as_str vm "prometheus_host") \/ is_Some (cli_value as_u16 vm "prometheus_port")))
    (file_value file "metrics" "enabled" ≫= yaml_bool).

Definition config_of file vm : Configuration :=
  MkConfiguration buildVersion (text file vm "general" "name" "name" "noname") (base_of file vm)
    (resolved file vm "general" "spec_file" "spec_file" "") (resolved file vm "general" "modules_dir" "modules_dir" "")
    (resolved file vm "database" "path" "db_path" "db")
    (pick (cli_value as_u32 vm "db_cache_size") (file_value file "database" "cache_size" ≫= yaml_bytes) 536870912)
    (MkEndpoint (default address_any (host_of file vm)) (default 9615 (port_of file vm)))
    (Some (enabled_of file vm)).

Definition paths_ok c : bool :=
  is_absolute (base_path_ c) && is_directory (base_path_ c) && is_directory (modules_dir_ c) && is_regular_file (spec_file_ c).

(** A scalar port that is no number: the conversion throws. *)
Definition port_unreadable file : bool :=
  match file_value file "metrics" "port" with Some v => bool_decide (as_ssize v = None) | None => false end.

Definition cli_endpoint_bad vm : bool :=
  match cli_value as_str vm "prometheus_host" with Some s => bool_decide (from_string s = None) | None => false end
  || match cli_value as_u16 vm "prometheus_port" with Some n => negb (port_ok n) | None => false end.

Definition answer file vm : result Configuration :=
  let c := config_of file vm in
  if malformed file "general" ["name"; "base_path"; "spec_file"; "modules_dir"]%string then Fail ConfigFileParseFailed
  else if negb (paths_ok c) then Fail InvalidValue
  else if malformed file "database" ["path"; "cache_size"]%string then Fail ConfigFileParseFailed
  else if port_unreadable file then Raise "bad conversion"
  else if cli_endpoint_bad vm then Fail CliArgsParseFailed
  else mret c.

(** ** Steps that always succeed: an update of the configuration, perhaps an error of the file *)

Definition opt_set {A} (f : A -> Configuration -> Configuration) (o : option A) c : Configuration :=
  match o with Some v => f v c | None => c end.

Definition updates (g : Configuration -> Configuration) (bad : bool) (r : result St) st : Prop :=
  exists st', r = Done st' /\ config_ st' = g (config_ st) /\ cwd st' = cwd st /\ file_has_error_ st' = file_has_error_ st || bad.

Lemma updates_bind g1 g2 b1 b2 r (k : St -> result St) st :
  updates g1 b1 r st -> (forall st1, updates g2 b2 (k st1) st1) -> updates (g2 ∘ g1) (b1 || b2) (r ≫= k) st.
Proof.
  intros (s1 & -> & C1 & W1 & E1) Hk. destruct (Hk s1) as (s2 & H2 & C2 & W2 & E2). exists s2. cbn.
  rewrite H2, C2, W2, E2, C1, W1, E1, orb_assoc. done.
Qed.

Lemma updates_proper g g' b b' r st : updates g b r st -> (forall c, g c = g' c) -> b = b' -> updates g' b' r st.
Proof. intros (s & -> & C & W & F) Hg <-. exists s. rewrite C, Hg. done. Qed.

Lemma scalar_updates {A} (section : Node) key msg (f : A -> Configuration -> Configuration) (g : Node -> St -> result St)
    (h : Node -> option A) st :
  (forall v st, IsScalar v = true -> updates (opt_set f (h v)) false (g v st) st) ->
  updates (opt_set f (scalar_of section key ≫= h)) (IsDefined (child section key) && negb (IsScalar (child section key)))
    (scalar section key msg g st) st.
Proof.
  intros Hg. unfold scalar, scalar_of. destruct (IsDefined (child section key)); cbn.
  - destruct (IsScalar (child section key)) eqn:Hs; cbn; [by apply Hg|]. exists (fail_file msg st). by rewrite orb_true_r.
  - exists st. by rewrite orb_false_r.
Qed.

Lemma to_config_updates f v st : updates (opt_set f (Some (as_string v))) false (to_config f v st) st.
Proof. eexists. rewrite orb_false_r. done. Qed.

Lemma text_updates (section : Node) key msg f st :
  updates (opt_set f (scalar_of section key ≫= fun v => Some (as_string v)))
    (IsDefined (child section key) && negb (IsScalar (child section key))) (scalar section key msg (to_config f) st) st.
Proof. apply scalar_updates. intros. apply to_config_updates. Qed.

Lemma file_cache_size_updates v st : updates (opt_set set_cache_size (yaml_bytes v)) false (file_cache_size v st) st.
Proof. unfold file_cache_size, yaml_bytes. destruct (Parsers.parseByteQuantity _); eexists; rewrite orb_false_r; done. Qed.

(** A section as a whole. *)
Lemma in_section_updates file key msg f (G : option Node -> Configuration -> Configuration) keys st :
  (forall c, G None c = c) ->
  (forall s st, updates (G (Some s)) (malformed_in s keys) (f s st) st) ->
  updates (G (map_of file key)) (malformed file key keys) (in_section file key msg f st) st.
Proof.
  intros HN Hf. unfold in_section, map_of, malformed. destruct file as [root|]; cbn; [|exists st; by rewrite HN, orb_false_r].
  destruct (IsDefined (child root key)); cbn; [|exists st; by rewrite HN, orb_false_r].
  destruct (IsMap (child root key)); cbn; [apply Hf|]. eexists. split; [done|]. by rewrite HN, orb_true_r.
Qed.

Definition general_of file c : Configuration :=
  opt_set set_modules_dir (file_string file "general" "modules_dir") (opt_set set_spec_file (file_string file "general" "spec_file")
    (opt_set set_base_path (file_string file "general" "base_path") (opt_set set_name (file_string file "general" "name") c))).

Lemma general_updates file msg st :
  updates (general_of file) (malformed file "general" ["name"; "base_path"; "spec_file"; "modules_dir"]%string)
    (in_section file "general" msg general_section st) st.
Proof.
  pose (str o key := (o ≫= fun s => scalar_of s key) ≫= fun v => Some (as_string v)).
  refine (in_section_updates file "general" msg general_section
    (fun o c => opt_set set_modules_dir (str o "modules_dir"%string) (opt_set set_spec_file (str o "spec_file"%string)
      (opt_set set_base_path (str o "base_path"%string) (opt_set set_name (str o "name"%string) c)))) _ st _ _); [done|].
  intros s x. unfold general_section. eapply updates_proper.
  - repeat (eapply updates_bind; [apply text_updates|intros]).
    apply text_updates.
  - done.
  - cbn. by rewrite orb_false_r, !orb_assoc.
Qed.

Definition database_of file c : Configuration :=
  opt_set set_cache_size (file_value file "database" "cache_size" ≫= yaml_bytes) (opt_set set_directory (file_string file "database" "path") c).

Lemma database_updates file msg st :
  updates (database_of file) (malformed file "database" ["path"; "cache_size"]%string)
    (in_section file "database" msg database_section st) st.
Proof.
  refine (in_section_updates file "database" msg database_section
    (fun o c => opt_set set_cache_size ((o ≫= fun s => scalar_of s "cache_size") ≫= yaml_bytes)
      (opt_set set_directory ((o ≫= fun s => scalar_of s "path") ≫= fun v => Some (as_string v)) c)) _ st _ _); [done|].
  intros s x. unfold database_section. eapply updates_proper.
  - eapply updates_bind; [apply text_updates|intros].
    apply (scalar_updates _ _ _ set_cache_size _ yaml_bytes). intros. apply file_cache_size_updates.
  - done.
  - cbn. by rewrite orb_false_r.
Qed.

(** ** The metrics section: its errors are not looked at afterwards *)

Definition sets (g : Configuration -> Configuration) (r : result St) st : Prop := exists bad, updates g bad r st.

Lemma sets_bind g1 g2 r (k : St -> result St) st :
  sets g1 r st -> (forall st1, sets g2 (k st1) st1) -> sets (g2 ∘ g1) (r ≫= k) st.
Proof.
  intros [b1 (s1 & -> & C1 & W1 & E1)] Hk. destruct (Hk s1) as [b2 (s2 & H2 & C2 & W2 & E2)].
  exists (b1 || b2), s2. cbn. rewrite H2, C2, W2, E2, C1, W1, E1, orb_assoc. done.
Qed.

Lemma sets_scalar {A} (section : Node) key msg (f : A -> Configuration -> Configuration) (g : Node -> St -> result St)
    (h : Node -> option A) st :
  (forall v st, scalar_of section key = Some v -> sets (opt_set f (h v)) (g v st) st) ->
  sets (opt_set f (scalar_of section key ≫= h)) (scalar section key msg g st) st.
Proof.
  intros Hg. unfold scalar, scalar_of in *. destruct (IsDefined (child section key)); cbn in *.
  - destruct (IsScalar (child section key)) eqn:Hs; cbn in *; [by apply Hg|].
    exists true, (fail_file msg st). by rewrite orb_true_r.
  - exists false, st. by rewrite orb_false_r.
Qed.

Lemma file_enabled_sets v st : sets (opt_set (set_enabled ∘ Some) (yaml_bool v)) (file_enabled v st) st.
Proof.
  unfold file_enabled, yaml_bool. case_bool_decide; [|case_bool_decide]; [exists false|exists false|exists true]; eexists;
    (split; [done|]); split_and!; try done; by rewrite ?orb_false_r, ?orb_true_r.
Qed.

Lemma file_host_sets v st : sets (opt_set set_host (yaml_address v)) (file_host v st) st.
Proof. unfold file_host, yaml_address. destruct (from_string _); exists false; eexists; rewrite orb_false_r; done. Qed.

Lemma file_port_sets v st : is_Some (as_ssize v) -> sets (opt_set set_port (yaml_port v)) (file_port v st) st.
Proof.
  intros [n Hn]. unfold file_port, yaml_port. rewrite Hn. cbn. fold (port_ok n).
  destruct (port_ok n); [exists false|exists true]; eexists; (split; [done|]); split_and!; try done;
    by rewrite ?orb_false_r, ?orb_true_r.
Qed.

Definition metrics_of file c : Configuration :=
  opt_set set_port (file_value file "metrics" "port" ≫= yaml_port) (opt_set set_host (file_value file "metrics" "host" ≫= yaml_address)
    (opt_set (set_enabled ∘ Some) (file_value file "metrics" "enabled" ≫= yaml_bool) c)).

Lemma metrics_sets file msg st :
  port_unreadable file = false -> sets (metrics_of file) (in_section file "metrics" msg metrics_section st) st.
Proof.
  unfold port_unreadable, metrics_of, in_section, file_value, map_of. intros Hp.
  destruct file as [root|]; cbn in *; [|exists false, st; by rewrite orb_false_r].
  destruct (IsDefined (child root "metrics")); cbn in *; [|exists false, st; by rewrite orb_false_r].
  destruct (IsMap (child root "metrics")); cbn in *; [|exists true, (fail_file msg st); by rewrite orb_true_r].
  unfold metrics_section. eapply (sets_bind _ (_ ∘ _)); [apply (sets_scalar _ _ _ (set_enabled ∘ Some) _ yaml_bool); intros; apply file_enabled_sets|intros].
  eapply sets_bind; [apply (sets_scalar _ _ _ set_host _ yaml_address); intros; apply file_host_sets|intros].
  apply (sets_scalar _ _ _ set_port _ yaml_port). intros v x Hv. apply file_port_sets. rewrite Hv in Hp. apply bool_decide_eq_false in Hp.
  by apply not_eq_None_Some.
Qed.

Lemma metrics_raises file msg st :
  port_unreadable file = true -> in_section file "metrics" msg metrics_section st = Raise "bad conversion".
Proof.
  unfold port_unreadable, in_section, file_value, map_of. intros Hp.
  destruct file as [root|]; cbn in *; [|done]. destruct (IsDefined (child root "metrics")); cbn in *; [|done].
  destruct (IsMap (child root "metrics")); cbn in *; [|done]. set (s := child root "metrics") in *.
  unfold metrics_section.
  destruct (sets_scalar s "enabled" "E: Value 'metrics.enabled' must be scalar" (set_enabled ∘ Some) file_enabled yaml_bool st)
    as (b1 & s1 & -> & _); [intros; apply file_enabled_sets|]. cbn.
  destruct (sets_scalar s "host" "E: Value 'network.metrics.host' defined, but is not scalar" set_host file_host yaml_address s1)
    as (b2 & s2 & -> & _); [intros; apply file_host_sets|]. cbn.
  unfold scalar, scalar_of in *. destruct (IsDefined (child s "port")); cbn in *; [|done].
  destruct (IsScalar (child s "port")); cbn in *; [|done]. apply bool_decide_eq_true in Hp. unfold file_port. by rewrite Hp.
Qed.

(** ** The command line *)

Lemma find_typed {A} (as_T : Value -> option A) kind vm name :
  typed vm -> forallb (fun p => bool_decide (p.1 = name -> p.2 = kind)) cli_options = true ->
  (forall v, kind_of v = kind -> is_Some (as_T v)) ->
  find_argument as_T vm name = Done (cli_value as_T vm name).
Proof.
  intros Ht Hk Has. unfold find_argument, cli_value. destruct (vm !! name) as [a|] eqn:Ha; cbn; [|done].
  destruct (defaulted a); [done|]. specialize (Ht _ _ Ha).
  rewrite forallb_forall in Hk. apply list_elem_of_In, Hk, bool_decide_eq_true in Ht. specialize (Ht eq_refl). cbn in Ht.
  destruct (Has _ Ht) as [x ->]. done.
Qed.

Lemma as_str_kind v : kind_of v = KString -> is_Some (as_str v).
Proof. by destruct v. Qed.
Lemma as_u32_kind v : kind_of v = KU32 -> is_Some (as_u32 v).
Proof. by destruct v. Qed.
Lemma as_u16_kind v : kind_of v = KU16 -> is_Some (as_u16 v).
Proof. by destruct v. Qed.

Lemma from_cli_typed {A} (as_T : Value -> option A) kind vm name f st :
  typed vm -> forallb (fun p => bool_decide (p.1 = name -> p.2 = kind)) cli_options = true ->
  (forall v, kind_of v = kind -> is_Some (as_T v)) ->
  from_cli as_T vm name f st = Done (on_config (opt_set f (cli_value as_T vm name)) st).
Proof.
  intros Ht Hk Has. unfold from_cli. rewrite (find_typed as_T kind) by done. cbn. destruct (cli_value as_T vm name); [done|].
  by destruct st.
Qed.

Lemma no_disabled vm : typed vm -> find_flag vm "prometheus_disabled" = false.
Proof.
  intros Ht. unfold find_flag. destruct (vm !! _) as [a|] eqn:Ha; [|done]. specialize (Ht _ _ Ha).
  unfold cli_options in Ht. set_unfold. naive_solver.
Qed.

Lemma cli_str vm name f st :
  typed vm -> forallb (fun p => bool_decide (p.1 = name -> p.2 = KString)) cli_options = true ->
  from_cli as_str vm name f st = Done (on_config (opt_set f (cli_value as_str vm name)) st).
Proof. intros Ht Hn. apply (from_cli_typed as_str KString); [done..|apply as_str_kind]. Qed.

Lemma report_typed vm st :
  typed vm -> report_file vm st = if file_has_error_ st then Fail ConfigFileParseFailed else mret tt.
Proof.
  intros Ht. unfold report_file. destruct (file_has_error_ st); [|done].
  by rewrite (find_typed as_str KString) by (done || apply as_str_kind).
Qed.

(** ** The three parts *)

Definition after_general file vm : Configuration :=
  MkConfiguration buildVersion (text file vm "general" "name" "name" "noname") (base_of file vm)
    (resolved file vm "general" "spec_file" "spec_file" "") (resolved file vm "general" "modules_dir" "modules_dir" "")
    "db" 536870912 (MkEndpoint address_any 9615) None.

Definition chosen file vm : Configuration :=
  MkConfiguration buildVersion (text file vm "general" "name" "name" "noname") (base_of file vm)
    (text file vm "general" "spec_file" "spec_file" "") (text file vm "general" "modules_dir" "modules_dir" "")
    "db" 536870912 (MkEndpoint address_any 9615) None.

Lemma general_chosen file vm :
  opt_set set_spec_file (cli_value as_str vm "spec_file") (opt_set set_modules_dir (cli_value as_str vm "modules_dir")
    (opt_set set_base_path (cli_value as_str vm "base_path") (opt_set set_name (cli_value as_str vm "name") (general_of file defaults))))
  = chosen file vm.
Proof.
  unfold general_of, chosen, base_of, text, pick.
  destruct (cli_value as_str vm "spec_file"), (cli_value as_str vm "modules_dir"), (cli_value as_str vm "base_path"),
    (cli_value as_str vm "name"), (file_string file "general" "modules_dir"), (file_string file "general" "spec_file"),
    (file_string file "general" "base_path"), (file_string file "general" "name"); reflexivity.
Qed.

Lemma general_answer file vm cwd0 :
  typed vm ->
  initGeneralConfig file vm (MkSt defaults [] false cwd0)
  = if malformed file "general" ["name"; "base_path"; "spec_file"; "modules_dir"]%string then Fail ConfigFileParseFailed
    else if negb (paths_ok (config_of file vm)) then Fail InvalidValue
    else x ← in_section file "general" "E: Section 'general' defined, but is not map" general_section (MkSt defaults [] false cwd0);
         mret (MkSt (after_general file vm) (file_errors_ x) false (base_of file vm)).
Proof.
  intros Ht. unfold initGeneralConfig.
  destruct (general_updates file "E: Section 'general' defined, but is not map" (MkSt defaults [] false cwd0)) as (s1 & -> & C & W & F).
  cbn [mbind run_bind]. rewrite report_typed, F by done. cbn [file_has_error_ orb]. destruct (malformed _ _ _) eqn:Hm; [done|].
  cbn [mbind run_bind mret run_ret config_] in *.
  do 4 (rewrite cli_str by done; cbn [mbind run_bind]). destruct s1 as [c1 e1 f1 w1]. cbn [config_ file_has_error_ cwd] in C, F. subst c1 f1.
  unfold on_config. cbn [config_ file_errors_ file_has_error_ cwd orb]. rewrite general_chosen.
  unfold paths_ok, make_absolute. cbn [config_ cwd chosen base_path_ config_of modules_dir_ spec_file_ set_modules_dir set_spec_file].
  fold (base_of file vm). destruct (is_absolute (base_of file vm)) eqn:Ha; cbn [fail_if negb mbind run_bind andb]; [|done].
  destruct (is_directory (base_of file vm)); cbn [fail_if negb mbind run_bind andb]; [|done].
  fold (resolved file vm "general" "modules_dir" "modules_dir" "").
  destruct (is_directory (resolved _ _ _ _ _ _)); cbn [fail_if negb mbind run_bind andb]; [|done].
  fold (resolved file vm "general" "spec_file" "spec_file" "").
  destruct (is_regular_file _); cbn [fail_if negb mbind run_bind andb]; done.
Qed.

Definition after_database file vm : Configuration :=
  MkConfiguration buildVersion (text file vm "general" "name" "name" "noname") (base_of file vm)
    (resolved file vm "general" "spec_file" "spec_file" "") (resolved file vm "general" "modules_dir" "modules_dir" "")
    (resolved file vm "database" "path" "db_path" "db")
    (pick (cli_value as_u32 vm "db_cache_size") (file_value file "database" "cache_size" ≫= yaml_bytes) 536870912)
    (MkEndpoint address_any 9615) None.

Lemma database_chosen file vm c :
  c = opt_set set_cache_size (cli_value as_u32 vm "db_cache_size") (opt_set set_directory (cli_value as_str vm "db_path")
        (database_of file (after_general file vm))) ->
  base_path_ c = base_of file vm /\ set_directory (weakly_canonical (base_of file vm) (directory c)) c = after_database file vm.
Proof.
  intros ->. unfold database_of, after_general, after_database, resolved, text, pick, opt_set.
  destruct (cli_value as_u32 vm "db_cache_size"), (cli_value as_str vm "db_path"),
    (file_value file "database" "cache_size" ≫= yaml_bytes), (file_string file "database" "path"); done.
Qed.

Lemma database_answer file vm st :
  typed vm -> config_ st = after_general file vm -> cwd st = base_of file vm -> file_has_error_ st = false ->
  is_absolute (base_of file vm) = true ->
  if malformed file "database" ["path"; "cache_size"]%string then initDatabaseConfig file vm st = Fail ConfigFileParseFailed
  else exists st', initDatabaseConfig file vm st = Done st' /\ config_ st' = after_database file vm.
Proof.
  intros Ht Hc Hw Hf Ha. unfold initDatabaseConfig.
  destruct (database_updates file "E: Section 'database' defined, but is not map" st) as (s1 & -> & C & W & F).
  cbn [mbind run_bind]. rewrite report_typed, F, Hf by done. cbn [orb]. destruct (malformed _ _ _) eqn:Hm; [done|].
  cbn [mbind run_bind mret run_ret]. rewrite cli_str by done. cbn [mbind run_bind].
  rewrite (from_cli_typed as_u32 KU32) by (done || apply as_u32_kind). eexists. split; [done|].
  unfold make_absolute, on_config. cbn [config_ cwd]. rewrite C, W, Hw, Hc.
  destruct (database_chosen file vm _ eq_refl) as [-> Hd]. by rewrite Ha.
Qed.

(** The endpoint and the switch after the four sources of an endpoint. *)
Lemma endpoint_chosen file vm :
  cli_endpoint_bad vm = false ->
  let c := opt_set set_port (cli_value as_u16 vm "prometheus_port")
    (opt_set set_host (cli_value as_str vm "prometheus_host" ≫= from_string) (metrics_of file (after_database file vm))) in
  match enabled c with None => set_enabled (Some false) c | Some _ => c end = config_of file vm.
Proof.
  unfold cli_endpoint_bad. intros [Hh Hp]%orb_false_elim.
  unfold metrics_of, config_of, after_database, enabled_of, host_of, port_of.
  set (fp := file_value file "metrics" "port" ≫= yaml_port).
  assert (forall n, fp = Some n -> u16 n = n) as Hfp.
  { subst fp. intros n (v & _ & Hn)%bind_Some. unfold yaml_port in Hn. apply bind_Some in Hn as (m & _ & Hn).
    destruct (port_ok m) eqn:Hok; [injection Hn as <-|done]. apply wrap_id. unfold port_ok in Hok. lia. }
  assert (forall n, cli_value as_u16 vm "prometheus_port" = Some n -> u16 n = n) as Hcp.
  { intros n Hn. rewrite Hn in Hp. apply negb_false_iff in Hp. apply wrap_id. unfold port_ok in Hp. lia. }
  destruct (cli_value as_str vm "prometheus_host") as [h|]; cbn in *.
  1: apply bool_decide_eq_false in Hh; destruct (from_string h) as [a|]; [|done].
  all: destruct (cli_value as_u16 vm "prometheus_port") as [q|]; [specialize (Hcp q eq_refl)|clear Hcp].
  all: destruct fp as [r|]; [specialize (Hfp r eq_refl)|clear Hfp].
  all: destruct (file_value file "metrics" "host" ≫= yaml_address) as [b|], (file_value file "metrics" "enabled" ≫= yaml_bool) as [e|];
    unfold set_port, set_host, enable; cbn; rewrite ?Hcp, ?Hfp; try done.
Qed.

Lemma switch_off st :
  config_ (match enabled (config_ st) with None => on_config (set_enabled (Some false)) st | Some _ => st end)
  = match enabled (config_ st) with None => set_enabled (Some false) (config_ st) | Some _ => config_ st end.
Proof. by destruct (enabled (config_ st)). Qed.

Lemma metrics_answer file vm st :
  typed vm -> config_ st = after_database file vm ->
  (st' ← initOpenMetricsConfig file vm st; mret (config_ st'))
  = if port_unreadable file then Raise "bad conversion" else if cli_endpoint_bad vm then Fail CliArgsParseFailed
    else mret (config_of file vm).
Proof.
  intros Ht Hc. unfold initOpenMetricsConfig. destruct (port_unreadable file) eqn:Hu; [by rewrite metrics_raises|].
  destruct (metrics_sets file "E: Section 'metrics' defined, but is not map" st Hu) as (b & s1 & -> & C & _ & _).
  cbn [mbind run_bind]. rewrite (find_typed as_str KString) by (done || apply as_str_kind).
  cbn [mbind run_bind]. rewrite no_disabled by done. rewrite Hc in C.
  destruct (cli_endpoint_bad vm) eqn:Hb.
  - unfold cli_endpoint_bad in Hb. destruct (cli_value as_str vm "prometheus_host") as [h|];
      [destruct (from_string h) as [a|]|]; cbn [mbind run_bind mret run_ret] in *;
      [rewrite bool_decide_eq_false_2 in Hb by done| done |]; cbn [orb] in Hb;
      rewrite (find_typed as_u16 KU16) by (done || apply as_u16_kind); cbn [mbind run_bind];
      destruct (cli_value as_u16 vm "prometheus_port") as [n|]; try done; apply negb_true_iff in Hb; unfold port_ok in Hb; by rewrite Hb.
  - rewrite <-(endpoint_chosen file vm Hb). unfold cli_endpoint_bad in Hb. apply orb_false_elim in Hb as [Hh Hp]. rewrite <-C.
    destruct (cli_value as_str vm "prometheus_host") as [h|]; [apply bool_decide_eq_false in Hh; destruct (from_string h) as [a|] eqn:Ea; [|done]|];
      cbn [mbind run_bind mret run_ret option_bind opt_set];
      rewrite (find_typed as_u16 KU16) by (done || apply as_u16_kind); cbn [mbind run_bind];
      (destruct (cli_value as_u16 vm "prometheus_port") as [n|]; [apply negb_false_iff in Hp; unfold port_ok in Hp; rewrite Hp|]);
      cbn [mbind run_bind mret run_ret opt_set]; rewrite switch_off, ?Ea; done.
Qed.

(** Look up the same value in both command lines, in the first statement. *)
Ltac same_lookups Hne := unfold report_file, from_cli, find_argument, find_flag; progress rewrite Hne by done.

(** ** The configuration *)

Lemma config_answer file vm cwd0 : typed vm -> calculateConfig file vm cwd0 = answer file vm.
Proof.
  intros Ht. unfold calculateConfig, answer. rewrite general_answer by done.
  destruct (malformed file "general" _); [done|]. destruct (paths_ok (config_of file vm)) eqn:Hp; cbn [negb]; [|done].
  destruct (general_updates file "E: Section 'general' defined, but is not map" (MkSt defaults [] false cwd0)) as (s1 & -> & _).
  cbn [mbind run_bind mret run_ret]. unfold paths_ok in Hp. rewrite !andb_true_iff in Hp. destruct Hp as [[[Ha _] _] _].
  pose proof (database_answer file vm (MkSt (after_general file vm) (file_errors_ s1) false (base_of file vm)) Ht eq_refl eq_refl eq_refl Ha) as Hd.
  destruct (malformed file "database" _); [by rewrite Hd|]. destruct Hd as (s2 & -> & C2). cbn [mbind run_bind].
  by apply metrics_answer.
Qed.


(** The documented option [--prometheus_disable] has no effect: the
    configuration is the same with and without it, since the code looks up another
    name. *)
Theorem prometheus_disable_ignored file vm a cwd0 :
  calculateConfig file (<["prometheus_disable"%string := a]> vm) cwd0 = calculateConfig file vm cwd0.
Proof.
  set (vm' := <["prometheus_disable"%string := a]> vm).
  assert (forall name, name <> "prometheus_disable"%string -> vm' !! name = vm !! name) as Hne.
  { intros name Hn. subst vm'. by rewrite lookup_insert_ne. }
  unfold calculateConfig, initGeneralConfig, initDatabaseConfig, initOpenMetricsConfig.
  clearbody vm'. repeat (same_lookups Hne || (apply bind_ext; intros) || done).
Qed.

End spec.

(** ** Samples *)

Module Samples.

(** A file as nested association lists. *)
Inductive yaml : Type := YScalar (s : string) | YMap (l : list (string * yaml)) | YAbsent.

Definition yaml_child (n : yaml) (k : string) : yaml :=
  match n with
  | YMap l => match list_find (fun p => p.1 = k) l with Some (_, p) => p.2 | None => YAbsent end
  | _ => YAbsent
  end.

Definition yaml_text (n : yaml) : string := match n with YScalar s => s | _ => "" end.

#[local] Instance sample_env : ConfigEnv := {|
  buildVersion := "1.0";
  Node := yaml;
  IsDefined n := match n with YAbsent => false | _ => true end;
  IsMap n := match n with YMap _ => true | _ => false end;
  IsScalar n := match n with YScalar _ => true | _ => false end;
  child := yaml_child;
  as_string := yaml_text;
  as_ssize n := fst <$> Parsers.split_number (Parsers.chars (yaml_text n));
  is_absolute p := String.prefix "/" p;
  is_directory p := bool_decide (p ∈ ["/jam"; "/jam/modules"]%string);
  is_regular_file p := bool_decide (p = "/jam/spec.json"%string);
  path_append p q := (p ++ "/" ++ q)%string;
  weakly_canonical d p := if String.prefix "/" p then p else (d ++ "/" ++ p)%string;
  Address := string;
  address_any := "0.0.0.0";
  from_string s := if bool_decide (s = "nonsense"%string) then None else Some s
|}.

Definition sample_file : Node :=
  YMap [("general", YMap [("base_path", YScalar "/jam"); ("spec_file", YScalar "spec.json"); ("name", YScalar "alice")]);
        ("database", YMap [("cache_size", YScalar "4096")]);
        ("metrics", YMap [("host", YScalar "nonsense"); ("port", YScalar "9000")])]%string.

Definition sample_vm : variables_map :=
  <["modules_dir"%string := MkArg false (VString "modules")]> (<["name"%string := MkArg false (VString "bob")]>
    (<["db_path"%string := MkArg true (VString "db")]> ∅)).


(** Mistakes the file may contain without being reported: a cache size that is
    no number and a metrics host that is no address are skipped, and a metrics
    section that is not a map is ignored, although each one is recorded as an error
    of the file. *)
Example file_mistakes_unreported :
  let with_db v : Node := YMap [("general", YMap [("base_path", YScalar "/jam"); ("spec_file", YScalar "spec.json")]);
                         ("database", YMap [("cache_size", YScalar v)]); ("metrics", YScalar "on")]%string in
  calculateConfig (Some (with_db "lots"%string)) sample_vm "/tmp" = calculateConfig (Some (with_db "536870912"%string)) sample_vm "/tmp"
  /\ calculateConfig (Some (with_db "lots"%string)) sample_vm "/tmp"
     = Done (MkConfiguration "1.0" "bob" "/jam" "/jam/spec.json" "/jam/modules" "/jam/db" 536870912 (MkEndpoint ("0.0.0.0"%string : Address) 9615) (Some false)).
Proof. split; reflexivity. Qed.

End Samples.
End ConfiguratorSpec.
