(* ===== verification/Utils.v ===== *)
(** * Utils: small shared utilities

    [src/src/utils/retain_if.hpp], [request_id.hpp] and the [Singleton] of
    [ctor_limiters.hpp]. *)

From S2P Require Import Prelude.

Module Utils.

(** ** [retain_if] *)

(** The overload for vectors: [v.erase(std::remove_if(..., not predicate), v.end())]. *)
Definition retain_if {A} (predicate : A -> bool) (v : list A) : list A := filter (fun x => predicate x = true) v.

(** The overload for associative containers: the loop with the iterator; [kept] is
    what lies before it. *)
Fixpoint retain_loop {A} (predicate : A -> bool) (kept rest : list A) : list A :=
  match rest with
  | [] => kept
  | x :: rest => if negb (predicate x) then retain_loop predicate kept rest else retain_loop predicate (kept ++ [x]) rest
  end.

Definition retain_if_keyed {A} (predicate : A -> bool) (v : list A) : list A := retain_loop predicate [] v.

(** ** Request identifiers *)

Record RequestId : Type := MkRequestId { id : Z }.

#[global] Instance RequestId_eq_dec : EqDecision RequestId.
Proof. solve_decision. Defined.

(** [RequestId(size_t seed, size_t n)] *)
Definition new_request_id (seed n : Z) : RequestId :=
  MkRequestId (u64 (n + 0x9e3779b9 + u64 (Z.shiftl seed 6) + Z.shiftr seed 2)).

Definition hash_request_id (r : RequestId) : Z := id r.

Definition hex_digit (n : Z) : Ascii.ascii :=
  Ascii.ascii_of_nat (Z.to_nat (if n <? 10 then 48 + n else 87 + n)).

(** [{:02x}] of a byte. *)
Definition hex02 (b : Z) : list Ascii.ascii := [hex_digit (b / 16); hex_digit (b mod 16)].

(** The formatter prints the three bytes at the lowest addresses (a little-endian
    target). *)
Definition format_request_id (r : RequestId) : list Ascii.ascii := concat (hex02 <$> take 3 (le_bytes 8 (id r))).

(** ** Singletons *)

(** The flag [exists] of a type, and the identities of its living instances. *)
Record Singletons : Type := MkSingletons { exists_ : bool; alive : list nat; fresh : nat }.

Definition none_yet : Singletons := MkSingletons false [] 0.

(** The constructor; the flag is set in any case. *)
Definition construct (s : Singletons) : Singletons * run unit nat :=
  let prev := exists_ s in
  let s := MkSingletons true (alive s) (fresh s) in
  if prev then (s, Raise "Attempt to create one more instance of singleton")
  else (MkSingletons true (fresh s :: alive s) (S (fresh s)), Done (fresh s)).

(** The destructor of a living instance. *)
Definition destruct_ (s : Singletons) (i : nat) : Singletons :=
  MkSingletons false (filter (fun j => j <> i) (alive s)) (fresh s).

Inductive Op : Type := Construct | Destruct (i : nat).

Definition step (s : Singletons) (o : Op) : Singletons :=
  match o with
  | Construct => (construct s).1
  | Destruct i => if bool_decide (i ∈ alive s) then destruct_ s i else s
  end.

(** ** Lemmas *)

Lemma retain_loop_filter {A} (p : A -> bool) kept rest :
  retain_loop p kept rest = kept ++ filter (fun x => p x = true) rest.
Proof.
  revert kept. induction rest as [|x rest IH]; intros kept; cbn [retain_loop]; [by rewrite app_nil_r|].
  rewrite filter_cons. destruct (p x) eqn:Hp; cbn [negb]; rewrite IH.
  - rewrite decide_True by done. by rewrite <-(assoc_L (++)).
  - by rewrite decide_False by done.
Qed.

(** Both overloads keep exactly the elements that satisfy the predicate, in order. *)
Lemma retain_if_keyed_filter {A} (p : A -> bool) (v : list A) : retain_if_keyed p v = retain_if p v.
Proof. unfold retain_if_keyed. by rewrite retain_loop_filter. Qed.

(** Requests of one requester are told apart: for a fixed seed the identifiers of
    two different 64-bit counters differ, although the computation wraps around. *)
Theorem request_ids_distinct seed n1 n2 :
  0 <= n1 < 2 ^ 64 -> 0 <= n2 < 2 ^ 64 -> new_request_id seed n1 = new_request_id seed n2 -> n1 = n2.
Proof.
  intros H1 H2 [= He]. unfold wrap in He.
  set (k := 2654435769 + Z.shiftl seed 6 mod 2 ^ 64 + Z.shiftr seed 2).
  assert (forall n, n + 2654435769 + Z.shiftl seed 6 mod 2 ^ 64 + Z.shiftr seed 2 = n + k) as Hk by (intros; subst k; lia).
  rewrite !Hk in He. assert (n1 mod 2 ^ 64 = n2 mod 2 ^ 64) as Hm; [|by rewrite !Z.mod_small in Hm].
  replace n1 with ((n1 + k) - k) by lia. replace n2 with ((n2 + k) - k) by lia.
  rewrite (Zminus_mod (n1 + k)), He, <-Zminus_mod. done.
Qed.

(** The invariant of a singleton type: the flag says whether there is an instance. *)
Definition singleton_ok (s : Singletons) : Prop :=
  (length (alive s) <= 1)%nat /\ (alive s <> [] -> exists_ s = true).

Lemma step_ok s o : singleton_ok s -> singleton_ok (step s o).
Proof.
  intros [Hl He]. destruct o as [|i]; cbn.
  - unfold construct. destruct (exists_ s) eqn:Hx; cbn; [done|]. split; [|done]. cbn.
    destruct (alive s); [done|]. by discriminate He.
  - case_bool_decide as Hi; [|done]. split; cbn.
    + pose proof (length_filter (fun j => j <> i) (alive s)). lia.
    + destruct (alive s) as [|j [|]]; cbn [length] in Hl; [done| |lia].
      apply list_elem_of_singleton in Hi as ->. rewrite filter_cons, decide_False by naive_solver. done.
Qed.

(** Whatever is constructed and destroyed, in any order, there is never more than
    one instance of a singleton type. *)
Theorem singleton_unique ops : (length (alive (foldl step none_yet ops)) <= 1)%nat.
Proof.
  enough (singleton_ok (foldl step none_yet ops)) by apply H.
  assert (singleton_ok none_yet) as H0 by (split; cbn; [lia|done]).
  revert H0. generalize none_yet. induction ops as [|o ops IH]; intros s Hs; [done|]. by apply IH, step_ok.
Qed.

Lemma request_ids_distinct_witness : new_request_id 94000 1 = new_request_id 94000 1 -> 1 = 1.
Proof. apply (request_ids_distinct 94000 1 1); lia. Defined.

End Utils.
