(* ===== verification/Sync.v ===== *)
(** * Sync: the synchronisation primitives of the subscription engine

    [src/src/se/impl/common.hpp]: [WaitForSingleObject] (a flag, a mutex and a
    condition variable) and [SafeObject] (an object behind a shared mutex), each as
    a step relation over any number of threads.  What happens under the mutex is one
    step, as is the atomic "release and block" of a condition variable. *)

From S2P Require Import Prelude.

(** ** The event *)

Module Event.

(** A thread in [wait]: before its next look at the flag ([Checking]), blocked in the
    condition variable, past its deadline, or back with the answer.  [timed] is the
    overload with a timeout. *)
Inductive Waiter : Type :=
| Checking (timed : bool)
| Blocked (timed : bool)
| Expired
| Returned (signaled : bool).

(** A thread in [set]: before the flag is stored, before [notify_one], done. *)
Inductive Setter : Type := Storing | Notifying | SetDone.

Record State : Type := MkState { flag_ : bool; waiters : list Waiter; setters : list Setter }.

Definition initial (timed : list bool) (n : nat) : State := MkState true (Checking <$> timed) (replicate n Storing).

(** The predicate of both overloads: [prev = !flag_; flag_ = true; return prev]. *)
Definition predicate (flag : bool) : bool * bool := (negb flag, true).

(** The waiting loop of the condition variable around the predicate. *)
Definition check (flag : bool) (w : Waiter) : option (bool * Waiter) :=
  let '(prev, flag') := predicate flag in
  match w with
  | Checking timed => Some (flag', if prev then Returned true else Blocked timed)
  | Expired => Some (flag', Returned prev)
  | _ => None
  end.

Inductive step : State -> State -> Prop :=
| step_check f ws ss i w f' w' :
    ws !! i = Some w -> check f w = Some (f', w') -> step (MkState f ws ss) (MkState f' (<[i := w']> ws) ss)
| step_store f ws ss j :
    ss !! j = Some Storing -> step (MkState f ws ss) (MkState false ws (<[j := Notifying]> ss))
| step_notify f ws ss j i t :
    ss !! j = Some Notifying -> ws !! i = Some (Blocked t) ->
    step (MkState f ws ss) (MkState f (<[i := Checking t]> ws) (<[j := SetDone]> ss))
| step_notify_none f ws ss j :
    ss !! j = Some Notifying -> (forall i t, ws !! i <> Some (Blocked t)) ->
    step (MkState f ws ss) (MkState f ws (<[j := SetDone]> ss))
| step_spurious f ws ss i t :
    ws !! i = Some (Blocked t) -> step (MkState f ws ss) (MkState f (<[i := Checking t]> ws) ss)
| step_timeout f ws ss i :
    ws !! i = Some (Blocked true) -> step (MkState f ws ss) (MkState f (<[i := Expired]> ws) ss).

(** Threads that go on by themselves. *)
Definition active_waiter (w : Waiter) : bool := match w with Checking _ | Expired => true | _ => false end.
Definition active_setter (s : Setter) : bool := match s with SetDone => false | _ => true end.

Definition returned_true (w : Waiter) : bool := match w with Returned b => b | _ => false end.
Definition stored (s : Setter) : bool := match s with Storing => false | _ => true end.

(** Nothing but spurious wake-ups and timeouts can happen. *)
Definition quiescent (s : State) : Prop :=
  Forall (fun w => active_waiter w = false) (waiters s) /\ Forall (fun x => active_setter x = false) (setters s).

Definition count {A} (p : A -> bool) (l : list A) : nat := length (filter (fun x => p x = true) l).

(** ** Lemmas *)

Lemma count_cons {A} (p : A -> bool) x l : count p (x :: l) = (Nat.b2n (p x) + count p l)%nat.
Proof. unfold count. rewrite filter_cons. by destruct (p x). Qed.

Lemma count_insert {A} (p : A -> bool) l i x y :
  l !! i = Some x -> (count p (<[i := y]> l) + Nat.b2n (p x) = count p l + Nat.b2n (p y))%nat.
Proof.
  revert i. induction l as [|z l IH]; intros [|i] Hi; cbn in Hi; try done.
  - injection Hi as ->. cbn [insert list_insert]. rewrite !count_cons. lia.
  - specialize (IH i Hi). change (<[S i := y]> (z :: l)) with (z :: <[i := y]> l). rewrite !count_cons. lia.
Qed.

(** A pending signal and a blocked thread: somebody else is on the way. *)
Definition attended (s : State) : Prop :=
  flag_ s = false -> (exists i t, waiters s !! i = Some (Blocked t)) ->
  (exists i w, waiters s !! i = Some w /\ active_waiter w = true) \/ (exists j, setters s !! j = Some Notifying).

Lemma lookup_kept {A} (l : list A) i j x y z :
  l !! i = Some x -> l !! j = Some y -> x <> y -> <[j := z]> l !! i = Some x.
Proof. intros Hi Hj Hn. rewrite list_lookup_insert_ne; [done|]. intros ->. by simplify_eq. Qed.

Lemma lookup_insert_here {A} (l : list A) i x y : l !! i = Some x -> <[i := y]> l !! i = Some y.
Proof. intros Hi. apply list_lookup_insert_eq. by eapply lookup_lt_Some. Qed.

Lemma check_sets f w f' w' : check f w = Some (f', w') -> f' = true.
Proof. unfold check, predicate. destruct w; congruence. Qed.

Lemma attended_step s s' : attended s -> step s s' -> attended s'.
Proof.
  intros Ha Hs. inversion Hs as [f ws ss i w f' w' Hi Hc|f ws ss j Hj|f ws ss j i t Hj Hi|f ws ss j Hj Hno|f ws ss i t Hi|f ws ss i Hi];
    subst; unfold attended in *; cbn in *; intros Hf Hb.
  - by rewrite (check_sets _ _ _ _ Hc) in Hf.
  - right. exists j. by eapply lookup_insert_here.
  - left. exists i, (Checking t). split; [by eapply lookup_insert_here|done].
  - destruct Hb as (i & t & Hi). by destruct (Hno i t).
  - left. exists i, (Checking t). split; [by eapply lookup_insert_here|done].
  - left. exists i, Expired. split; [by eapply lookup_insert_here|done].
Qed.

Lemma attended_reachable ts n s : rtc step (initial ts n) s -> attended s.
Proof.
  intros Hr. assert (attended (initial ts n)) as H0 by (intros Hf; done).
  revert H0. induction Hr as [|x y z Hxy _ IH]; [done|]. intros Hx. apply IH. by eapply attended_step.
Qed.

(** Answers [true] are paid for by signals. *)
Definition paid (s : State) : Prop :=
  (count returned_true (waiters s) + Nat.b2n (negb (flag_ s)) <= count stored (setters s))%nat.

Lemma paid_step s s' : paid s -> step s s' -> paid s'.
Proof.
  intros Hp Hs. inversion Hs as [f ws ss i w f' w' Hi Hc|f ws ss j Hj|f ws ss j i t Hj Hi|f ws ss j Hj Hno|f ws ss i t Hi|f ws ss i Hi];
    subst; unfold paid in *; cbn [flag_ waiters setters] in *.
  - pose proof (count_insert returned_true _ _ _ w' Hi) as Hw. unfold check, predicate in Hc.
    destruct w as [timed| | |]; try done; injection Hc as <- <-; destruct f; cbn [negb returned_true Nat.b2n] in *; lia.
  - pose proof (count_insert stored _ _ _ Notifying Hj) as Hw. cbn in Hw. destruct f; cbn in *; lia.
  - pose proof (count_insert stored _ _ _ SetDone Hj) as Hw. cbn in Hw.
    pose proof (count_insert returned_true _ _ _ (Checking t) Hi) as Hv. cbn in Hv. lia.
  - pose proof (count_insert stored _ _ _ SetDone Hj) as Hw. cbn in Hw. lia.
  - pose proof (count_insert returned_true _ _ _ (Checking t) Hi) as Hv. cbn in Hv. lia.
  - pose proof (count_insert returned_true _ _ _ Expired Hi) as Hv. cbn in Hv. lia.
Qed.

Lemma count_none {A} (p : A -> bool) l : Forall (fun x => p x = false) l -> count p l = 0%nat.
Proof. intros H. unfold count. rewrite filter_none; [done|]. eapply Forall_impl; [done|]. cbn. intros x ->. done. Qed.

Lemma paid_reachable ts n s : rtc step (initial ts n) s -> paid s.
Proof.
  intros Hr. assert (paid (initial ts n)) as H0.
  { unfold paid. cbn [flag_ waiters setters initial negb Nat.b2n]. rewrite count_none; [lia|]. apply Forall_fmap, Forall_true. done. }
  revert H0. induction Hr as [|x y z Hxy _ IH]; [done|]. intros Hx. apply IH. by eapply paid_step.
Qed.

(** ** Theorems *)

(** C35: no signal is lost. However waits, sets, timeouts and spurious wake-ups of any
    number of threads interleave, when the system comes to rest (every [set] is done
    and no waiting thread is about to look at the flag) no thread is blocked while
    the event is signaled. *)
Theorem no_lost_wakeup ts n s :
  rtc step (initial ts n) s -> quiescent s -> flag_ s = false -> forall i t, waiters s !! i <> Some (Blocked t).
Proof.
  intros Hr [Hw Hs] Hf i t Hi. destruct (attended_reachable _ _ _ Hr Hf) as [(j & w & Hj & Ha)|(j & Hj)]; [by exists i, t| |].
  - rewrite Forall_lookup in Hw. by rewrite (Hw _ _ Hj) in Ha.
  - rewrite Forall_lookup in Hs. by discriminate (Hs _ _ Hj).
Qed.

(** The event resets itself: at no time have more calls of [wait] answered "signaled"
    than calls of [set] have stored the signal, one less while the signal is pending. *)
Theorem wakeups_bounded ts n s :
  rtc step (initial ts n) s ->
  (count returned_true (waiters s) + Nat.b2n (negb (flag_ s)) <= count stored (setters s))%nat.
Proof. apply paid_reachable. Qed.

(** One waiter that blocks, one signal that wakes it up. *)
Lemma sample_run : rtc step (initial [false] 1) (MkState false [Checking false] [SetDone]).
Proof.
  apply (rtc_l _ _ (MkState true [Blocked false] [Storing])); [by apply (step_check true [Checking false] [Storing] 0 (Checking false) true (Blocked false))|].
  apply (rtc_l _ _ (MkState false [Blocked false] [Notifying])); [by apply (step_store true [Blocked false] [Storing] 0)|].
  apply rtc_once. by apply (step_notify false [Blocked false] [Notifying] 0 0 false).
Qed.

Lemma sample_end : rtc step (initial [false] 1) (MkState true [Returned true] [SetDone]).
Proof.
  eapply rtc_r; [apply sample_run|]. by apply (step_check false [Checking false] [SetDone] 0 (Checking false) true (Returned true)).
Qed.

(** A second signal with nobody waiting. *)
Lemma sample_again : rtc step (initial [true] 2) (MkState false [Returned true] [SetDone; SetDone]).
Proof.
  apply (rtc_l _ _ (MkState false [Checking true] [Notifying; Storing])); [by apply (step_store true [Checking true] [Storing; Storing] 0)|].
  apply (rtc_l _ _ (MkState true [Returned true] [Notifying; Storing]));
    [by apply (step_check false [Checking true] [Notifying; Storing] 0 (Checking true) true (Returned true))|].
  assert (forall i t, [Returned true] !! i <> Some (Blocked t)) as Hno by (intros [|i] t; done).
  apply (rtc_l _ _ (MkState true [Returned true] [SetDone; Storing])); [by apply (step_notify_none true _ [Notifying; Storing] 0)|].
  apply (rtc_l _ _ (MkState false [Returned true] [SetDone; Notifying])); [by apply (step_store true _ [SetDone; Storing] 1)|].
  apply rtc_once. by apply (step_notify_none false _ [SetDone; Notifying] 1).
Qed.

Lemma no_lost_wakeup_witness : [Returned true] !! 0%nat <> Some (Blocked true).
Proof. refine (no_lost_wakeup [true] 2 _ sample_again _ eq_refl 0%nat true). split; repeat constructor. Defined.

Lemma wakeups_bounded_witness : (count returned_true [Returned true] <= 1)%nat.
Proof. pose proof (wakeups_bounded [false] 1 _ sample_end) as H. exact H. Defined.

End Event.

(** ** The guarded object *)

Module Safe.
Section safe.
Context {T : Type}.

(** The three kinds of access; the function is executed in steps of its own, so the
    object is read when the lock is taken and written when it is given back. *)
Inductive Access : Type := exclusiveAccess (f : T -> T) | try_exclusiveAccess (f : T -> T) | sharedAccess.

Inductive Thread : Type :=
| Outside (a : Access)
| InExclusive (f : T -> T) (seen : T)
| InShared (seen : T)
| Left (result : option T).

(** [std::shared_mutex]: free, held by a writer, held by that many readers. *)
Inductive Lock : Type := Free | Writer | Readers (n : nat).

(** [log]: the functions of the finished exclusive accesses, in order. *)
Record State : Type := MkState { t_ : T; cs_ : Lock; threads : list Thread; log : list (T -> T) }.

Definition initial (t : T) (l : list Access) : State := MkState t Free (Outside <$> l) [].

Definition wants_exclusive (a : Access) : option (T -> T) :=
  match a with exclusiveAccess f | try_exclusiveAccess f => Some f | sharedAccess => None end.

(** A further reader. *)
Definition share (l : Lock) : option Lock :=
  match l with Free => Some (Readers 1) | Readers n => Some (Readers (S n)) | Writer => None end.

Definition unshare (n : nat) : Lock := match n with S (S n) => Readers (S n) | _ => Free end.

(** [try_to_lock] may fail at any time. *)
Inductive step : State -> State -> Prop :=
| step_lock t ths lg i a f :
    ths !! i = Some (Outside a) -> wants_exclusive a = Some f ->
    step (MkState t Free ths lg) (MkState t Writer (<[i := InExclusive f t]> ths) lg)
| step_refused t l ths lg i f :
    ths !! i = Some (Outside (try_exclusiveAccess f)) -> step (MkState t l ths lg) (MkState t l (<[i := Left None]> ths) lg)
| step_unlock t l ths lg i f seen :
    ths !! i = Some (InExclusive f seen) ->
    step (MkState t l ths lg) (MkState (f seen) Free (<[i := Left (Some (f seen))]> ths) (lg ++ [f]))
| step_share t l l' ths lg i :
    ths !! i = Some (Outside sharedAccess) -> share l = Some l' ->
    step (MkState t l ths lg) (MkState t l' (<[i := InShared t]> ths) lg)
| step_unshare t n ths lg i seen :
    ths !! i = Some (InShared seen) ->
    step (MkState t (Readers n) ths lg) (MkState t (unshare n) (<[i := Left (Some seen)]> ths) lg).

Definition in_exclusive (x : Thread) : bool := match x with InExclusive _ _ => true | _ => false end.
Definition in_shared (x : Thread) : bool := match x with InShared _ => true | _ => false end.

(** *** The invariant *)

Definition lock_ok (s : State) : Prop :=
  let ex := Event.count in_exclusive (threads s) in
  let sh := Event.count in_shared (threads s) in
  match cs_ s with
  | Free => ex = 0 /\ sh = 0
  | Writer => ex = 1 /\ sh = 0
  | Readers n => ex = 0 /\ sh = n /\ (0 < n)
  end%nat.

(** Who is inside has seen the present object; who has left saw it at some moment. *)
Definition thread_ok (t0 : T) (s : State) (x : Thread) : Prop :=
  match x with
  | Outside _ | Left None => True
  | InExclusive _ seen | InShared seen => seen = t_ s
  | Left (Some v) => exists k, v = foldl (fun t f => f t) t0 (take k (log s))
  end.

Definition inv (t0 : T) (s : State) : Prop :=
  lock_ok s /\ t_ s = foldl (fun t f => f t) t0 (log s) /\ forall i x, threads s !! i = Some x -> thread_ok t0 s x.

Lemma count_zero {A} (p : A -> bool) l i x : Event.count p l = 0%nat -> l !! i = Some x -> p x = false.
Proof.
  revert i. induction l as [|y l IH]; intros [|i] Hc Hi; try done; rewrite Event.count_cons in Hc.
  - injection Hi as ->. destruct (p x); [cbn in Hc; lia|done].
  - apply (IH i); [lia|done].
Qed.

Lemma count_pos {A} (p : A -> bool) l i x : l !! i = Some x -> p x = true -> (0 < Event.count p l)%nat.
Proof.
  intros Hi Hx. destruct (Event.count p l) eqn:Hc; [|lia]. by rewrite (count_zero p l i x Hc Hi) in Hx.
Qed.

Lemma lock_ok_step s s' : lock_ok s -> step s s' -> lock_ok s'.
Proof.
  intros Hl Hs. inversion Hs as [t ths lg i a f Hi Ha|t l ths lg i f Hi|t l ths lg i f seen Hi|t l l' ths lg i Hi Hsh|t n ths lg i seen Hi];
    subst; unfold lock_ok in *; cbn [cs_ threads] in *;
    (lazymatch goal with |- context [<[_ := ?y]> _] =>
       pose proof (Event.count_insert in_exclusive _ _ _ y Hi) as He;
       pose proof (Event.count_insert in_shared _ _ _ y Hi) as Hh end);
    cbn [in_exclusive in_shared Nat.b2n] in He, Hh.
  - lia.
  - destruct l; lia.
  - pose proof (count_pos in_exclusive _ _ _ Hi eq_refl) as Hp. destruct l; lia.
  - destruct l; try discriminate Hsh; injection Hsh as <-; lia.
  - destruct n as [|[|n]]; cbn [unshare]; lia.
Qed.

Lemma left_grows (t0 : T) (lg : list (T -> T)) f v :
  (exists k, v = foldl (fun t f => f t) t0 (take k lg)) -> exists k, v = foldl (fun t f => f t) t0 (take k (lg ++ [f])).
Proof.
  intros [k ->]. exists (Nat.min k (length lg)). rewrite take_app_le by lia.
  f_equal. destruct (Nat.le_gt_cases k (length lg)); [by rewrite Nat.min_l by lia|].
  rewrite Nat.min_r by lia. rewrite !take_ge by lia. done.
Qed.

(** The threads after one of them has moved on. *)
Lemma threads_step (P : Thread -> Prop) (ths : list Thread) i y :
  P y -> (forall j x, j <> i -> ths !! j = Some x -> P x) -> forall j x, <[i := y]> ths !! j = Some x -> P x.
Proof.
  intros Hy Ho j x Hj. destruct (decide (j = i)) as [->|Hn].
  - apply list_lookup_insert_Some in Hj as [(_ & <- & _)|[]]; done.
  - rewrite list_lookup_insert_ne in Hj by done. by eapply Ho.
Qed.

Lemma safe_inv_step t0 s s' : inv t0 s -> step s s' -> inv t0 s'.
Proof.
  intros (Hl & Ht & Hx) Hs. pose proof (lock_ok_step _ _ Hl Hs) as Hl'.
  inversion Hs as [t ths lg i a f Hi Ha|t l ths lg i f Hi|t l ths lg i f seen Hi|t l l' ths lg i Hi Hsh|t n ths lg i seen Hi];
    subst; (split; [done|]); cbn [t_ log threads] in *.
  - split; [done|]. apply threads_step; [done|]. intros j x _. apply Hx.
  - split; [done|]. apply threads_step; [done|]. intros j x _. apply Hx.
  - pose proof (Hx _ _ Hi) as Hseen. cbn in Hseen. subst seen. split; [by rewrite foldl_snoc, Ht|].
    destruct Hl' as [He Hh]. cbn [threads cs_] in He, Hh. intros j x Hj.
    pose proof (count_zero _ _ _ _ He Hj) as Hex. pose proof (count_zero _ _ _ _ Hh Hj) as Hsh.
    destruct (decide (j = i)) as [->|Hn].
    + rewrite (Event.lookup_insert_here _ _ _ _ Hi) in Hj. injection Hj as <-. exists (length (lg ++ [f])).
      cbn. by rewrite firstn_all, foldl_snoc, Ht.
    + rewrite list_lookup_insert_ne in Hj by done. specialize (Hx _ _ Hj). destruct x as [| | |[v|]]; try done. by apply left_grows.
  - split; [done|]. apply threads_step; [done|]. intros j x _. apply Hx.
  - split; [done|]. apply threads_step; [|intros j x _; apply Hx]. pose proof (Hx _ _ Hi) as Hseen. cbn in Hseen. subst seen.
    exists (length lg). cbn. by rewrite firstn_all.
Qed.

(** Accesses to a guarded object are serialised. In every interleaving of exclusive,
    tried and shared accesses, the object is the result of applying the finished
    exclusive functions one after the other, no update is lost, at most one thread is
    inside an exclusive access and then nobody else is inside, and every access that
    returned saw the object as some prefix of these functions made it. *)
Theorem accesses_serialised (t0 : T) (l : list Access) (s : State) :
  rtc step (initial t0 l) s ->
  t_ s = foldl (fun t f => f t) t0 (log s)
  /\ (Event.count in_exclusive (threads s) <= 1)%nat
  /\ (Event.count in_exclusive (threads s) = 1%nat -> Event.count in_shared (threads s) = 0%nat)
  /\ forall i v, threads s !! i = Some (Left (Some v)) -> exists k, v = foldl (fun t f => f t) t0 (take k (log s)).
Proof.
  intros Hr. assert (inv t0 (initial t0 l)) as H0.
  { unfold inv, lock_ok. cbn [cs_ threads t_ log initial].
    rewrite !Event.count_none by (apply Forall_fmap, Forall_true; done). split_and!; [done..|].
    intros i x Hi. apply list_lookup_fmap_Some in Hi as (a & -> & _). done. }
  assert (inv t0 s) as (Hl & Ht & Hx).
  { revert H0. induction Hr as [|x y z Hxy _ IH]; [done|]. intros Hi. apply IH. by eapply safe_inv_step. }
  split_and!; [done| | |intros i v Hi; apply (Hx _ _ Hi)]; unfold lock_ok in Hl; destruct (cs_ s); lia.
Qed.

End safe.

Lemma accesses_serialised_witness :
  let s := MkState 5 Free [Left (Some 5); Left (Some 5)] [Z.add 2] in
  rtc step (initial 3 [exclusiveAccess (Z.add 2); sharedAccess]) s /\ t_ s = 5.
Proof.
  set (s := MkState 5 Free [Left (Some 5); Left (Some 5)] [Z.add 2]).
  assert (rtc step (initial 3 [exclusiveAccess (Z.add 2); sharedAccess]) s) as Hr.
  { apply (rtc_l _ _ (MkState 3 Writer [InExclusive (Z.add 2) 3; Outside sharedAccess] [])); 
      [by apply (step_lock 3 [Outside (exclusiveAccess (Z.add 2)); Outside sharedAccess] [] 0 (exclusiveAccess (Z.add 2)) (Z.add 2))|].
    apply (rtc_l _ _ (MkState 5 Free [Left (Some 5); Outside sharedAccess] [Z.add 2])); 
      [by apply (step_unlock 3 Writer [InExclusive (Z.add 2) 3; Outside sharedAccess] [] 0 (Z.add 2) 3)|].
    apply (rtc_l _ _ (MkState 5 (Readers 1) [Left (Some 5); InShared 5] [Z.add 2])); 
      [by apply (step_share 5 Free (Readers 1) [Left (Some 5); Outside sharedAccess] [Z.add 2] 1)|].
    apply rtc_once. by apply (step_unshare 5 1 [Left (Some 5); InShared 5] [Z.add 2] 1 5). }
  split; [exact Hr|]. exact (proj1 (accesses_serialised 3 [exclusiveAccess (Z.add 2); sharedAccess] s Hr)).
Defined.

End Safe.
