(* ===== verification/Logging.v ===== *)
(** * Logging: levels and the tuning of the logging system

    [src/src/log/logger.cpp] and [logger.hpp]: the names of the levels and the
    directives of the option [--log].  The logging library (groups and their levels)
    is a parameter. *)

From S2P Require Import Prelude Parsers.

(** What the library offers to the wrapper. *)
Class Soralog (Level : Type) : Type := {
  Sys : Type;
  getGroup : Sys -> Parsers.text -> bool;
  setLevelOfGroup : Sys -> Parsers.text -> Level -> Sys
}.

(** Setting a level does not add or remove groups. *)
Class SoralogOk {Level} (L : Soralog Level) : Prop :=
  set_keeps_groups : forall (s : Sys) g l g', getGroup (setLevelOfGroup s g l) g' = getGroup s g'.

Module Logging.

Inductive Level : Type := TRACE | DEBUG | VERBOSE | INFO | WARN | ERROR | CRITICAL | OFF.

#[export] Instance Level_eq_dec : EqDecision Level.
Proof. solve_decision. Defined.

Inductive Error : Type := WRONG_LEVEL | WRONG_GROUP | WRONG_LOGGER.

Definition error_message (e : Error) : string :=
  match e with WRONG_LEVEL => "Unknown level" | WRONG_GROUP => "Unknown group" | WRONG_LOGGER => "Unknown logger" end.

Definition lit (str : Parsers.text) (s : string) : bool := bool_decide (str = Parsers.chars s).

Definition str2lvl (str : Parsers.text) : run Error Level :=
  if lit str "trace" then mret TRACE
  else if lit str "debug" then mret DEBUG
  else if lit str "verbose" then mret VERBOSE
  else if lit str "info" || lit str "inf" then mret INFO
  else if lit str "warning" || lit str "warn" then mret WARN
  else if lit str "error" || lit str "err" then mret ERROR
  else if lit str "critical" || lit str "crit" then mret CRITICAL
  else if lit str "off" || lit str "no" then mret OFF
  else Fail WRONG_LEVEL.

Definition defaultGroupName : Parsers.text := Parsers.chars "jam".

(** [std::getline(iss, line, delim)]: nothing when no character is left. *)
Fixpoint until (delim : Ascii.ascii) (s : Parsers.text) : Parsers.text * Parsers.text :=
  match s with
  | [] => ([], [])
  | c :: s => if bool_decide (c = delim) then ([], s) else let '(line, rest) := until delim s in (c :: line, rest)
  end.

Definition getline (delim : Ascii.ascii) (s : Parsers.text) : option (Parsers.text * Parsers.text) :=
  match s with [] => None | _ => Some (until delim s) end.

Definition equals_sign : Ascii.ascii := Ascii.ascii_of_nat 61.
Definition newline : Ascii.ascii := Ascii.ascii_of_nat 10.

(** What is written to the error stream. *)
Inductive Complaint : Type :=
| CantReadGroup | UnknownGroup (g : Parsers.text) | CantReadLevel (g : Parsers.text) | InvalidLevel (l : Parsers.text).

Section tuning.
Context `{L : Soralog Level}.

(** One round of the loop in [tuneLoggingSystem]. *)
Definition tune_chunk (st : Sys * list Complaint) (chunk : Parsers.text) : Sys * list Complaint :=
  let '(sys, out) := st in
  match str2lvl chunk with
  | Done level => (setLevelOfGroup sys defaultGroupName level, out)
  | _ =>
      let '(group_name, rest, out) :=
        match getline equals_sign chunk with
        | Some (line, rest) => (line, rest, out)
        | None => ([], [], out ++ [CantReadGroup])
        end in
      if negb (getGroup sys group_name) then (sys, out ++ [UnknownGroup group_name])
      else match getline newline rest with
           | None => (sys, out ++ [CantReadLevel group_name])
           | Some (level_string, _) =>
               match str2lvl level_string with
               | Done level => (setLevelOfGroup sys group_name level, out)
               | _ => (sys, out ++ [InvalidLevel level_string])
               end
           end
  end.

Definition tuneLoggingSystem (sys : Sys) (cfg : list Parsers.text) : Sys * list Complaint :=
  if bool_decide (cfg = []) then (sys, []) else foldl tune_chunk (sys, []) cfg.

(** ** The documented syntax *)

(** A directive with a level alone, or with a group. *)
Inductive Directive : Type := Bare (l : Level) | Group (g : Parsers.text) (l : Level).

Definition level_name (l : Level) : Parsers.text :=
  Parsers.chars (match l with
    | TRACE => "trace" | DEBUG => "debug" | VERBOSE => "verbose" | INFO => "info" | WARN => "warn" | ERROR => "error"
    | CRITICAL => "critical" | OFF => "off" end).

Definition print (d : Directive) : Parsers.text :=
  match d with Bare l => level_name l | Group g l => g ++ equals_sign :: level_name l end.

Definition apply_directive (sys : Sys) (d : Directive) : Sys :=
  match d with Bare l => setLevelOfGroup sys defaultGroupName l | Group g l => setLevelOfGroup sys g l end.

(** A group the system has, whose name can be written before the equals sign. *)
Definition directive_ok (sys : Sys) (d : Directive) : Prop :=
  match d with Bare _ => True | Group g _ => equals_sign ∉ g /\ getGroup sys g = true end.

(** ** Lemmas *)

Lemma str2lvl_name l : str2lvl (level_name l) = Done l.
Proof. by destruct l. Qed.

Lemma until_app delim g rest : delim ∉ g -> until delim (g ++ delim :: rest) = (g, rest).
Proof.
  induction g as [|c g IH]; intros Hg; cbn.
  - by rewrite bool_decide_eq_true_2.
  - apply not_elem_of_cons in Hg as [Hc Hg]. rewrite bool_decide_eq_false_2 by done. by rewrite IH.
Qed.

Lemma lit_without c (str : Parsers.text) s : c ∈ str -> c ∉ Parsers.chars s -> lit str s = false.
Proof. intros Hin Hout. unfold lit. apply bool_decide_eq_false_2. by intros ->. Qed.

(** No level name contains an equals sign. *)
Lemma str2lvl_equals_sign str : equals_sign ∈ str -> str2lvl str = Fail WRONG_LEVEL.
Proof.
  intros Hin. unfold str2lvl.
  rewrite !(lit_without equals_sign str) by (exact Hin || (apply (bool_decide_unpack _); vm_compute; exact I)). done.
Qed.

Lemma level_name_plain l : newline ∉ level_name l /\ level_name l <> [].
Proof. destruct l; (split; [apply (bool_decide_unpack _); vm_compute; exact I|done]). Qed.

Lemma until_none delim s : delim ∉ s -> until delim s = (s, []).
Proof.
  induction s as [|c s IH]; intros Hs; cbn; [done|]. apply not_elem_of_cons in Hs as [Hc Hs].
  rewrite bool_decide_eq_false_2 by done. by rewrite IH.
Qed.

Lemma getline_all delim s : delim ∉ s -> s <> [] -> getline delim s = Some (s, []).
Proof. intros Hd Hs. destruct s; [done|]. unfold getline. by rewrite until_none. Qed.

Lemma getline_group g rest : equals_sign ∉ g -> getline equals_sign (g ++ equals_sign :: rest) = Some (g, rest).
Proof.
  intros Hg. rewrite <-(until_app equals_sign g rest Hg). destruct g; done.
Qed.

Lemma tune_directive sys out d : directive_ok sys d -> tune_chunk (sys, out) (print d) = (apply_directive sys d, out).
Proof.
  unfold tune_chunk. destruct d as [l|g l]; cbn [print apply_directive directive_ok]; intros Hok.
  - by rewrite str2lvl_name.
  - destruct Hok as [Hg Hin]. rewrite str2lvl_equals_sign by (apply elem_of_app; right; left).
    rewrite getline_group by done. rewrite Hin. cbn [negb]. destruct (level_name_plain l) as [Hn He].
    rewrite getline_all by done. by rewrite str2lvl_name.
Qed.

Context {LO : SoralogOk L}.

Lemma directive_ok_kept sys d d' : directive_ok sys d -> directive_ok (apply_directive sys d') d.
Proof. destruct d as [l|g l]; [done|]. intros [Hg Hin]. split; [done|]. by destruct d'; cbn; rewrite set_keeps_groups. Qed.

(** C39: how directives in the syntax of the help are understood. Printing any list of
    directives ([<level>], and [<group>=<level>] for a group the system has and whose name
    contains no equals sign) and passing the texts to [tuneLoggingSystem] sets exactly
    these levels, in order, and nothing is reported on the error stream. A bare [<level>]
    sets the level of the one group "jam" ([defaultGroupName]) and not, as the help
    promises, a global level: a group outside of it, such as the root "main" of the example
    configuration, keeps its own. *)
Theorem tune_printed sys ds :
  Forall (directive_ok sys) ds -> tuneLoggingSystem sys (print <$> ds) = (foldl apply_directive sys ds, []).
Proof.
  intros Hds. unfold tuneLoggingSystem. case_bool_decide as He; [by apply fmap_nil_inv in He as ->|]. clear He.
  revert sys Hds. induction ds as [|d ds IH]; intros sys Hds; [done|].
  apply Forall_cons in Hds as [Hd Hds]. cbn [fmap list_fmap foldl]. rewrite tune_directive by done. apply IH.
  eapply Forall_impl; [exact Hds|]. intros d'. apply directive_ok_kept.
Qed.

(** A directive that is refused changes nothing: unknown groups, missing or unknown
    levels are skipped, each with one complaint. *)
Lemma tune_refused sys out chunk sys' out' :
  tune_chunk (sys, out) chunk = (sys', out') -> out' <> out -> sys' = sys.
Proof.
  intros H Hne. unfold tune_chunk in H. destruct (str2lvl chunk); [congruence| | |];
    destruct (getline equals_sign chunk) as [[g rest]|]; destruct (getGroup sys _); cbn [negb getline] in H; try congruence;
    destruct (getline newline _) as [[l r]|]; try congruence; destruct (str2lvl l); congruence.
Qed.

End tuning.

(** A system with two groups. *)
#[local] Instance two_groups : Soralog Level := {|
  Sys := list (Parsers.text * Level);
  getGroup s g := bool_decide (g ∈ Parsers.chars <$> ["jam"; "metrics"]%string);
  setLevelOfGroup s g l := s ++ [(g, l)]
|}.

Lemma two_groups_ok : SoralogOk two_groups.
Proof. intros s g l g'. done. Qed.

Lemma tune_printed_witness :
  tuneLoggingSystem ([] : Sys) [Parsers.chars "warn"; Parsers.chars "metrics=off"]
  = ([(Parsers.chars "jam", WARN); (Parsers.chars "metrics", OFF)], []).
Proof.
  refine (@tune_printed two_groups two_groups_ok [] [Bare WARN; Group (Parsers.chars "metrics") OFF] _).
  apply Forall_cons; split; [exact I|]. apply Forall_singleton. split; [|reflexivity].
  apply (bool_decide_unpack _). vm_compute. exact I.
Defined.

End Logging.
