(* ===== verification/Modules.v ===== *)
(** * Modules: finding and opening module libraries

    [src/src/modules/module.hpp] and [module_loader.hpp], [module_loader.cpp].  The
    directory is a tree of entries; a shared library is what [dlopen] and [dlsym]
    show of it.  The handles of opened libraries are kept in the state, since a
    failing search has to close them. *)

From S2P Require Import Prelude.

Module Modules.

Inductive Error : Type :=
  PathIsNotADir | OpenLibraryFailed | NoLoaderIdExport | UnexpectedLoaderId | NoModuleInfoExport | UnexpectedModuleInfo.

#[export] Instance Error_eq_dec : EqDecision Error.
Proof. solve_decision. Defined.

Definition error_message (e : Error) : string :=
  match e with
  | PathIsNotADir => "ModuleLoader: path is not a directory"
  | OpenLibraryFailed => "ModuleLoader: open library failed"
  | NoLoaderIdExport => "ModuleLoader: library doesn't provide loader_id function"
  | UnexpectedLoaderId => "ModuleLoader: unexpected loader id"
  | NoModuleInfoExport => "ModuleLoader: library doesn't provide module_info function"
  | UnexpectedModuleInfo => "ModuleLoader: unexpected module info"
  end.

(** The exported functions: absent, or returning a string or a null pointer. *)
Record Library : Type := MkLibrary {
  loader_id_sym : option (option string);
  module_info_sym : option (option string);
  query_module_instance_sym : bool
}.

(** An entry of a directory: a directory, a regular file (with the library [dlopen]
    makes of it, if any), anything else. *)
Inductive Entry : Type :=
| Dir (name : string) (entries : list Entry)
| File (name : string) (lib : option Library)
| Special (name : string).

Record Module : Type := MkModule { path_ : string; module_info_ : string; handle_ : Library; loader_id_ : string }.

(** *** Names *)

Definition entry_name (e : Entry) : string := match e with Dir n _ | File n _ | Special n => n end.

(** [entry_name[0] == '.' || entry_name[0] == '_'] *)
Definition skipped (name : string) : bool := String.prefix "." name || String.prefix "_" name.

(** [entry_path.extension() == ".so"] of a file name: what follows the last dot, with
    a name before it. *)
Fixpoint ends_with (suffix s : string) : bool :=
  bool_decide (s = suffix) || match s with String _ s => ends_with suffix s | EmptyString => false end.

Definition has_so_extension (name : string) : bool := ends_with ".so" name && negb (bool_decide (name = ".so"%string)).

Definition path_join (dir name : string) : string := (dir ++ "/" ++ name)%string.

(** *** Loading *)

(** The open handles (by path) and how the call ended. *)
Definition Outcome (A : Type) : Type := list string * run Error A.

(** [load_module]: the handle is closed on every error return, and handed over to the
    module otherwise.  Calling a null function pointer is undefined. *)
Definition load_module (module_path : string) (lib : option Library) (modules : list Module) (open_ : list string) :
    Outcome (list Module) :=
  match lib with
  | None => (open_, Fail OpenLibraryFailed)
  | Some l =>
      match loader_id_sym l with
      | None => (open_, Fail NoLoaderIdExport)
      | Some None => (open_, Fail UnexpectedLoaderId)
      | Some (Some loader_id) =>
          match module_info_sym l with
          | None => (open_, Undef)
          | Some None => (open_, Fail UnexpectedModuleInfo)
          | Some (Some info) => (open_ ++ [module_path], Done (modules ++ [MkModule module_path info l loader_id]))
          end
      end
  end.

(** The loop over the entries of a directory, with the search of subdirectories. *)
Fixpoint search_entry (dir_path : string) (e : Entry) (modules : list Module) (open_ : list string) : Outcome (list Module) :=
  if skipped (entry_name e) then (open_, Done modules)
  else match e with
       | Dir name entries =>
           (fix loop (l : list Entry) (modules : list Module) (open_ : list string) : Outcome (list Module) :=
              match l with
              | [] => (open_, Done modules)
              | x :: l =>
                  match search_entry (path_join dir_path name) x modules open_ with
                  | (open_, Done modules) => loop l modules open_
                  | r => r
                  end
              end) entries modules open_
       | File name lib => if has_so_extension name then load_module (path_join dir_path name) lib modules open_ else (open_, Done modules)
       | Special _ => (open_, Done modules)
       end.

Fixpoint search_entries (dir_path : string) (l : list Entry) (modules : list Module) (open_ : list string) : Outcome (list Module) :=
  match l with
  | [] => (open_, Done modules)
  | e :: l =>
      match search_entry dir_path e modules open_ with
      | (open_, Done modules) => search_entries dir_path l modules open_
      | r => r
      end
  end.

(** [recursive_search] of the given path: [None] when there is no such directory. *)
Definition recursive_search (dir_path : string) (dir : option (list Entry)) (modules : list Module) (open_ : list string) :
    Outcome (list Module) :=
  match dir with
  | None => (open_, Fail PathIsNotADir)
  | Some entries => search_entries dir_path entries modules open_
  end.

(** [get_modules]: when the search fails, the modules found so far are destroyed and
    their libraries closed. *)
Definition get_modules (dir_path : string) (dir : option (list Entry)) (open_ : list string) : Outcome (list Module) :=
  match recursive_search dir_path dir [] open_ with
  | (o, Done modules) => (o, Done modules)
  | (o, r) => (take (length open_) o, r)
  end.

(** *** The files that are opened, in order *)

Fixpoint candidates (dir_path : string) (e : Entry) : list (string * option Library) :=
  if skipped (entry_name e) then []
  else match e with
       | Dir name entries => concat (candidates (path_join dir_path name) <$> entries)
       | File name lib => if has_so_extension name then [(path_join dir_path name, lib)] else []
       | Special _ => []
       end.

(** What a library should be: it exports both functions, with proper answers; otherwise
    the error that says what is missing. *)
Definition module_of (c : string * option Library) : run Error Module :=
  match c.2 with
  | None => Fail OpenLibraryFailed
  | Some l =>
      match loader_id_sym l, module_info_sym l with
      | None, _ => Fail NoLoaderIdExport
      | Some None, _ => Fail UnexpectedLoaderId
      | Some (Some _), None => Fail NoModuleInfoExport
      | Some (Some _), Some None => Fail UnexpectedModuleInfo
      | Some (Some id), Some (Some info) => Done (MkModule c.1 info l id)
      end
  end.

Definition load_one (modules : list Module) (c : string * option Library) : run Error (list Module) :=
  m ← module_of c; mret (modules ++ [m]).

(** Opening a list of files one after the other. *)
Fixpoint load_list (cs : list (string * option Library)) (modules : list Module) (open_ : list string) : Outcome (list Module) :=
  match cs with
  | [] => (open_, Done modules)
  | c :: cs =>
      match load_module c.1 c.2 modules open_ with
      | (open_, Done modules) => load_list cs modules open_
      | r => r
      end
  end.

(** ** Lemmas *)

Lemma load_list_app cs1 cs2 ms o :
  load_list (cs1 ++ cs2) ms o
  = match load_list cs1 ms o with (o, Done ms) => load_list cs2 ms o | r => r end.
Proof.
  revert ms o. induction cs1 as [|c cs1 IH]; intros ms o; cbn; [done|].
  destruct (load_module c.1 c.2 ms o) as [o' []]; [apply IH|done..].
Qed.

Lemma search_loop d l :
  (forall e, e ∈ l -> forall ms o, search_entry d e ms o = load_list (candidates d e) ms o) ->
  forall ms o, search_entries d l ms o = load_list (concat (candidates d <$> l)) ms o.
Proof.
  induction l as [|e l IH]; intros He ms o; cbn; [done|]. rewrite load_list_app, He by left.
  destruct (load_list (candidates d e) ms o) as [o' []]; [|done..]. apply IH. intros e' He'. apply He. by right.
Qed.

(** Induction over a tree, with the hypothesis for every entry of a directory. *)
Lemma Entry_tree_ind (P : Entry -> Prop) :
  (forall name l, Forall P l -> P (Dir name l)) -> (forall name lib, P (File name lib)) -> (forall name, P (Special name)) ->
  forall e, P e.
Proof.
  intros HD HF HS. refine (fix IH e := match e with Dir name l => HD name l _ | File n lib => HF n lib | Special n => HS n end).
  induction l as [|x l IHl]; constructor; [apply IH|apply IHl].
Qed.

(** The recursive search opens the candidates in order. *)
Lemma search_entry_candidates e : forall d ms o, search_entry d e ms o = load_list (candidates d e) ms o.
Proof.
  induction e as [name entries IH|name lib|name] using Entry_tree_ind; intros d ms o;
    cbn [search_entry candidates entry_name]; destruct (skipped name); try done.
  - rewrite <-(search_loop (path_join d name) entries).
    + clear IH. revert ms o. induction entries as [|x l IHl]; intros ms o; [done|]. cbn.
      destruct (search_entry (path_join d name) x ms o) as [o' []]; [apply IHl|done..].
    + intros e He. rewrite Forall_forall in IH. apply (IH e He).
  - destruct (has_so_extension name); [|done]. cbn. by destruct (load_module (path_join d name) lib ms o) as [o' []].
Qed.

(** What the code makes of an error: the missing [module_info] is not noticed. *)
Definition reported (e : Error) : run Error (list Module) :=
  match e with NoModuleInfoExport => Undef | e => Fail e end.

Lemma module_of_ends c : (exists m, module_of c = Done m) \/ (exists e, module_of c = Fail e).
Proof.
  unfold module_of. destruct c as [p [l|]]; cbn; [|by eauto].
  destruct (loader_id_sym l) as [[id|]|], (module_info_sym l) as [[i|]|]; eauto.
Qed.

Lemma load_module_of c ms o :
  load_module c.1 c.2 ms o
  = match module_of c with Done m => (o ++ [path_ m], Done (ms ++ [m])) | Fail e => (o, reported e) | _ => (o, Undef) end.
Proof.
  unfold load_module, module_of. destruct c as [p [l|]]; cbn; [|done].
  destruct (loader_id_sym l) as [[id|]|], (module_info_sym l) as [[i|]|]; done.
Qed.

Lemma load_list_spec cs ms o :
  exists new ext, (load_list cs ms o).1 = o ++ ext
    /\ match foldM load_one ms cs with
       | Done ms' => load_list cs ms o = (o ++ (path_ <$> new), Done ms') /\ ms' = ms ++ new
       | Fail e => (load_list cs ms o).2 = reported e
       | _ => False
       end.
Proof.
  revert ms o. induction cs as [|c cs IH]; intros ms o; cbn [load_list foldM].
  - exists [], []. cbn. by rewrite !app_nil_r.
  - rewrite load_module_of. change (load_one ms c) with (m ← module_of c; mret (ms ++ [m]) : run Error _). destruct (module_of_ends c) as [[m ->]|[e ->]]; cbn [mbind run_bind mret run_ret].
    + destruct (IH (ms ++ [m]) (o ++ [path_ m])) as (new & ext & H1 & H2). exists (m :: new), (path_ m :: ext).
      rewrite H1, <-(assoc_L (++)). split; [done|]. revert H2. destruct (foldM load_one (ms ++ [m]) cs) as [ms'|e|w|]; cbn; intros H2; try done.
      destruct H2 as [-> ->]. by rewrite <-!(assoc_L (++)).
    + exists [], []. rewrite app_nil_r. by destruct e.
Qed.

Lemma load_all_paths cs ms ms' : foldM load_one ms cs = Done (ms ++ ms') -> (path_ <$> ms') = cs.*1.
Proof.
  revert ms ms'. induction cs as [|c cs IH]; intros ms ms' Hf; cbn in Hf.
  - injection Hf as Hf. rewrite <-(app_nil_r ms) in Hf at 1. by apply app_inv_head in Hf as <-.
  - apply bind_Done in Hf as (ms1 & H1 & Hf). unfold load_one in H1. apply bind_Done in H1 as (m & Hm & H1). injection H1 as <-.
    destruct (load_list_spec cs (ms ++ [m]) []) as (new & ext & _ & Hs). rewrite Hf in Hs. destruct Hs as [_ Hs].
    rewrite <-(assoc_L (++)) in Hs. apply app_inv_head in Hs as ->. rewrite (assoc_L (++)) in Hf.
    cbn [app fmap list_fmap]. f_equal; [|by apply (IH (ms ++ [m]))].
    unfold module_of in Hm. destruct c as [q [l|]]; cbn in Hm |- *; [|done].
    destruct (loader_id_sym l) as [[id|]|]; try done. destruct (module_info_sym l) as [[i|]|]; try done. by injection Hm as <-.
Qed.

(** ** Theorem *)

(** C33: searching a directory for modules opens the files with extension [.so] below it,
    in the order of the directories, leaving out everything whose name begins with a
    dot or an underscore. If all of them are proper module libraries (they open, and
    export [loader_id] and [module_info] with proper answers), the modules are returned in
    this order and exactly their libraries are open. Otherwise the error of the first bad
    one is returned and no library is left open, with one exception: when what is wrong
    with the first bad library is that it exports [loader_id] but no [module_info], the
    promised error [NoModuleInfoExport] is not returned; the code tests the wrong pointer
    and calls a null pointer, which is undefined behaviour. *)
Theorem get_modules_spec dir_path entries open_ :
  let files := concat (candidates dir_path <$> entries) in
  match foldM load_one [] files with
  | Done modules => get_modules dir_path (Some entries) open_ = (open_ ++ (path_ <$> modules), Done modules)
                    /\ (path_ <$> modules) = files.*1
  | Fail NoModuleInfoExport => (get_modules dir_path (Some entries) open_).2 = Undef
  | Fail e => get_modules dir_path (Some entries) open_ = (open_, Fail e)
  | _ => False
  end.
Proof.
  cbn zeta. unfold get_modules, recursive_search.
  rewrite (search_loop dir_path entries) by (intros; apply search_entry_candidates).
  set (files := concat _). destruct (load_list_spec files [] open_) as (new & ext & H1 & H2).
  destruct (foldM load_one [] files) as [ms|e|w|] eqn:Hf; [|destruct (load_list files [] open_) as [o r]; cbn in *; subst|done..].
  - destruct H2 as [-> ->]. split; [done|]. by apply (load_all_paths files []).
  - destruct e; cbn; by rewrite ?take_app_length.
Qed.

(** Two good libraries, one of them in a subdirectory, and files that are left out. *)
Example get_modules_sample :
  let lib id := Some (MkLibrary (Some (Some id)) (Some (Some "v1"%string)) true) in
  let tree := [File "b.so" (lib "NetworkingLoader"%string); File "_old.so" None; File "notes.txt" None;
               Dir "more" [File "a.so" (lib "ExampleLoader"%string); Dir ".git" [File "x.so" None]]] in
  (get_modules "/m" (Some tree) []).1 = ["/m/b.so"; "/m/more/a.so"]%string.
Proof. reflexivity. Qed.

(** A library without [module_info] makes the search undefined: the check after the
    lookup tests the other function pointer. *)
Example missing_module_info :
  (get_modules "/m" (Some [File "a.so" (Some (MkLibrary (Some (Some "ExampleLoader"%string)) None true))]) []).2 = Undef.
Proof. reflexivity. Qed.

End Modules.
