(* ===== verification/Loaders.v ===== *)
(** * Loaders: the modules and the events between them

    [src/src/loaders/loader.hpp], [loaders/impl/*.hpp], [src/src/modules/example],
    [networking], [synchronizer] and [register_loader] of
    [src/src/injector/node_injector.cpp].  A loader subscribes the callbacks of its
    module to events and the modules answer events with further events.  The
    subscription engine is used through the interface [EventBus]; [EngineBus] shows
    that the engine implements it.  All callbacks are bound to one handler thread,
    so their tasks are executed in the order in which they were dispatched. *)

From S2P Require Import Prelude Utils Modules.

(** ** What the event engine promises *)

Class EventBus (chan handler : Type) : Type := {
  bus : Type;
  new_bus : bus;
  listen : bus -> chan -> handler -> bus;        (** [SubscriberCreator::create] *)
  emit : bus -> chan -> bus * list handler       (** [notify]: the callbacks dispatched *)
}.

Definition heard {chan handler} `{EventBus chan handler} (b : bus) (c : chan) : list handler := (emit b c).2.

Class EventBusOk {chan handler} `{EqDecision chan} (B : EventBus chan handler) : Type := {
  bus_ok : bus -> Prop;
  new_bus_ok : bus_ok new_bus;
  listen_ok b c h : bus_ok b -> bus_ok (listen b c h);
  emit_ok b c : bus_ok b -> bus_ok (emit b c).1;
  heard_new c : heard new_bus c = [];
  heard_listen b c h c' : bus_ok b -> heard (listen b c h) c' = heard b c' ++ (if decide (c = c') then [h] else []);
  heard_emit b c c' : bus_ok b -> heard (emit b c).1 c' = heard b c'
}.

Module Loaders.

Inductive EventTypes : Type :=
| LoadingIsFinished
| ExampleModuleIsLoaded | ExampleModuleIsUnloaded | ExampleNotification | ExampleRequest | ExampleResponse
| NetworkingIsLoaded | NetworkingIsUnloaded | PeerConnected | PeerDisconnected | BlockRequest | BlockResponse
| SynchronizerIsLoaded | SynchronizerIsUnloaded | BlockAnnounceReceived | BlockIndexDiscovered.

(** The type of the event data selects the engine. *)
Inductive Data : Type := NoData | DString | DPeerConnected | DPeerDisconnected | DAnnounce | DRequest | DResponse.

#[export] Instance EventTypes_eq_dec : EqDecision EventTypes.
Proof. solve_decision. Defined.
#[export] Instance Data_eq_dec : EqDecision Data.
Proof. solve_decision. Defined.

Definition chan : Type := Data * EventTypes.

(** The messages, with the parts the modules look at. *)
Inductive Message : Type :=
| Nothing | Text (s : string) | PeerConnectedMessage | PeerDisconnectedMessage
| BlockAnnounceMessage | BlockRequestMessage (rid : Utils.RequestId) | BlockResponseMessage (rid : Utils.RequestId).

Definition data_of (m : Message) : Data :=
  match m with
  | Nothing => NoData | Text _ => DString | PeerConnectedMessage => DPeerConnected | PeerDisconnectedMessage => DPeerDisconnected
  | BlockAnnounceMessage => DAnnounce | BlockRequestMessage _ => DRequest | BlockResponseMessage _ => DResponse
  end.

(** ** Module instances *)

Inductive Kind : Type := Example | Networking | Synchronizer.

#[export] Instance Kind_eq_dec : EqDecision Kind.
Proof. solve_decision. Defined.

(** An instance in its library, with the two function-local statics of the
    synchronizer and its table of expected responses. *)
Record Instance_ : Type := MkInstance {
  kind_ : Kind;
  alive : bool;
  this : Z;
  s : option Z;
  n : Z;
  block_response_callbacks_ : list Utils.RequestId
}.

(** The subscribers a loader keeps. *)
Inductive Callback : Type :=
| on_init_complete_ | on_loading_finished_ | on_request_ | on_response_ | on_notification_
| on_block_request_ | on_block_announce_ | on_block_response_.

Definition handler : Type := nat * Callback.

(** What the modules log, and the requests and responses the loaders trace. *)
Inductive Log : Type :=
| LoadedSuccess (k : Kind) | LoadingFinished (k : Kind) | BlockRequested | BlockAnnounced
| SomeoneElses (rid : Utils.RequestId) | ResponseReceived (rid : Utils.RequestId)
| DispatchBlockRequest (rid : Utils.RequestId) | DispatchBlockResponse (rid : Utils.RequestId).

Section loaders.
Context `{B : EventBus chan handler}.

Record Node : Type := MkNode {
  se_manager_ : bus;
  instances : list Instance_;
  tasks : list (handler * Message);
  journal : list Log
}.

Definition empty_node : Node := MkNode new_bus [] [] [].

(** [se_manager_->notify(event, msg)] *)
Definition notify (st : Node) (e : EventTypes) (m : Message) : Node :=
  let '(b, hs) := emit (se_manager_ st) (data_of m, e) in
  MkNode b (instances st) (tasks st ++ ((fun h => (h, m)) <$> hs)) (journal st).

Definition log (st : Node) (l : Log) : Node := MkNode (se_manager_ st) (instances st) (tasks st) (journal st ++ [l]).

Definition set_instance (st : Node) (i : nat) (x : Instance_) : Node :=
  MkNode (se_manager_ st) (<[i := x]> (instances st)) (tasks st) (journal st).

(** *** Loaders *)

(** The subscriptions of each loader, in order: the events and, after the receiver
    type, the types of the event data.  The example loader passes the message type as
    the receiver, which leaves no event data. *)
Definition subscriptions (k : Kind) : list (chan * Callback) :=
  match k with
  | Example => [((NoData, ExampleModuleIsLoaded), on_init_complete_); ((NoData, LoadingIsFinished), on_loading_finished_);
                ((NoData, ExampleRequest), on_request_); ((NoData, ExampleResponse), on_response_);
                ((NoData, ExampleNotification), on_notification_)]
  | Networking => [((NoData, NetworkingIsLoaded), on_init_complete_); ((NoData, LoadingIsFinished), on_loading_finished_);
                   ((DRequest, BlockRequest), on_block_request_)]
  | Synchronizer => [((NoData, SynchronizerIsLoaded), on_init_complete_); ((DAnnounce, BlockAnnounceReceived), on_block_announce_);
                     ((DResponse, BlockResponse), on_block_response_)]
  end.

Definition loaded_event (k : Kind) : EventTypes :=
  match k with Example => ExampleModuleIsLoaded | Networking => NetworkingIsLoaded | Synchronizer => SynchronizerIsLoaded end.

(** [start]: nothing without the accessor; else the module's instance (at address
    [this]), the subscriptions, and the notification.  A library is opened once, so its
    static instance does not exist before. *)
Definition start (k : Kind) (accessor : bool) (addr : Z) (st : Node) : Node :=
  if negb accessor then st
  else
    let i := length (instances st) in
    let b := foldl (fun b p => listen b p.1 (i, p.2)) (se_manager_ st) (subscriptions k) in
    notify (MkNode b (instances st ++ [MkInstance k true addr None 0 []]) (tasks st) (journal st)) (loaded_event k) Nothing.

(** The dispatching methods of the loaders. *)
Definition dispatch_request (st : Node) (t : string) : Node := notify st ExampleRequest (Text t).
Definition dispatch_response (st : Node) (t : string) : Node := notify st ExampleResponse (Text t).
Definition dispatch_notify (st : Node) (t : string) : Node := notify st ExampleNotification (Text t).
Definition dispatch_peer_connected (st : Node) : Node := notify st PeerConnected PeerConnectedMessage.
Definition dispatch_peer_disconnected (st : Node) : Node := notify st PeerDisconnected PeerDisconnectedMessage.
Definition dispatch_block_announce (st : Node) : Node := notify st BlockAnnounceReceived BlockAnnounceMessage.
Definition dispatch_block_response (st : Node) (rid : Utils.RequestId) : Node :=
  notify (log st (DispatchBlockResponse rid)) BlockResponse (BlockResponseMessage rid).
Definition dispatch_block_request (st : Node) (rid : Utils.RequestId) : Node :=
  notify (log st (DispatchBlockRequest rid)) BlockRequest (BlockRequestMessage rid).

(** *** Modules *)

Definition on_loaded_success (k : Kind) (st : Node) : Node := log st (LoadedSuccess k).

Definition on_loading_is_finished (k : Kind) (st : Node) : Node :=
  let st := log st (LoadingFinished k) in
  match k with Networking => dispatch_block_announce st | _ => st end.

(** [NetworkingImpl::on_block_request] *)
Definition on_block_request (rid : Utils.RequestId) (st : Node) : Node := dispatch_block_response (log st BlockRequested) rid.

(** [SynchronizerImpl::on_block_announce]: the statics [s] and [n]. *)
Definition on_block_announce (i : nat) (x : Instance_) (st : Node) : Node :=
  let st := log st BlockAnnounced in
  let seed := default (this x) (s x) in
  let n := u64 (n x + 1) in
  let st := set_instance st i (MkInstance (kind_ x) (alive x) (this x) (Some seed) n (block_response_callbacks_ x)) in
  dispatch_block_request st (Utils.new_request_id seed n).

(** [SynchronizerImpl::on_block_response] *)
Definition on_block_response (x : Instance_) (rid : Utils.RequestId) (st : Node) : Node :=
  if bool_decide (rid ∈ block_response_callbacks_ x) then log st (ResponseReceived rid) else log st (SomeoneElses rid).

(** The callback a loader registered, executed with its message.  The subscribers of
    the example loader get their receiver object, an empty pointer, as the message,
    which the module dereferences. *)
Definition call (h : handler) (m : Message) (st : Node) : run unit Node :=
  match instances st !! h.1 with
  | Some x =>
      if alive x then
        match h.2, m with
        | on_init_complete_, _ => mret (on_loaded_success (kind_ x) st)
        | on_loading_finished_, _ => mret (on_loading_is_finished (kind_ x) st)
        | on_block_request_, BlockRequestMessage rid => mret (on_block_request rid st)
        | on_block_announce_, BlockAnnounceMessage => mret (on_block_announce h.1 x st)
        | on_block_response_, BlockResponseMessage rid => mret (on_block_response x rid st)
        | _, _ => Undef
        end
      else mret st
  | None => Undef
  end.

(** The handler thread: the next task. *)
Definition execute (st : Node) : run unit Node :=
  match tasks st with
  | [] => mret st
  | (h, m) :: rest => call h m (MkNode (se_manager_ st) (instances st) rest (journal st))
  end.

Fixpoint drain (fuel : nat) (st : Node) : run unit Node :=
  match tasks st, fuel with
  | [], _ => mret st
  | _, O => Raise "out of fuel"
  | _, S fuel => st ← execute st; drain fuel st
  end.

(** [release_module_instance] of the library of an instance. *)
Definition release_module_instance (i : nat) (st : Node) : Node :=
  match instances st !! i with
  | Some x => set_instance st i (MkInstance (kind_ x) false (this x) (s x) (n x) (block_response_callbacks_ x))
  | None => st
  end.

(** *** Registration *)

Definition kind_of_loader (loader_id : string) : option Kind :=
  if bool_decide (loader_id = "ExampleLoader"%string) then Some Example
  else if bool_decide (loader_id = "NetworkingLoader"%string) then Some Networking
  else if bool_decide (loader_id = "SynchronizerLoader"%string) then Some Synchronizer
  else None.

(** [NodeInjector::register_loader]: whether there is a loader, and what
    [module_info()] of the loader says. *)
Definition register_loader (m : Modules.Module) (addr : Z) (st : Node) : Node * option (option string) :=
  match kind_of_loader (Modules.loader_id_ m) with
  | None => (st, None)
  | Some k =>
      let st := start k (Modules.query_module_instance_sym (Modules.handle_ m)) addr st in
      (st, Some (match Modules.module_info_sym (Modules.handle_ m) with Some i => i | None => None end))
  end.

End loaders.
End Loaders.
