(* ===== verification/LoadersSpec.v ===== *)
(** * LoadersSpec: the traffic between modules

    Whatever modules are started and whatever events occur, the callbacks run without
    undefined behaviour and come to an end; responses answer requests; and three
    observations about what is never delivered.  Proved against the interface
    [EventBus]. *)

From S2P Require Import Prelude Utils Modules Loaders.

Module LoadersSpec.
Import Loaders.

(** What can happen to a node. *)
Inductive Op : Type :=
| OStart (k : Kind) (accessor : bool) (addr : Z)
| OLoadingIsFinished
| OExecute
| ORelease (i : nat)
| ODispatchText (e : EventTypes) (t : string).

Section spec.
Context `{B : EventBus chan handler} {BO : EventBusOk B}.
Implicit Types (st : Node) (h : handler) (m : Message).

Definition step st (o : Op) : run unit Node :=
  match o with
  | OStart k accessor addr => mret (start k accessor addr st)
  | OLoadingIsFinished => mret (notify st LoadingIsFinished Nothing)
  | OExecute => execute st
  | ORelease i => mret (release_module_instance i st)
  | ODispatchText e t => mret (notify st e (Text t))
  end.

(** ** The invariant *)

(** Events the example loader subscribes to under the wrong data type. *)
Definition texts (e : EventTypes) : bool :=
  match e with ExampleRequest | ExampleResponse | ExampleNotification => true | _ => false end.

Definition heard_ok (b : bus) (insts : list Instance_) : Prop :=
  forall c h, h ∈ heard b c -> exists x, insts !! h.1 = Some x /\ (c, h.2) ∈ subscriptions (kind_ x).

Definition task_ok (insts : list Instance_) (t : handler * Message) : Prop :=
  exists x e, insts !! t.1.1 = Some x /\ ((data_of t.2, e), t.1.2) ∈ subscriptions (kind_ x) /\ texts e = false.

(** A response or a request under way was dispatched by a synchronizer. *)
Definition requested (j : list Log) (t : handler * Message) : Prop :=
  match t.2 with BlockRequestMessage rid | BlockResponseMessage rid => DispatchBlockRequest rid ∈ j | _ => True end.

Definition log_ok (j : list Log) (l : Log) : Prop :=
  match l with ResponseReceived _ => False | DispatchBlockResponse rid => DispatchBlockRequest rid ∈ j | _ => True end.

Record inv st : Prop := MkInv {
  inv_bus : bus_ok (se_manager_ st);
  inv_heard : heard_ok (se_manager_ st) (instances st);
  inv_tasks : Forall (task_ok (instances st)) (tasks st);
  inv_requested : Forall (requested (journal st)) (tasks st);
  inv_log : Forall (log_ok (journal st)) (journal st);
  inv_callbacks : Forall (fun x => block_response_callbacks_ x = []) (instances st)
}.

(** *** Preservation by the building blocks *)

Lemma requested_mono j l t : requested j t -> requested (j ++ [l]) t.
Proof. unfold requested. destruct t.2; try done; intros H; apply elem_of_app; by left. Qed.

Lemma log_ok_mono j l x : log_ok j x -> log_ok (j ++ [l]) x.
Proof. unfold log_ok. destruct x; try done. intros H; apply elem_of_app; by left. Qed.

Lemma inv_log_step st l : inv st -> log_ok (journal st ++ [l]) l -> inv (log st l).
Proof.
  intros [H1 H2 H3 H4 H5 H6] Hl. split; cbn; try done.
  - eapply Forall_impl; [exact H4|]. intros t. apply requested_mono.
  - apply Forall_app. split; [|by apply Forall_singleton]. eapply Forall_impl; [exact H5|]. intros x. apply log_ok_mono.
Qed.

Lemma inv_notify st e m :
  inv st -> texts e = false -> (forall h, requested (journal st) (h, m)) -> inv (notify st e m).
Proof.
  intros [H1 H2 H3 H4 H5 H6] He Hm. unfold notify. pose proof (heard_emit (se_manager_ st) (data_of m, e)) as Hk.
  pose proof (emit_ok (se_manager_ st) (data_of m, e) H1) as Hok.
  assert (forall h, h ∈ (emit (se_manager_ st) (data_of m, e)).2 -> task_ok (instances st) (h, m)) as Hnew.
  { intros h Hh. destruct (H2 _ _ Hh) as (x & Hx & Hs). by exists x, e. }
  destruct (emit (se_manager_ st) (data_of m, e)) as [b hs]. cbn in *. split; cbn; try done.
  - intros c h. rewrite Hk by done. apply H2.
  - apply Forall_app. split; [done|]. apply Forall_fmap, Forall_forall. intros h Hh. by apply Hnew.
  - apply Forall_app. split; [done|]. apply Forall_fmap, Forall_forall. intros h _. apply Hm.
Qed.

(** Notifications with text reach nobody. *)
Lemma no_text_heard b insts e : heard_ok b insts -> heard b (DString, e) = [].
Proof.
  intros Hh. destruct (heard b (DString, e)) as [|h l] eqn:Hl; [done|]. exfalso.
  destruct (Hh (DString, e) h) as (x & _ & Hs); [rewrite Hl; left|]. destruct (kind_ x); cbn in Hs; set_unfold; naive_solver.
Qed.

Lemma inv_notify_text st e t : inv st -> inv (notify st e (Text t)) /\ tasks (notify st e (Text t)) = tasks st.
Proof.
  intros Hi. pose proof (no_text_heard _ _ e (inv_heard _ Hi)) as Hn. destruct Hi as [H1 H2 H3 H4 H5 H6].
  unfold notify. cbn [data_of]. pose proof (heard_emit (se_manager_ st) (DString, e)) as Hk.
  pose proof (emit_ok (se_manager_ st) (DString, e) H1) as Hok. unfold heard in Hn.
  destruct (emit (se_manager_ st) (DString, e)) as [b hs]. cbn in *. subst hs. cbn. rewrite app_nil_r. split; [|done].
  split; cbn; try done. intros c h. rewrite Hk by done. apply H2.
Qed.

(** *** Starting a module *)

Lemma subscribed_heard i (l : list (chan * Callback)) b c :
  bus_ok b ->
  let b' := foldl (fun b p => listen b p.1 (i, p.2)) b l in
  bus_ok b' /\ forall h, h ∈ heard b' c -> h ∈ heard b c \/ (h.1 = i /\ (c, h.2) ∈ l).
Proof.
  revert b. induction l as [|[c0 cb] l IH]; intros b Hb; cbn; [by auto|].
  destruct (IH (listen b c0 (i, cb)) (listen_ok _ _ _ Hb)) as [Hok Hh]. split; [done|]. intros h Hin.
  apply Hh in Hin as [Hin|[Hi Hl]]; [|right; split; [done|by right]]. rewrite heard_listen in Hin by done.
  apply elem_of_app in Hin as [Hin|Hin]; [by left|]. case_decide as Hc; [|by apply not_elem_of_nil in Hin].
  apply list_elem_of_singleton in Hin as ->. subst c0. right. split; [done|left].
Qed.

Lemma task_ok_app insts x t : task_ok insts t -> task_ok (insts ++ [x]) t.
Proof. intros (y & e & Hy & Hs). exists y, e. split; [by apply lookup_app_l_Some|done]. Qed.

Lemma node_inv_start k accessor addr st : inv st -> inv (start k accessor addr st).
Proof.
  intros Hi. unfold start. destruct accessor; cbn [negb]; [|done]. destruct Hi as [H1 H2 H3 H4 H5 H6].
  apply inv_notify; [|by destruct k|done].
  split; cbn; try done.
  - by apply (subscribed_heard (length (instances st)) (subscriptions k) _ (NoData, LoadingIsFinished)).
  - intros c h Hh. apply (subscribed_heard (length (instances st)) (subscriptions k) _ c H1) in Hh as [Hh|[Hi Hl]].
    + destruct (H2 _ _ Hh) as (x & Hx & Hs). exists x. split; [by apply lookup_app_l_Some|done].
    + exists (MkInstance k true addr None 0 []). rewrite Hi. split; [apply list_lookup_middle; done|done].
  - eapply Forall_impl; [exact H3|]. intros t. apply task_ok_app.
  - apply Forall_app. split; [done|]. by apply Forall_singleton.
Qed.

(** *** Changing an instance *)

Lemma inv_set_instance st i x y :
  inv st -> instances st !! i = Some x -> kind_ y = kind_ x -> block_response_callbacks_ y = [] -> inv (set_instance st i y).
Proof.
  intros [H1 H2 H3 H4 H5 H6] Hx Hk Hc.
  assert (forall j z, instances st !! j = Some z -> exists z', <[i := y]> (instances st) !! j = Some z' /\ kind_ z' = kind_ z) as Hl.
  { intros j z Hz. destruct (decide (i = j)) as [<-|Hn]; [|exists z; by rewrite list_lookup_insert_ne].
    simplify_eq. exists y. split; [|done]. apply list_lookup_insert_eq. by eapply lookup_lt_Some. }
  split; cbn; try done.
  - intros c h Hh. destruct (H2 _ _ Hh) as (z & Hz & Hs). destruct (Hl _ _ Hz) as (z' & Hz' & Hk'). exists z'. by rewrite Hk'.
  - eapply Forall_impl; [exact H3|]. intros t (z & e & Hz & Hs & He). destruct (Hl _ _ Hz) as (z' & Hz' & Hk').
    exists z', e. by rewrite Hk'.
  - by apply Forall_insert.
Qed.

Lemma callbacks_empty st i x : inv st -> instances st !! i = Some x -> block_response_callbacks_ x = [].
Proof. intros Hi Hx. by apply (Forall_lookup_1 _ _ _ _ (inv_callbacks _ Hi) Hx). Qed.

Lemma inv_release st i : inv st -> inv (release_module_instance i st).
Proof.
  intros Hi. unfold release_module_instance. destruct (instances st !! i) as [x|] eqn:Hx; [|done].
  apply (inv_set_instance _ _ x); [done..|]. cbn. by apply (callbacks_empty st i).
Qed.

(** *** Executing a task *)

Definition without_first st : Node := MkNode (se_manager_ st) (instances st) (drop 1 (tasks st)) (journal st).

Lemma inv_without_first st : inv st -> inv (without_first st).
Proof.
  intros [H1 H2 H3 H4 H5 H6]. split; cbn; try done; by apply Forall_drop.
Qed.

Lemma elem_of_snoc {A} (x : A) l : x ∈ l ++ [x].
Proof. apply elem_of_app. right. by apply list_elem_of_singleton. Qed.

Lemma inv_call st h m :
  inv st -> task_ok (instances st) (h, m) -> requested (journal st) (h, m) -> exists st', call h m st = Done st' /\ inv st'.
Proof.
  intros Hi (x & e & Hx & Hs & He) Hr. cbn in *. unfold call. rewrite Hx.
  destruct (alive x); [|by eauto].
  assert (inv (log st BlockAnnounced)) as Ha by (apply inv_log_step; done).
  assert (inv (log st BlockRequested)) as Hq by (apply inv_log_step; done).
  destruct (kind_ x) eqn:Hk; cbn in Hs; set_unfold in Hs; destruct_or! Hs; injection Hs as Hd -> Hcb; rewrite Hcb;
    destruct m as [|t| | | |rid|rid]; try discriminate Hd; try discriminate He; eexists; (split; [reflexivity|]);
    unfold on_loaded_success, on_loading_is_finished, dispatch_block_announce, on_block_request, dispatch_block_response,
      on_block_announce, dispatch_block_request, on_block_response.
  - by apply inv_log_step.
  - by apply inv_log_step.
  - by apply inv_log_step.
  - apply inv_notify; [by apply inv_log_step|done|done].
  - cbn in Hr. apply inv_notify; [|done|].
    + apply inv_log_step; [done|]. cbn. rewrite !elem_of_app. auto.
    + intros h'. cbn. rewrite !elem_of_app. auto.
  - by apply inv_log_step.
  - apply inv_notify; [|done|intros h'; apply elem_of_snoc]. apply inv_log_step; [|done].
    apply (inv_set_instance _ _ x); [done| done|done|]. cbn. by apply (callbacks_empty st h.1).
  - rewrite (callbacks_empty st h.1) by done. cbn. by apply inv_log_step.
Qed.

Lemma inv_execute st : inv st -> exists st', execute st = Done st' /\ inv st'.
Proof.
  intros Hi. unfold execute. pose proof (inv_without_first _ Hi) as Hw. unfold without_first in Hw.
  destruct (tasks st) as [|[h m] rest] eqn:Ht; [by eauto|]. cbn [drop] in Hw.
  destruct Hi as [H1 H2 H3 H4 H5 H6]. rewrite Ht in H3, H4. apply inv_call; [done| |].
  - by apply Forall_cons_1 in H3 as [H3 _].
  - by apply Forall_cons_1 in H4 as [H4 _].
Qed.

Lemma node_inv_step st o : inv st -> exists st', step st o = Done st' /\ inv st'.
Proof.
  intros Hi. destruct o as [k acc addr| | |i|e t]; cbn; try (eexists; split; [reflexivity|]).
  - by apply node_inv_start.
  - by apply inv_notify.
  - by apply inv_execute.
  - by apply inv_release.
  - by apply inv_notify_text.
Qed.

Lemma inv_empty : inv empty_node.
Proof.
  split; cbn; try constructor; [apply new_bus_ok|]. intros c h. rewrite heard_new. by intros ?%not_elem_of_nil.
Qed.

Lemma inv_steps st ops : inv st -> exists st', foldM step st ops = Done st' /\ inv st'.
Proof.
  revert st. induction ops as [|o ops IH]; intros st Hi; cbn; [by eauto|].
  destruct (node_inv_step st o Hi) as (st1 & -> & H1). cbn. by apply IH.
Qed.

(** ** Termination *)

(** How many callbacks the execution of a task leads to, itself included. *)
Definition weight (b : bus) (t : handler * Message) : nat :=
  let responses := length (heard b (DResponse, BlockResponse)) in
  let requests := length (heard b (DRequest, BlockRequest)) in
  let announces := length (heard b (DAnnounce, BlockAnnounceReceived)) in
  match t.1.2 with
  | on_block_request_ => 1 + responses
  | on_block_announce_ => 1 + requests * (1 + responses)
  | on_loading_finished_ => 1 + announces * (1 + requests * (1 + responses))
  | _ => 1
  end%nat.

Definition total st : nat := sum_list_with (weight (se_manager_ st)) (tasks st).

Lemma weight_heard b b' t : (forall c, heard b' c = heard b c) -> weight b' t = weight b t.
Proof. intros H. unfold weight. by rewrite !H. Qed.

Lemma total_heard (b b' : bus) (ts : list (handler * Message)) :
  (forall c, heard b' c = heard b c) -> sum_list_with (weight b') ts = sum_list_with (weight b) ts.
Proof. intros H. induction ts as [|t ts IH]; cbn; [done|]. by rewrite IH, (weight_heard b b'). Qed.

(** Everybody on the channel has the same callback. *)
Lemma heard_callback st c cb :
  inv st -> (forall k cb', (c, cb') ∈ subscriptions k -> cb' = cb) -> forall h, h ∈ heard (se_manager_ st) c -> h.2 = cb.
Proof. intros Hi Hcb h Hh. destruct (inv_heard _ Hi _ _ Hh) as (x & _ & Hs). by eapply Hcb. Qed.

Lemma sum_same {A} (f : A -> nat) w l : (forall x, x ∈ l -> f x = w) -> sum_list_with f l = (length l * w)%nat.
Proof.
  induction l as [|x l IH]; intros H; cbn; [done|]. rewrite (H x) by left. rewrite IH; [done|]. intros y Hy. apply H. by right.
Qed.

Lemma total_notify st e m cb w :
  inv st -> (forall k cb', ((data_of m, e), cb') ∈ subscriptions k -> cb' = cb) ->
  (forall i m', weight (se_manager_ st) ((i, cb), m') = w) ->
  total (notify st e m) = (total st + length (heard (se_manager_ st) (data_of m, e)) * w)%nat.
Proof.
  intros Hi Hcb Hw. pose proof (heard_callback st _ cb Hi Hcb) as Hc. pose proof (heard_emit (se_manager_ st) (data_of m, e)) as Hk.
  unfold total, notify, heard in *. specialize (Hk).
  destruct (emit (se_manager_ st) (data_of m, e)) as [b hs] eqn:He. cbn [fst snd] in *. cbn [se_manager_ tasks].
  rewrite (total_heard (se_manager_ st) b) by (intros c; apply Hk, Hi). rewrite sum_list_with_app. f_equal.
  rewrite (sum_same _ w), length_fmap; [done|]. intros t Ht. apply list_elem_of_fmap in Ht as (h & -> & Hh).
  specialize (Hc h Hh). destruct h as [i cb']. cbn in Hc. subst cb'. apply Hw.
Qed.

Lemma channel_callbacks k cb :
  (((DAnnounce, BlockAnnounceReceived), cb) ∈ subscriptions k -> cb = on_block_announce_)
  /\ (((DRequest, BlockRequest), cb) ∈ subscriptions k -> cb = on_block_request_)
  /\ (((DResponse, BlockResponse), cb) ∈ subscriptions k -> cb = on_block_response_).
Proof. destruct k; cbn; set_unfold; naive_solver. Qed.

Lemma total_announce st :
  inv st -> total (dispatch_block_announce st)
  = (total st + length (heard (se_manager_ st) (DAnnounce, BlockAnnounceReceived))
       * (1 + length (heard (se_manager_ st) (DRequest, BlockRequest)) * (1 + length (heard (se_manager_ st) (DResponse, BlockResponse)))))%nat.
Proof.
  intros Hi. unfold dispatch_block_announce. erewrite (total_notify _ _ _ on_block_announce_); [reflexivity|done| |done].
  intros k cb. apply channel_callbacks.
Qed.

Lemma total_log st l : total (log st l) = total st.
Proof. done. Qed.

Lemma total_request st rid :
  inv (log st (DispatchBlockRequest rid)) -> total (dispatch_block_request st rid)
  = (total st + length (heard (se_manager_ st) (DRequest, BlockRequest)) * (1 + length (heard (se_manager_ st) (DResponse, BlockResponse))))%nat.
Proof.
  intros Hi. unfold dispatch_block_request. erewrite (total_notify _ _ _ on_block_request_); [reflexivity|done| |done].
  intros k cb. apply channel_callbacks.
Qed.

Lemma total_response st rid :
  inv (log st (DispatchBlockResponse rid)) -> total (dispatch_block_response st rid)
  = (total st + length (heard (se_manager_ st) (DResponse, BlockResponse)) * 1)%nat.
Proof.
  intros Hi. unfold dispatch_block_response. erewrite (total_notify _ _ _ on_block_response_); [reflexivity|done| |done].
  intros k cb. apply channel_callbacks.
Qed.

(** A call costs its weight at most. *)
Lemma total_call st h m st' :
  inv st -> task_ok (instances st) (h, m) -> requested (journal st) (h, m) -> call h m st = Done st' ->
  (total st' < total st + weight (se_manager_ st) (h, m))%nat.
Proof.
  intros Hi Hok Hr. unfold call. destruct (instances st !! h.1) as [x|] eqn:Hx; [|done].
  destruct (alive x); [|by intros [= <-]; unfold weight; destruct h as [? []]; cbn; lia].
  assert (forall l, log_ok (journal st ++ [l]) l -> inv (log st l)) as Hlog by (intros; by apply inv_log_step).
  destruct h as [i cb]. unfold weight. cbn [fst snd] in *.
  destruct cb; try (destruct m; done).
  - intros [= <-]. unfold on_loaded_success. rewrite total_log. lia.
  - intros [= <-]. unfold on_loading_is_finished. destruct (kind_ x); [rewrite total_log; lia| |rewrite total_log; lia].
    rewrite total_announce by (by apply Hlog). rewrite total_log. cbn [se_manager_ log]. lia.
  - destruct m as [|t| | | |rid|rid]; try done. intros [= <-]. unfold on_block_request. cbn in Hr. rewrite total_response.
    + rewrite total_log. cbn [se_manager_ log]. lia.
    + apply inv_log_step; [by apply Hlog|]. cbn. rewrite !elem_of_app. auto.
  - destruct m as [|t| | | |rid|rid]; try done. intros [= <-]. unfold on_block_announce. rewrite total_request.
    + change (total (set_instance (log st BlockAnnounced) _ _)) with (total st). cbn [se_manager_ log set_instance]. lia.
    + apply inv_log_step; [|done]. apply (inv_set_instance _ _ x); [by apply Hlog|done|done|]. cbn. by apply (callbacks_empty st i).
  - destruct m as [|t| | | |rid|rid]; try done. intros [= <-]. unfold on_block_response. case_bool_decide; rewrite total_log; lia.
Qed.

Lemma drains st fuel : inv st -> (total st <= fuel)%nat -> exists st', drain fuel st = Done st' /\ tasks st' = [] /\ inv st'.
Proof.
  revert st. induction fuel as [|fuel IH]; intros st Hi Hf.
  - destruct (tasks st) as [|t ts] eqn:Ht; [exists st; cbn; by rewrite Ht|]. exfalso. unfold total in Hf. rewrite Ht in Hf.
    cbn in Hf. assert (0 < weight (se_manager_ st) t)%nat by (unfold weight; destruct t as [[? []] ?]; cbn; lia). lia.
  - destruct (tasks st) as [|[h m] rest] eqn:Ht; [exists st; cbn; by rewrite Ht|]. cbn [drain]. rewrite Ht.
    destruct (inv_execute st Hi) as (st1 & He & H1). rewrite He. cbn [mbind run_bind]. apply IH; [done|].
    pose proof (inv_without_first _ Hi) as Hw. unfold without_first in Hw. unfold execute in He. rewrite Ht in He, Hw. cbn [drop] in Hw.
    apply total_call in He; [|done|..].
    + unfold total in *. cbn [se_manager_ tasks] in He. rewrite Ht in Hf. cbn in Hf. lia.
    + pose proof (inv_tasks _ Hi) as H3. rewrite Ht in H3. by apply Forall_cons_1 in H3 as [H3 _].
    + pose proof (inv_requested _ Hi) as H4. rewrite Ht in H4. by apply Forall_cons_1 in H4 as [H4 _].
Qed.

(** ** Theorems *)

(** The traffic between modules comes to an end. After any sequence of module
    starts, events, executed callbacks and releases, nothing undefined has happened,
    and executing the pending callbacks, with all the callbacks they cause, ends with
    no callback pending after at most [total] of them. *)
Theorem module_traffic_ends ops :
  exists st, foldM step empty_node ops = Done st /\ exists st', drain (total st) st = Done st' /\ tasks st' = [].
Proof.
  destruct (inv_steps _ ops inv_empty) as (st & Hs & Hi). exists st. split; [done|].
  destruct (drains st (total st) Hi) as (st' & Hd & He & _); [done|]. eauto.
Qed.

(** C34: every response answers a request. Whatever happens, a block response is only ever
    dispatched for the identifier of a block request a synchronizer has dispatched
    before; and no synchronizer accepts any response, since the table of expected
    responses is never filled. *)
Theorem responses_answer_requests ops st :
  foldM step empty_node ops = Done st ->
  (forall rid, DispatchBlockResponse rid ∈ journal st -> DispatchBlockRequest rid ∈ journal st)
  /\ (forall rid, ResponseReceived rid ∉ journal st).
Proof.
  intros Hs. destruct (inv_steps _ ops inv_empty) as (st1 & Hs1 & Hi). rewrite Hs in Hs1. injection Hs1 as <-.
  pose proof (inv_log _ Hi) as Hl. rewrite Forall_forall in Hl. split.
  - intros rid Hr. apply (Hl _ Hr).
  - intros rid Hr. apply (Hl _ Hr).
Qed.

(** The messages of the example module are delivered to nobody: whatever modules are
    started, dispatching a request, a response or a notification queues no callback,
    because the example loader subscribes in the engine for events without data. *)
Theorem example_messages_lost ops st t :
  foldM step empty_node ops = Done st ->
  tasks (dispatch_request st t) = tasks st /\ tasks (dispatch_response st t) = tasks st /\ tasks (dispatch_notify st t) = tasks st.
Proof.
  intros Hs. destruct (inv_steps _ ops inv_empty) as (st1 & Hs1 & Hi). rewrite Hs in Hs1. injection Hs1 as <-.
  split_and!; by apply inv_notify_text.
Qed.

End spec.
End LoadersSpec.
