(* ===== verification/EngineBus.v ===== *)
(** * EngineBus: the subscription engine implements the event bus

    [SubscriberCreator::create] of [src/src/se/subscription.hpp] and
    [SubscriptionManager::notify], in terms of the model of the subscription engine.
    The interface [EventBus] of the loaders is discharged here. *)

From S2P Require Import Prelude Utils Subscription Modules Loaders LoadersSpec.

Module EngineBus.
Import Loaders.

Section bus.
(** The identifier of the engine for a list of event data types
    ([getSubscriptionHash]); the lists in use have different identifiers. *)
Context (engineId : Data -> Z) (engineId_inj : forall d d', engineId d = engineId d' -> d = d').

(** The number behind an enumerator of [EventTypes]. *)
Definition event_code (e : EventTypes) : Z :=
  match e with
  | LoadingIsFinished => 0 | ExampleModuleIsLoaded => 1 | ExampleModuleIsUnloaded => 2 | ExampleNotification => 3
  | ExampleRequest => 4 | ExampleResponse => 5 | NetworkingIsLoaded => 6 | NetworkingIsUnloaded => 7 | PeerConnected => 8
  | PeerDisconnected => 9 | BlockRequest => 10 | BlockResponse => 11 | SynchronizerIsLoaded => 12 | SynchronizerIsUnloaded => 13
  | BlockAnnounceReceived => 14 | BlockIndexDiscovered => 15
  end.

Definition kTest : Z := 0.

(** The engines created so far, and the callback set for each subscriber. *)
Record Manager : Type := MkManager {
  engines : gmap Z Subscription.World;
  callbacks : gmap (Z * nat) handler
}.

(** [SubscriberCreator::create<key>]: the engine (made on first use), a subscriber, its
    callback, its subscription in set 0. *)
Definition create (b : Manager) (c : chan) (h : handler) : Manager :=
  let id := engineId c.1 in
  let w := default Subscription.initial (engines b !! id) in
  let '(w, sub) := Subscription.create w in
  let w := Subscription.setCallback w sub in
  let w := Subscription.subscribe w sub 0 (event_code c.2) kTest in
  MkManager (<[id := w]> (engines b)) (<[(id, sub) := h]> (callbacks b)).

(** The callback a dispatched task calls, if its subscriber is still there. *)
Definition called (b : Manager) (id : Z) (w : Subscription.World) (d : Subscription.Dispatched) : option handler :=
  p ← Subscription.on_notify w d; callbacks b !! (id, p.1.1.1).

(** [notify(key, args...)]: nothing when the engine was never made. *)
Definition notify (b : Manager) (c : chan) : Manager * list handler :=
  let id := engineId c.1 in
  match engines b !! id with
  | None => (b, [])
  | Some w =>
      let '(w', ds) := Subscription.notify w (event_code c.2) 0 in
      (MkManager (<[id := w']> (engines b)) (callbacks b), omap (called b id w') ds)
  end.

#[export] Instance engine_bus : EventBus chan handler := {|
  bus := Manager;
  new_bus := MkManager ∅ ∅;
  listen := create;
  emit := notify
|}.

(** ** The laws *)

Lemma event_code_inj e e' : event_code e = event_code e' -> e = e'.
Proof. by destruct e, e'. Qed.

(** An engine in use: alive, with its dispatcher; every node belongs to a subscriber
    with a callback; identities are fresh. *)
Record world_ok (b : Manager) (id : Z) (w : Subscription.World) : Prop := {
  w_engine : exists m, Subscription.engine w = Some (Subscription.MkEngine m true)
    /\ forall k l nd, m !! k = Some l -> nd ∈ l ->
         (exists x, Subscription.subs w !! Subscription.n_sub nd = Some x /\ Subscription.on_notify_callback_ x = true);
  w_fresh : forall s x, Subscription.subs w !! s = Some x -> (s < Subscription.fresh_sub w)%nat
}.

Definition ok (b : Manager) : Prop := forall id w, engines b !! id = Some w -> world_ok b id w.

(** The nodes under a key. *)
Definition nodes (w : Subscription.World) (k : Z) : list Subscription.Node :=
  match Subscription.engine w with
  | Some e => default [] (Subscription.subscribers_map_ e !! k)
  | None => []
  end.

Definition node_call (b : Manager) (id : Z) (nd : Subscription.Node) : option handler := callbacks b !! (id, Subscription.n_sub nd).

Lemma nodes_live b id w k nd :
  world_ok b id w -> nd ∈ nodes w k ->
  exists x, Subscription.subs w !! Subscription.n_sub nd = Some x /\ Subscription.on_notify_callback_ x = true.
Proof.
  intros [(m & Hm & Hn) _] Hin. unfold nodes in Hin. rewrite Hm in Hin. cbn in Hin.
  destruct (m !! k) as [l|] eqn:Hl; cbn in Hin; [|by apply not_elem_of_nil in Hin]. by eapply Hn.
Qed.

(** A notification keeps the lists and dispatches one task per node. *)
Lemma notify_world b id w k :
  world_ok b id w ->
  let r := Subscription.notify w k 0 in
  Subscription.subs r.1 = Subscription.subs w /\ Subscription.fresh_sub r.1 = Subscription.fresh_sub w
  /\ (exists m, Subscription.engine r.1 = Some (Subscription.MkEngine m true)) /\ (forall k', nodes r.1 k' = nodes w k')
  /\ r.2 = (fun nd => Subscription.MkDispatched (Subscription.n_tid nd) 0 (Subscription.n_sub nd) (Subscription.n_set nd) k 0) <$> nodes w k.
Proof.
  intros Hok. pose proof Hok as [(m & Hm & Hn) _]. unfold Subscription.notify, Subscription.notifyDelayed, nodes. rewrite Hm. cbn [Subscription.dispatcher_ negb].
  cbn [Subscription.subscribers_map_]. destruct (m !! k) as [l|] eqn:Hl.
  - assert (filter (fun n => Subscription.expired w (Subscription.n_sub n) = false) l = l) as ->.
    { apply filter_all, Forall_forall. intros nd Hnd. destruct (Hn _ _ _ Hl Hnd) as (x & Hx & _).
      unfold Subscription.expired. apply bool_decide_eq_false. by rewrite Hx. }
    cbn. split_and!; [done..|by eauto| |done].
    intros k'. destruct (decide (k' = k)) as [->|Hne]; [by rewrite lookup_insert_eq, Hl|by rewrite lookup_insert_ne].
  - cbn. rewrite Hm. by eauto 10.
Qed.

Lemma called_node b id w w' nd k :
  world_ok b id w -> Subscription.subs w' = Subscription.subs w -> nd ∈ nodes w k ->
  called b id w' (Subscription.MkDispatched (Subscription.n_tid nd) 0 (Subscription.n_sub nd) (Subscription.n_set nd) k 0) = node_call b id nd.
Proof.
  intros Hok Hs Hnd. destruct (nodes_live _ _ _ _ _ Hok Hnd) as (x & Hx & Hc).
  unfold called, Subscription.on_notify. cbn. rewrite Hs, Hx, Hc. done.
Qed.

(** What is heard on a channel: the callbacks of the nodes, in order. *)
Lemma heard_nodes b d e :
  ok b -> @heard _ _ engine_bus b (d, e)
  = match engines b !! engineId d with Some w => omap (node_call b (engineId d)) (nodes w (event_code e)) | None => [] end.
Proof.
  intros Hok. unfold heard, emit. cbn [engine_bus]. unfold notify. cbn [fst snd].
  destruct (engines b !! engineId d) as [w|] eqn:Hw; [|done]. pose proof (Hok _ _ Hw) as Hwok.
  destruct (notify_world b (engineId d) w (event_code e) Hwok) as (Hs & _ & _ & _ & Hd).
  destruct (Subscription.notify w (event_code e) 0) as [w' ds]. cbn in *. subst ds.
  assert (forall l : list Subscription.Node, (forall nd, nd ∈ l -> nd ∈ nodes w (event_code e)) ->
    omap (called b (engineId d) w')
      ((fun nd => Subscription.MkDispatched (Subscription.n_tid nd) 0 (Subscription.n_sub nd) (Subscription.n_set nd) (event_code e) 0) <$> l)
    = omap (node_call b (engineId d)) l) as Hl; [|by apply Hl].
  induction l as [|nd l IH]; intros Hin; [done|]. cbn [fmap list_fmap omap list_omap].
  rewrite (called_node b (engineId d) w) by (done || apply Hin; left). rewrite IH by (intros nd' Hnd'; apply Hin; by right). done.
Qed.

(** *** Creating a subscriber *)

(** The world after a creation: one node more, at the end of its key's list. *)
Lemma create_world b id w k h :
  world_ok b id w ->
  let '(w1, sub) := Subscription.create w in
  let w' := Subscription.subscribe (Subscription.setCallback w1 sub) sub 0 k kTest in
  sub = Subscription.fresh_sub w
  /\ world_ok (MkManager (<[id := w']> (engines b)) (<[(id, sub) := h]> (callbacks b))) id w'
  /\ exists nd, Subscription.n_sub nd = sub
     /\ forall k', nodes w' k' = nodes w k' ++ (if decide (k = k') then [nd] else []).
Proof.
  intros Hok. pose proof Hok as [(m & Hm & Hn) Hf]. unfold Subscription.create, Subscription.setCallback. cbn [Subscription.subs].
  rewrite lookup_insert_eq. unfold Subscription.with_sub. cbn [Subscription.subs Subscription.engine Subscription.fresh_node Subscription.fresh_sub].
  rewrite insert_insert_eq. unfold Subscription.subscribe. cbn [Subscription.subs Subscription.engine]. rewrite Hm, lookup_insert_eq.
  cbn [Subscription.subscriptions_sets_ default]. rewrite lookup_empty. cbn. rewrite lookup_empty, insert_insert_eq. split; [done|]. split.
  - split; cbn.
    + eexists. split; [done|]. intros k' l nd Hl Hnd. destruct (decide (k' = k)) as [->|Hne].
      * rewrite lookup_insert_eq in Hl. injection Hl as <-. apply elem_of_app in Hnd as [Hnd|Hnd].
        -- destruct (m !! k) as [l0|] eqn:Hl0; cbn in Hnd; [|by apply not_elem_of_nil in Hnd].
           destruct (Hn _ _ _ Hl0 Hnd) as (x & Hx & Hc). exists x. split; [|done]. rewrite lookup_insert_ne; [done|].
           specialize (Hf _ _ Hx). lia.
        -- apply list_elem_of_singleton in Hnd as ->. cbn. rewrite lookup_insert_eq. eauto.
      * rewrite lookup_insert_ne in Hl by done. destruct (Hn _ _ _ Hl Hnd) as (x & Hx & Hc). exists x. split; [|done].
        rewrite lookup_insert_ne; [done|]. specialize (Hf _ _ Hx). lia.
    + intros s0 x Hs. apply lookup_insert_Some in Hs as [[<- _]|[_ Hs]]; [lia|]. specialize (Hf _ _ Hs). lia.
  - eexists. split; [|intros k'; unfold nodes; cbn; rewrite Hm; cbn]. 2: case_decide as Hk.
    2: { subst k'. rewrite lookup_insert_eq. reflexivity. }
    2: { rewrite lookup_insert_ne by done. by rewrite app_nil_r. }
    done.
Qed.

Lemma initial_ok b id : world_ok b id Subscription.initial.
Proof. split; cbn; [|done]. exists ∅. split; [done|]. intros k l nd Hl. by rewrite lookup_empty in Hl. Qed.

Lemma ok_world b id w : ok b -> engines b !! id = Some w -> world_ok b id w.
Proof. intros Hb. apply Hb. Qed.

(** The conditions on an engine do not mention the callbacks. *)
Lemma world_ok_any b b' id w : world_ok b id w -> world_ok b' id w.
Proof. intros [H1 H2]. by split. Qed.

Lemma current_ok b d : ok b -> world_ok b (engineId d) (default Subscription.initial (engines b !! engineId d)).
Proof. intros Hb. destruct (engines b !! engineId d) as [w|] eqn:Hw; cbn; [by apply Hb|apply initial_ok]. Qed.

Lemma create_ok b c h : ok b -> ok (create b c h).
Proof.
  intros Hb. unfold create. pose proof (create_world b (engineId c.1) _ (event_code c.2) h (current_ok b c.1 Hb)) as Hc.
  destruct (Subscription.create _) as [w1 sub]. destruct Hc as (_ & Hw & _). intros id w. cbn [engines].
  intros [[<- <-]|[Hne Hw']]%lookup_insert_Some; [done|]. eapply world_ok_any. by apply Hb.
Qed.

Lemma notify_ok b c : ok b -> ok (notify b c).1.
Proof.
  intros Hb. unfold notify. destruct (engines b !! engineId c.1) as [w|] eqn:Hw; [|done]. pose proof (Hb _ _ Hw) as Hwok.
  destruct (notify_world b (engineId c.1) w (event_code c.2) Hwok) as (Hs & Hf & (m & He) & Hn & _).
  destruct (Subscription.notify w (event_code c.2) 0) as [w' ds]. cbn in *. intros id w0. cbn [engines].
  intros [[<- <-]|[Hne Hw']]%lookup_insert_Some; [|by eapply world_ok_any, Hb].
  split; [|intros s0 x; rewrite Hs, Hf; apply Hwok]. exists m. split; [done|]. intros k l nd Hl Hnd. rewrite Hs.
  apply (nodes_live b (engineId c.1) w k); [done|]. rewrite <-Hn. unfold nodes. rewrite He. cbn. by rewrite Hl.
Qed.

(** A new callback is not mistaken for one of the earlier subscribers. *)
Lemma calls_kept b es id sub h id' (l : list Subscription.Node) :
  (forall nd, nd ∈ l -> (id, sub) <> (id', Subscription.n_sub nd)) ->
  omap (node_call (MkManager es (<[(id, sub) := h]> (callbacks b))) id') l = omap (node_call b id') l.
Proof.
  induction l as [|nd l IH]; intros Hl; [done|]. cbn [omap list_omap]. rewrite IH by (intros y Hy; apply Hl; by right).
  unfold node_call. cbn [callbacks]. by rewrite lookup_insert_ne by (apply Hl; left).
Qed.

Lemma heard_create b c h c' :
  ok b -> @heard _ _ engine_bus (create b c h) c' = @heard _ _ engine_bus b c' ++ (if decide (c = c') then [h] else []).
Proof.
  intros Hb. pose proof (create_ok b c h Hb) as Hb'. destruct c as [d e], c' as [d' e']. rewrite !heard_nodes by done. clear Hb'.
  unfold create. cbn [fst snd]. pose proof (current_ok b d Hb) as Hcur.
  pose proof (create_world b (engineId d) _ (event_code e) h Hcur) as Hc.
  destruct (Subscription.create _) as [w1 sub]. destruct Hc as (-> & _ & nd & Hsub & Hn). cbn [engines].
  set (w0 := default Subscription.initial (engines b !! engineId d)) in *.
  destruct (decide (d = d')) as [<-|Hd].
  - rewrite lookup_insert_eq, Hn, omap_app. f_equal.
    + rewrite calls_kept.
      * subst w0. destruct (engines b !! engineId d) as [w|]; cbn; [done|]. unfold nodes. cbn. by rewrite lookup_empty.
      * intros x Hx [= Heq]. destruct (nodes_live b _ w0 _ x Hcur Hx) as (y & Hy & _). apply (w_fresh _ _ _ Hcur) in Hy. lia.
    + destruct (decide (event_code e = event_code e')) as [He%event_code_inj|He].
      * subst e'. rewrite decide_True by done. cbn. unfold node_call. cbn. by rewrite Hsub, lookup_insert_eq.
      * rewrite decide_False by congruence. done.
  - rewrite (decide_False (P := (d, e) = (d', e'))), app_nil_r by congruence.
    assert (engineId d <> engineId d') as Hid by (intros H; by apply engineId_inj in H).
    rewrite lookup_insert_ne by done. destruct (engines b !! engineId d') as [w|] eqn:Hw; [|done].
    apply calls_kept. congruence.
Qed.

Lemma heard_notify b c c' : ok b -> @heard _ _ engine_bus (notify b c).1 c' = @heard _ _ engine_bus b c'.
Proof.
  intros Hb. pose proof (notify_ok b c Hb) as Hb'. destruct c as [d e], c' as [d' e']. rewrite !heard_nodes by done. clear Hb'.
  unfold notify. cbn [fst snd]. destruct (engines b !! engineId d) as [w|] eqn:Hw; [|done]. pose proof (Hb _ _ Hw) as Hwok.
  destruct (notify_world b (engineId d) w (event_code e) Hwok) as (_ & _ & _ & Hn & _).
  destruct (Subscription.notify w (event_code e) 0) as [w' ds]. cbn [fst snd engines] in *.
  destruct (decide (engineId d = engineId d')) as [Hd|Hd].
  - rewrite <-Hd, lookup_insert_eq, Hw, Hn. done.
  - by rewrite lookup_insert_ne.
Qed.

(** The engine keeps the promises of the interface. *)
#[export] Instance engine_bus_ok : EventBusOk engine_bus.
Proof.
  refine (Build_EventBusOk _ _ _ engine_bus ok _ create_ok notify_ok _ heard_create heard_notify).
  - intros id w Hw. cbn in Hw. by rewrite lookup_empty in Hw.
  - intros [d e]. unfold heard. cbn. unfold notify. cbn. by rewrite lookup_empty.
Defined.

End bus.

(** ** Samples *)

Definition data_code (d : Data) : Z :=
  match d with NoData => 0 | DString => 1 | DPeerConnected => 2 | DPeerDisconnected => 3 | DAnnounce => 4 | DRequest => 5 | DResponse => 6 end.

Lemma data_code_inj d d' : data_code d = data_code d' -> d = d'.
Proof. by destruct d, d'. Qed.

(** A node with one module of each kind, all loaded, where loading is announced as
    finished. *)
Definition sample_ops : list LoadersSpec.Op :=
  [LoadersSpec.OStart Networking true 4096; LoadersSpec.OStart Synchronizer true 8192; LoadersSpec.OStart Example true 12288;
   LoadersSpec.OLoadingIsFinished] ++ replicate 8 LoadersSpec.OExecute.

Abbreviation sample_run := (foldM (LoadersSpec.step (B := engine_bus data_code)) empty_node sample_ops).

Definition sample_rid : Utils.RequestId := Utils.new_request_id 8192 1.

Example sample_journal :
  match sample_run with
  | Done st => journal st = [LoadedSuccess Networking; LoadedSuccess Synchronizer; LoadedSuccess Example;
                             LoadingFinished Networking; LoadingFinished Example; BlockAnnounced;
                             DispatchBlockRequest sample_rid; BlockRequested; DispatchBlockResponse sample_rid; SomeoneElses sample_rid]
               /\ tasks st = []
  | _ => False
  end.
Proof. vm_compute. done. Qed.

Definition sample_node : @Node (engine_bus data_code) := match sample_run with Done st => st | _ => empty_node end.

Lemma sample_done : sample_run = Done sample_node.
Proof. unfold sample_node. pose proof sample_journal as H. destruct sample_run; [done|destruct H..]. Qed.

Lemma responses_answer_requests_witness :
  (forall rid, DispatchBlockResponse rid ∈ journal sample_node -> DispatchBlockRequest rid ∈ journal sample_node)
  /\ (forall rid, ResponseReceived rid ∉ journal sample_node).
Proof.
  exact (@LoadersSpec.responses_answer_requests _ (engine_bus_ok data_code data_code_inj) sample_ops sample_node sample_done).
Defined.

Lemma example_messages_lost_witness : tasks (dispatch_request sample_node "hello") = [].
Proof.
  destruct (@LoadersSpec.example_messages_lost _ (engine_bus_ok data_code data_code_inj) sample_ops sample_node "hello" sample_done) as [H _].
  rewrite H. unfold sample_node. pose proof sample_journal as Hj. destruct sample_run; [apply Hj|destruct Hj..].
Defined.

Lemma module_traffic_ends_witness :
  exists st, foldM (LoadersSpec.step (B := engine_bus data_code)) empty_node sample_ops = Done st
  /\ exists st', drain (LoadersSpec.total st) st = Done st' /\ tasks st' = [].
Proof. exact (@LoadersSpec.module_traffic_ends _ (engine_bus_ok data_code data_code_inj) sample_ops). Defined.

End EngineBus.
