(* ===== verification/RequestsSpec.v ===== *)
(** * RequestsSpec: the identifiers of block requests

    [SynchronizerImpl::on_block_announce] ([src/src/modules/synchronizer/synchronizer.cpp])
    numbers its requests with two function-local statics.  Over a whole run of a node
    with one synchronizer the identifiers it makes are all different. *)

From S2P Require Import Prelude Utils Modules Loaders LoadersSpec EngineBus.

Module RequestsSpec.
Import Loaders LoadersSpec.

(** The requests in a journal, in order. *)
Definition request_of (l : Log) : option Utils.RequestId := match l with DispatchBlockRequest rid => Some rid | _ => None end.
Definition requests (j : list Log) : list Utils.RequestId := omap request_of j.

Section spec.
Context `{B : EventBus chan handler} {BO : EventBusOk B}.
Implicit Types (st : Node).

Definition synchronizers st : list Instance_ := filter (fun x => kind_ x = Synchronizer) (instances st).

(** The identifiers a synchronizer at an address makes one after the other. *)
Definition identifiers (addr : Z) (k : nat) : list Utils.RequestId :=
  (fun i => Utils.new_request_id addr (u64 (Z.of_nat i))) <$> seq 1 k.

Definition numbered st : Prop :=
  match synchronizers st with
  | [] => requests (journal st) = []
  | [x] => default (this x) (s x) = this x /\ exists k, n x = u64 (Z.of_nat k) /\ requests (journal st) = identifiers (this x) k
  | _ => True
  end.

Lemma numbered_same st st' :
  synchronizers st' = synchronizers st -> requests (journal st') = requests (journal st) -> numbered st -> numbered st'.
Proof. unfold numbered. by intros -> ->. Qed.

Lemma notify_same st e m : instances (notify st e m) = instances st /\ journal (notify st e m) = journal st.
Proof. unfold notify. by destruct (emit _ _). Qed.

Lemma numbered_notify st e m : numbered st -> numbered (notify st e m).
Proof. destruct (notify_same st e m) as [Hi Hj]. apply numbered_same; unfold synchronizers; by rewrite ?Hi, ?Hj. Qed.

Lemma numbered_log st l : request_of l = None -> numbered st -> numbered (log st l).
Proof. intros Hl. apply numbered_same; [done|]. cbn. unfold requests. rewrite omap_app. cbn. by rewrite Hl, app_nil_r. Qed.

Lemma numbered_start k acc addr st : numbered st -> numbered (start k acc addr st).
Proof.
  intros Hn. unfold start. destruct acc; cbn [negb]; [|done]. apply numbered_notify. unfold numbered, synchronizers in *. cbn [instances journal].
  rewrite filter_app. destruct (decide (k = Synchronizer)) as [->|Hk].
  - rewrite (filter_cons_True _ (MkInstance _ _ _ _ _ _)), filter_nil by done.
    destruct (filter _ (instances st)) as [|x [|y l]]; cbn; [|done..]. split; [done|]. by exists 0%nat.
  - rewrite (filter_cons_False _ (MkInstance _ _ _ _ _ _)), filter_nil, app_nil_r by done. done.
Qed.

(** An instance replaced by one of its kind, among the synchronizers. *)
Lemma replaced_among (l : list Instance_) i x y :
  let syncs := filter (fun x => kind_ x = Synchronizer) in
  l !! i = Some x -> kind_ y = kind_ x ->
  if decide (kind_ x = Synchronizer) then exists j, syncs l !! j = Some x /\ syncs (<[i := y]> l) = <[j := y]> (syncs l)
  else syncs (<[i := y]> l) = syncs l.
Proof.
  intros syncs (l1 & l2 & -> & ->)%list_elem_of_split_length Hk. rewrite insert_app_r_alt, Nat.sub_diag by lia. cbn [insert list_insert].
  unfold syncs. rewrite !filter_app, !filter_cons, Hk. case_decide; [|done].
  exists (length (filter (fun x => kind_ x = Synchronizer) l1)). split; [by apply list_lookup_middle|].
  by rewrite insert_app_r_alt, Nat.sub_diag by lia.
Qed.

(** The only synchronizer is the one replaced. *)
Lemma only_one (l : list Instance_) j x : l !! j = Some x -> forall y, l = [y] -> j = 0%nat /\ x = y.
Proof. intros Hj y ->. destruct j; [by injection Hj as ->|done]. Qed.

Lemma numbered_release st i : numbered st -> numbered (release_module_instance i st).
Proof.
  unfold release_module_instance. destruct (instances st !! i) as [x|] eqn:Hx; [|done].
  set (y := MkInstance _ _ _ _ _ _). pose proof (replaced_among (instances st) i x y Hx eq_refl) as Hf. cbn zeta in Hf.
  unfold numbered, synchronizers. cbn [instances journal set_instance]. case_decide as Hk; [|by rewrite Hf].
  destruct Hf as (j & Hj & ->). destruct (filter _ (instances st)) as [|z [|z' l]] eqn:Hs; [done| |by destruct j as [|[]]].
  destruct (only_one _ _ _ Hj z eq_refl) as [-> ->]. done.
Qed.

Lemma numbered_announce st i x :
  instances st !! i = Some x -> kind_ x = Synchronizer -> numbered st -> numbered (on_block_announce i x st).
Proof.
  intros Hx Hk Hn. unfold on_block_announce, dispatch_block_request. apply numbered_notify.
  unfold numbered, synchronizers, requests in *. cbn [instances journal set_instance log].
  set (y := MkInstance _ _ _ _ _ _). pose proof (replaced_among (instances st) i x y Hx eq_refl) as Hf. cbn zeta in Hf.
  rewrite decide_True in Hf by done. destruct Hf as (j & Hj & ->). rewrite !omap_app. cbn [omap list_omap request_of app]. rewrite app_nil_r.
  destruct (filter _ (instances st)) as [|z [|z' l]] eqn:Hs; [done| |by destruct j as [|[]]].
  destruct (only_one _ _ _ Hj z eq_refl) as [-> ->]. destruct Hn as (Hd & k & Hc & Hr). subst y. cbn. rewrite Hd.
  split; [done|]. exists (S k). rewrite Hc.
  assert (u64 (u64 (Z.of_nat k) + 1) = u64 (Z.of_nat (S k))) as -> by (unfold wrap; rewrite Zplus_mod_idemp_l; f_equal; lia).
  split; [done|]. rewrite Hr. unfold identifiers. rewrite seq_S, fmap_app. done.
Qed.

Lemma numbered_call st h m st' :
  task_ok (instances st) (h, m) -> call h m st = Done st' -> numbered st -> numbered st'.
Proof.
  intros (x & e & Hx & Hs & He) Hc Hn. unfold call in Hc. cbn in Hx. rewrite Hx in Hc. destruct (alive x); [|by injection Hc as <-].
  cbn in Hs. destruct (h.2) eqn:Hh.
  - injection Hc as <-. by apply numbered_log.
  - injection Hc as <-. unfold on_loading_is_finished. destruct (kind_ x); [by apply numbered_log|apply numbered_notify; by apply numbered_log|by apply numbered_log].
  - done.
  - done.
  - done.
  - destruct m; try done. injection Hc as <-. unfold on_block_request, dispatch_block_response. apply numbered_notify, numbered_log; [done|]. by apply numbered_log.
  - destruct m; try done. injection Hc as <-. apply numbered_announce; [done| |done].
    destruct (kind_ x); cbn in Hs; set_unfold in Hs; destruct_or! Hs; congruence.
  - destruct m; try done. injection Hc as <-. unfold on_block_response. case_bool_decide; by apply numbered_log.
Qed.

Lemma numbered_step st o st' : inv st -> step st o = Done st' -> numbered st -> numbered st'.
Proof.
  intros Hi Hs Hn. destruct o as [k acc addr| | |i|e t]; cbn in Hs; try injection Hs as <-.
  - by apply numbered_start.
  - by apply numbered_notify.
  - unfold execute in Hs. destruct (tasks st) as [|[h m] rest] eqn:Ht; [by injection Hs as <-|].
    eapply numbered_call; [|exact Hs|by eapply numbered_same; [| |exact Hn]].
    pose proof (inv_tasks _ Hi) as H3. rewrite Ht in H3. by apply Forall_cons in H3 as [H3 _].
  - by apply numbered_release.
  - by apply numbered_notify.
Qed.

Lemma numbered_steps st ops st' : inv st -> foldM step st ops = Done st' -> numbered st -> numbered st'.
Proof.
  revert st. induction ops as [|o ops IH]; intros st Hi Hf Hn; cbn in Hf; [by injection Hf as <-|].
  apply bind_Done in Hf as (st1 & H1 & H2). destruct (node_inv_step st o Hi) as (st1' & H1' & Hi1). rewrite H1 in H1'. injection H1' as <-.
  apply (IH st1 Hi1 H2). exact (numbered_step st o st1 Hi H1 Hn).
Qed.

(** The requests of a synchronizer can be told apart: in every run of a node with at most
    one synchronizer that makes fewer than 2^64 requests, all identifiers of the block
    requests dispatched are different. *)
Theorem requests_distinct ops st :
  foldM step empty_node ops = Done st -> (length (synchronizers st) <= 1)%nat ->
  Z.of_nat (length (requests (journal st))) < 2 ^ 64 -> NoDup (requests (journal st)).
Proof.
  intros Hf Hl Hlen. assert (numbered st) as Hn by (eapply numbered_steps; [apply inv_empty|exact Hf|done]).
  unfold numbered in Hn. destruct (synchronizers st) as [|x [|y l]]; [rewrite Hn; constructor| |cbn in Hl; lia].
  destruct Hn as (_ & k & _ & Hr). rewrite Hr in *. unfold identifiers in *. rewrite length_fmap, length_seq in Hlen.
  apply NoDup_fmap_2_strong; [|apply NoDup_seq]. intros i j [Hi1 Hi2]%elem_of_seq [Hj1 Hj2]%elem_of_seq Heq.
  assert (u64 (Z.of_nat i) = u64 (Z.of_nat j)) as H2; [|rewrite !(wrap_id 64) in H2 by lia; lia].
  apply (Utils.request_ids_distinct (this x)) in Heq; [done|apply (wrap_range 64); lia|apply (wrap_range 64); lia].
Qed.

End spec.

(** ** A node in which loading is announced twice *)

Import EngineBus.

Definition announced_twice : list Op :=
  [OStart Networking true 4096; OStart Synchronizer true 8192; OLoadingIsFinished; OLoadingIsFinished] ++ replicate 12 OExecute.

Abbreviation twice_run := (foldM (step (B := engine_bus data_code)) empty_node announced_twice).

Definition twice_node : @Node (engine_bus data_code) := match twice_run with Done st => st | _ => empty_node end.

Example twice_counts :
  match twice_run with
  | Done st => length (requests (journal st)) = 2%nat /\ length (synchronizers st) = 1%nat
  | _ => False
  end.
Proof. vm_compute. done. Qed.

Lemma twice_ends : twice_run = Done twice_node.
Proof. unfold twice_node. pose proof twice_counts as H. destruct twice_run; [done|destruct H..]. Qed.

Lemma twice_few : (length (synchronizers twice_node) <= 1)%nat /\ Z.of_nat (length (requests (journal twice_node))) < 2 ^ 64.
Proof. unfold twice_node. pose proof twice_counts as H. destruct twice_run; [|destruct H..]. destruct H as [-> ->]. lia. Qed.

Lemma requests_distinct_witness : NoDup (requests (journal twice_node)).
Proof. apply (@requests_distinct _ (engine_bus_ok data_code data_code_inj) announced_twice twice_node twice_ends); apply twice_few. Defined.

End RequestsSpec.
