(* ===== verification/Delivery.v ===== *)
(** * Delivery: events on the handler thread

    How the events of the modules travel through the dispatcher.  A notification hands
    one closure per subscriber to [AsyncDispatcher::addDelayed] for the thread
    [kTest] ([src/src/se/impl/subscription_engine.hpp]); the dispatcher puts it into the
    queue of that handler's scheduler ([async_dispatcher_impl.hpp]) with the time read
    from the clock; the worker takes the tasks that are due and runs the closures
    ([scheduler_impl.hpp], [process]), which notify again.  [Loaders] has one list of
    pending callbacks instead; here the list is replaced by the real queue and the two
    are shown to agree as long as the clock is not set back.  A closure is the number of
    the callback and message it was made of; every callback runs to its end before the
    next operation. *)

From S2P Require Import Prelude Scheduler Dispatcher Utils Subscription Modules Loaders LoadersSpec EngineBus.

Module Delivery.
Import Loaders LoadersSpec.

(** [SubscriptionEngineHandlers] and the size of the pool. *)
Definition kTest : Z := 0.
Definition kHandlersCount : nat := 1.
Definition kThreadPoolSize : nat := 3.

Section delivery.
Context `{B : EventBus chan handler} {BO : EventBusOk B}.

(** The readings of [high_resolution_clock], one after the other. *)
Context (now : nat -> Z).

Record System : Type := MkSystem {
  sys_bus : bus;
  sys_instances : list Instance_;
  sys_dispatcher : Dispatcher.AsyncDispatcher;
  closures : list (handler * Message);   (** made so far *)
  reads : nat;                           (** readings of the clock so far *)
  executed : list nat;                   (** the closures run by the worker, in order *)
  sys_journal : list Log
}.

Definition initial : System :=
  MkSystem new_bus [] (Dispatcher.construct kHandlersCount kThreadPoolSize) [] 0 [] [].

(** One turn of the loop in [notifyDelayed]: a closure is made and dispatched. *)
Definition upload (c : System) (t : handler * Message) : run unit System :=
  d ← Dispatcher.addDelayed (sys_dispatcher c) (now (reads c)) kTest 0 (Some (length (closures c)));
  mret (MkSystem (sys_bus c) (sys_instances c) d (closures c ++ [t]) (reads c + 1) (executed c) (sys_journal c)).

(** What a thread sees of the node, and the state after it has run: what it dispatched
    is uploaded in order. *)
Definition view (c : System) : Node := MkNode (sys_bus c) (sys_instances c) [] (sys_journal c).

Definition publish (c : System) (st : Node) : run unit System :=
  foldM upload
    (MkSystem (se_manager_ st) (instances st) (sys_dispatcher c) (closures c) (reads c) (executed c) (journal st)) (tasks st).

(** The state after the worker has looked at its queue: the scheduler [s] in the place of
    the handler's, the closures run. *)
Definition taken_from (c : System) (p : nat) (s : Scheduler.Scheduler) (run : list nat) : System :=
  MkSystem (sys_bus c) (sys_instances c) (Dispatcher.on_scheduler (sys_dispatcher c) p (fun _ => s)) (closures c) (reads c + 1)
    (executed c ++ run) (sys_journal c).

(** The beginning of a round of [process] on the handler thread: the next closure, if one
    is due.  A thread that was told to stop has left the loop. *)
Definition take_task (c : System) : run unit (System * option (handler * Message)) :=
  p ← at_idx (Dispatcher.handlers_ (sys_dispatcher c)) kTest;
  s ← value (Dispatcher.schedulers (sys_dispatcher c) !! p) "no scheduler";
  if negb (Scheduler.proceed_ s) then mret (c, None)
  else
    let '(s, taken) := Scheduler.extractExpired s (now (reads c)) in
    match t ← taken; (Scheduler.execute t (Scheduler.MkBehaviour None false)).1 with
    | None => mret (taken_from c p s [], None)
    | Some id =>
        match closures c !! id with
        | None => Undef
        | Some closure => mret (taken_from c p s [id], Some closure)
        end
    end.

(** A round of the worker: what the callback dispatches is uploaded. *)
Definition worker (c : System) : run unit System :=
  '(c, taken) ← take_task c;
  match taken with
  | None => mret c
  | Some (h, m) => st ← call h m (view c); publish c st
  end.

Definition sys_step (c : System) (o : Op) : run unit System :=
  match o with
  | OExecute => worker c
  | _ => st ← LoadersSpec.step (view c) o; publish c st
  end.

(** The end of [SubscriptionManager::dispose], which [~SeHolder] calls: the dispatcher is
    disposed of. *)
Definition shutdown (c : System) : System :=
  MkSystem (sys_bus c) (sys_instances c) (Dispatcher.dispose (sys_dispatcher c)) (closures c) (reads c) (executed c) (sys_journal c).

(** The queue of the handler thread, and the callbacks in it. *)
Definition queue (c : System) : list Scheduler.TimedTask :=
  match Dispatcher.handlers_ (sys_dispatcher c) !! 0%nat with
  | Some p => match Dispatcher.schedulers (sys_dispatcher c) !! p with Some s => Scheduler.tasks_ s | None => [] end
  | None => []
  end.

Definition queued (c : System) : list nat := omap Scheduler.task (queue c).
Definition pending (c : System) : list (handler * Message) := omap (fun id => closures c !! id) (queued c).

(** ** What a callback does does not depend on what is pending *)

Definition framed (ts : list (handler * Message)) (st : Node) : Node :=
  MkNode (se_manager_ st) (instances st) (ts ++ tasks st) (journal st).

Definition framed_run (ts : list (handler * Message)) (r : run unit Node) : run unit Node :=
  st ← r; mret (framed ts st).

Lemma notify_framed ts st e m : notify (framed ts st) e m = framed ts (notify st e m).
Proof. unfold notify, framed. cbn. destruct (emit _ _). cbn. by rewrite app_assoc. Qed.

Lemma start_framed ts k acc addr st : start k acc addr (framed ts st) = framed ts (start k acc addr st).
Proof.
  unfold start. destruct acc; cbn [negb]; [|done].
  by rewrite <-(notify_framed ts (MkNode _ _ (tasks st) _)).
Qed.

Lemma release_framed ts i st : release_module_instance i (framed ts st) = framed ts (release_module_instance i st).
Proof. unfold release_module_instance. cbn. by destruct (instances st !! i). Qed.

Lemma call_framed ts h m st : call h m (framed ts st) = framed_run ts (call h m st).
Proof.
  unfold call, framed_run. cbn [instances framed]. destruct (instances st !! h.1) as [x|]; [|done].
  destruct (alive x); [|done].
  destruct h.2, m; try done; cbn [mbind run_bind mret run_ret]; f_equal;
    unfold on_loading_is_finished, dispatch_block_announce, on_block_request, dispatch_block_response, on_block_announce,
      dispatch_block_request, on_block_response; rewrite <-?notify_framed; try done.
  all: try (destruct (kind_ x); rewrite <-?notify_framed; done).
  by case_bool_decide.
Qed.

Lemma step_framed ts st o : o <> OExecute -> LoadersSpec.step (framed ts st) o = framed_run ts (LoadersSpec.step st o).
Proof.
  intros Ho. destruct o; try done; cbn [LoadersSpec.step]; by rewrite ?start_framed, ?release_framed, ?notify_framed.
Qed.

(** ** The invariant of the handler's queue *)

(** The tasks in the queue are the closures not run yet, in the order in which they were
    made, and were made at the latest reading of the clock or before. *)
Record ready (c : System) : Prop := MkReady {
  r_disposed : Dispatcher.is_disposed_ (sys_dispatcher c) = false;
  r_handlers : Dispatcher.handlers_ (sys_dispatcher c) = [0%nat];
  r_scheduler : exists s, Dispatcher.schedulers (sys_dispatcher c) !! 0%nat = Some s /\ Scheduler.proceed_ s = true
    /\ Forall (fun t => Scheduler.timeout t = 0 /\ Scheduler.predic t = None /\ Scheduler.created t <= now (reads c)) (Scheduler.tasks_ s)
    /\ Scheduler.task <$> Scheduler.tasks_ s
       = Some <$> seq (length (executed c)) (length (closures c) - length (executed c));
  r_executed : executed c = seq 0 (length (executed c));
  r_bound : (length (executed c) <= length (closures c))%nat
}.

Lemma queue_scheduler c s :
  Dispatcher.handlers_ (sys_dispatcher c) = [0%nat] -> Dispatcher.schedulers (sys_dispatcher c) !! 0%nat = Some s ->
  queue c = Scheduler.tasks_ s.
Proof. intros Hh Hs. unfold queue. rewrite Hh. cbn. by rewrite Hs. Qed.

Lemma omap_fmap_Some {A X} (f : A -> option X) (l : list A) xs : f <$> l = Some <$> xs -> omap f l = xs.
Proof.
  revert xs. induction l as [|a l IH]; intros [|x xs]; cbn; try done. intros [= Ha Hl]. rewrite Ha. f_equal. by apply IH.
Qed.

Lemma queued_ready c : ready c -> queued c = seq (length (executed c)) (length (closures c) - length (executed c)).
Proof.
  intros [_ Hh (s & Hs & _ & _ & Ht) _ _]. unfold queued. rewrite (queue_scheduler c s Hh Hs). by apply omap_fmap_Some.
Qed.

Lemma omap_lookup_seq {A} (l1 l2 : list A) : omap (fun i => (l1 ++ l2) !! i) (seq (length l1) (length l2)) = l2.
Proof.
  revert l1. induction l2 as [|a l2 IH]; intros l1; cbn; [done|]. rewrite list_lookup_middle by done. f_equal.
  replace (l1 ++ a :: l2) with ((l1 ++ [a]) ++ l2) by by rewrite <-app_assoc.
  replace (S (length l1)) with (length (l1 ++ [a])) by (rewrite length_app; cbn; lia). apply IH.
Qed.

Lemma pending_ready c : ready c -> pending c = drop (length (executed c)) (closures c).
Proof.
  intros Hr. unfold pending. rewrite (queued_ready c Hr). pose proof (r_bound c Hr) as Hb.
  pose proof (omap_lookup_seq (take (length (executed c)) (closures c)) (drop (length (executed c)) (closures c))) as Ho.
  rewrite take_drop, length_take, length_drop in Ho. by rewrite Nat.min_l in Ho by done.
Qed.

Section steady.
Context (steady : forall i j, (i <= j)%nat -> now i <= now j).

(** An upload puts the closure behind the others. *)
Lemma upload_ready c t :
  ready c -> exists c', upload c t = Done c' /\ ready c' /\ closures c' = closures c ++ [t] /\ executed c' = executed c
    /\ view c' = view c.
Proof.
  intros [Hd Hh (s & Hs & Hp & Hall & Ht) He Hb].
  set (nt := Scheduler.MkTask (now (reads c)) 0 None (Some (length (closures c)))).
  assert (Scheduler.tasks_ (Scheduler.add s nt) = Scheduler.tasks_ s ++ [nt] /\ Scheduler.proceed_ (Scheduler.add s nt) = true) as [Hq Hpr].
  { unfold Scheduler.add, Scheduler.set_event, Scheduler.insert. cbn [Scheduler.timeout nt Z.eqb Scheduler.tasks_ Scheduler.proceed_].
    split; [|done].
    rewrite (Scheduler.after_split _ _ (Scheduler.tasks_ s) []); cbn [Scheduler.tasks_]; [|by rewrite app_nil_r| |constructor].
    - by rewrite take_ge, drop_ge by lia.
    - eapply Forall_impl; [exact Hall|]. intros x (Htm & _ & Hc). unfold Scheduler.due. rewrite Htm. cbn. lia. }
  unfold upload, Dispatcher.addDelayed, Dispatcher.uploadToHandler, Dispatcher.kHandlersCount. rewrite Hd, Hh. cbn.
  eexists. split; [reflexivity|]. split; [|done]. split; cbn; [done|done| |done|rewrite length_app; cbn; lia].
  exists (Scheduler.add s nt). rewrite list_lookup_alter_eq, Hs. split; [done|]. split; [done|]. rewrite Hq, fmap_app, Ht. split.
  - apply Forall_app. split; [|by apply Forall_singleton; cbn; split_and!; [done..|apply steady; lia]].
    eapply Forall_impl; [exact Hall|]. cbn. intros x (? & ? & ?). split_and!; [done..|]. etrans; [done|apply steady; lia].
  - rewrite length_app. cbn [length]. rewrite Nat.add_sub_swap, seq_app by done. rewrite fmap_app. cbn. do 3 f_equal. lia.
Qed.

Lemma publish_ready c st :
  ready c -> exists c', publish c st = Done c' /\ ready c' /\ closures c' = closures c ++ tasks st /\ executed c' = executed c
    /\ view c' = MkNode (se_manager_ st) (instances st) [] (journal st).
Proof.
  intros Hr. unfold publish.
  set (c0 := MkSystem (se_manager_ st) (instances st) (sys_dispatcher c) (closures c) (reads c) (executed c) (journal st)).
  assert (ready c0) as H0 by (destruct Hr; by split).
  change (closures c) with (closures c0). change (executed c) with (executed c0).
  change (MkNode (se_manager_ st) (instances st) [] (journal st)) with (view c0). clearbody c0. clear Hr c.
  generalize (tasks st) as ts. clear st. intros ts. revert c0 H0. induction ts as [|t ts IH]; intros c Hr; cbn.
  - exists c. by rewrite app_nil_r.
  - destruct (upload_ready c t Hr) as (c1 & -> & H1 & Hc1 & He1 & Hv1). cbn.
    destruct (IH c1 H1) as (c2 & -> & H2 & Hc2 & He2 & Hv2). exists c2. split; [done|]. split; [done|].
    rewrite Hc2, Hc1, <-app_assoc, Hv2, Hv1, He2. done.
Qed.

(** ** Simulation *)

(** The node a system stands for: what is pending is what is in the queue. *)
Definition abstract (c : System) : Node := MkNode (sys_bus c) (sys_instances c) (pending c) (sys_journal c).

Lemma abstract_framed c : abstract c = framed (pending c) (view c).
Proof. unfold framed. cbn. by rewrite app_nil_r. Qed.

(** Running something on the view and publishing what it dispatched is running it on
    the node. *)
Lemma publish_abstract c st :
  ready c -> exists c', publish c st = Done c' /\ ready c' /\ abstract c' = framed (pending c) st.
Proof.
  intros Hr. destruct (publish_ready c st Hr) as (c' & Hp & Hr' & Hc & He & Hv). exists c'. split; [done|]. split; [done|].
  rewrite abstract_framed, Hv. unfold framed. cbn. rewrite app_nil_r. f_equal.
  rewrite (pending_ready c), (pending_ready c'), Hc, He by done. rewrite drop_app_le; [done|apply Hr].
Qed.

Lemma simulates_direct c o a :
  ready c -> o <> OExecute -> LoadersSpec.step (abstract c) o = Done a ->
  exists c', (st ← LoadersSpec.step (view c) o; publish c st) = Done c' /\ ready c' /\ abstract c' = a.
Proof.
  intros Hr Ho. rewrite abstract_framed, step_framed by done. unfold framed_run.
  destruct (LoadersSpec.step (view c) o) as [st| | |]; cbn; try done. intros [= <-]. by apply publish_abstract.
Qed.

Lemma ready_taken c s run :
  ready c -> Scheduler.proceed_ s = true ->
  Forall (fun t => Scheduler.timeout t = 0 /\ Scheduler.predic t = None /\ Scheduler.created t <= now (reads c)) (Scheduler.tasks_ s) ->
  let n := (length (executed c) + length run)%nat in
  Scheduler.task <$> Scheduler.tasks_ s = Some <$> seq n (length (closures c) - n) ->
  run = seq (length (executed c)) (length run) -> (n <= length (closures c))%nat ->
  ready (taken_from c 0 s run).
Proof.
  intros [Hd Hh (s0 & Hs & _) He Hb] Hp Hall n Ht Hrun Hn. split; cbn; [done|done| | |by rewrite length_app].
  - exists s. rewrite list_lookup_alter_eq, Hs, length_app. split; [done|]. split; [done|]. split; [|done].
    eapply Forall_impl; [exact Hall|]. intros x (? & ? & ?). split_and!; [done..|]. etrans; [done|apply steady; lia].
  - rewrite length_app, seq_app. by rewrite <-He, Nat.add_0_l, <-Hrun.
Qed.

(** The worker takes the first pending callback. *)
Lemma take_ready c :
  ready c -> exists c', ready c' /\ view c' = view c /\ closures c' = closures c
    /\ take_task c = Done (c', head (pending c)) /\ pending c' = tail (pending c).
Proof.
  intros Hr. pose proof Hr as [Hd Hh (s & Hs & Hp & Hall & Ht) He Hb]. unfold take_task. rewrite Hh.
  assert (at_idx (E := unit) [0%nat] kTest = Done 0%nat) as -> by done. cbn [mbind run_bind]. rewrite Hs. cbn [value mbind run_bind].
  rewrite Hp. cbn [negb]. rewrite (pending_ready c Hr). unfold Scheduler.extractExpired. destruct (Scheduler.tasks_ s) as [|t l] eqn:Hl.
  - assert (length (closures c) - length (executed c) = 0)%nat as Hz by (by destruct (_ - _)%nat).
    assert (ready (taken_from c 0 (Scheduler.MkScheduler (Scheduler.proceed_ s) [] (Scheduler.signaled s) false) [])) as Hrt.
    { apply ready_taken; [done..|constructor| |done|cbn; lia]. cbn. by rewrite Nat.add_0_r, Hz. }
    eexists. split; [exact Hrt|]. split_and!; [done..|by rewrite drop_ge by lia|]. rewrite (pending_ready _ Hrt). cbn.
    by rewrite app_nil_r, drop_ge by lia.
  - destruct (length (closures c) - length (executed c))%nat as [|k] eqn:Hk; [done|]. cbn in Ht. injection Ht as Ht Hrest.
    apply Forall_cons in Hall as [(Htm & Hpr & Hcr) Hall].
    destruct (lookup_lt_is_Some_2 (closures c) (length (executed c))) as [hm Hcl]; [lia|].
    rewrite (drop_S _ _ _ Hcl). unfold Scheduler.due. rewrite Htm, (proj2 (Z.leb_le _ _)) by lia.
    cbn [mbind option_bind]. unfold Scheduler.execute. rewrite Ht, Hpr. cbn [fst]. rewrite Hcl.
    assert (ready (taken_from c 0 (Scheduler.MkScheduler (Scheduler.proceed_ s) l (Scheduler.signaled s) true) [length (executed c)])) as Hrt.
    { apply ready_taken; cbn [Scheduler.tasks_ length]; [done..| |done|lia]. rewrite Hrest. f_equal. f_equal; lia. }
    eexists. split; [exact Hrt|]. split_and!; [done..|]. rewrite (pending_ready _ Hrt). cbn. rewrite length_app. cbn. by rewrite Nat.add_1_r.
Qed.

Lemma simulates_worker c a :
  ready c -> execute (abstract c) = Done a -> exists c', worker c = Done c' /\ ready c' /\ abstract c' = a.
Proof.
  intros Hr. destruct (take_ready c Hr) as (c1 & Hr1 & Hv & _ & Ht & Hp). injection Hv as Hb Hi Hj.
  unfold execute, worker. rewrite Ht. cbn [mbind run_bind]. unfold abstract at 1. cbn [tasks].
  destruct (pending c) as [|[h m] rest] eqn:Hpc; cbn [head tail] in *.
  - intros [= <-]. exists c1. split_and!; [done..|]. unfold abstract. by rewrite Hb, Hi, Hj, Hp, Hpc.
  - assert (MkNode (sys_bus c) (sys_instances c) rest (sys_journal c) = abstract c1) as Heq by (unfold abstract; by rewrite Hb, Hi, Hj, Hp).
    cbn [abstract se_manager_ instances journal]. rewrite Heq, abstract_framed, call_framed. unfold framed_run.
    destruct (call h m (view c1)) as [st| | |]; cbn [mbind run_bind]; try done. intros [= <-]. by apply publish_abstract.
Qed.

Lemma simulates c o a :
  ready c -> LoadersSpec.step (abstract c) o = Done a -> exists c', sys_step c o = Done c' /\ ready c' /\ abstract c' = a.
Proof.
  intros Hr Ha. assert (o = OExecute \/ o <> OExecute) as [->|Ho] by (destruct o; auto); [by apply simulates_worker|].
  destruct (simulates_direct c o a Hr Ho Ha) as (c' & H). exists c'. by destruct o.
Qed.

Lemma simulates_all c ops a :
  ready c -> foldM LoadersSpec.step (abstract c) ops = Done a ->
  exists c', foldM sys_step c ops = Done c' /\ ready c' /\ abstract c' = a.
Proof.
  revert c. induction ops as [|o ops IH]; intros c Hr; cbn; [intros [= <-]; by exists c|].
  intros (a1 & H1 & H2)%bind_Done. destruct (simulates c o a1 Hr H1) as (c1 & -> & Hr1 & <-). cbn. by apply IH.
Qed.

Lemma initial_ready : ready initial.
Proof. split; cbn; try done. exists Scheduler.construct. by repeat split. Qed.

Lemma abstract_initial : abstract initial = empty_node.
Proof. unfold abstract. by rewrite (pending_ready _ initial_ready). Qed.

Lemma run_ready ops : exists c, foldM sys_step initial ops = Done c /\ ready c /\ LoadersSpec.inv (abstract c)
  /\ foldM LoadersSpec.step empty_node ops = Done (abstract c).
Proof.
  destruct (inv_steps empty_node ops inv_empty) as (a & Ha & Hi).
  destruct (simulates_all initial ops a initial_ready) as (c & Hc & Hr & <-); [by rewrite abstract_initial|]. eauto.
Qed.

Lemma ready_once c : ready c -> executed c ++ queued c = seq 0 (length (closures c)).
Proof.
  intros Hr. rewrite (queued_ready c Hr). destruct Hr as [_ _ _ He Hb]. rewrite He at 1. rewrite <-seq_app. f_equal. lia.
Qed.

Lemma drain_rounds fuel st st' :
  drain fuel st = Done st' -> exists n, (n <= fuel)%nat /\ foldM LoadersSpec.step st (replicate n OExecute) = Done st'.
Proof.
  revert st. induction fuel as [|fuel IH]; intros st; cbn [drain]; destruct (tasks st) as [|t ts] eqn:Ht; try done.
  - intros [= <-]. exists 0%nat. split; [lia|done].
  - intros [= <-]. exists 0%nat. split; [lia|done].
  - intros (st1 & H1 & H2)%bind_Done. destruct (IH _ H2) as (n & Hn & Hf). exists (S n). split; [lia|]. cbn. by rewrite H1.
Qed.

(** ** Theorems *)

(** C9: the dispatcher delivers what the modules dispatch. As long as the clock is not set
    back, whatever modules are started, events announced and rounds made by the handler
    thread, the system with the real dispatcher and scheduler runs without undefined
    behaviour and is, at every point, in the state of the node with a plain list of
    pending callbacks: same subscriptions, module instances and journal, and the queue of
    the handler thread holds the pending callbacks in order. The closures run so far
    followed by those in the queue are all closures ever made, in order: each is
    delivered once and in order. *)
Theorem delivery_refines ops :
  exists c a, foldM sys_step initial ops = Done c /\ foldM LoadersSpec.step empty_node ops = Done a
    /\ sys_bus c = se_manager_ a /\ sys_instances c = instances a /\ sys_journal c = journal a /\ pending c = tasks a
    /\ executed c ++ queued c = seq 0 (length (closures c)).
Proof.
  destruct (run_ready ops) as (c & Hc & Hr & _ & Ha). exists c, (abstract c). split_and!; try done. by apply ready_once.
Qed.

(** Everything dispatched is executed in the end. From every state the system can reach
    while the clock is not set back, the handler thread alone reaches, after a bounded
    number of rounds, an empty queue, and then every closure ever made has been run
    exactly once, in the order in which they were made. *)
Theorem delivery_completes ops :
  exists c, foldM sys_step initial ops = Done c /\ exists n c', (n <= total (abstract c))%nat
    /\ foldM sys_step c (replicate n OExecute) = Done c' /\ queue c' = [] /\ executed c' = seq 0 (length (closures c')).
Proof.
  destruct (run_ready ops) as (c & Hc & Hr & Hi & _). exists c. split; [done|].
  destruct (drains (abstract c) (total (abstract c)) Hi) as (st & Hd & Hempty & _); [done|].
  apply drain_rounds in Hd as (n & Hn & Hf). destruct (simulates_all c _ _ Hr Hf) as (c' & Hc' & Hr' & Ha).
  exists n, c'. split; [done|]. split; [done|]. rewrite <-Ha in Hempty. cbn in Hempty. rewrite (pending_ready c' Hr') in Hempty.
  pose proof (f_equal length Hempty) as Hlen. rewrite length_drop in Hlen. cbn in Hlen.
  destruct Hr' as [_ Hh (s & Hs & _ & _ & Ht) He Hb]. rewrite Hlen in Ht. split.
  - rewrite (queue_scheduler c' s Hh Hs). by destruct (Scheduler.tasks_ s).
  - rewrite He at 1. f_equal. lia.
Qed.

End steady.

(** *** After the shutdown *)

Record halted (c : System) : Prop := MkHalted {
  h_disposed : Dispatcher.is_disposed_ (sys_dispatcher c) = true;
  h_handlers : Dispatcher.handlers_ (sys_dispatcher c) = [0%nat];
  h_stopped : exists s, Dispatcher.schedulers (sys_dispatcher c) !! 0%nat = Some s /\ Scheduler.proceed_ s = false
}.

(** What a stopped system keeps. *)
Definition kept (c c' : System) : Prop :=
  sys_dispatcher c' = sys_dispatcher c /\ sys_journal c' = sys_journal c /\ executed c' = executed c.

Lemma upload_halted c t : halted c -> exists c', upload c t = Done c' /\ kept c c'.
Proof.
  intros Hh. unfold upload, Dispatcher.addDelayed, Dispatcher.uploadToHandler. rewrite (h_disposed c Hh). cbn. by eexists.
Qed.

Lemma halted_kept c c' : halted c -> kept c c' -> halted c'.
Proof. intros [H1 H2 H3] (Hd & _). split; by rewrite Hd. Qed.

Lemma kept_trans c c1 c2 : kept c c1 -> kept c1 c2 -> kept c c2.
Proof. unfold kept. intros (?&?&?) (?&?&?). split_and!; congruence. Qed.

Lemma publish_halted c st : halted c -> journal st = sys_journal c -> exists c', publish c st = Done c' /\ kept c c'.
Proof.
  intros Hh Hj. unfold publish. set (c0 := MkSystem _ _ _ _ _ _ _). assert (kept c c0) as Hk by done.
  assert (forall ts c1, kept c c1 -> exists c', foldM upload c1 ts = Done c' /\ kept c c') as Hall; [|by apply Hall].
  induction ts as [|t ts IH]; intros c1 H1; cbn; [by eauto|].
  destruct (upload_halted c1 t) as (c2 & -> & H2); [by eapply halted_kept|]. cbn. apply IH. by eapply kept_trans.
Qed.

Lemma step_journal st o : o <> OExecute -> exists st', LoadersSpec.step st o = Done st' /\ journal st' = journal st.
Proof.
  intros Ho. assert (forall st e m, journal (notify st e m) = journal st) as Hn.
  { intros st0 e m. unfold notify. by destruct (emit _ _). }
  destruct o as [k acc addr| | |i|e t]; cbn; try done; eexists; (split; [reflexivity|]); rewrite ?Hn; try done.
  - unfold start. destruct acc; cbn [negb]; [by rewrite Hn|done].
  - unfold release_module_instance. by destruct (instances st !! i).
Qed.

Lemma sys_step_halted c o : halted c -> exists c', sys_step c o = Done c' /\ kept c c'.
Proof.
  intros Hh. assert (o = OExecute \/ o <> OExecute) as [->|Ho] by (destruct o; auto).
  - destruct Hh as [_ Hh (s & Hs & Hp)]. cbn. unfold worker, take_task. rewrite Hh.
    assert (at_idx (E := unit) [0%nat] kTest = Done 0%nat) as -> by done. cbn [mbind run_bind]. rewrite Hs. cbn. rewrite Hp. by exists c.
  - destruct (step_journal (view c) o Ho) as (st & Hst & Hj). destruct (publish_halted c st Hh Hj) as (c' & Hc & Hk).
    exists c'. split; [|done]. destruct o; try done; cbn [sys_step]; by rewrite Hst.
Qed.

(** The shutdown is final: once the dispatcher is disposed of, no callback is executed any
    more and nothing is logged, whatever is started or notified afterwards, and the
    callbacks that were still in the queue stay there. *)
Theorem shutdown_final c ops :
  Dispatcher.handlers_ (sys_dispatcher c) = [0%nat] -> is_Some (Dispatcher.schedulers (sys_dispatcher c) !! 0%nat) ->
  Dispatcher.pool_ (sys_dispatcher c) = [1; 2; 3]%nat ->
  exists c', foldM sys_step (shutdown c) ops = Done c' /\ sys_journal c' = sys_journal c /\ executed c' = executed c
    /\ queued c' = queued c.
Proof.
  intros Hh [s Hs] Hpool.
  assert (exists s', Dispatcher.schedulers (Dispatcher.dispose (sys_dispatcher c)) !! 0%nat = Some s'
    /\ Scheduler.proceed_ s' = false /\ Scheduler.tasks_ s' = Scheduler.tasks_ s) as (s' & Hs' & Hp & Hq).
  { unfold Dispatcher.dispose. cbn. rewrite Hh, Hpool. cbn. rewrite !list_lookup_alter_ne by done.
    rewrite list_lookup_alter_eq, Hs. by eexists. }
  assert (halted (shutdown c)) as Hhalt.
  { split; [by unfold Dispatcher.dispose; cbn; rewrite Hh, Hpool| |by eauto]. unfold Dispatcher.dispose. cbn. by rewrite Hh, Hpool. }
  assert (forall c1, kept (shutdown c) c1 -> exists c', foldM sys_step c1 ops = Done c' /\ kept (shutdown c) c') as Hall.
  { induction ops as [|o ops IH]; intros c1 H1; cbn; [by eauto|].
    destruct (sys_step_halted c1 o) as (c2 & -> & H2); [by eapply halted_kept|]. cbn. apply IH. by eapply kept_trans. }
  destruct (Hall (shutdown c)) as (c' & Hc & Hd & Hj & He); [done|]. exists c'. split_and!; try done.
  unfold queued. rewrite (queue_scheduler c s), <-Hq by done. f_equal. apply queue_scheduler; rewrite Hd; [apply Hhalt|done].
Qed.

End delivery.

(** ** Samples *)

Import EngineBus.

Definition ticks (n : nat) : Z := 1000 * Z.of_nat n.

Lemma ticks_steady i j : (i <= j)%nat -> ticks i <= ticks j.
Proof. unfold ticks. lia. Qed.

(** A clock that is set back after its first reading. *)
Definition set_back (n : nat) : Z := match n with O => 1000000 | _ => 1000 * Z.of_nat n end.

Definition two_modules : list Op := [OStart Networking true 4096; OStart Synchronizer true 8192].

(** The order of delivery depends on the clock: [high_resolution_clock] need not be steady,
    and when it is set back between two notifications the later one is executed first. *)
Example clock_set_back_reorders :
  let run tick := c ← foldM (sys_step (B := engine_bus data_code) tick) initial two_modules; mret (pending c) in
  run ticks = Done [((0%nat, on_init_complete_), Nothing); ((1%nat, on_init_complete_), Nothing)]
  /\ run set_back = Done [((1%nat, on_init_complete_), Nothing); ((0%nat, on_init_complete_), Nothing)].
Proof. vm_compute. done. Qed.

Lemma delivery_refines_witness :
  exists c a, foldM (sys_step (B := engine_bus data_code) ticks) initial sample_ops = Done c
    /\ foldM (LoadersSpec.step (B := engine_bus data_code)) empty_node sample_ops = Done a
    /\ sys_bus c = se_manager_ a /\ sys_instances c = instances a /\ sys_journal c = journal a /\ pending c = tasks a
    /\ executed c ++ queued c = seq 0 (length (closures c)).
Proof. exact (@delivery_refines _ (engine_bus_ok data_code data_code_inj) ticks ticks_steady sample_ops). Defined.

Lemma delivery_completes_witness :
  exists c, foldM (sys_step (B := engine_bus data_code) ticks) initial sample_ops = Done c /\ exists n c',
    (n <= total (abstract c))%nat
    /\ foldM (sys_step (B := engine_bus data_code) ticks) c (replicate n OExecute) = Done c' /\ queue c' = []
    /\ executed c' = seq 0 (length (closures c')).
Proof. exact (@delivery_completes _ (engine_bus_ok data_code data_code_inj) ticks ticks_steady sample_ops). Defined.

Lemma shutdown_final_witness :
  exists c', foldM (sys_step (B := engine_bus data_code) ticks) (shutdown initial) sample_ops = Done c' /\ sys_journal c' = []
    /\ executed c' = [] /\ queued c' = [].
Proof. apply (shutdown_final (B := engine_bus data_code) ticks initial sample_ops); [reflexivity|by eexists|reflexivity]. Defined.

End Delivery.
