(* ===== verification/DeliveryRace.v ===== *)
(** * DeliveryRace: notifying while the handler thread notifies

    [Delivery] lets a callback, or a call of the main thread, run to its end before the
    next one starts.  In the program the two threads hand their closures to the dispatcher
    one by one, and the closures of one thread get between those of the other.  Here the
    closures a thread still has to hand over are in its outbox, and handing one over is a
    step of its own; whatever the interleaving, nothing is lost, nothing is executed
    twice or before what was handed over earlier, and the traffic ends. *)

From S2P Require Import Prelude Scheduler Dispatcher Utils Subscription Modules Loaders LoadersSpec EngineBus Delivery.

Module DeliveryRace.
Import Loaders LoadersSpec Delivery.

Inductive Who : Type := MainThread | HandlerThread.

Section race.
Context `{B : EventBus chan handler} {BO : EventBusOk B}.
Context (now : nat -> Z) (steady : forall i j, (i <= j)%nat -> now i <= now j).

Record Shared : Type := MkShared { sys : System; main_out : list (handler * Message); handler_out : list (handler * Message) }.

Definition start_shared : Shared := MkShared initial [] [].

Definition with_node (c : System) (st : Node) : System :=
  MkSystem (se_manager_ st) (instances st) (sys_dispatcher c) (closures c) (reads c) (executed c) (journal st).

(** What a thread does when it gets to run: hand over the next closure of its outbox, or,
    with an empty outbox, the next operation. *)
Definition main_does (f : Shared) (o : Op) : run unit Shared :=
  match main_out f with
  | t :: out => c ← upload now (sys f) t; mret (MkShared c out (handler_out f))
  | [] =>
      match o with
      | OExecute => mret f
      | _ => st ← LoadersSpec.step (view (sys f)) o; mret (MkShared (with_node (sys f) st) (tasks st) (handler_out f))
      end
  end.

(** The handler thread takes the next task as in [Delivery.worker]; the closures its
    callback makes go to the outbox. *)
Definition handler_does (f : Shared) : run unit Shared :=
  match handler_out f with
  | t :: out => c ← upload now (sys f) t; mret (MkShared c (main_out f) out)
  | [] =>
      '(c, taken) ← take_task now (sys f);
      match taken with
      | None => mret (MkShared c (main_out f) [])
      | Some (h, m) => st ← call h m (view c); mret (MkShared (with_node c st) (main_out f) (tasks st))
      end
  end.

(** A schedule: who runs, and what the main thread does if it is free. *)
Definition shared_step (f : Shared) (w : Who * Op) : run unit Shared :=
  match w.1 with MainThread => main_does f w.2 | HandlerThread => handler_does f end.

(** ** The invariant *)

Definition all_tasks (f : Shared) : list (handler * Message) := pending (sys f) ++ handler_out f ++ main_out f.

(** The node with everything that is under way. *)
Definition node_of (f : Shared) : Node := MkNode (sys_bus (sys f)) (sys_instances (sys f)) (all_tasks f) (sys_journal (sys f)).

Definition good (f : Shared) : Prop := ready now (sys f) /\ LoadersSpec.inv (node_of f).

Lemma inv_perm (b : bus) is_ ts ts' j : ts ≡ₚ ts' -> LoadersSpec.inv (MkNode b is_ ts j) -> LoadersSpec.inv (MkNode b is_ ts' j).
Proof. intros Hp [H1 H2 H3 H4 H5 H6]. split; cbn in *; try done; by rewrite <-Hp. Qed.

Lemma sum_list_perm {A} (g : A -> nat) l l' : l ≡ₚ l' -> sum_list_with g l = sum_list_with g l'.
Proof. induction 1; cbn; lia. Qed.

Lemma total_perm (b : bus) is_ ts ts' j : ts ≡ₚ ts' -> total (MkNode b is_ ts j) = total (MkNode b is_ ts' j).
Proof. intros Hp. unfold total. cbn. by apply sum_list_perm. Qed.

(** Handing a closure over. *)
Lemma hand_over c t :
  ready now c -> exists c', upload now c t = Done c' /\ ready now c' /\ view c' = view c /\ pending c' = pending c ++ [t]
    /\ executed c' = executed c.
Proof.
  intros Hr. destruct (upload_ready now steady c t Hr) as (c' & Hu & Hr' & Hc & He & Hv). exists c'. split_and!; try done.
  rewrite !(pending_ready now) by done. rewrite Hc, He, drop_app_le; [done|apply Hr].
Qed.

Lemma view_node c c' : view c' = view c -> sys_bus c' = sys_bus c /\ sys_instances c' = sys_instances c /\ sys_journal c' = sys_journal c.
Proof. intros [= H1 H2 H3]. done. Qed.

(** Changing what a thread sees leaves the queue alone. *)
Lemma with_node_ready c st : ready now c -> ready now (with_node c st) /\ pending (with_node c st) = pending c.
Proof. intros [H1 H2 H3 H4 H5]. split; [by split|done]. Qed.

Lemma upload_good f c t out out' :
  good f -> upload now (sys f) t = Done c -> handler_out f ++ main_out f ≡ₚ t :: out' ++ out ->
  good (MkShared c out out') /\ all_tasks (MkShared c out out') ≡ₚ all_tasks f /\ total (node_of (MkShared c out out')) = total (node_of f).
Proof.
  intros [Hr Hi] Hu Hp. destruct (hand_over (sys f) t Hr) as (c' & Hu' & Hr' & Hv & Hpd & _). rewrite Hu in Hu'. injection Hu' as <-.
  destruct (view_node _ _ Hv) as (Hb & Hs & Hj).
  assert (all_tasks (MkShared c out out') ≡ₚ all_tasks f) as Hall.
  { unfold all_tasks. cbn. rewrite Hpd, Hp, <-app_assoc. done. }
  split_and!; [split; [done|]|done|]; unfold node_of in *; cbn [sys] in *; rewrite Hb, Hs, Hj.
  - by eapply inv_perm; [symmetry; exact Hall|].
  - by apply total_perm.
Qed.

(** *** The main thread *)

Lemma main_good f o : good f -> exists f', main_does f o = Done f' /\ good f'.
Proof.
  intros Hg. unfold main_does. destruct (main_out f) as [|t out] eqn:Hm.
  - assert (o = OExecute \/ o <> OExecute) as [->|Ho] by (destruct o; auto); [by eauto|].
    destruct Hg as [Hr Hi]. unfold node_of, all_tasks in Hi. rewrite Hm, app_nil_r in Hi.
    destruct (node_inv_step _ o Hi) as (st' & Hs & Hi').
    assert (MkNode (sys_bus (sys f)) (sys_instances (sys f)) (pending (sys f) ++ handler_out f) (sys_journal (sys f))
      = framed (pending (sys f) ++ handler_out f) (view (sys f))) as Heq by (unfold framed; cbn; by rewrite app_nil_r).
    rewrite Heq, step_framed in Hs by done. unfold framed_run in Hs.
    destruct (LoadersSpec.step (view (sys f)) o) as [st| | |] eqn:Hst; try done. cbn in Hs. injection Hs as <-.
    exists (MkShared (with_node (sys f) st) (tasks st) (handler_out f)). split; [destruct o; try done; by rewrite Hst|].
    destruct (with_node_ready (sys f) st Hr) as [Hr' Hp]. split; [done|]. unfold node_of, all_tasks. cbn [sys handler_out main_out].
    rewrite Hp. unfold framed in Hi'. by rewrite <-app_assoc in Hi'.
  - destruct (hand_over (sys f) t) as (c & Hu & _); [apply Hg|]. rewrite Hu. cbn. eexists. split; [done|].
    apply (upload_good f c t out (handler_out f) Hg Hu). rewrite Hm. by rewrite Permutation_middle.
Qed.

(** *** The handler thread *)

(** A step of the handler thread: less is left to do, unless there is nothing. *)
Lemma handler_good f :
  good f -> exists f', handler_does f = Done f' /\ good f' /\ main_out f' = main_out f
    /\ (total (node_of f') < total (node_of f)
        \/ total (node_of f') = total (node_of f) /\ (length (handler_out f') < length (handler_out f)
             \/ handler_out f = [] /\ handler_out f' = [] /\ pending (sys f) = [] /\ pending (sys f') = []))%nat.
Proof.
  intros Hg. unfold handler_does. destruct (handler_out f) as [|t out] eqn:Ho.
  - destruct Hg as [Hr Hi]. destruct (take_ready now steady (sys f) Hr) as (c & Hrc & Hv & _ & Ht & Hp). rewrite Ht. cbn [mbind run_bind].
    destruct (view_node _ _ Hv) as (Hb & Hs & Hj). unfold node_of, all_tasks in Hi. rewrite Ho in Hi.
    destruct (pending (sys f)) as [|[h m] rest] eqn:Hpf; cbn [head tail] in *.
    + eexists. split; [reflexivity|]. unfold good, node_of, all_tasks. cbn [sys handler_out main_out]. rewrite Hp, Hpf, Hb, Hs, Hj, Ho.
      split_and!; [done..|]. right. split; [done|]. right. by rewrite ?Hpf.
    + set (n1 := MkNode (sys_bus (sys f)) (sys_instances (sys f)) (rest ++ main_out f) (sys_journal (sys f))).
      pose proof (inv_without_first _ Hi) as Hw. unfold without_first in Hw. cbn in Hw. rewrite drop_0 in Hw.
      pose proof (inv_tasks _ Hi) as [Htask _]%Forall_cons. pose proof (inv_requested _ Hi) as [Hreq _]%Forall_cons.
      destruct (inv_call n1 h m Hw Htask Hreq) as (st' & Hc & Hi'). pose proof (total_call n1 h m st' Hw Htask Hreq Hc) as Hlt.
      assert (n1 = framed (rest ++ main_out f) (view c)) as Heq by (unfold n1, framed; cbn; by rewrite app_nil_r, Hb, Hs, Hj).
      rewrite Heq, call_framed in Hc. unfold framed_run in Hc. destruct (call h m (view c)) as [st| | |]; try done. cbn in Hc.
      injection Hc as <-. cbn [mbind run_bind]. eexists. split; [reflexivity|].
      destruct (with_node_ready c st Hrc) as [Hr' Hp'].
      assert (rest ++ tasks st ++ main_out f ≡ₚ (rest ++ main_out f) ++ tasks st) as Hperm.
      { rewrite <-app_assoc. apply Permutation_app_head, Permutation_app_comm. }
      unfold good, node_of, all_tasks. cbn [sys handler_out main_out]. rewrite Hp', Hp. split_and!; [done| |done|].
      * eapply inv_perm; [symmetry; exact Hperm|]. exact Hi'.
      * left. rewrite (total_perm _ _ _ _ _ Hperm). rewrite Hpf, Ho. cbn [app]. unfold total at 2. cbn [tasks se_manager_ sum_list_with].
        unfold total in Hlt. unfold total. cbn in *. lia.
  - destruct (hand_over (sys f) t) as (c & Hu & _); [apply Hg|]. rewrite Hu. cbn. eexists. split; [done|].
    destruct (upload_good f c t (main_out f) out Hg Hu) as (Hg' & _ & Htot); [by rewrite Ho|]. split_and!; [done..|]. right. split; [done|]. left. cbn. lia.
Qed.

Lemma shared_good f w : good f -> exists f', shared_step f w = Done f' /\ good f'.
Proof.
  intros Hg. unfold shared_step. destruct w.1; [by apply main_good|]. destruct (handler_good f Hg) as (f' & ? & ? & _). by eauto.
Qed.

Lemma sched_good f sched : good f -> exists f', foldM shared_step f sched = Done f' /\ good f'.
Proof.
  revert f. induction sched as [|w sched IH]; intros f Hg; cbn; [by eauto|].
  destruct (shared_good f w Hg) as (f1 & -> & Hg1). cbn. by apply IH.
Qed.

Lemma start_good : good start_shared.
Proof.
  split; [apply initial_ready|]. unfold node_of, all_tasks. cbn [sys start_shared handler_out main_out].
  rewrite (pending_ready now) by apply initial_ready. exact inv_empty.
Qed.

(** *** Quiescence *)

Definition quiescent (f : Shared) : Prop := main_out f = [] /\ handler_out f = [] /\ pending (sys f) = [].

(** The main thread empties its outbox. *)
Lemma main_empties f : good f -> exists n f', foldM shared_step f (replicate n (MainThread, OExecute)) = Done f' /\ good f' /\ main_out f' = [].
Proof.
  remember (main_out f) as out eqn:Hm. revert f Hm. induction out as [|t out IH]; intros f Hm Hg; [by exists 0%nat, f|].
  destruct (main_good f OExecute Hg) as (f1 & H1 & Hg1).
  assert (main_out f1 = out) as Hm1.
  { unfold main_does in H1. rewrite <-Hm in H1. apply bind_Done in H1 as (c & _ & H1). by injection H1 as <-. }
  destruct (IH f1 (eq_sym Hm1) Hg1) as (n & f2 & H2 & Hg2 & Hm2). exists (S n), f2. cbn. rewrite H1. by cbn.
Qed.

Lemma handler_empties f :
  good f -> main_out f = [] -> exists n f', foldM shared_step f (replicate n (HandlerThread, OExecute)) = Done f' /\ good f' /\ quiescent f'.
Proof.
  remember (total (node_of f)) as t eqn:Ht. revert f Ht. induction (lt_wf t) as [t _ IHt]. intros f.
  remember (length (handler_out f)) as k eqn:Hk. revert f Hk. induction (lt_wf k) as [k _ IHk]. intros f Hk Ht Hg Hm.
  destruct (handler_good f Hg) as (f1 & H1 & Hg1 & Hm1 & Hless).
  assert (forall n f', foldM shared_step f1 (replicate n (HandlerThread, OExecute)) = Done f' ->
    foldM shared_step f (replicate (S n) (HandlerThread, OExecute)) = Done f') as Hnext by (intros n f' Hn; cbn; rewrite H1; by cbn).
  destruct Hless as [Hlt|[Heq [Hlt|(Ho & Ho1 & Hp & Hp1)]]].
  - destruct (IHt (total (node_of f1)) ltac:(lia) f1 eq_refl Hg1 ltac:(congruence)) as (n & f' & Hn & ?). exists (S n), f'. by eauto.
  - destruct (IHk (length (handler_out f1)) ltac:(lia) f1 eq_refl ltac:(congruence) Hg1 ltac:(congruence)) as (n & f' & Hn & ?).
    exists (S n), f'. by eauto.
  - exists 0%nat, f. by split_and!.
Qed.

(** ** Theorem *)

(** C10: delivery under concurrency. While the clock is not set back, for every interleaving
    of the main thread, which starts and releases modules and announces events, with the
    handler thread, which executes callbacks, nothing undefined happens; the closures run
    so far followed by those in the queue are all closures handed over, each once and in
    the order of handing over; and from every such state the threads can finish: the
    outboxes and the queue become empty, and then every closure has been run. *)
Theorem delivery_interleaved sched :
  exists f, foldM shared_step start_shared sched = Done f
    /\ executed (sys f) ++ queued (sys f) = seq 0 (length (closures (sys f)))
    /\ exists rest f', foldM shared_step f rest = Done f' /\ quiescent f'
         /\ executed (sys f') = seq 0 (length (closures (sys f'))).
Proof.
  destruct (sched_good start_shared sched start_good) as (f & Hf & Hg). exists f. split; [done|]. split; [by apply (ready_once now), Hg|].
  destruct (main_empties f Hg) as (n & f1 & H1 & Hg1 & Hm1). destruct (handler_empties f1 Hg1 Hm1) as (k & f2 & H2 & Hg2 & Hq).
  exists (replicate n (MainThread, OExecute) ++ replicate k (HandlerThread, OExecute)), f2. rewrite foldM_app, H1. cbn. split_and!; try done.
  pose proof (ready_once now (sys f2) (proj1 Hg2)) as Hall. destruct Hq as (_ & _ & Hp).
  rewrite (pending_ready now) in Hp by apply Hg2. pose proof (f_equal length Hp) as Hlen. rewrite length_drop in Hlen. cbn in Hlen.
  rewrite (queued_ready now) in Hall by apply Hg2. by rewrite Hlen, app_nil_r in Hall.
Qed.

End race.

Import EngineBus.

(** The handler thread runs between the closures the main thread hands over. *)
Definition sample_sched : list (Who * Op) :=
  [(MainThread, OStart Networking true 4096); (MainThread, OExecute); (MainThread, OStart Synchronizer true 8192);
   (HandlerThread, OExecute); (MainThread, OExecute); (MainThread, OLoadingIsFinished); (HandlerThread, OExecute);
   (MainThread, OExecute); (HandlerThread, OExecute)].

Lemma delivery_interleaved_witness :
  exists f, foldM (shared_step (B := engine_bus data_code) ticks) start_shared sample_sched = Done f
    /\ executed (sys f) ++ queued (sys f) = seq 0 (length (closures (sys f)))
    /\ exists rest f', foldM (shared_step (B := engine_bus data_code) ticks) f rest = Done f' /\ quiescent f'
         /\ executed (sys f') = seq 0 (length (closures (sys f'))).
Proof. exact (@delivery_interleaved _ (engine_bus_ok data_code data_code_inj) ticks ticks_steady sample_sched). Defined.

End DeliveryRace.
