(* ===== verification/Teardown.v ===== *)
(** * Teardown: libraries, loaders and the end of [run_node]

    The static instance of a module library ([src/src/modules/*/module.cpp]), the base
    class of the loaders ([src/src/loaders/loader.hpp]), and the order in which
    [run_node] ([src/src/executable/jam_node.cpp]) gives up its objects: first the
    loaders, each of which drops its subscribers and then closes the library of its
    module; afterwards the injector, whose subscription manager stops and joins the
    handler thread.  That thread may be in the middle of a callback meanwhile. *)

From S2P Require Import Prelude Utils Modules Loaders.

(** ** The instance of a library *)

Module LibraryInstance.

(** The static pointer, by the number of the object, and the objects made so far. *)
Record Library : Type := MkLib { module_instance : option nat; made : nat }.

Definition unloaded : Library := MkLib None 0.

Definition query_module_instance (l : Library) : Library * nat :=
  match module_instance l with
  | Some x => (l, x)
  | None => (MkLib (Some (made l)) (S (made l)), made l)
  end.

Definition release_module_instance (l : Library) : Library := MkLib None (made l).

(** Whether a weak pointer to an object can be locked. *)
Definition lock (l : Library) (x : nat) : bool := bool_decide (module_instance l = Some x).

Inductive Call : Type := Query | Release.

Definition call (l : Library) (c : Call) : Library :=
  match c with Query => (query_module_instance l).1 | Release => release_module_instance l end.

Definition fresh (l : Library) : Prop := forall x, module_instance l = Some x -> (x < made l)%nat.

Lemma call_fresh l c : fresh l -> fresh (call l c).
Proof.
  unfold fresh. intros Hf. destruct c; cbn; [|done]. unfold query_module_instance. destruct (module_instance l) as [y|] eqn:Hm; cbn.
  - intros x. rewrite Hm. apply Hf.
  - intros x [= <-]. lia.
Qed.

Lemma calls_fresh l cs : fresh l -> fresh (foldl call l cs).
Proof. revert l. induction cs as [|c cs IH]; intros l Hl; cbn; [done|]. by apply IH, call_fresh. Qed.

(** Once dropped, an object never comes back. *)
Lemma calls_dropped l cs x : fresh l -> module_instance l <> Some x -> (x < made l)%nat -> lock (foldl call l cs) x = false.
Proof.
  revert l. induction cs as [|c cs IH]; intros l Hf Hn Hx; cbn; [by apply bool_decide_eq_false_2|]. apply IH; [by apply call_fresh|..].
  - destruct c; cbn; [|done]. unfold query_module_instance. destruct (module_instance l) eqn:Hm; cbn; [congruence|]. intros [= Heq]. lia.
  - destruct c; cbn; [|done]. unfold query_module_instance. destruct (module_instance l); cbn; lia.
Qed.

(** A library has one instance at a time: whatever was called before, the pointer a query
    returns can be locked until the library's instance is released, every query until then
    returns the same object, and after the release it can never be locked again. *)
Theorem one_instance before after :
  let l := foldl call unloaded before in
  let '(l', x) := query_module_instance l in
  (lock (foldl call l' after) x = true <-> Release ∉ after)
  /\ (Release ∉ after -> (query_module_instance (foldl call l' after)).2 = x).
Proof.
  cbn zeta. set (l := foldl call unloaded before). assert (fresh l) as Hf by (apply calls_fresh; intros x Hx; discriminate Hx).
  assert (exists x, query_module_instance l = ((query_module_instance l).1, x) /\ module_instance (query_module_instance l).1 = Some x
    /\ fresh (query_module_instance l).1) as (x & Hq & Hx & Hf').
  { pose proof (call_fresh l Query Hf) as Hc. cbn in Hc. unfold query_module_instance in *.
    destruct (module_instance l) as [y|] eqn:Hm; eexists; by split_and!. }
  rewrite Hq. clear Hq. set (l' := (query_module_instance l).1) in *. clearbody l'. clear l Hf before.
  assert (Release ∉ after -> module_instance (foldl call l' after) = Some x) as Hkeep.
  { clear Hf'. revert l' Hx. induction after as [|c after IH]; intros l' Hx Hn; cbn; [done|]. apply not_elem_of_cons in Hn as [Hc Hn].
    apply IH; [|done]. destruct c; [|done]. cbn. unfold query_module_instance. by rewrite Hx. }
  split; [split|].
  - intros Hl Hin. apply list_elem_of_split in Hin as (a1 & a2 & ->). rewrite foldl_app in Hl. cbn in Hl.
    assert (fresh (foldl call l' a1)) as Hf1 by (by apply calls_fresh).
    rewrite calls_dropped in Hl; [done|done|done|]. cbn.
    assert (forall cs l0, (x < made l0)%nat -> (x < made (foldl call l0 cs))%nat) as Hmono.
    { induction cs as [|c cs IH]; intros l0 H0; cbn; [done|]. apply IH. destruct c; cbn; [|done]. unfold query_module_instance.
      destruct (module_instance l0); cbn; lia. }
    apply Hmono, Hf', Hx.
  - intros Hn. apply bool_decide_eq_true_2, Hkeep, Hn.
  - intros Hn. unfold query_module_instance. by rewrite Hkeep.
Qed.

Lemma one_instance_witness :
  (query_module_instance (foldl call (query_module_instance (foldl call unloaded [Query; Release])).1 [Query; Query])).2 = 1%nat.
Proof. apply (one_instance [Query; Release] [Query; Query]). set_solver. Defined.

End LibraryInstance.

(** ** The base class of the loaders *)

Module LoaderBase.
Import Loaders.

Section loader.
Context `{B : EventBus chan handler}.

Record Loader : Type := MkLoader { module_ : option Modules.Module }.

Definition new_loader : Loader := MkLoader None.
Definition set_module (m : Modules.Module) (l : Loader) : Loader := MkLoader (Some m).
Definition get_module (l : Loader) : run unit Modules.Module := value (module_ l) "Module not set".

(** [module_info]: nothing without a module or without the function. *)
Definition module_info (l : Loader) : option (option string) :=
  m ← module_ l; Modules.module_info_sym (Modules.handle_ m).

(** The beginning of [start] of a loader, and the rest. *)
Definition start (k : Kind) (m : Modules.Module) (addr : Z) (l : Loader) (st : Node) : run unit (Loader * Node) :=
  let l := set_module m l in
  m ← get_module l;
  mret (l, Loaders.start k (Modules.query_module_instance_sym (Modules.handle_ m)) addr st).

(** The registration as the injector does it, with the loader object. *)
Definition register_loader (m : Modules.Module) (addr : Z) (st : Node) : run unit (Node * option (option string)) :=
  match kind_of_loader (Modules.loader_id_ m) with
  | None => mret (st, None)
  | Some k =>
      '(l, st) ← start k m addr new_loader st;
      mret (st, Some (match module_info l with Some i => i | None => None end))
  end.

(** A loader never meets a missing module: the registration of a module through the
    loader's own functions always ends, with the result of [Loaders.register_loader];
    only a loader that was never started throws. *)
Theorem register_never_throws m addr st :
  register_loader m addr st = Done (Loaders.register_loader m addr st) /\ get_module new_loader = Raise "Module not set".
Proof. split; [|done]. unfold register_loader, Loaders.register_loader. by destruct (kind_of_loader _). Qed.

(** *** The modules of the repository: what each library exports *)

Definition example_library : Modules.Library :=
  Modules.MkLibrary (Some (Some "ExampleLoader"%string)) (Some (Some "ExampleModule v1.0"%string)) true.
Definition networking_library : Modules.Library :=
  Modules.MkLibrary (Some (Some "NetworkingLoader"%string)) (Some (Some "Networking v0.0"%string)) true.
Definition synchronizer_library : Modules.Library :=
  Modules.MkLibrary (Some (Some "SynchronizerLoader"%string)) (Some (Some "Synchronizer v0.0"%string)) true.

Definition library (k : Kind) : Modules.Library :=
  match k with Example => example_library | Networking => networking_library | Synchronizer => synchronizer_library end.

(** The library of each module passes the checks of [load_module], and its registration
    starts the loader of its own kind with the module's instance and reports its
    information. *)
Theorem library_registered k path modules open_ addr st :
  exists m, Modules.load_module path (Some (library k)) modules open_ = (open_ ++ [path], Done (modules ++ [m]))
    /\ exists info, register_loader m addr st = Done (Loaders.start k true addr st, Some (Some info)).
Proof. by destruct k; eexists; (split; [reflexivity|]); eexists. Qed.

End loader.
End LoaderBase.

(** ** Giving up the objects of [run_node] *)

Module Teardown.

(** A loader in [loaders]: whether it still owns its subscribers, and whether the library
    of its module is open. *)
Record LoaderState : Type := MkLoaderState { subscribed : bool; opened : bool }.

(** The handler thread in [process] (there is one: [kHandlersCount] is 1, and all loaders
    subscribe on it): at the condition of its loop, before it takes a task, in
    [event_.wait], with the subscriber of a task locked, inside the code of a module,
    gone. *)
Inductive Worker : Type := Check_ | Top | Waiting | Locked (i : nat) | Inside (i : nat) | Ended.

(** The main thread after [app->run()]: the destructor of loader [i] drops its
    subscribers, then the module of its base class; the holder of the subscription
    manager disposes of it: its engines, the flag of the dispatcher, the flag and the
    event of the handler, and then it waits for the handler thread. *)
Inductive Main : Type := Drop (i : nat) | Close (i : nat) | Engines | Flag | Clear | SetEvent | Join | Finished.

#[export] Instance Worker_eq_dec : EqDecision Worker.
Proof. solve_decision. Defined.

Record World : Type := MkWorld {
  main_ : Main;
  worker_ : Worker;
  queue : list nat;             (** the loaders whose callbacks are pending *)
  loaders_ : list LoaderState;
  engines_ : bool;              (** the engines have their dispatcher *)
  is_disposed_ : bool;          (** of the dispatcher *)
  proceed_ : bool;              (** of the handler *)
  signaled : bool               (** the handler's event *)
}.

Definition owns (w : World) (i : nat) : bool := match loaders_ w !! i with Some l => subscribed l | None => false end.
Definition is_open (w : World) (i : nat) : bool := match loaders_ w !! i with Some l => opened l | None => false end.

(** *** The main thread *)

Definition at_main (w : World) (m : Main) : World :=
  MkWorld m (worker_ w) (queue w) (loaders_ w) (engines_ w) (is_disposed_ w) (proceed_ w) (signaled w).
Definition set_loaders (w : World) (ls : list LoaderState) : World :=
  MkWorld (main_ w) (worker_ w) (queue w) ls (engines_ w) (is_disposed_ w) (proceed_ w) (signaled w).

(** The members of the loader: its subscribers; and of its base class: the module, whose
    handle closes the library. *)
Definition drop_subscribers (i : nat) (w : World) : World :=
  set_loaders w (alter (fun l => MkLoaderState false (opened l)) i (loaders_ w)).
Definition close_library (i : nat) (w : World) : World :=
  set_loaders w (alter (fun l => MkLoaderState (subscribed l) false) i (loaders_ w)).

(** [SubscriptionManager::dispose]: the engines lose their dispatcher. *)
Definition dispose_engines (w : World) : World :=
  MkWorld (main_ w) (worker_ w) (queue w) (loaders_ w) false (is_disposed_ w) (proceed_ w) (signaled w).

(** [AsyncDispatcher::dispose]: uploads are refused from here on. *)
Definition dispose_dispatcher (w : World) : World :=
  MkWorld (main_ w) (worker_ w) (queue w) (loaders_ w) (engines_ w) true (proceed_ w) (signaled w).

(** [SchedulerBase::dispose]: [proceed_.clear()] and [event_.set()]. *)
Definition clear_proceed (w : World) : World :=
  MkWorld (main_ w) (worker_ w) (queue w) (loaders_ w) (engines_ w) (is_disposed_ w) false (signaled w).
Definition set_event (w : World) : World :=
  MkWorld (main_ w) (worker_ w) (queue w) (loaders_ w) (engines_ w) (is_disposed_ w) (proceed_ w) true.

(** [worker_.join()] of [ThreadHandler::dispose]. *)
Definition join (w : World) : option World :=
  if decide (worker_ w = Ended) then Some w else None.

(** The objects of [run_node] in the reverse order of their declaration: the loaders, from
    the first to the last, and then the injector with the holder of the manager. *)
Definition main_step (w : World) : option World :=
  match main_ w with
  | Drop i => if (i <? length (loaders_ w))%nat then Some (at_main (drop_subscribers i w) (Close i)) else Some (at_main w Engines)
  | Close i => Some (at_main (close_library i w) (Drop (S i)))
  | Engines => Some (at_main (dispose_engines w) Flag)
  | Flag => Some (at_main (dispose_dispatcher w) Clear)
  | Clear => Some (at_main (clear_proceed w) SetEvent)
  | SetEvent => Some (at_main (set_event w) Join)
  | Join => w ← join w; Some (at_main w Finished)
  | Finished => None
  end.

(** *** The handler thread *)

Definition at_worker (w : World) (p : Worker) (q : list nat) : World :=
  MkWorld (main_ w) p q (loaders_ w) (engines_ w) (is_disposed_ w) (proceed_ w) (signaled w).

(** The condition of the loop: [proceed_.test_and_set()]. *)
Definition test_proceed (w : World) : World :=
  MkWorld (main_ w) (if proceed_ w then Top else Ended) (queue w) (loaders_ w) (engines_ w) (is_disposed_ w) true (signaled w).

(** The wait is over: the predicate of the event takes the signal back. *)
Definition leave_wait (w : World) : World :=
  MkWorld (main_ w) Check_ (queue w) (loaders_ w) (engines_ w) (is_disposed_ w) (proceed_ w) false.

(** [process]: a task is taken, or the thread waits for its event. The subscriber of a
    task is looked for when the task runs ([wsub.lock()]); its callback locks the module's
    instance, which is gone with the library. *)
Definition worker_step (w : World) : option World :=
  match worker_ w with
  | Check_ => Some (test_proceed w)
  | Top =>
      match queue w with
      | [] => Some (at_worker w Waiting [])
      | i :: q => Some (at_worker w (if owns w i then Locked i else Check_) q)
      end
  | Waiting => if signaled w then Some (leave_wait w) else None
  | Locked i => Some (at_worker w (if is_open w i then Inside i else Check_) (queue w))
  | Inside _ => Some (at_worker w Check_ (queue w))
  | Ended => None
  end.

(** The wait ends by its timeout. *)
Definition timeout_step (w : World) : option World :=
  match worker_ w with Waiting => Some (leave_wait w) | _ => None end.

(** Somebody, a callback or another thread, notifies of an event to which loader [i] has
    subscribed: the engine passes a task to the dispatcher, which passes it to the
    handler and sets its event. *)
Definition post (i : nat) (w : World) : World :=
  if engines_ w && negb (is_disposed_ w) && owns w i then set_event (at_worker w (worker_ w) (queue w ++ [i])) else w.

Inductive Move : Type := MainThread | HandlerThread | Timeout | Post (i : nat).

(** A thread that cannot move is skipped. *)
Definition step (w : World) (t : Move) : World :=
  match t with
  | MainThread => default w (main_step w)
  | HandlerThread => default w (worker_step w)
  | Timeout => default w (timeout_step w)
  | Post i => post i w
  end.

Definition exec (w : World) (sched : list Move) : World := foldl step w sched.

(** The moment [app->run()] returns, with [n] loaders. *)
Definition returned (n : nat) (p : Worker) (q : list nat) (sig : bool) : World :=
  MkWorld (Drop 0) p q (replicate n (MkLoaderState true true)) true false true sig.

(** The handler thread is at a callback of loader [i]; it is inside code that is not there
    any more. *)
Definition busy (w : World) (i : nat) : Prop := worker_ w = Locked i \/ worker_ w = Inside i.
Definition unsafe (w : World) : Prop := exists i, worker_ w = Inside i /\ is_open w i = false.

(** ** The loaders *)

(** Loader [j], while the main thread is at [m]. *)
Definition loader_at (m : Main) (j : nat) : LoaderState :=
  match m with
  | Drop i => if (j <? i)%nat then MkLoaderState false false else MkLoaderState true true
  | Close i => if (j <? i)%nat then MkLoaderState false false
               else if (j =? i)%nat then MkLoaderState false true else MkLoaderState true true
  | _ => MkLoaderState false false
  end.

(** Where the main thread is, in steps. *)
Definition position (n : nat) (m : Main) : nat :=
  match m with
  | Drop i => 2 * i | Close i => 2 * i + 1
  | Engines => 2 * n + 1 | Flag => 2 * n + 2 | Clear => 2 * n + 3 | SetEvent => 2 * n + 4 | Join => 2 * n + 5 | Finished => 2 * n + 6
  end%nat.

#[local] Arguments Nat.ltb : simpl never.
#[local] Arguments Nat.eqb : simpl never.

(** What holds at every moment: the loaders, the flags and the event as the main thread
    has left them. *)
Record tidy (n : nat) (w : World) : Prop := MkTidy {
  td_length : length (loaders_ w) = n;
  td_position : match main_ w with Drop i => (i <= n)%nat | Close i => (i < n)%nat | _ => True end;
  td_loaders : forall j l, loaders_ w !! j = Some l -> l = loader_at (main_ w) j;
  td_proceed : match main_ w with
    | SetEvent => worker_ w = Ended \/ proceed_ w = false
    | Join => worker_ w = Ended \/ (proceed_ w = false /\ (worker_ w = Top \/ worker_ w = Waiting -> signaled w = true))
    | Finished => worker_ w = Ended
    | _ => True
    end
}.

Lemma alter_loader (f : LoaderState -> LoaderState) i ls (g h : nat -> LoaderState) :
  (forall j l, ls !! j = Some l -> l = g j) -> f (g i) = h i -> (forall j, j <> i -> (j < length ls)%nat -> g j = h j) ->
  forall j l, alter f i ls !! j = Some l -> l = h j.
Proof.
  intros Hg Hi Hh j l Hj. destruct (decide (j = i)) as [->|Hne].
  - rewrite list_lookup_alter_eq in Hj. destruct (ls !! i) as [l0|] eqn:Hl; [|done]. cbn in Hj. injection Hj as <-.
    by rewrite (Hg i l0 Hl).
  - rewrite list_lookup_alter_ne in Hj by done. rewrite (Hg j l Hj). apply Hh; [done|]. by eapply lookup_lt_Some.
Qed.

(** The position of an index relative to the loader being destroyed. *)
Ltac indices := cbn; repeat match goal with
  | |- context [(?a <? ?b)%nat] => destruct (Nat.ltb_spec a b)
  | |- context [(?a =? ?b)%nat] => destruct (Nat.eqb_spec a b)
  end; first [done|lia|auto].

Lemma main_tidy n w w' : tidy n w -> main_step w = Some w' -> tidy n w'.
Proof.
  intros [Hn Hp Hl Hq] Hs. unfold main_step in Hs. destruct (main_ w) as [i|i| | | | | |] eqn:Hm; cbn beta iota in Hp, Hq, Hl, Hs.
  - destruct (Nat.ltb_spec i (length (loaders_ w))) as [Hi|Hi]; injection Hs as <-; split; cbn; try done.
    + by rewrite length_alter.
    + lia.
    + apply (alter_loader _ _ _ _ _ Hl); [|intros j Hj Hlt]; indices.
    + intros j l Hj. rewrite (Hl j l Hj). apply lookup_lt_Some in Hj. indices.
  - injection Hs as <-. split; cbn; [by rewrite length_alter|lia| |done].
    apply (alter_loader _ _ _ _ _ Hl); [|intros j Hj Hlt]; indices.
  - injection Hs as <-. by split.
  - injection Hs as <-. by split.
  - injection Hs as <-. split; cbn; auto.
  - injection Hs as <-. split; cbn; auto. naive_solver.
  - unfold join in Hs. case_decide; [|done]. cbn in Hs. injection Hs as <-. by split.
  - done.
Qed.

Lemma worker_tidy n w w' : tidy n w -> worker_step w = Some w' \/ timeout_step w = Some w' -> tidy n w'.
Proof.
  intros [Hn Hp Hl Hq] Hs.
  assert (main_ w' = main_ w /\ loaders_ w' = loaders_ w /\ worker_ w <> Ended) as (Em & El & He).
  { unfold worker_step, timeout_step in Hs. destruct Hs as [Hs|Hs]; repeat case_match; simplify_eq; done. }
  split; rewrite ?Em, ?El; try done. destruct (main_ w); try done; [| ].
  - destruct Hq as [|Hq]; [done|]. unfold worker_step, timeout_step in Hs.
    destruct Hs as [Hs|Hs]; repeat case_match; simplify_eq; cbn; rewrite ?Hq; auto.
  - destruct Hq as [|[Hq Hw]]; [done|]. unfold worker_step, timeout_step in Hs.
    destruct Hs as [Hs|Hs]; repeat case_match; simplify_eq; cbn; rewrite ?Hq; cbn; auto; right; naive_solver.
Qed.

Lemma post_tidy n w i : tidy n w -> tidy n (post i w).
Proof.
  intros [Hn Hp Hl Hq]. unfold post. destruct (_ && _); [|done]. split; cbn; try done. destruct (main_ w); naive_solver.
Qed.

Lemma step_tidy n w t : tidy n w -> tidy n (step w t).
Proof.
  intros Ht. destruct t; cbn.
  - destruct (main_step w) eqn:Hs; cbn; [by eapply main_tidy|done].
  - destruct (worker_step w) eqn:Hs; cbn; [by eapply worker_tidy; [|left]|done].
  - destruct (timeout_step w) eqn:Hs; cbn; [by eapply worker_tidy; [|right]|done].
  - by apply post_tidy.
Qed.

Lemma exec_tidy n w sched : tidy n w -> tidy n (exec w sched).
Proof. revert w. induction sched as [|t sched IH]; intros w Hw; cbn; [done|]. by apply IH, step_tidy. Qed.

Lemma returned_tidy n p q sig : tidy n (returned n p q sig).
Proof.
  split; cbn; [by rewrite length_replicate|lia| |done]. intros j l Hj. by apply lookup_replicate in Hj as [-> _].
Qed.

Lemma exec_app w s1 s2 : exec w (s1 ++ s2) = exec (exec w s1) s2.
Proof. apply foldl_app. Qed.

(** ** Counting down *)

(** A count that no move increases and that the moves of [t] decrease is zero after as
    many of them, whatever comes in between. *)
Lemma countdown (I : World -> Prop) (f : World -> nat) (t : Move) :
  (forall w m, I w -> I (step w m)) -> (forall w m, I w -> (f (step w m) <= f w)%nat) ->
  (forall w, I w -> (f (step w t) <= pred (f w))%nat) ->
  forall sched k w, I w -> replicate k t `sublist_of` sched -> (f w <= k)%nat -> f (exec w sched) = 0%nat.
Proof.
  intros HI Hle Hlt. induction sched as [|m sched IH]; intros k w Hw Hsub Hk; cbn.
  - apply sublist_nil_r in Hsub. destruct k; [lia|done].
  - destruct k as [|k]; [apply (IH 0%nat); [by apply HI|apply sublist_nil_l|specialize (Hle w m Hw); lia]|].
    cbn in Hsub. apply sublist_cons_r in Hsub as [Hsub|(l & Heq & Hsub)].
    + apply (IH (S k)); [by apply HI|done|specialize (Hle w m Hw); lia].
    + injection Heq as <- <-. apply (IH k); [by apply HI|done|specialize (Hlt w Hw); lia].
Qed.

(** *** The main thread comes to wait for the handler thread *)

Lemma main_position n w : tidy n w ->
  position n (main_ (step w MainThread)) = S (position n (main_ w)) \/ (2 * n + 5 <= position n (main_ w) /\ position n (main_ w) <= position n (main_ (step w MainThread)))%nat.
Proof.
  intros [Hn Hp Hl Hq]. cbn [step]. unfold main_step. destruct (main_ w) as [i|i| | | | | |] eqn:Hm; cbn; rewrite ?Hm; cbn; try (left; lia).
  - left. destruct (Nat.ltb_spec i (length (loaders_ w))); cbn; lia.
  - right. unfold join. case_decide; cbn; rewrite ?Hm; cbn; lia.
  - right. lia.
Qed.

Lemma other_position w t : t <> MainThread -> main_ (step w t) = main_ w.
Proof.
  destruct t; cbn; [done|..]; intros _; unfold worker_step, timeout_step, post; repeat case_match; done.
Qed.

Lemma step_position n w t : tidy n w -> (position n (main_ w) <= position n (main_ (step w t)))%nat.
Proof.
  intros Ht. destruct t; [destruct (main_position n w Ht); lia|rewrite other_position by done; lia..].
Qed.

Lemma main_waits n w sched :
  tidy n w -> replicate (2 * n + 5) MainThread `sublist_of` sched -> (2 * n + 5 <= position n (main_ (exec w sched)))%nat.
Proof.
  intros Ht Hs. enough (2 * n + 5 - position n (main_ (exec w sched)) = 0)%nat by lia.
  apply (countdown (tidy n) (fun w => 2 * n + 5 - position n (main_ w))%nat MainThread) with (k := (2 * n + 5)%nat); try done; [..|lia].
  - intros. by apply step_tidy.
  - intros w0 m H0. pose proof (step_position n w0 m H0). lia.
  - intros w0 H0. destruct (main_position n w0 H0); lia.
Qed.

(** *** The handler thread ends *)

(** The steps left to the thread when it has to stop. *)
Definition rounds (p : Worker) : nat := match p with Ended => 0 | Check_ => 1 | Waiting | Inside _ => 2 | Locked _ => 3 | Top => 4 end.

Definition disposed (n : nat) (w : World) : Prop := tidy n w /\ (2 * n + 5 <= position n (main_ w))%nat.

Lemma step_disposed n w t : disposed n w -> disposed n (step w t).
Proof. intros [Ht Hp]. split; [by apply step_tidy|]. pose proof (step_position n w t Ht). lia. Qed.

Lemma exec_disposed n w sched : disposed n w -> disposed n (exec w sched).
Proof. revert w. induction sched as [|t sched IH]; intros w Hw; cbn; [done|]. by apply IH, step_disposed. Qed.

Lemma disposed_flags n w : disposed n w ->
  worker_ w = Ended \/ (proceed_ w = false /\ (worker_ w = Top \/ worker_ w = Waiting -> signaled w = true)).
Proof. intros [[Hn Hp Hl Hq] Hpos]. destruct (main_ w); cbn in Hpos; try lia; auto. Qed.

Lemma main_worker w : worker_ (step w MainThread) = worker_ w.
Proof.
  cbn. unfold main_step, join. destruct (main_ w); cbn; try done; [by destruct (_ <? _)%nat|by case_decide].
Qed.

Lemma post_worker w i : worker_ (step w (Post i)) = worker_ w.
Proof. cbn. unfold post. by destruct (_ && _). Qed.

Lemma handler_rounds n w : disposed n w -> (rounds (worker_ (step w HandlerThread)) <= pred (rounds (worker_ w)))%nat.
Proof.
  intros Hd. destruct (disposed_flags n w Hd) as [He|[Hp Hs]]; cbn; unfold worker_step; [by rewrite He; cbn; rewrite He|].
  destruct (worker_ w) as [| | |i|i|] eqn:Hw; cbn; rewrite ?Hp, ?Hw; cbn; try lia.
  - destruct (queue w) as [|j q]; cbn; [lia|]. destruct (owns w j); cbn; lia.
  - rewrite Hs by auto. cbn. lia.
  - destruct (is_open w i); cbn; lia.
Qed.

Lemma rounds_step n w t : disposed n w -> (rounds (worker_ (step w t)) <= rounds (worker_ w))%nat.
Proof.
  intros Hd. destruct t.
  - by rewrite main_worker.
  - pose proof (handler_rounds n w Hd). lia.
  - cbn. unfold timeout_step. destruct (worker_ w) eqn:Hw; cbn; rewrite ?Hw; cbn; lia.
  - by rewrite post_worker.
Qed.

Lemma handler_ends n w sched :
  disposed n w -> replicate 4 HandlerThread `sublist_of` sched -> worker_ (exec w sched) = Ended.
Proof.
  intros Hd Hs. assert (rounds (worker_ (exec w sched)) = 0%nat) as Hr; [|by destruct (worker_ (exec w sched))].
  apply (countdown (disposed n) (fun w => rounds (worker_ w)) HandlerThread) with (k := 4%nat); try done.
  - intros. by apply step_disposed.
  - intros. by apply (rounds_step n).
  - intros. by apply (handler_rounds n).
  - destruct (worker_ w); cbn; lia.
Qed.

(** *** The main thread goes on *)

Definition stopped (n : nat) (w : World) : Prop := disposed n w /\ worker_ w = Ended.

Lemma step_stopped n w t : stopped n w -> stopped n (step w t).
Proof.
  intros [Hd He]. split; [by apply step_disposed|]. pose proof (rounds_step n w t Hd) as Hr. rewrite He in Hr.
  destruct (worker_ (step w t)); cbn in Hr; done || lia.
Qed.

Lemma disposed_main n w : disposed n w -> main_ w = Join \/ main_ w = Finished.
Proof. intros [[_ Hi _ _] Hp]. destruct (main_ w) as [i|i| | | | | |]; cbn in Hp; auto; lia. Qed.

Definition unfinished (w : World) : nat := match main_ w with Finished => 0 | _ => 1 end.

Lemma unfinished_main n w : stopped n w -> unfinished (step w MainThread) = 0%nat.
Proof.
  intros [Hd He]. unfold unfinished. cbn. unfold main_step, join.
  destruct (disposed_main n w Hd) as [Hm|Hm]; rewrite Hm; cbn; [by rewrite decide_True|by rewrite Hm].
Qed.

Lemma main_finishes n w sched :
  stopped n w -> [MainThread] `sublist_of` sched -> main_ (exec w sched) = Finished.
Proof.
  intros Hw Hs. enough (unfinished (exec w sched) = 0%nat) as Hf by (unfold unfinished in Hf; by destruct (main_ (exec w sched))).
  apply (countdown (stopped n) unfinished MainThread) with (k := 1%nat); try done.
  - intros. by apply step_stopped.
  - intros w0 m H0. destruct m; [rewrite (unfinished_main n) by done; lia|unfold unfinished; rewrite other_position by done; lia..].
  - intros w0 H0. rewrite (unfinished_main n) by done. lia.
  - unfold unfinished. destruct (main_ w); lia.
Qed.

(** ** The callbacks *)

(** Whose subscribers are dropped gets no new callback. *)
Lemma owns_step w t i : owns w i = false -> owns (step w t) i = false.
Proof.
  intros Ho. assert (loaders_ (step w t) = loaders_ w \/ exists j f, loaders_ (step w t) = alter f j (loaders_ w)
    /\ forall l, subscribed (f l) = true -> subscribed l = true) as [Hl|(j & f & Hl & Hf)].
  { destruct t; cbn; unfold main_step, join, worker_step, timeout_step, post; repeat case_match; cbn; auto; right;
      eexists _, _; (split; [reflexivity|]); done. }
  - unfold owns in *. by rewrite Hl.
  - unfold owns in *. rewrite Hl. destruct (decide (i = j)) as [->|Hne]; [|by rewrite list_lookup_alter_ne].
    rewrite list_lookup_alter_eq. destruct (loaders_ w !! j) as [l|]; [|done]. cbn. destruct (subscribed (f l)) eqn:E; [|done].
    by rewrite (Hf l E) in Ho.
Qed.

Lemma busy_step w t i : owns w i = false -> ~ busy w i -> ~ busy (step w t) i.
Proof.
  unfold busy. intros Ho Hb. destruct t; rewrite ?main_worker, ?post_worker; try done; cbn.
  - unfold worker_step. destruct (worker_ w) as [| | |j|j|] eqn:Hw; cbn; rewrite ?Hw; try naive_solver.
    + destruct (proceed_ w); naive_solver.
    + destruct (queue w) as [|j q]; cbn; [naive_solver|]. destruct (owns w j) eqn:Hj; [|naive_solver].
      intros [[= ->]|[=]]. congruence.
    + destruct (signaled w); cbn; rewrite ?Hw; naive_solver.
    + destruct (is_open w j); cbn; naive_solver.
  - unfold timeout_step. destruct (worker_ w) eqn:Hw; cbn; rewrite ?Hw; naive_solver.
Qed.

Lemma busy_exec w sched i : owns w i = false -> ~ busy w i -> ~ busy (exec w sched) i.
Proof.
  revert w. induction sched as [|t sched IH]; intros w Ho Hb; cbn; [done|]. apply IH; [by apply owns_step|by apply busy_step].
Qed.

Lemma closed_dropped n w i l : tidy n w -> loaders_ w !! i = Some l -> opened l = false -> subscribed l = false.
Proof.
  intros [_ _ Hl _] Hi. rewrite (Hl i l Hi). unfold loader_at. destruct (main_ w); repeat case_match; done.
Qed.

Lemma all_given_up n w : tidy n w -> main_ w = Finished -> loaders_ w = replicate n (MkLoaderState false false).
Proof.
  intros [Hn _ Hl _] Hm. rewrite Hm in Hl. rewrite <-Hn. apply list_eq. intros j. destruct (loaders_ w !! j) as [l|] eqn:Hj.
  - apply lookup_lt_Some in Hj as Hlt. rewrite (Hl j l Hj). symmetry. by apply lookup_replicate.
  - symmetry. apply lookup_replicate_None. by apply lookup_ge_None in Hj.
Qed.

(** ** Theorems *)

(** C12: the end of [run_node], with [n] loaders, whatever the handler thread is doing when
    the application returns, whatever tasks are pending or are still posted by callbacks
    and other threads, and however the threads interleave. The teardown ends: in every
    schedule in which the main thread gets its [2n+5] steps up to the join, then the
    handler thread four, then the main thread one (with anything in between, and without
    any timeout of the wait), the thread is gone, every loader has dropped its subscribers
    and every library is closed. A library is closed only after its loader has dropped its
    subscribers. And once a loader has dropped its subscribers, a callback of it that is
    not under way is never begun again: so the code of a closed library is entered or
    executed only by a callback that was under way when the subscribers were dropped. *)
Theorem teardown_ends n p q sig sched :
  let w := exec (returned n p q sig) sched in
  (replicate (2 * n + 5) MainThread ++ replicate 4 HandlerThread ++ [MainThread] `sublist_of` sched ->
   main_ w = Finished /\ worker_ w = Ended /\ loaders_ w = replicate n (MkLoaderState false false))
  /\ (forall i l, loaders_ w !! i = Some l -> opened l = false -> subscribed l = false)
  /\ (forall i sched', owns w i = false -> ~ busy w i -> ~ busy (exec w sched') i).
Proof.
  cbn zeta. pose proof (exec_tidy n _ sched (returned_tidy n p q sig)) as Ht. split; [|split].
  - intros (s1 & s' & -> & H1 & (s2 & s3 & -> & H2 & H3)%sublist_app_l)%sublist_app_l. rewrite !exec_app in *.
    set (w1 := exec (returned n p q sig) s1) in *.
    assert (disposed n w1) as Hd1 by (split; [by apply exec_tidy, returned_tidy|by apply main_waits; [apply returned_tidy|]]).
    pose proof (exec_disposed n w1 s2 Hd1) as Hd2.
    pose proof (main_finishes n (exec w1 s2) s3 (conj Hd2 (handler_ends n w1 s2 Hd1 H2)) H3) as Hf.
    split; [done|]. split; [|by apply all_given_up]. destruct Ht as [_ _ _ He]. by rewrite Hf in He.
  - intros i l. by apply (closed_dropped n).
  - intros i sched'. apply busy_exec.
Qed.

(** A callback that is under way may go wrong: the loaders are destroyed before the handler
    thread is joined, so a callback that is running when the application returns can find
    its library closed under it. *)
Theorem teardown_race : exists sched, unsafe (exec (returned 1 Check_ [0%nat] false) sched).
Proof.
  exists [HandlerThread; HandlerThread; HandlerThread; MainThread; MainThread]. exists 0%nat. vm_compute. done.
Qed.

(** Two loaders; the thread takes a task of the second while the first goes, a third task
    is posted, and then the thread waits until the disposal wakes it. *)
Lemma teardown_ends_witness :
  let sched := [HandlerThread; HandlerThread; MainThread; Post 1; HandlerThread; HandlerThread; MainThread]
    ++ replicate 9 MainThread ++ [HandlerThread; HandlerThread; Post 0; HandlerThread; HandlerThread; MainThread] in
  let w := exec (returned 2 Check_ [1%nat] false) sched in
  main_ w = Finished /\ worker_ w = Ended /\ loaders_ w = replicate 2 (MkLoaderState false false).
Proof.
  apply (teardown_ends 2 Check_ [1%nat] false).
  do 7 apply sublist_cons. cbn. repeat first [apply sublist_skip|apply sublist_cons|apply sublist_nil].
Defined.

End Teardown.
