(* ===== verification/ChainSpec.v ===== *)
(** * ChainSpec: reading the chain specification

    [src/src/app/impl/chain_spec_impl.cpp] and [chain_spec_impl.hpp].  The JSON reader
    and the decoding of hexadecimal text are parameters. *)

From S2P Require Import Prelude.

Module ChainSpec.

(** [boost::property_tree::ptree] *)
Inductive ptree : Type := Tree (data : string) (children : list (string * ptree)).

Definition data (t : ptree) : string := let '(Tree d _) := t in d.

(** [get_child_optional(key)] for a key without separator. *)
Definition get_child_optional (t : ptree) (key : string) : option ptree :=
  let '(Tree _ cs) := t in snd <$> (snd <$> list_find (fun p => p.1 = key) cs).

Inductive Error : Type := MISSING_ENTRY | MISSING_PEER_ID | PARSER_ERROR | NOT_IMPLEMENTED | HexError (code : Z).

#[export] Instance Error_eq_dec : EqDecision Error.
Proof. solve_decision. Defined.

Definition error_message (e : Error) : string :=
  match e with
  | MISSING_ENTRY => "A required entry is missing in the config file"
  | MISSING_PEER_ID => "Peer id is missing in a multiaddress provided in the config file"
  | PARSER_ERROR => "Internal parser error"
  | NOT_IMPLEMENTED => "Known entry name, but parsing not implemented"
  | HexError _ => "Unknown error in ChainSpecImpl"
  end.

Abbreviation result := (run Error).

Record ChainSpecImpl : Type := MkChainSpec {
  id_ : string;
  boot_nodes_ : list string;
  genesis_header_ : list Z;
  genesis_state_ : list (list Z * list Z)
}.

Definition fresh : ChainSpecImpl := MkChainSpec "" [] [] [].

Section operations.
Context (fromHex : string -> list Z + Z).        (** [qtils::ByteVec::fromHex] *)
Context (read_json : string -> option ptree).    (** [None]: [json_parser_error] *)

Definition ensure {A} (opt_entry : option A) : result A :=
  match opt_entry with None => Fail MISSING_ENTRY | Some a => mret a end.

Definition loadFields (tree : ptree) (c : ChainSpecImpl) : result ChainSpecImpl :=
  id ← ensure (get_child_optional tree "id");
  mret (MkChainSpec (data id) (boot_nodes_ c) (genesis_header_ c) (genesis_state_ c)).

Definition loadGenesis (tree : ptree) (c : ChainSpecImpl) : result ChainSpecImpl :=
  genesis_header_hex ← ensure (get_child_optional tree "genesis_header");
  match fromHex (data genesis_header_hex) with
  | inl encoded => mret (MkChainSpec (id_ c) (boot_nodes_ c) encoded (genesis_state_ c))
  | inr code => Fail (HexError code)
  end.

Definition loadBootNodes (tree : ptree) (c : ChainSpecImpl) : result ChainSpecImpl := mret c.

Definition loadFromJson (file_path : string) (c : ChainSpecImpl) : result ChainSpecImpl :=
  match read_json file_path with
  | None => Fail PARSER_ERROR
  | Some tree => c ← loadFields tree c; c ← loadGenesis tree c; loadBootNodes tree c
  end.

(** The constructor raises the error. *)
Definition construct (specFile : string) : run Empty_set ChainSpecImpl :=
  match loadFromJson specFile fresh with
  | Done c => mret c
  | Fail e => Raise (error_message e)
  | Raise w => Raise w
  | Undef => Undef
  end.

(** The constructor succeeds exactly on files with both entries and a header in
    hexadecimal, and then holds what the file says. *)
Lemma construct_spec path c :
  construct path = Done c <->
  exists tree id header bytes, read_json path = Some tree /\ get_child_optional tree "id" = Some id
    /\ get_child_optional tree "genesis_header" = Some header /\ fromHex (data header) = inl bytes
    /\ c = MkChainSpec (data id) [] bytes [].
Proof.
  unfold construct, loadFromJson, loadFields, loadGenesis, ensure. split.
  - destruct (read_json path) as [tree|]; [|done]. destruct (get_child_optional tree "id") as [id|] eqn:Hid; cbn; [|done].
    destruct (get_child_optional tree "genesis_header") as [h|] eqn:Hh; cbn; [|done].
    destruct (fromHex (data h)) as [b|e] eqn:Hx; cbn; [|done]. intros [= <-]. by exists tree, id, h, b.
  - intros (tree & id & h & b & -> & -> & -> & Hx & ->). cbn. by rewrite Hx.
Qed.

End operations.
End ChainSpec.
