(* ===== verification/Node.v ===== *)
(** * Node: the program

    [main] and [run_node] of [src/src/executable/jam_node.cpp] and
    [ApplicationImpl::run] of [src/src/app/impl/application_impl.cpp], composed of the
    configurator, the module loader, the loaders, the state manager and the watchdog. *)

From S2P Require Import Prelude Parsers Utils Modules Loaders LoadersSpec Configurator ConfiguratorSpec StateManager StateManagerSpec Watchdog.

Module Node.
Import (hints) StateManager.StateManager.

Definition EXIT_SUCCESS : Z := 0.
Definition EXIT_FAILURE : Z := 1.

(** ** The application *)

(** How [ApplicationImpl::run] ends: it returns; an exception leaves it while the
    watchdog thread is joinable, and [std::terminate] is called; or it has not ended. *)
Inductive Ended : Type := Returned | Terminated | Running.

(** The identity of the callback that stops the watchdog. *)
Definition stop_watchdog : nat := 0%nat.

(** [request]: whether a shutdown is requested while the node works. *)
Definition app_run (request : bool) (fuel : nat) (m : StateManager.Manager) (w : Watchdog.Watchdog) :
    StateManager.Manager * Watchdog.Watchdog * Ended :=
  let prog := StateManager.atShutdown (StateManager.MkAction stop_watchdog [] true);; StateManager.run true request fuel in
  match prog m with
  | (m, inl _) => (m, Watchdog.stop w, Returned)
  | (m, inr (StateManager.StillWaiting | StateManager.OutOfFuel)) => (m, w, Running)
  | (m, inr _) => (m, w, Terminated)
  end.

Section program.
Context `{C : ConfigEnv} `{B : EventBus Loaders.chan Loaders.handler}.

(** What the process meets: the two runs of the option parser, the files, the logging
    library, the directories, the addresses of module instances, how the construction
    of the application ends, and whether a shutdown is requested while it works. *)
Record World : Type := MkWorld {
  argc : Z;
  argv1 : string;
  parsed_min : option Configurator.variables_map;
  load_file : string -> option Configurator.Node;
  empty_yaml : Configurator.Node;
  logging_has_error : Configurator.Node -> bool;
  parsed_all : option Configurator.variables_map;
  start_dir : string;
  directory_of : string -> option (list Modules.Entry);
  address_of : nat -> Z;
  injectApplication : Configurator.Configuration -> run unit (StateManager.Manager * Watchdog.Watchdog);
  shutdown_requested : bool;
  app_fuel : nat
}.

(** The loop over the modules in [run_node]. *)
Definition register_all (w : World) (mods : list Modules.Module) (st : Loaders.Node) : Loaders.Node * nat :=
  foldl (fun '(st, loaders) m =>
    let '(st, loader) := Loaders.register_loader m (address_of w (length (Loaders.instances st))) st in
    match loader with None => (st, loaders) | Some _ => (st, S loaders) end) (st, 0%nat) mods.

(** [run_node]: the exit code and the modules' side of the node when the application
    has ended. [Fail] stands for a program that has not ended: neither an exit code nor
    an exception. *)
Definition run_node (w : World) (appcfg : Configurator.Configuration) : run unit (Z * Loaders.Node) :=
  let path := Configurator.modules_dir_ appcfg in
  match (Modules.get_modules path (directory_of w path) []).2 with
  | Done modules =>
      let '(st, _) := register_all w modules Loaders.empty_node in
      app ← injectApplication w appcfg;
      match (app_run (shutdown_requested w) (app_fuel w) app.1 app.2).2 with
      | Returned => mret (EXIT_SUCCESS, st)
      | Terminated => Raise "terminate"
      | Running => Fail tt
      end
  | Fail _ => mret (EXIT_FAILURE, Loaders.empty_node)
  | Raise e => Raise e
  | Undef => Undef
  end.

(** An [outcome::result] looked at: value or error; exceptions and undefined behaviour
    stay what they are. *)
Definition looked_at {E A} (r : run E A) : run unit (A + E) :=
  match r with Done a => Done (inl a) | Fail e => Done (inr e) | Raise w => Raise w | Undef => Undef end.

Definition main (w : World) : run unit Z :=
  if (argc w =? 0) || (argc w =? 1) then mret EXIT_FAILURE
  else
    r ← looked_at (Configurator.step1 (parsed_min w) (load_file w));
    match r with
    | inr _ => mret EXIT_FAILURE
    | inl (true, _) => mret EXIT_SUCCESS
    | inl (false, config_file) =>
        lc ← looked_at (Configurator.getLoggingConfig config_file (empty_yaml w));
        match lc with
        | inr _ => mret EXIT_FAILURE
        | inl log_config =>
            if logging_has_error w log_config then mret EXIT_FAILURE
            else
              r ← looked_at (Configurator.step2 (parsed_all w));
              match r with
              | inr _ => mret EXIT_FAILURE
              | inl vm =>
                  cfg ← looked_at (Configurator.calculateConfig config_file vm (start_dir w));
                  match cfg with
                  | inr _ => mret EXIT_FAILURE
                  | inl configuration =>
                      if String.prefix "-" (argv1 w) then r ← run_node w configuration; mret r.1
                      else mret EXIT_FAILURE
                  end
              end
        end
    end.

End program.
End Node.
