(* ===== verification/NodeSpec.v ===== *)
(** * NodeSpec: when the program succeeds, and what it then does

    The exit code of [main] in terms of the command line, the files and the modules;
    the end of the application; the command line for which the behaviour is undefined;
    and what the loaded modules do in a node. *)

From S2P Require Import Prelude Parsers Utils Modules Loaders LoadersSpec EngineBus Configurator ConfiguratorSpec StateManager StateManagerSpec Watchdog Node.

Module NodeSpec.
Import Node.
Import (hints) Loaders.Loaders.

(** ** The application *)

(** The manager as [app_run] starts it: one more shutdown callback. *)
Definition with_stop (m : StateManager.Manager) : StateManager.Manager :=
  StateManager.MkManager (StateManager.state_ m) (StateManager.prepare_ m) (StateManager.launch_ m)
    (StateManager.shutdown_ m ++ [StateManager.MkAction stop_watchdog [] true]) (StateManager.shutting_down_signals_enabled m)
    (StateManager.log_rotate_signals_enabled m) (StateManager.sig_shutdown m) (StateManager.sig_hup m)
    (StateManager.wp_to_myself m) (StateManager.events m).

Lemma with_stop_total m : StateManagerSpec.total (with_stop m) = S (StateManagerSpec.total m).
Proof.
  unfold StateManagerSpec.total, with_stop. cbn [StateManager.prepare_ StateManager.launch_ StateManager.shutdown_].
  rewrite StateManagerSpec.weights_snoc, StateManagerSpec.weight_eq. change (StateManagerSpec.cweights []) with 0%nat. lia.
Qed.

Lemma app_run_eq request fuel m w :
  StateManager.state_ m = StateManager.Init \/ StateManager.state_ m = StateManager.ShuttingDown ->
  app_run request fuel m w = match StateManager.run true request fuel (with_stop m) with
                     | (m, inl _) => (m, Watchdog.stop w, Returned)
                     | (m, inr (StateManager.StillWaiting | StateManager.OutOfFuel)) => (m, w, Running)
                     | (m, inr _) => (m, w, Terminated)
                     end.
Proof.
  intros Hs. unfold app_run, StateManager.atShutdown, mbind, StateManager.M_bind, StateManager.get, StateManager.set_shutdown.
  rewrite (proj2 (Z.ltb_ge _ _)) by (destruct Hs as [->| ->]; cbn; lia). done.
Qed.

(** The run of the application, for any callbacks: it returns with the state manager
    ready to stop, all shutdown callbacks done and the watchdog stopped; or a callback
    registered for a stage that was over and the process terminates; or nobody requests
    a shutdown and the node keeps working. When the callbacks leave the manager alone
    and a shutdown is requested, it always returns, and the callback that stops the
    watchdog is the last one executed. *)
Theorem app_run_ends request fuel m w :
  StateManager.state_ m = StateManager.Init -> (StateManagerSpec.total m < fuel)%nat ->
  match app_run request fuel m w with
  | (m', w', Returned) =>
      StateManager.state_ m' = StateManager.ReadyToStop /\ StateManager.shutdown_ m' = [] /\ Watchdog.stopped_ w' = true
  | (_, _, Terminated) =>
      exists m' e, StateManager.run true request fuel (with_stop m) = (m', inr e) /\ StateManagerSpec.late_registration e
  | (m', _, Running) => request = false /\ StateManager.state_ m' = StateManager.Works
  end
  /\ (Forall StateManagerSpec.plain (StateManager.prepare_ m ++ StateManager.launch_ m ++ StateManager.shutdown_ m) -> request = true ->
      exists m', app_run request fuel m w = (m', Watchdog.stop w, Returned)
        /\ exists evs, StateManager.events m' = evs ++ [StateManager.RanShutdown stop_watchdog]).
Proof.
  intros Hs Hf. rewrite app_run_eq by auto.
  assert (StateManagerSpec.total (with_stop m) <= fuel)%nat as Hf' by (rewrite with_stop_total; lia). split.
  - pose proof (StateManagerSpec.triple_run fuel request (StateManagerSpec.total (with_stop m)) Hf' (with_stop m) (conj (or_introl Hs) (le_n _))) as Hr.
    pose proof (StateManagerSpec.waiting_works request fuel (with_stop m)) as Hw.
    destruct (StateManager.run true request fuel (with_stop m)) as [m' [[]|e]]; cbn; [tauto|].
    destruct Hr as [[->| ->]|[-> ->]]; unfold StateManagerSpec.late_registration; [by eauto..|]. split; [done|]. apply (Hw m'); auto.
  - rewrite !Forall_app. intros (Hp & Hl & Hh) ->.
    assert (forall q, (length q <= StateManagerSpec.weights q)%nat) as Hq.
    { intros q. unfold StateManagerSpec.weights. induction q as [|cb q IH]; cbn; [done|]. pose proof (StateManagerSpec.weight_pos cb). lia. }
    pose proof (Hq (StateManager.prepare_ m)). pose proof (Hq (StateManager.launch_ m)). pose proof (Hq (StateManager.shutdown_ m)).
    unfold StateManagerSpec.total in Hf.
    destruct (StateManagerSpec.run_order true fuel (with_stop m)) as (m' & -> & _ & He); cbn; [done|by left|done|done| |lia|lia|rewrite length_app; cbn; lia|].
    { apply Forall_app. split; [done|]. by apply Forall_singleton. }
    exists m'. split; [done|]. rewrite He. cbn. unfold StateManagerSpec.names. rewrite fmap_app. cbn.
    eexists. rewrite !(assoc_L (++)). done.
Qed.

(** ** The program *)

Section program.
Context `{C : ConfigEnv} `{B : EventBus Loaders.chan Loaders.handler} {BO : EventBusOk B}.
Implicit Types (w : World) (vm : Configurator.variables_map) (c : Configurator.Configuration).

Definition asks_for_information vm : Prop := is_Some (vm !! "help"%string) \/ is_Some (vm !! "version"%string).

(** The node runs to its end: the modules are found, the application is made and its
    run returns. *)
Definition node_returns w c : Prop :=
  let path := Configurator.modules_dir_ c in
  exists modules app, (Modules.get_modules path (directory_of w path) []).2 = Done modules
    /\ injectApplication w c = Done app /\ (app_run (shutdown_requested w) (app_fuel w) app.1 app.2).2 = Returned.

(** The way of [main] through the configuration to the node. *)
Definition node_succeeds w vm : Prop :=
  exists a path root all c,
    vm !! "config"%string = Some a /\ Configurator.as_str (Configurator.arg a) = Some path /\ load_file w path = Some root
    /\ logging_has_error w (if IsDefined (child root "logging") then child root "logging" else empty_yaml w) = false
    /\ parsed_all w = Some all /\ ConfiguratorSpec.answer (Some root) all = Done c
    /\ String.prefix "-" (argv1 w) = true /\ node_returns w c.

Lemma run_node_success w c : (exists st, run_node w c = Done (EXIT_SUCCESS, st)) <-> node_returns w c.
Proof.
  unfold run_node, node_returns. destruct (Modules.get_modules _ _ _).2 as [mods|e|e|]; [|naive_solver..].
  destruct (register_all w mods _) as [st n]. destruct (injectApplication w c) as [app|e|e|]; cbn [mbind run_bind]; [|naive_solver..].
  destruct (app_run _ _ app.1 app.2).2 eqn:Ha; cbn; [naive_solver|..]; (split; [by intros [st' ?]|]);
    intros (mods' & app' & _ & [= <-] & Hr); by rewrite Ha in Hr.
Qed.

Lemma run_node_code w c r : run_node w c = Done r -> r.1 = EXIT_SUCCESS \/ r.1 = EXIT_FAILURE.
Proof.
  unfold run_node. destruct (Modules.get_modules _ _ _).2 as [mods|e|e|]; [|by intros [= <-]; right|done..].
  destruct (register_all w mods _) as [st n]. destruct (injectApplication w c) as [app|e|e|]; cbn [mbind run_bind]; [|done..].
  destruct (app_run _ _ app.1 app.2).2; [|done..]. intros [= <-]. by left.
Qed.

Lemma looked_at_config file all cwd :
  ConfiguratorSpec.typed all ->
  looked_at (Configurator.calculateConfig file all cwd) = looked_at (ConfiguratorSpec.answer file all).
Proof. intros Ht. by rewrite ConfiguratorSpec.config_answer. Qed.

(** No success on this branch. *)
Ltac opened := repeat match goal with
  | H : _ /\ _ |- _ => destruct H
  | H : _ \/ _ |- _ => destruct H
  | H : exists _, _ |- _ => destruct H
  end.
Ltac no_success := unfold EXIT_FAILURE, EXIT_SUCCESS; split; [first [done|intros [=]]|intros; opened; simplify_eq; congruence].

(** The last part of [main], with the command line parsed. *)
Lemma configured w file all :
  ConfiguratorSpec.typed all ->
  (cfg ← looked_at (Configurator.calculateConfig file all (start_dir w));
   match cfg with
   | inr _ => mret EXIT_FAILURE
   | inl configuration =>
       if String.prefix "-" (argv1 w) then r ← run_node w configuration; mret r.1 else mret EXIT_FAILURE
   end) = Done EXIT_SUCCESS
  <-> exists c, ConfiguratorSpec.answer file all = Done c /\ String.prefix "-" (argv1 w) = true /\ node_returns w c.
Proof.
  intros Ht. rewrite looked_at_config by done. destruct (ConfiguratorSpec.answer file all) as [c|e|e|]; cbn [looked_at mbind run_bind]; [|no_success..].
  destruct (String.prefix "-" (argv1 w)); [|no_success]. transitivity (node_returns w c); [|naive_solver].
  rewrite <-run_node_success. destruct (run_node w c) as [[code st]|e|e|]; cbn; [|no_success..].
  split; [intros [= ->]; by eexists|by intros [st' [= -> ->]]].
Qed.

(** C32: the program succeeds exactly when it was only asked for help or its version,
    or when all of the following hold: a configuration file was given and loaded, the
    logging system accepts its section, the command line parses and gives a valid
    configuration together with the file, the first argument is an option, the modules
    load, and the application is made and its run returns (it does not return while
    nobody requests a shutdown and no callback fails). *)
Theorem main_succeeds_iff w :
  (forall all, parsed_all w = Some all -> ConfiguratorSpec.typed all) ->
  main w = Done EXIT_SUCCESS
  <-> argc w <> 0 /\ argc w <> 1
      /\ exists vm, parsed_min w = Some vm /\ (asks_for_information vm \/ (~ asks_for_information vm /\ node_succeeds w vm)).
Proof.
  intros Ht. unfold main.
  destruct (argc w =? 0) eqn:H0; cbn [orb]; [split; [done|lia]|]. destruct (argc w =? 1) eqn:H1; [split; [done|lia]|].
  apply Z.eqb_neq in H0, H1.
  destruct (parsed_min w) as [vm|]; cbn [Configurator.step1 looked_at mbind run_bind]; [|by split; [|intros (_ & _ & vm & ? & _)]].
  case_bool_decide as Hh; [split; [intros _; split_and!; [done..|]; exists vm; unfold asks_for_information; auto|done]|].
  case_bool_decide as Hv; [split; [intros _; split_and!; [done..|]; exists vm; unfold asks_for_information; auto|done]|].
  assert (~ asks_for_information vm) as Hn by (intros [?|?]; done).
  transitivity (node_succeeds w vm); [|naive_solver]. unfold node_succeeds.
  destruct (vm !! "config"%string) as [a|]; cbn [mbind run_bind looked_at mret run_ret Configurator.getLoggingConfig]; [|no_success].
  destruct (Configurator.as_str _) as [path|] eqn:Hp; cbn [value mbind run_bind looked_at mret run_ret]; [|no_success].
  destruct (load_file w path) as [root|] eqn:Hl; cbn [mbind run_bind looked_at mret run_ret Configurator.getLoggingConfig]; [|no_success].
  set (lc := if IsDefined (child root "logging") then child root "logging" else empty_yaml w).
  replace (if IsDefined (child root "logging") then mret (child root "logging") else mret (empty_yaml w)) with
    (Done (E := Configurator.Error) lc) by (subst lc; by destruct (IsDefined _)).
  cbn [looked_at mbind run_bind]. destruct (logging_has_error w lc) eqn:He; [subst lc; no_success|].
  destruct (parsed_all w) as [all|] eqn:Ha; cbn [Configurator.step2 looked_at mbind run_bind mret run_ret]; [|no_success].
  rewrite configured by auto. split.
  - intros (c & ? & ? & ?). by exists a, path, root, all, c.
  - intros (? & ? & ? & ? & c & ? & ? & ? & ? & ? & ? & ? & ?). simplify_eq. by exists c.
Qed.

(** A command line that is parsed but gives no configuration file, and asks neither
    for help nor for the version, leads to undefined behaviour: the section of the
    logging system is read through an empty optional. *)
Theorem main_without_config w vm :
  1 < argc w -> parsed_min w = Some vm -> ~ asks_for_information vm -> vm !! "config"%string = None -> main w = Undef.
Proof.
  intros Ha Hp Hn Hc. unfold main. rewrite (proj2 (Z.eqb_neq _ _)), (proj2 (Z.eqb_neq _ _)) by lia. cbn [orb].
  rewrite Hp. unfold asks_for_information in Hn. cbn [Configurator.step1].
  rewrite !bool_decide_eq_false_2 by tauto. rewrite Hc. done.
Qed.

(** ** The modules of a running node *)

(** Only the notifications of the loaders themselves are under way. *)
Definition only_loaded (st : Loaders.Node) : Prop :=
  LoadersSpec.inv st /\ Forall (fun t => t.1.2 = Loaders.on_init_complete_) (Loaders.tasks st) /\ Loaders.journal st = [].

Lemma loaded_callbacks k k' cb :
  ((Loaders.NoData, Loaders.loaded_event k), cb) ∈ Loaders.subscriptions k' -> cb = Loaders.on_init_complete_.
Proof. destruct k, k'; cbn; set_unfold; naive_solver. Qed.

Lemma notify_adds (st : Loaders.Node) e m :
  Loaders.tasks (Loaders.notify st e m) = Loaders.tasks st ++ ((fun h => (h, m)) <$> heard (Loaders.se_manager_ st) (Loaders.data_of m, e))
  /\ Loaders.journal (Loaders.notify st e m) = Loaders.journal st.
Proof. unfold Loaders.notify, heard. by destruct (emit _ _). Qed.

Lemma start_only_loaded k accessor addr st : only_loaded st -> only_loaded (Loaders.start k accessor addr st).
Proof.
  intros (Hi & Ht & Hj). split; [by apply LoadersSpec.node_inv_start|]. unfold Loaders.start. destruct accessor; cbn [negb]; [|done].
  set (st1 := Loaders.MkNode _ _ _ _). destruct (notify_adds st1 (Loaders.loaded_event k) Loaders.Nothing) as [-> ->].
  split; [|done]. apply Forall_app. split; [done|]. apply Forall_fmap, Forall_forall. intros h Hin. cbn.
  apply (LoadersSpec.subscribed_heard (length (Loaders.instances st)) (Loaders.subscriptions k) _ _ (LoadersSpec.inv_bus _ Hi))
    in Hin as [Hold|[_ Hnew]]; [|by eapply loaded_callbacks].
  destruct (LoadersSpec.inv_heard _ Hi _ _ Hold) as (x & _ & Hx). by eapply loaded_callbacks.
Qed.

Lemma register_all_only_loaded w mods st : only_loaded st -> only_loaded (register_all w mods st).1.
Proof.
  intros Hst. unfold register_all. generalize 0%nat as n. revert st Hst. induction mods as [|m mods IH]; intros st Hst n; cbn [foldl]; [done|].
  unfold Loaders.register_loader. destruct (Loaders.kind_of_loader _); [|by apply IH]. apply IH. by apply start_only_loaded.
Qed.

(** The tasks of loaded modules log their success and do nothing else. *)
Lemma drain_only_loaded st :
  LoadersSpec.inv st -> Forall (fun t => t.1.2 = Loaders.on_init_complete_) (Loaders.tasks st) ->
  exists st', Loaders.drain (length (Loaders.tasks st)) st = Done st' /\ Loaders.tasks st' = []
    /\ exists l, Loaders.journal st' = Loaders.journal st ++ l /\ Forall (fun x => exists k, x = Loaders.LoadedSuccess k) l.
Proof.
  remember (length (Loaders.tasks st)) as n eqn:Hn. revert st Hn. induction n as [|n IH]; intros st Hn Hi Ht; cbn [Loaders.drain].
  { destruct (Loaders.tasks st) eqn:E; [|done]. exists st. split_and!; [done..|]. exists []. by rewrite app_nil_r. }
  destruct (LoadersSpec.inv_execute st Hi) as (st1 & He & H1). pose proof He as He'. unfold Loaders.execute in He'.
  destruct (Loaders.tasks st) as [|[[i cb] m] rest]; [by cbn in Hn|]. apply Forall_cons in Ht as [Hcb Ht]. cbn in Hcb. subst cb.
  rewrite He. cbn [mbind run_bind].
  assert (Loaders.tasks st1 = rest /\ exists l, Loaders.journal st1 = Loaders.journal st ++ l
    /\ Forall (fun x => exists k, x = Loaders.LoadedSuccess k) l) as (Hr & l & Hl & Hf).
  { revert He'. unfold Loaders.call. cbn. destruct (Loaders.instances st !! i) as [x|]; [|done]. destruct (Loaders.alive x); intros [= <-]; cbn.
    - split; [done|]. eexists. split; [done|]. apply Forall_singleton. by eexists.
    - split; [done|]. exists []. by rewrite app_nil_r. }
  destruct (IH st1) as (st' & -> & Hn' & l' & Hl' & Hf'); [rewrite Hr; cbn in Hn; lia|done|by rewrite Hr|].
  exists st'. split_and!; [done..|]. exists (l ++ l'). rewrite Hl', Hl, (assoc_L (++)). split; [done|]. by apply Forall_app.
Qed.

(** A node never tells its modules that loading is finished: whatever modules
    [run_node] registers, the tasks it leaves for the handler thread end after one
    execution each, log that a module was loaded, and send no announcement, request or
    response. *)
Theorem run_node_quiet w mods :
  exists st', let st := (register_all w mods Loaders.empty_node).1 in
  Loaders.drain (length (Loaders.tasks st)) st = Done st' /\ Loaders.tasks st' = []
  /\ Forall (fun x => exists k, x = Loaders.LoadedSuccess k) (Loaders.journal st').
Proof.
  destruct (register_all_only_loaded w mods Loaders.empty_node) as (Hi & Ht & Hj).
  { split_and!; [apply LoadersSpec.inv_empty|by constructor|done]. }
  destruct (drain_only_loaded _ Hi Ht) as (st' & Hd & Hn & l & Hl & Hf). exists st'. cbn. split_and!; [done..|].
  rewrite Hl, Hj. done.
Qed.

End program.

(** ** Samples *)

Module Samples.
#[local] Existing Instance ConfiguratorSpec.Samples.sample_env.
#[local] Instance sample_bus : EventBus Loaders.chan Loaders.handler := EngineBus.engine_bus EngineBus.data_code.
#[local] Instance sample_bus_ok : EventBusOk sample_bus := EngineBus.engine_bus_ok EngineBus.data_code EngineBus.data_code_inj.

Definition sample_manager : StateManager.Manager := StateManager.MkManager StateManager.Init [StateManager.MkAction 1 [] true]
  [StateManager.MkAction 2 [] true] [StateManager.MkAction 3 [] true] true true
  StateManager.ShuttingDownHandler StateManager.LogRotateHandler false [].

Definition sample_watchdog : Watchdog.Watchdog := Watchdog.MkWatchdog [] [] false.

(** Two modules in the directory, given by their libraries. *)
Definition sample_directory : list Modules.Entry :=
  [Modules.File "networking.so" (Some (Modules.MkLibrary (Some (Some "NetworkingLoader"%string)) (Some (Some "Networking v1.0"%string)) true));
   Modules.File "unknown.so" (Some (Modules.MkLibrary (Some (Some "OtherLoader"%string)) (Some (Some "Other v1.0"%string)) true))].

Definition sample_world (min : Configurator.variables_map) : World := {|
  argc := 3;
  argv1 := "--config";
  parsed_min := Some min;
  load_file p := if bool_decide (p = "node.yaml"%string) then Some ConfiguratorSpec.Samples.sample_file else None;
  empty_yaml := ConfiguratorSpec.Samples.YAbsent;
  logging_has_error _ := false;
  parsed_all := Some ConfiguratorSpec.Samples.sample_vm;
  start_dir := "/tmp";
  directory_of p := if bool_decide (p = "/jam/modules"%string) then Some sample_directory else None;
  address_of n := 4096 * (Z.of_nat n + 1);
  injectApplication _ := mret (sample_manager, sample_watchdog);
  shutdown_requested := true;
  app_fuel := 10
|}.

Definition sample_min : Configurator.variables_map :=
  <["config"%string := Configurator.MkArg false (Configurator.VString "node.yaml")]> ∅.

Lemma sample_vm_typed : ConfiguratorSpec.typed ConfiguratorSpec.Samples.sample_vm.
Proof.
  do 3 (apply map_Forall_insert_2; [unfold Configurator.cli_options; cbn; set_solver|]). apply map_Forall_empty.
Qed.

Lemma app_run_ends_witness :
  exists m', app_run true 10 sample_manager sample_watchdog = (m', Watchdog.stop sample_watchdog, Returned)
    /\ exists evs, StateManager.events m' = evs ++ [StateManager.RanShutdown stop_watchdog].
Proof.
  apply (app_run_ends true 10 sample_manager sample_watchdog); [done|vm_compute; lia| |done]. repeat constructor.
Defined.

Lemma main_succeeds_iff_witness : main (sample_world sample_min) = Done EXIT_SUCCESS.
Proof.
  apply (main_succeeds_iff (sample_world sample_min)).
  - intros all [= <-]. exact sample_vm_typed.
  - split; [done|]. split; [done|]. exists sample_min. split; [done|]. right. split.
    + intros [[? H]|[? H]]; vm_compute in H; discriminate H.
    + eexists _, _, _, _, _. repeat split; try reflexivity.
      eexists _, _. repeat split; reflexivity.
Defined.

Lemma main_without_config_witness : main (sample_world ∅) = Undef.
Proof.
  apply (main_without_config (sample_world ∅) ∅); [done|done| |done].
  intros [[? H]|[? H]]; vm_compute in H; discriminate H.
Defined.

Lemma run_node_quiet_witness :
  exists st', let st := (register_all (sample_world ∅) [Modules.MkModule "a.so" "Networking v1.0"
    (Modules.MkLibrary (Some (Some "NetworkingLoader"%string)) (Some (Some "Networking v1.0"%string)) true) "NetworkingLoader"] Loaders.empty_node).1 in
  Loaders.drain (length (Loaders.tasks st)) st = Done st' /\ Loaders.tasks st' = []
  /\ Forall (fun x => exists k, x = Loaders.LoadedSuccess k) (Loaders.journal st').
Proof. apply (run_node_quiet (sample_world ∅)). Defined.

End Samples.
End NodeSpec.
