(* ===== verification/Dylib.v ===== *)
(** * Dylib: the launcher that opens the node as a library

    [src/src/executable/dlopen.cpp], the executable of macOS builds: it appends a suffix
    to its own path, opens the library of that name and calls its [main].  The buffers
    are blocks of a heap of bytes; an access outside of a block, a read of a byte that was
    never written and an access through a null pointer are undefined. *)

From S2P Require Import Prelude.

Module Dylib.

(** ** Memory *)

(** A block by its address; a byte that was never written is [None]. *)
Notation Heap := (list (list (option Z))).
Notation Ptr := (option nat).

(** The library functions work on a block from an offset on. *)
Definition block (h : Heap) (p : Ptr) : run unit (nat * list (option Z)) :=
  match p with
  | Some b => match h !! b with Some bytes => mret (b, bytes) | None => Undef end
  | None => Undef
  end.

Fixpoint until_nul (l : list (option Z)) : run unit (list Z) :=
  match l with
  | [] | None :: _ => Undef
  | Some c :: l => if c =? 0 then mret [] else cs ← until_nul l; mret (c :: cs)
  end.

Definition string_at (h : Heap) (p : Ptr) : run unit (list Z) := '(_, bytes) ← block h p; until_nul bytes.
Definition strlen (h : Heap) (p : Ptr) : run unit nat := s ← string_at h p; mret (length s).

Definition store (h : Heap) (p : Ptr) (off : nat) (bs : list Z) : run unit Heap :=
  '(b, bytes) ← block h p;
  require (Nat.leb (off + length bs) (length bytes));;
  mret (<[b := take off bytes ++ (Some <$> bs) ++ drop (off + length bs) bytes]> h).

Definition strcpy (h : Heap) (dst : Ptr) (off : nat) (s : list Z) : run unit Heap := store h dst off (s ++ [0]).

(** ** The program *)

Section launcher.
Context {Lib Fn Args : Type}.
(** [malloc] gives a block of the size or null; [_NSGetExecutablePath] takes the size of the
    buffer and gives the bytes it writes there and the size it leaves in its argument;
    the two functions of the dynamic linker give nothing on an error; [call] runs what
    [dlsym] found. *)
Context (can_allocate : Z -> bool) (NSGetExecutablePath : Z -> list Z * Z).
Context (dlopen : list Z -> option Lib) (dlsym : Lib -> string -> option Fn) (call : Fn -> Args -> Z).

Inductive Printed : Type := DlopenFailed | DlsymFailed.

Definition malloc (h : Heap) (n : Z) : Heap * Ptr :=
  if can_allocate n then (h ++ [replicate (Z.to_nat n) None], Some (length h)) else (h, None).

Definition suffix : list Z := [46; 100; 121; 108; 105; 98].

Definition main (args : Args) : run unit (list Printed * Z) :=
  let '(bytes, size) := NSGetExecutablePath 0 in
  require (bool_decide (bytes = []));;
  let '(h, exe) := malloc [] size in
  h ← store h exe 0 (NSGetExecutablePath size).1;
  n ← strlen h exe;
  let '(h, dylib) := malloc h (u64 (Z.of_nat n + Z.of_nat (length suffix) + 1)) in
  s ← string_at h exe;
  h ← strcpy h dylib 0 s;
  n ← strlen h exe;
  h ← strcpy h dylib n suffix;
  path ← string_at h dylib;
  match dlopen path with
  | None => mret ([DlopenFailed], -1)
  | Some lib =>
      match dlsym lib "main" with
      | None => mret ([DlsymFailed], -1)
      | Some sym => mret ([], call sym args)
      end
  end.

(** ** Its behaviour *)

Lemma until_nul_string s rest : Forall (fun c => c <> 0) s -> until_nul ((Some <$> (s ++ [0])) ++ rest) = Done s.
Proof.
  induction 1 as [|c s Hc Hs IH]; [done|]. cbn. by rewrite (proj2 (Z.eqb_neq c 0) Hc), IH.
Qed.

Lemma store_fills h b old off bs :
  h !! b = Some old -> (off + length bs <= length old)%nat ->
  store h (Some b) off bs = Done (<[b := take off old ++ (Some <$> bs) ++ drop (off + length bs) old]> h).
Proof. intros Hb Hl. unfold store, block. rewrite Hb. cbn. by rewrite (proj2 (Nat.leb_le _ _) Hl). Qed.

Lemma strlen_at h p s : string_at h p = Done s -> strlen h p = Done (length s).
Proof. unfold strlen. by intros ->. Qed.

Lemma string_at_stored h b rest s :
  h !! b = Some ((Some <$> (s ++ [0])) ++ rest) -> Forall (fun c => c <> 0) s -> string_at h (Some b) = Done s.
Proof. intros Hb Hs. unfold string_at, block. rewrite Hb. cbn. by apply until_nul_string. Qed.

Lemma suffix_nonzero : Forall (fun c => c <> 0) suffix.
Proof. repeat constructor; lia. Qed.

(** Two copies in a row leave the concatenation of the strings. *)
Lemma fill_start bs n : take 0 (replicate n (None (A := Z))) ++ (Some <$> bs) ++ drop (0 + length bs) (replicate n None)
  = (Some <$> bs) ++ replicate (n - length bs) None.
Proof. cbn. by rewrite drop_replicate. Qed.

Lemma fill_after s t (rest : list (option Z)) k :
  k = length (s : list Z) ->
  take k ((Some <$> (s ++ [0])) ++ rest) ++ (Some <$> (t ++ [0])) ++ drop (k + length (t ++ [0])) ((Some <$> (s ++ [0])) ++ rest)
  = (Some <$> ((s ++ t) ++ [0])) ++ drop (k + length (t ++ [0])) ((Some <$> (s ++ [0])) ++ rest).
Proof.
  intros ->. rewrite !fmap_app. rewrite <- !(app_assoc (Some <$> s)). f_equal.
  rewrite take_app_le by (rewrite length_fmap; lia). by rewrite take_ge by (rewrite length_fmap; lia).
Qed.

(** The first and the second copy into a fresh block. *)
Lemma first_copy h n bs :
  (length bs <= n)%nat ->
  store (h ++ [replicate n None]) (Some (length h)) 0 bs = Done (h ++ [(Some <$> bs) ++ replicate (n - length bs) None]).
Proof.
  intros Hn. erewrite store_fills by (first [apply list_lookup_middle; reflexivity | rewrite length_replicate; cbn; lia]).
  by rewrite fill_start, insert_app_r_alt, Nat.sub_diag by lia.
Qed.

Lemma second_copy h s t r :
  (length t <= r)%nat ->
  store (h ++ [(Some <$> (s ++ [0])) ++ replicate r None]) (Some (length h)) (length s) (t ++ [0])
  = Done (h ++ [(Some <$> ((s ++ t) ++ [0])) ++ drop (length s + length (t ++ [0])) ((Some <$> (s ++ [0])) ++ replicate r None)]).
Proof.
  intros Hr. erewrite store_fills by (first [apply list_lookup_middle; reflexivity
    | rewrite !length_app, length_fmap, length_replicate, length_app; cbn; lia]).
  by rewrite fill_after, insert_app_r_alt, Nat.sub_diag by (reflexivity || lia).
Qed.

Lemma then_ {A B} (m : run unit A) a (k : A -> run unit B) : m = Done a -> m ≫= k = k a.
Proof. by intros ->. Qed.

(** The documented behaviour of the system call for the path [exe]: a buffer that is too
    small gets nothing and the size needed, a 32-bit number, is left; a buffer of that
    size gets the path with its terminator. *)
Record finds_path (exe : list Z) : Prop := MkFinds {
  path_text : Forall (fun c => c <> 0) exe;
  path_fits : Z.of_nat (length exe) + 1 < 2 ^ 32;
  path_size : NSGetExecutablePath 0 = ([], Z.of_nat (length exe) + 1);
  path_bytes : (NSGetExecutablePath (Z.of_nat (length exe) + 1)).1 = exe ++ [0]
}.

(** C38: the launcher never leaves its two buffers: with memory for both of them it opens
    exactly the library named by its own path and the suffix, returns what the [main] of
    that library returns, and otherwise prints which of the two lookups failed and
    returns -1. *)
Theorem launcher_opens exe args :
  finds_path exe ->
  can_allocate (Z.of_nat (length exe) + 1) = true ->
  can_allocate (Z.of_nat (length exe) + Z.of_nat (length suffix) + 1) = true ->
  main args = Done match dlopen (exe ++ suffix) with
    | None => ([DlopenFailed], -1)
    | Some lib => match dlsym lib "main" with None => ([DlsymFailed], -1) | Some sym => ([], call sym args) end
    end.
Proof.
  intros [Ht Hf Hs Hb] Ha1 Ha2. unfold main, malloc, strcpy. rewrite Hs, (then_ _ tt), Hb, Ha1 by done.
  erewrite then_ by (apply (first_copy []); rewrite length_app; cbn; lia). cbn [app].
  set (h0 := [(Some <$> (exe ++ [0])) ++ _]). assert (forall h, string_at (h0 ++ h) (Some 0%nat) = Done exe) as Hexe.
  { intros h. by eapply string_at_stored. }
  erewrite then_ by (apply strlen_at; rewrite <- (app_nil_r h0); apply Hexe).
  rewrite wrap_id by (cbn; lia). rewrite Ha2, (then_ _ exe) by apply Hexe.
  erewrite then_ by (apply (first_copy h0); rewrite length_app; cbn; lia).
  rewrite (then_ _ (length exe)) by apply strlen_at, Hexe.
  erewrite then_ by (apply (second_copy h0); rewrite length_app; cbn; lia).
  rewrite (then_ _ (exe ++ suffix)).
  2:{ eapply string_at_stored; [by apply list_lookup_middle|]. apply Forall_app; auto using suffix_nonzero. }
  destruct (dlopen _) as [lib|]; [|done]. by destruct (dlsym _ _).
Qed.
End launcher.

(** With the path [a/b] of three bytes, a library that has [main]. *)
Definition sample_path (size : Z) : list Z * Z := (if 4 <=? size then [97; 47; 98; 0] else [], 4).
Definition sample_dlopen (path : list Z) : option unit := if decide (path = [97; 47; 98] ++ suffix) then Some tt else None.

Lemma launcher_opens_witness :
  main (fun _ => true) sample_path sample_dlopen (fun _ _ => Some tt) (fun _ argc => argc) 7 = Done ([], 7).
Proof.
  refine (launcher_opens (fun _ => true) sample_path sample_dlopen (fun _ _ => Some tt) (fun _ argc => argc)
    [97; 47; 98] 7 _ eq_refl eq_refl).
  split; [repeat constructor; lia|reflexivity..].
Defined.

(** Without memory the result of [malloc] is used all the same. *)
Example out_of_memory :
  main (fun _ => false) sample_path sample_dlopen (fun _ _ => Some tt) (fun _ (argc : Z) => argc) 7 = Undef.
Proof. reflexivity. Qed.
End Dylib.
