(* ===== verification/MetricsRegistry.v ===== *)
(** * MetricsRegistry: metrics and their families

    [src/src/metrics/impl/prometheus/registry_impl.hpp], [registry_impl.cpp],
    [metrics_impl.cpp], [handler_impl.cpp] and the helpers of
    [src/src/metrics/histogram_timer.hpp].  The library prometheus-cpp, which owns the
    families and the metrics, is the interface [Prometheus]. *)

From S2P Require Import Prelude Utils.

(** The metric types, with their order in the tuple of metrics. *)
Inductive MetricType : Type := Counter | Gauge | Histogram | Summary.

#[export] Instance MetricType_eq_dec : EqDecision MetricType.
Proof. solve_decision. Defined.

(** ** prometheus-cpp *)

(** The process-wide registry, families of metrics, metrics, and what the metrics do.
    A call that throws is [None]. *)
Class Prometheus : Type := {
  Registry : Type;
  Family : Type;
  Metric : Type;
  Args : Type;
  double : Type;
  MetricFamily : Type;
  make_registry : Registry;
  family_type : Family -> MetricType;
  metric_type : Metric -> MetricType;
  Register : MetricType -> string -> string -> gmap string string -> Registry -> option (Registry * Family);
  Add : Family -> gmap string string -> Args -> Registry -> option (Registry * Metric);
  one : double;
  Increment : double -> Metric -> Registry -> Registry;
  Decrement : double -> Metric -> Registry -> Registry;
  SetValue : double -> Metric -> Registry -> Registry;
  Observe : double -> Metric -> Registry -> Registry
}.

(** [Builder<T>().Register] returns a [Family<T>], whose [Add] returns a [T]. *)
Class PrometheusOk (P : Prometheus) : Prop := {
  Register_type t name help labels r r' f : Register t name help labels r = Some (r', f) -> family_type f = t;
  Add_type f labels args r r' m : Add f labels args r = Some (r', m) -> metric_type m = family_type f
}.

Module MetricsRegistry.
Section registry.
Context `{P : Prometheus}.

(** ** [PrometheusRegistry] *)

(** The tuple of lists of wrappers; a wrapper holds the reference to its metric. *)
Record Lists : Type := MkLists {
  counters : list Metric; gauges : list Metric; histograms : list Metric; summaries : list Metric
}.

(** [std::get<MetricInfo<T>::index>(metrics_)] *)
Definition get (t : MetricType) (l : Lists) : list Metric :=
  match t with Counter => counters l | Gauge => gauges l | Histogram => histograms l | Summary => summaries l end.

Definition emplace_front (t : MetricType) (m : Metric) (l : Lists) : Lists :=
  match t with
  | Counter => MkLists (m :: counters l) (gauges l) (histograms l) (summaries l)
  | Gauge => MkLists (counters l) (m :: gauges l) (histograms l) (summaries l)
  | Histogram => MkLists (counters l) (gauges l) (m :: histograms l) (summaries l)
  | Summary => MkLists (counters l) (gauges l) (histograms l) (m :: summaries l)
  end.

(** An object and, shared by all of them, the static registry of the library. *)
Record PrometheusRegistry : Type := MkRegistry {
  family_ : gmap string Family;
  metrics_ : Lists;
  registry : Registry
}.

(** [createRegistry] *)
Definition createRegistry (r : Registry) : PrometheusRegistry := MkRegistry ∅ (MkLists [] [] [] []) r.

(** [registerFamily<T>]: the library is asked in any case, [emplace] keeps a family
    that is already there under the name. *)
Definition registerFamily (t : MetricType) (name help : string) (labels : gmap string string) (x : PrometheusRegistry) :
    run unit PrometheusRegistry :=
  '(r, f) ← value (Register t name help labels (registry x)) "register";
  mret (MkRegistry (match family_ x !! name with Some _ => family_ x | None => <[name := f]> (family_ x) end) (metrics_ x) r).

(** [registerMetric<T>]: [at] and the cast of the reference throw. *)
Definition registerMetric (t : MetricType) (name : string) (labels : gmap string string) (args : Args) (x : PrometheusRegistry) :
    run unit (PrometheusRegistry * Metric) :=
  f ← value (family_ x !! name) "out of range";
  raise_if (negb (bool_decide (family_type f = t))) "bad cast";;
  '(r, var) ← value (Add f labels args (registry x)) "add";
  mret (MkRegistry (family_ x) (emplace_front t var (metrics_ x)) r, var).

Definition registerCounterFamily := registerFamily Counter.
Definition registerGaugeFamily := registerFamily Gauge.
Definition registerHistogramFamily := registerFamily Histogram.
Definition registerSummaryFamily := registerFamily Summary.
Definition registerCounterMetric name labels := registerMetric Counter name labels.
Definition registerGaugeMetric name labels := registerMetric Gauge name labels.
Definition registerHistogramMetric name (boundaries : Args) labels := registerMetric Histogram name labels boundaries.
Definition registerSummaryMetric name (quantiles_age : Args) labels := registerMetric Summary name labels quantiles_age.

(** ** The wrappers *)

Definition counter_inc (m : Metric) : Registry -> Registry := Increment one m.
Definition counter_inc_by (m : Metric) (v : double) : Registry -> Registry := Increment v m.
Definition gauge_inc (m : Metric) : Registry -> Registry := Increment one m.
Definition gauge_inc_by (m : Metric) (v : double) : Registry -> Registry := Increment v m.
Definition gauge_dec (m : Metric) : Registry -> Registry := Decrement one m.
Definition gauge_dec_by (m : Metric) (v : double) : Registry -> Registry := Decrement v m.
Definition gauge_set (m : Metric) (v : double) : Registry -> Registry := SetValue v m.
Definition summary_observe (m : Metric) (v : double) : Registry -> Registry := Observe v m.
Definition histogram_observe (m : Metric) (v : double) : Registry -> Registry := Observe v m.

(** ** Helpers *)

(** [GaugeHelper]: a registry object of its own, the family without labels, the metric. *)
Definition GaugeHelper (name help : string) (labels : gmap string string) (none : Args) (r : Registry) :
    run unit (PrometheusRegistry * Metric) :=
  x ← registerGaugeFamily name help ∅ (createRegistry r); registerGaugeMetric name labels none x.

Definition HistogramHelper (name help : string) (buckets : Args) (r : Registry) : run unit (PrometheusRegistry * Metric) :=
  x ← registerHistogramFamily name help ∅ (createRegistry r); registerHistogramMetric name buckets ∅ x.

(** [exponentialBuckets]: the loop ends when there are [count] buckets. *)
Fixpoint bucket_loop (mul : double -> double -> double) (fuel : nat) (bucket factor : double) (count : nat) (buckets : list double) :
    option (list double) :=
  if (length buckets <? count)%nat then
    match fuel with
    | O => None
    | S fuel => bucket_loop mul fuel (mul bucket factor) factor count (buckets ++ [bucket])
    end
  else Some buckets.

Definition exponentialBuckets (mul : double -> double -> double) (start factor : double) (count : nat) : option (list double) :=
  bucket_loop mul count start factor count [].

(** [HistogramTimer::observe]: whole milliseconds, rounded towards zero, observed in
    seconds. *)
Definition timer_observe (to_seconds : Z -> double) (m : Metric) (begin now : Z) (r : Registry) : Registry * Z :=
  let ms := Z.quot (now - begin) 1000000 in
  (histogram_observe m (to_seconds ms) r, ms).

(** ** [PrometheusHandler] *)

(** Weak pointers are identified by what they point to; [None] has expired. *)
Definition Collectables : Type := list nat.

Definition CollectMetrics (lock : nat -> option (list MetricFamily)) (collectables : Collectables) : list MetricFamily :=
  foldl (fun collected w => match lock w with None => collected | Some metrics => collected ++ metrics end) [] collectables.

Definition cleanupStalePointers (lock : nat -> option (list MetricFamily)) (collectables : Collectables) : Collectables :=
  Utils.retain_if (fun w => bool_decide (is_Some (lock w))) collectables.

Definition registerCollectable (lock : nat -> option (list MetricFamily)) (w : nat) (collectables : Collectables) : Collectables :=
  cleanupStalePointers lock collectables ++ [w].

(** Kept are the pointers that share ownership with the argument. *)
Definition removeCollectable (w : nat) (collectables : Collectables) : Collectables :=
  Utils.retain_if (fun candidate => bool_decide (candidate = w)) collectables.

(** The response [writeResponse] makes: status, version, content type, length, keep
    alive, body. *)
Record Response : Type := MkResponse {
  status : Z; version : Z; content_type : string; content_length : nat; keep_alive : bool; body : string
}.

Definition writeResponse (request_version : Z) (b : string) : Response * nat :=
  (MkResponse 200 request_version "text/plain; charset=utf-8" (String.length b) true b, String.length b).

Definition onSessionRequest (Serialize : list MetricFamily -> string) (lock : nat -> option (list MetricFamily))
    (collectables : Collectables) (request_version : Z) : Response :=
  (writeResponse request_version (Serialize (CollectMetrics lock collectables))).1.

End registry.
End MetricsRegistry.
