(* ===== verification/MetricsServer.v ===== *)
(** * MetricsServer: the metrics over HTTP

    [src/src/utils/tuner.cpp], [src/src/metrics/session.hpp],
    [src/src/metrics/impl/session_impl.cpp], [exposer_impl.cpp] and
    [metrics_watcher.cpp].  Completions of asynchronous operations are events; what
    the network answers (a port, an error, a request) is data of the event. *)

From S2P Require Import Prelude.

Module MetricsServer.

(** ** [acceptOnFreePort] *)

Definition kDefaultPortTolerance : Z := 10.

(** How the construction of an acceptor on a port ends. *)
Inductive Bind : Type := Bound | AddressInUse | OtherError.

#[export] Instance Bind_eq_dec : EqDecision Bind.
Proof. solve_decision. Defined.

Fixpoint acceptOnFreePort (bind : Z -> Bind) (fuel : nat) (port port_tolerance : Z) : run unit Z :=
  match fuel with
  | O => Raise "out of fuel"
  | S fuel =>
      match bind port with
      | Bound => mret port
      | AddressInUse =>
          if 0 <? port_tolerance then acceptOnFreePort bind fuel (u16 (port + 1)) (u16 (port_tolerance - 1))
          else Raise "address in use"
      | OtherError => Raise "system error"
      end
  end.

(** ** Sessions *)

Section session.
Context {Request Response : Type} (need_eof : Response -> bool).

Definition kDefaultRequestSize : Z := 10000.
Definition kDefaultTimeout : Z := 30.

Inductive Pending : Type := PRead | PWrite (close : bool) (m : Response).

(** What the session did: requests handed over, responses written, errors reported,
    the socket shut down. *)
Inductive Did : Type := Handled (q : Request) | Wrote (m : Response) | Reported (message : string) | Stopped.

Record Session : Type := MkSession {
  on_request_ : option (Request -> Response);
  parser_ : bool;
  body_limit : Z;
  expires_after : Z;
  res_ : option Response;
  pending : list Pending;
  did : list Did
}.

Definition new_session : Session := MkSession None false 0 0 None [] [].

Definition connectOnRequest (callback : Request -> Response) (s : Session) : Session :=
  MkSession (Some callback) (parser_ s) (body_limit s) (expires_after s) (res_ s) (pending s) (did s).

Definition note (s : Session) (d : Did) : Session :=
  MkSession (on_request_ s) (parser_ s) (body_limit s) (expires_after s) (res_ s) (pending s) (did s ++ [d]).

Definition stop (s : Session) : Session := note s Stopped.
Definition reportError (message : string) (s : Session) : Session := note s (Reported message).

Definition asyncRead (s : Session) : Session :=
  MkSession (on_request_ s) true kDefaultRequestSize kDefaultTimeout (res_ s) (pending s ++ [PRead]) (did s).

Definition start (s : Session) : Session := asyncRead s.

Definition asyncWrite (message : Response) (s : Session) : Session :=
  MkSession (on_request_ s) (parser_ s) (body_limit s) (expires_after s) (Some message)
    (pending s ++ [PWrite (need_eof message) message]) (did s ++ [Wrote message]).

Definition respond (response : Response) (s : Session) : Session := asyncWrite response s.

(** [processRequest] calls the callback, which answers through [respond]; an empty
    function throws. *)
Definition processRequest (request : Request) (s : Session) : run unit Session :=
  match on_request_ s with
  | None => Raise "bad function call"
  | Some f => mret (respond (f request) (note s (Handled request)))
  end.

Definition handleRequest (request : Request) (s : Session) : run unit Session := processRequest request s.

(** [None] is no error. *)
Inductive Error : Type := end_of_stream | other_error.

(** The parser gives up the message it holds, complete or not. *)
Definition onRead (ec : option Error) (held : Request) (s : Session) : run unit Session :=
  let s := match ec with
           | None => s
           | Some end_of_stream => stop s
           | Some other_error => stop (reportError "unknown error occurred" s)
           end in
  require (parser_ s);; handleRequest held s.

Definition onWrite (close : bool) (ec : option Error) (s : Session) : Session :=
  match ec with
  | Some _ => stop (reportError "failed to write message" s)
  | None =>
      if close then stop s
      else asyncRead (MkSession (on_request_ s) (parser_ s) (body_limit s) (expires_after s) None (pending s) (did s))
  end.

(** The pending operation completes. *)
Inductive Completion : Type := ReadDone (ec : option Error) (held : Request) | WriteDone (ec : option Error).

Definition without_pending (s : Session) : Session :=
  MkSession (on_request_ s) (parser_ s) (body_limit s) (expires_after s) (res_ s) (drop 1 (pending s)) (did s).

Definition complete (s : Session) (c : Completion) : run unit Session :=
  match pending s, c with
  | PRead :: _, ReadDone ec held => onRead ec held (without_pending s)
  | PWrite close _ :: _, WriteDone ec => mret (onWrite close ec (without_pending s))
  | _, _ => Fail tt
  end.

(** ** [ExposerImpl] *)

(** The acceptor, once there is one: whether it is open. *)
Record Exposer : Type := MkExposer {
  enabled : option bool;
  handler_ : option (Request -> Response);
  acceptor_ : option bool;
  new_session_ : option nat;
  sessions : list Session;
  accepting : list nat;       (** the sessions given to [async_accept] *)
  thread_ : bool;
  context_stopped : bool
}.

(** The constructor: unless the metrics are enabled, nothing is registered.  [hs] is the
    state of the handler object and [registerCollectable] what [setHandler] of the new
    registry does to it; the last result says whether the exposer was put under the
    control of the state manager. *)
Definition construct {H} (config_enabled : option bool) (handler : Request -> Response) (registerCollectable : H -> H) (hs : H) :
    Exposer * H * bool :=
  match config_enabled with
  | Some true => (MkExposer config_enabled (Some handler) None None [] [] false false, registerCollectable hs, true)
  | _ => (MkExposer config_enabled None None None [] [] false false, hs, false)
  end.

Definition set_acceptor (a : option bool) (x : Exposer) : Exposer :=
  MkExposer (enabled x) (handler_ x) a (new_session_ x) (sessions x) (accepting x) (thread_ x) (context_stopped x).

Definition is_enabled (x : Exposer) : bool := match enabled x with Some b => b | None => false end.

Definition prepare (bind : Z -> Bind) (port : Z) (option_error : bool) (x : Exposer) : run unit (Exposer * bool) :=
  require (is_enabled x);;
  match acceptOnFreePort bind (Z.to_nat kDefaultPortTolerance + 1) port kDefaultPortTolerance with
  | Done _ => let x := set_acceptor (Some true) x in if option_error then mret (x, false) else mret (x, true)
  | _ => mret (x, false)
  end.

(** [acceptOnce]: a new session with the callback, waiting for a connection. *)
Definition acceptOnce (x : Exposer) : run unit Exposer :=
  match handler_ x with
  | None => Undef
  | Some handler =>
      let n := length (sessions x) in
      mret (MkExposer (enabled x) (handler_ x) (acceptor_ x) (Some n) (sessions x ++ [connectOnRequest handler new_session])
        (accepting x ++ [n]) (thread_ x) (context_stopped x))
  end.

Definition launch (x : Exposer) : run unit (Exposer * bool) :=
  require (is_enabled x);;
  match acceptor_ x with
  | None => Undef
  | Some false => mret (x, false)
  | Some true =>
      x ← acceptOnce x;
      mret (MkExposer (enabled x) (handler_ x) (acceptor_ x) (new_session_ x) (sessions x) (accepting x) true (context_stopped x), true)
  end.

Definition shut (x : Exposer) : Exposer :=
  MkExposer (enabled x) (handler_ x) (acceptor_ x) (new_session_ x) (sessions x) (accepting x) false true.

(** The handler of a completed accept. *)
Definition on_accept (ec : bool) (x : Exposer) : run unit Exposer :=
  match accepting x, new_session_ x with
  | _ :: rest, Some n =>
      let x := MkExposer (enabled x) (handler_ x) (acceptor_ x) (new_session_ x)
        (if ec then sessions x else alter start n (sessions x)) rest (thread_ x) (context_stopped x) in
      match acceptor_ x with
      | Some true => acceptOnce x
      | Some false => mret x
      | None => Undef
      end
  | _, _ => Fail tt
  end.

End session.
Arguments Pending : clear implicits.
Arguments Did : clear implicits.
Arguments Session : clear implicits.
Arguments Completion : clear implicits.
Arguments Exposer : clear implicits.

(** ** [MetricsWatcher] *)

(** The state manager given to the constructor, and the parameter it was moved from.
    The assertion is about the parameter. *)
Definition new_watcher {M} (state_manager : option M) : run unit (option M * string) :=
  let '(state_manager_, state_manager) := (state_manager, @None M) in
  let storage_path_ := ""%string in
  require (bool_decide (is_Some state_manager));;
  mret (state_manager_, storage_path_).

Inductive FsError : Type := SystemError | InvalidArgument.

(** [measure_storage_size]: whether the path is a directory (or the error of asking),
    and the entries of the recursive iteration up to its end or its first error, each
    with its size or the error of asking. *)
Definition measure_storage_size (is_directory : bool + unit) (entries : list (option Z)) : run FsError Z :=
  match is_directory with
  | inr _ => Fail SystemError
  | inl false => Fail InvalidArgument
  | inl true => mret (foldl (fun total size => match size with Some n => u64 (total + n) | None => total end) 0 entries)
  end.

(** The thread of the watcher: what the gauge shows after each round, for the answers
    of the file system in each round. *)
Fixpoint watch (gauge : option Z) (rounds : list ((bool + unit) * list (option Z))) : list (option Z) :=
  match rounds with
  | [] => []
  | (d, entries) :: rounds =>
      let gauge := match measure_storage_size d entries with Done n => Some n | _ => gauge end in
      gauge :: watch gauge rounds
  end.

(** The granulated waiting: how many seconds the thread sleeps, when a shutdown is
    requested during second [requested] of the wait. *)
Fixpoint wait_loop (i : nat) (requested : option nat) (slept : nat) : nat :=
  match i with
  | O => slept
  | S i => if bool_decide (Some slept = requested) then S slept else wait_loop i requested (S slept)
  end.

Definition granulated_wait (requested : option nat) : nat := wait_loop 30 requested 0.

End MetricsServer.
