(* ===== verification/Threads.v ===== *)
(** * Threads: worker threads from their start to their join

    [SchedulerBase::process] as a loop and [ThreadHandler]
    ([src/src/se/impl/scheduler_impl.hpp], [thread_handler.hpp]), the threads of the
    dispatcher ([async_dispatcher_impl.hpp]) and [SubscriptionManager::dispose]
    ([subscription_manager.hpp]), which stops and joins them; and the thread of the
    metrics watcher ([src/src/metrics/impl/metrics_watcher.cpp]). *)

From S2P Require Import Prelude Scheduler Subscription MetricsServer.

Module Threads.

(** ** The loop of a worker *)

Module Process.
Import Scheduler.

(** A round of the loop: the time it reads, what the functions of the task do, the calls of
    other threads up to the moment the loop's condition is evaluated, and how many of them
    come before the wait, if the round waits, is over. *)
Record Round : Type := MkRound { at_ : Z; does : Behaviour; again_at : Z; meanwhile : list Op; woken : nat }.

(** Other threads do not take tasks. *)
Definition foreign (o : Op) : Prop := match o with OExtract _ _ | OAgain _ => False | _ => True end.

(** Whether [extractExpired] finds a task. *)
Definition expired (w : World) (now : Z) : bool := match tasks_ (sch w) with [] => false | t :: _ => due t <=? now end.

(** The end of [event_.wait(untilFirst())], by the event or by the timeout: its predicate
    takes the signal back. *)
Definition event_wait (w : World) : World :=
  MkWorld (MkScheduler (proceed_ (sch w)) (tasks_ (sch w)) false (is_busy_ (sch w))) (again w) (log w).

(** The body of the loop: a task is taken and executed, or the thread waits. *)
Definition one_round (w : World) (r : Round) : World :=
  let w1 := steps w [OExtract (at_ r) (does r); OAgain (again_at r)] in
  if expired w (at_ r) then steps w1 (meanwhile r)
  else steps (event_wait (steps w1 (take (woken r) (meanwhile r)))) (drop (woken r) (meanwhile r)).

(** [proceed_.test_and_set()] *)
Definition test_and_set (w : World) : bool * World :=
  (proceed_ (sch w), MkWorld (MkScheduler true (tasks_ (sch w)) (signaled (sch w)) (is_busy_ (sch w))) (again w) (log w)).

(** [process]: [None] while the loop goes on after the given rounds, else the value it
    returned. *)
Fixpoint process (w : World) (rs : list Round) : World * option Z :=
  match rs with
  | [] => (w, None)
  | r :: rs =>
      let '(go_on, w) := test_and_set (one_round w r) in
      if go_on then process w rs else (w, Some 0)
  end.

Definition disposes (r : Round) : Prop := ODispose ∈ meanwhile r.

Lemma add_proceed s t : proceed_ (add s t) = proceed_ s.
Proof. unfold add, set_event, insert. by destruct (timeout t =? 0). Qed.

(** Only the disposal clears the flag. *)
Lemma foreign_proceed w o : foreign o -> proceed_ (sch (step w o)) = match o with ODispose => false | _ => proceed_ (sch w) end.
Proof.
  destruct o as [n t f p|n t f|n b|n|]; intros Ho; try done; cbn.
  - apply add_proceed.
  - unfold uploadIfFree. destruct (is_busy_ (sch w)); [done|]. apply add_proceed.
Qed.

Lemma steps_stopped w os : Forall foreign os -> proceed_ (sch w) = false -> proceed_ (sch (steps w os)) = false.
Proof.
  revert w. induction os as [|o os IH]; intros w Hf Hp; cbn; [done|]. apply Forall_cons in Hf as [Ho Hf]. apply IH; [done|].
  rewrite foreign_proceed by done. by destruct o.
Qed.

Lemma steps_proceed w os : Forall foreign os -> proceed_ (sch w) = true -> proceed_ (sch (steps w os)) = true <-> ODispose ∉ os.
Proof.
  intros Hf Hp. revert w Hp. induction os as [|o os IH]; intros w Hp; cbn; [set_solver|]. apply Forall_cons in Hf as [Ho Hf].
  rewrite not_elem_of_cons. pose proof (foreign_proceed w o Ho) as Hs. destruct o as [n t f p|n t f|n b|n|]; try done.
  1-2: rewrite IH; [naive_solver|done|by rewrite Hs].
  rewrite steps_stopped by done. naive_solver.
Qed.

Lemma round_proceed w r : Forall foreign (meanwhile r) -> proceed_ (sch w) = true -> proceed_ (sch (one_round w r)) = true <-> ~ disposes r.
Proof.
  intros Hf Hp. unfold one_round, disposes. set (w1 := steps w _).
  assert (proceed_ (sch w1) = true) as H1.
  2: { destruct (expired w (at_ r)); [by apply steps_proceed|]. rewrite <-(take_drop (woken r) (meanwhile r)) in Hf |- * at 3.
       apply Forall_app in Hf as [Hf1 Hf2]. rewrite not_elem_of_app, <-(steps_proceed w1) by done.
       set (w2 := steps w1 _). destruct (proceed_ (sch w2)) eqn:H2.
       - rewrite (steps_proceed (event_wait w2)) by done. tauto.
       - rewrite (steps_stopped (event_wait w2)) by done. naive_solver. }
  subst w1. cbn [steps foldl step]. destruct (again w) as [t|] eqn:Ha; cbn [again]; [rewrite Ha; cbn; by rewrite add_proceed|].
  unfold extractExpired. destruct (tasks_ (sch w)) as [|t l]; cbn; [done|]. destruct (due t <=? at_ r); cbn; [|done].
  destruct (execute t (does r)) as [f []]; cbn; [|done]. by rewrite add_proceed.
Qed.

Lemma test_and_set_on w : proceed_ (sch w) = true -> test_and_set w = (true, w).
Proof. intros Hp. unfold test_and_set. rewrite Hp. destruct w as [[]]. cbn in *. by subst. Qed.

(** C26: a worker stops when told to and only then: the loop returns after the first round
    during which the scheduler was disposed of, having executed exactly the tasks of the
    rounds up to that one; until then it keeps going. *)
Theorem process_returns w before r after :
  proceed_ (sch w) = true -> Forall (fun r => Forall foreign (meanwhile r)) (before ++ r :: after) ->
  Forall (fun r => ~ disposes r) before ->
  (process w before).2 = None
  /\ (disposes r -> (process w (before ++ r :: after)).2 = Some 0
        /\ log (process w (before ++ r :: after)).1 = log (foldl one_round w (before ++ [r]))
        /\ tasks_ (sch (process w (before ++ r :: after)).1) = tasks_ (sch (foldl one_round w (before ++ [r])))).
Proof.
  revert w. induction before as [|r0 before IH]; intros w Hp Hf Hb; cbn [app process foldl] in *.
  - apply Forall_cons in Hf as [Hr _]. split; [done|]. intros Hd.
    assert (proceed_ (sch (one_round w r)) = false) as Hpr by (apply not_true_iff_false; rewrite round_proceed by done; tauto).
    unfold test_and_set. rewrite Hpr. done.
  - apply Forall_cons in Hf as [Hr0 Hf]. apply Forall_cons in Hb as [Hn Hb].
    rewrite (test_and_set_on _ (proj2 (round_proceed w r0 Hr0 Hp) Hn)). apply IH; [|done|done]. by apply round_proceed.
Qed.

Definition sample_round (os : list Op) : Round := MkRound 10 (MkBehaviour None false) 10 os 1.

(** A task added in the first round is executed in the second, in which the scheduler is
    disposed of. *)
Lemma process_returns_witness :
  (process initial [sample_round [OAdd 5 0 (Some 1%nat) None]; sample_round [ODispose]; sample_round []]).2 = Some 0.
Proof.
  destruct (process_returns initial [sample_round [OAdd 5 0 (Some 1%nat) None]] (sample_round [ODispose]) [sample_round []]) as [_ H].
  - reflexivity.
  - repeat constructor.
  - repeat constructor. unfold disposes. cbn. set_solver.
  - apply H. unfold disposes. cbn. set_solver.
Defined.

End Process.

(** ** Handlers, the dispatcher and the manager *)

Module Manager.

(** [ThreadHandler]: its scheduler and its thread. *)
Record ThreadHandler : Type := MkHandler { base : Scheduler.Scheduler; joinable : bool }.

Definition new_handler : ThreadHandler := MkHandler Scheduler.construct true.

(** [dispose]: joining or detaching a thread that is neither joined nor detached; anything
    else throws.  The join returns because [process] does. *)
Definition dispose_handler (wait_for_release : bool) (h : ThreadHandler) : run unit ThreadHandler :=
  let h := MkHandler (Scheduler.dispose (base h)) (joinable h) in
  if wait_for_release then raise_if (negb (joinable h)) "invalid argument";; mret (MkHandler (base h) false)
  else raise_if (negb (joinable h)) "invalid argument";; mret (MkHandler (base h) false).

Fixpoint dispose_all (hs : list ThreadHandler) : run unit (list ThreadHandler) :=
  match hs with
  | [] => mret []
  | h :: hs => h ← dispose_handler true h; hs ← dispose_all hs; mret (h :: hs)
  end.

(** [AsyncDispatcher] with its threads: handlers and pool, and the number of temporary
    tasks it waits for, given by what it reads of the counter. *)
Record Dispatcher : Type := MkDispatcher { threads : list ThreadHandler; is_disposed_ : bool }.

Definition new_dispatcher (kCount kPoolSize : nat) : Dispatcher := MkDispatcher (replicate (kCount + kPoolSize) new_handler) false.

(** The loop ends with the first reading that is zero. *)
Fixpoint await_zero (readings : list Z) : bool :=
  match readings with [] => false | n :: rest => if n =? 0 then true else await_zero rest end.

Definition dispose_dispatcher (readings : list Z) (d : Dispatcher) : run unit Dispatcher :=
  ts ← dispose_all (threads d);
  if await_zero readings then mret (MkDispatcher ts true) else Fail tt.

(** [SubscriptionManager] *)
Record SubscriptionManager : Type := MkManager {
  dispatcher_ : Dispatcher;
  engines_ : list Subscription.Engine;
  disposed_ : bool
}.

Definition construct (d : Dispatcher) : SubscriptionManager := MkManager d [] false.

(** [disposed_.test_and_set()], then the engines, then the dispatcher. *)
Definition dispose (readings : list Z) (m : SubscriptionManager) : run unit SubscriptionManager :=
  if disposed_ m then mret m
  else
    d ← dispose_dispatcher readings (dispatcher_ m);
    mret (MkManager d (Subscription.engine_dispose <$> engines_ m) true).

Lemma dispose_all_joinable hs :
  Forall (fun h => joinable h = true) hs ->
  dispose_all hs = Done ((fun h => MkHandler (Scheduler.dispose (base h)) false) <$> hs).
Proof.
  induction 1 as [|h hs Hh Hhs IH]; cbn; [done|]. unfold dispose_handler. cbn. rewrite Hh. cbn. rewrite IH. done.
Qed.

(** Disposing of the manager is safe to repeat. The first call, whatever engines exist,
    detaches every engine from the dispatcher and stops and joins every thread, once the
    temporary tasks have ended; further calls do nothing. Disposing of a dispatcher twice
    throws, so this guard is needed. *)
Theorem manager_disposed kCount kPoolSize engines readings more :
  (0 < kCount)%nat -> 0 ∈ readings ->
  let m := MkManager (new_dispatcher kCount kPoolSize) engines false in
  exists m', dispose readings m = Done m'
    /\ Forall (fun h => joinable h = false /\ Scheduler.proceed_ (base h) = false) (threads (dispatcher_ m'))
    /\ length (threads (dispatcher_ m')) = (kCount + kPoolSize)%nat
    /\ Forall (fun e => Subscription.dispatcher_ e = false) (engines_ m') /\ length (engines_ m') = length engines
    /\ dispose more m' = Done m'
    /\ dispose_dispatcher more (dispatcher_ m') = Raise "invalid argument".
Proof.
  intros Hc Hz m. assert (await_zero readings = true) as Hr.
  { clear -Hz. induction readings as [|n rs IH]; [by apply not_elem_of_nil in Hz|]. cbn. destruct (Z.eqb_spec n 0); [done|].
    apply elem_of_cons in Hz as [?|Hz]; [congruence|by apply IH]. }
  unfold m, dispose at 1, dispose_dispatcher at 1. cbn [disposed_ dispatcher_ threads new_dispatcher].
  rewrite dispose_all_joinable by (by apply Forall_replicate). cbn [mbind run_bind]. rewrite Hr. cbn [mbind run_bind mret run_ret].
  eexists. split; [reflexivity|]. cbn [dispatcher_ threads engines_]. split_and!.
  - apply Forall_fmap, Forall_replicate. done.
  - by rewrite length_fmap, length_replicate.
  - by apply Forall_fmap, Forall_true.
  - by rewrite length_fmap.
  - done.
  - destruct kCount; [lia|]. done.
Qed.

Lemma manager_disposed_witness :
  exists m', dispose [2; 0] (MkManager (new_dispatcher 1 3) [Subscription.MkEngine ∅ true] false) = Done m' /\ dispose [] m' = Done m'.
Proof.
  destruct (manager_disposed 1 3 [Subscription.MkEngine ∅ true] [2; 0] []) as (m' & H1 & _ & _ & _ & _ & H2 & _).
  - lia.
  - set_solver.
  - by exists m'.
Defined.

End Manager.

(** ** The thread of the metrics watcher *)

Module Watcher.
Import MetricsServer.

Record Watcher : Type := MkWatcher { shutdown_requested_ : bool; thread_ : bool; gauge_ : option Z }.

Definition new : Watcher := MkWatcher false false None.

Definition start (x : Watcher) : Watcher * bool := (MkWatcher (shutdown_requested_ x) true (gauge_ x), true).

(** The thread: in every round a measurement and a wait; [requested] says in which second
    of which round the shutdown is requested.  The seconds slept, and the gauge. *)
Fixpoint watch_loop (gauge : option Z) (slept : nat) (rounds : list (((bool + unit) * list (option Z)) * option nat)) : nat * option Z * bool :=
  match rounds with
  | [] => (slept, gauge, false)
  | ((d, entries), requested) :: rounds =>
      let gauge := match measure_storage_size d entries with Done n => Some n | _ => gauge end in
      let slept := (slept + granulated_wait requested)%nat in
      match requested with
      | Some s => if (s <? 30)%nat then (slept, gauge, true) else watch_loop gauge slept rounds
      | None => watch_loop gauge slept rounds
      end
  end.

Definition stop (x : Watcher) : Watcher := MkWatcher true false (gauge_ x).

Lemma wait_requested i s slept : (slept <= s < slept + i)%nat -> wait_loop i (Some s) slept = S s.
Proof.
  revert slept. induction i as [|i IH]; intros slept Hs; [lia|]. cbn. case_bool_decide as He; [congruence|]. apply IH.
  assert (slept <> s) by congruence. lia.
Qed.

Lemma wait_all i requested slept : (forall s, requested = Some s -> s < slept \/ slept + i <= s)%nat -> wait_loop i requested slept = (slept + i)%nat.
Proof.
  revert slept. induction i as [|i IH]; intros slept Hr; cbn; [lia|]. case_bool_decide as He.
  - destruct (Hr slept) as [?|?]; [done|lia..].
  - rewrite IH; [lia|]. intros s Hs. destruct (Hr s Hs); [lia|]. assert (s <> slept) by congruence. lia.
Qed.

(** Stopping the watcher takes about a second: the thread of the watcher sleeps thirty
    seconds per undisturbed round, and when the shutdown is requested in second [s] of a
    round it ends with that second, without another measurement. *)
Theorem watcher_stops gauge quiet d entries s rest :
  (s < 30)%nat -> Forall (fun r => r.2 = None) quiet ->
  exists g, watch_loop gauge 0 (quiet ++ ((d, entries), Some s) :: rest) = ((30 * length quiet + s + 1)%nat, g, true).
Proof.
  intros Hs Hq. enough (forall gauge slept, exists g, watch_loop gauge slept (quiet ++ ((d, entries), Some s) :: rest)
    = ((slept + 30 * length quiet + s + 1)%nat, g, true)) as Hall by (apply (Hall gauge 0%nat)).
  clear gauge. induction quiet as [|[[d0 e0] r0] quiet IH]; intros gauge slept; cbn [app watch_loop].
  - unfold granulated_wait. rewrite wait_requested by lia. rewrite (proj2 (Nat.ltb_lt s 30)) by done. eexists. apply pair_eq. split; [apply pair_eq; split; [cbn [length]; lia|reflexivity]|reflexivity].
  - apply Forall_cons in Hq as [H0 Hq]. cbn in H0. subst r0. unfold granulated_wait. rewrite wait_all by done.
    destruct (IH Hq (match measure_storage_size d0 e0 with Done n => Some n | _ => gauge end) (slept + (0 + 30))%nat) as [g Hg].
    exists g. rewrite Hg. f_equal. f_equal. cbn [length]. lia.
Qed.

Lemma watcher_stops_witness : exists g, watch_loop None 0 [((inl true, [Some 5]), None); ((inl true, []), Some 7%nat)] = (38%nat, g, true).
Proof. apply (watcher_stops None [((inl true, [Some 5]), None)] (inl true) [] 7 []); [lia|by repeat constructor]. Defined.

End Watcher.
End Threads.
