(* ===== verification/MetricsSpec.v ===== *)
(** * MetricsSpec: what the metrics components guarantee

    The types of registered metrics, what a request for the metrics returns, the port
    of the server and the protocol of a session. *)

From S2P Require Import Prelude Utils MetricsRegistry MetricsServer.

Module MetricsSpec.

(** ** The registry *)

Section registry.
Import MetricsRegistry.
Context `{P : Prometheus} {PO : PrometheusOk P}.
Implicit Types (x : PrometheusRegistry) (t : MetricType).

(** The calls on a registry object; a call that throws leaves it as it was. *)
Inductive Op : Type :=
| OFamily (t : MetricType) (name help : string) (labels : gmap string string)
| OMetric (t : MetricType) (name : string) (labels : gmap string string) (args : Args).

(** The object, and the names and types of the families registered with success. *)
Definition step (s : PrometheusRegistry * list (string * MetricType)) (o : Op) : PrometheusRegistry * list (string * MetricType) :=
  match o with
  | OFamily t name help labels =>
      match registerFamily t name help labels s.1 with Done x => (x, s.2 ++ [(name, t)]) | _ => s end
  | OMetric t name labels args =>
      match registerMetric t name labels args s.1 with Done (x, _) => (x, s.2) | _ => s end
  end.

(** The type a name was first registered with. *)
Definition type_of (h : list (string * MetricType)) (name : string) : option MetricType :=
  snd <$> (snd <$> list_find (fun p => p.1 = name) h).

Definition well_typed (s : PrometheusRegistry * list (string * MetricType)) : Prop :=
  (forall name, family_type <$> family_ s.1 !! name = type_of s.2 name)
  /\ forall t, Forall (fun m => metric_type m = t) (get t (metrics_ s.1)).

Lemma get_emplace t t' m l : get t' (emplace_front t m l) = if decide (t = t') then m :: get t' l else get t' l.
Proof. by destruct t, t'. Qed.

Lemma type_of_snoc h name t name' :
  type_of (h ++ [(name, t)]) name' = match type_of h name' with Some t' => Some t' | None => if decide (name = name') then Some t else None end.
Proof.
  unfold type_of. destruct (list_find (fun p => p.1 = name') h) as [[i p]|] eqn:Hf.
  - by rewrite (list_find_app_l _ _ _ i p).
  - rewrite list_find_app_r by done. cbn. by destruct (decide (name = name')).
Qed.

Lemma step_well_typed s o : well_typed s -> well_typed (step s o).
Proof.
  destruct s as [x h]. intros [Hf Hm]. destruct o as [t name help labels|t name labels args]; cbn [step fst snd] in *.
  - unfold registerFamily. destruct (Register t name help labels (registry x)) as [[r f]|] eqn:Hr; cbn; [|done].
    apply Register_type in Hr. split; [|done]. intros name'. cbn [fst snd family_]. rewrite type_of_snoc, <-Hf. case_decide as Hd; [subst name'|].
    + destruct (family_ x !! name) eqn:Hl; [by rewrite Hl|]. rewrite lookup_insert_eq. cbn. by rewrite Hr.
    + destruct (family_ x !! name) eqn:Hl; [|rewrite lookup_insert_ne by done]; by destruct (family_ x !! name').
  - unfold registerMetric. destruct (family_ x !! name) as [f|] eqn:Hl; cbn; [|done].
    case_bool_decide as Ht; cbn; [|done]. destruct (Add f labels args (registry x)) as [[r m]|] eqn:Ha; cbn; [|done].
    apply Add_type in Ha. split; [done|]. intros t'. cbn. rewrite get_emplace. case_decide; [|apply Hm].
    apply Forall_cons. split; [congruence|apply Hm].
Qed.

Lemma steps_well_typed r ops : well_typed (foldl step (createRegistry r, []) ops).
Proof.
  assert (well_typed (createRegistry r, [])) as H0.
  { split; [intros name; cbn; by rewrite lookup_empty|]. intros []; constructor. }
  revert H0. generalize (createRegistry r, @nil (string * MetricType)). induction ops as [|o ops IH]; intros s Hs; cbn; [done|].
  apply IH. by apply step_well_typed.
Qed.

(** C36: whatever was registered before, the lists of counters, gauges, histograms and
    summaries hold metrics of their own type only, and registering a metric of a type
    under a name succeeds only when the first family registered under the name has that
    type: without a family the call throws [std::out_of_range], with a family of
    another type [std::bad_cast]; otherwise the library's answer is put in front of the
    list of the type and is of that type, and nothing else changes. *)
Theorem metric_type_of_family r ops t name labels args :
  let '(x, h) := foldl step (createRegistry r, []) ops in
  (forall t', Forall (fun m => metric_type m = t') (get t' (metrics_ x)))
  /\ match type_of h name with
     | None => registerMetric t name labels args x = Raise "out of range"
     | Some t' =>
         if decide (t' = t) then
           match registerMetric t name labels args x with
           | Done (x', m) => metric_type m = t /\ family_ x' = family_ x /\ get t (metrics_ x') = m :: get t (metrics_ x)
               /\ forall t2, t2 <> t -> get t2 (metrics_ x') = get t2 (metrics_ x)
           | Raise w => w = "add"%string
           | _ => False
           end
         else registerMetric t name labels args x = Raise "bad cast"
     end.
Proof.
  pose proof (steps_well_typed r ops) as Hw. destruct (foldl step _ ops) as [x h]. destruct Hw as [Hf Hm]. cbn [fst snd] in *.
  split; [done|]. rewrite <-Hf. unfold registerMetric. destruct (family_ x !! name) as [f|]; cbn; [|done].
  case_decide as Ht; [rewrite bool_decide_eq_true_2 by done|by rewrite bool_decide_eq_false_2].
  cbn. destruct (Add f labels args (registry x)) as [[r' m]|] eqn:Ha; cbn; [|done]. apply Add_type in Ha.
  split_and!; [congruence|done|rewrite get_emplace; by rewrite decide_True|].
  intros t2 Hn. rewrite get_emplace. by rewrite decide_False.
Qed.

(** ** The helpers *)

Lemma exponentialBuckets_spec (mul : double -> double -> double) start factor count :
  exponentialBuckets mul start factor count = Some ((fun i => Nat.iter i (fun b => mul b factor) start) <$> seq 0 count).
Proof.
  unfold exponentialBuckets.
  assert (forall fuel n buckets, length buckets = n -> (n <= count)%nat -> (count - n <= fuel)%nat ->
    bucket_loop mul fuel (Nat.iter n (fun b => mul b factor) start) factor count buckets
    = Some (buckets ++ ((fun i => Nat.iter i (fun b => mul b factor) start) <$> seq n (count - n)))) as H.
  { induction fuel as [|fuel IH]; intros n buckets Hl Hn Hf; cbn [bucket_loop]; rewrite Hl.
    - rewrite (proj2 (Nat.ltb_ge n count)) by lia. replace (count - n)%nat with 0%nat by lia. by rewrite app_nil_r.
    - destruct (n <? count)%nat eqn:Hc.
      + apply Nat.ltb_lt in Hc. specialize (IH (S n) (buckets ++ [Nat.iter n (fun b => mul b factor) start])).
        change (Nat.iter (S n) (fun b => mul b factor) start) with (mul (Nat.iter n (fun b => mul b factor) start) factor) in IH. rewrite IH; [|rewrite length_app; cbn; lia|lia|lia].
        replace (count - n)%nat with (S (count - S n)) by lia. cbn [seq fmap list_fmap]. by rewrite <-(assoc_L (++)).
      + apply Nat.ltb_ge in Hc. replace (count - n)%nat with 0%nat by lia. by rewrite app_nil_r. }
  specialize (H count 0%nat []). change (Nat.iter 0 _ start) with start in H. rewrite H; [by rewrite Nat.sub_0_r|done|lia|lia].
Qed.

(** A gauge helper always gets its gauge, unless the library refuses. *)
Lemma GaugeHelper_ok name help labels none r :
  match GaugeHelper name help labels none r with
  | Done (x, m) => metric_type m = Gauge /\ get Gauge (metrics_ x) = [m]
  | Raise w => w = "register"%string \/ w = "add"%string
  | _ => False
  end.
Proof.
  unfold GaugeHelper, registerGaugeFamily, registerFamily. destruct (Register Gauge name help ∅ _) as [[r' f]|] eqn:Hr; cbn; [|by left].
  apply Register_type in Hr. unfold registerGaugeMetric, registerMetric. cbn [family_].
  rewrite lookup_empty, lookup_insert_eq. cbn. rewrite bool_decide_eq_true_2 by done. cbn.
  destruct (Add f labels none r') as [[r2 m]|] eqn:Ha; cbn; [|by right]. apply Add_type in Ha. split; [congruence|done].
Qed.

End registry.

(** ** The handler *)

Section handler.
Import MetricsRegistry.
Context `{P : Prometheus}.

(** Registries are registered and destroyed. *)
Inductive HandlerOp : Type := HRegister (w : nat) | HDestroy (w : nat).

(** The pointers the handler holds, those destroyed so far, and all that were ever
    registered. *)
Record HandlerState : Type := MkHandler { held : Collectables; destroyed : list nat; registered : list nat }.

Definition lock_of (content : nat -> list MetricFamily) (destroyed : list nat) (w : nat) : option (list MetricFamily) :=
  if decide (w ∈ destroyed) then None else Some (content w).

Definition handler_step (content : nat -> list MetricFamily) (s : HandlerState) (o : HandlerOp) : HandlerState :=
  match o with
  | HRegister w => MkHandler (registerCollectable (lock_of content (destroyed s)) w (held s)) (destroyed s) (registered s ++ [w])
  | HDestroy w => MkHandler (held s) (w :: destroyed s) (registered s)
  end.

Definition handler_after content (ops : list HandlerOp) : HandlerState := foldl (handler_step content) (MkHandler [] [] []) ops.

Lemma CollectMetrics_concat lock collectables :
  CollectMetrics lock collectables = concat (omap lock collectables).
Proof.
  unfold CollectMetrics. change (concat (omap lock collectables)) with ([] ++ concat (omap lock collectables)).
  generalize (@nil MetricFamily) as acc. induction collectables as [|w l IH]; intros acc; cbn; [by rewrite app_nil_r|].
  rewrite IH. destruct (lock w); cbn; [by rewrite (assoc_L (++))|done].
Qed.

Lemma omap_filter_live (lock lock' : nat -> option (list MetricFamily)) l :
  (forall w, is_Some (lock' w) -> is_Some (lock w)) ->
  omap lock' (Utils.retain_if (fun w => bool_decide (is_Some (lock w))) l) = omap lock' l.
Proof.
  intros H. unfold Utils.retain_if. induction l as [|w l IH]; [done|]. rewrite filter_cons. case_decide as Hd; cbn; [by rewrite IH|].
  rewrite IH. rewrite bool_decide_eq_true in Hd. destruct (lock' w) eqn:Hl; [|done]. exfalso. apply Hd, H. by rewrite Hl.
Qed.

Lemma lock_anti content d w w' : is_Some (lock_of content (w :: d) w') -> is_Some (lock_of content d w').
Proof.
  unfold lock_of. case_decide as H1; [by intros [? ?]|]. intros _. rewrite decide_False; [done|]. set_solver.
Qed.

(** Dropping expired pointers never changes what a later request sees. *)
Lemma held_live content (s : HandlerState) ops :
  (forall d, destroyed s `suffix_of` d -> omap (lock_of content d) (held s) = omap (lock_of content d) (registered s)) ->
  let s' := foldl (handler_step content) s ops in
  omap (lock_of content (destroyed s')) (held s') = omap (lock_of content (destroyed s')) (registered s').
Proof.
  revert s. induction ops as [|o ops IH]; intros s Hs; cbn; [by apply Hs|]. apply IH. destruct o as [w|w]; cbn; intros d Hd.
  - unfold registerCollectable, cleanupStalePointers. rewrite !omap_app. f_equal. rewrite omap_filter_live; [by apply Hs|].
    intros w'. unfold lock_of. destruct Hd as [d' ->]. case_decide as H1; [by intros [? ?]|]. rewrite decide_False; [done|]. set_solver.
  - apply Hs. etrans; [|exact Hd]. by apply suffix_cons_r.
Qed.

(** A request for the metrics is answered, whatever registries were registered and
    destroyed before, with the serialized families of exactly the registered registries
    that still exist, in the order of registration and as often as registered; the
    cleaning of stale pointers loses nothing. *)
Theorem request_reports_live content Serialize ops v :
  let s := handler_after content ops in
  onSessionRequest Serialize (lock_of content (destroyed s)) (held s) v
  = MkResponse 200 v "text/plain; charset=utf-8"
      (String.length (Serialize (concat (content <$> filter (fun w => w ∉ destroyed s) (registered s))))) true
      (Serialize (concat (content <$> filter (fun w => w ∉ destroyed s) (registered s)))).
Proof.
  cbn zeta. unfold onSessionRequest, writeResponse. rewrite CollectMetrics_concat.
  pose proof (held_live content (MkHandler [] [] []) ops (fun _ _ => eq_refl)) as Hl. fold (handler_after content ops) in Hl.
  set (s := handler_after content ops) in *. clearbody s. cbn zeta in Hl. rewrite Hl. clear Hl.
  assert (omap (lock_of content (destroyed s)) (registered s) = content <$> filter (fun w => w ∉ destroyed s) (registered s)) as ->; [|done].
  induction (registered s) as [|w l IH]; [done|]. rewrite filter_cons. cbn. unfold lock_of at 1.
  destruct (decide (w ∈ destroyed s)); [rewrite decide_False by tauto; done|rewrite decide_True by done]. cbn. by rewrite IH.
Qed.

(** Removing a collectable keeps the pointers to it and drops all others, the
    opposite of what the name says. *)
Theorem removeCollectable_keeps_only w l : removeCollectable w l = filter (fun v => v = w) l.
Proof.
  unfold removeCollectable, Utils.retain_if. apply list_filter_iff. intros v. by rewrite bool_decide_eq_true.
Qed.

End handler.

(** ** The port *)

Section port.
Import MetricsServer.

(** The ports in the order they are tried. *)
Definition ports (port : Z) (n : nat) : list Z := (fun i => u16 (port + Z.of_nat i)) <$> seq 0 n.

Lemma ports_S port n : 0 <= port < 65536 -> ports port (S n) = port :: ports (u16 (port + 1)) n.
Proof.
  intros Hp. unfold ports. cbn [seq fmap list_fmap]. rewrite Z.add_0_r, (wrap_id 16) by lia. f_equal.
  rewrite <-fmap_S_seq, <-list_fmap_compose. apply list_fmap_ext. intros i j _. cbn. unfold wrap.
  rewrite Zplus_mod_idemp_l. f_equal. lia.
Qed.

Definition not_in_use (bind : Z -> Bind) (p : Z) : Prop := bind p <> AddressInUse.

#[export] Instance not_in_use_dec bind p : Decision (not_in_use bind p).
Proof. unfold not_in_use. apply _. Defined.

Lemma accept_ports bind fuel port tolerance :
  0 <= port < 65536 -> 0 <= tolerance < 65536 -> tolerance < Z.of_nat fuel ->
  acceptOnFreePort bind fuel port tolerance
  = match list_find (not_in_use bind) (ports port (Z.to_nat tolerance + 1)) with
    | Some (_, p) => if decide (bind p = Bound) then Done p else Raise "system error"
    | None => Raise "address in use"
    end.
Proof.
  revert port tolerance. induction fuel as [|fuel IH]; intros port tol Hp Ht Hf; [lia|]. cbn [acceptOnFreePort].
  rewrite Nat.add_1_r, ports_S by done. cbn [list_find]. destruct (bind port) eqn:Hb.
  - rewrite decide_True by (unfold not_in_use; congruence). by rewrite decide_True.
  - rewrite decide_False by (unfold not_in_use; congruence). destruct (0 <? tol) eqn:H0.
    + apply Z.ltb_lt in H0. rewrite IH; [|apply (wrap_range 16); lia|rewrite (wrap_id 16); lia|rewrite (wrap_id 16); lia].
      rewrite (wrap_id 16 (tol - 1)) by lia. replace (Z.to_nat (tol - 1) + 1)%nat with (Z.to_nat tol) by lia.
      by destruct (list_find _ (ports (u16 (port + 1)) (Z.to_nat tol))) as [[i p]|].
    + apply Z.ltb_ge in H0. by replace (Z.to_nat tol) with 0%nat by lia.
  - rewrite decide_True by (unfold not_in_use; congruence). rewrite decide_False by congruence. done.
Qed.

(** The search for a port ends after at most [tolerance] + 1 attempts, with the
    first of the ports [port], [port] + 1, ... (modulo 65536: after 65535 comes port 0)
    that is not in use, or the exception for it; when all are in use, with that
    exception. *)
Theorem acceptOnFreePort_first bind port tolerance :
  0 <= port < 65536 -> 0 <= tolerance < 65536 ->
  acceptOnFreePort bind (Z.to_nat tolerance + 1) port tolerance
  = match list_find (not_in_use bind) (ports port (Z.to_nat tolerance + 1)) with
    | Some (_, p) => if decide (bind p = Bound) then Done p else Raise "system error"
    | None => Raise "address in use"
    end.
Proof. intros Hp Ht. apply accept_ports; lia. Qed.

(** The last port of the range is followed by port 0. *)
Lemma acceptOnFreePort_first_witness :
  acceptOnFreePort (fun p => if p =? 65535 then AddressInUse else Bound) 11 65535 10 = Done 0.
Proof. rewrite (acceptOnFreePort_first _ 65535 10); [reflexivity|lia|lia]. Defined.

End port.

(** ** The protocol of a session *)

Section session.
Import MetricsServer.
Context {Request Response : Type} (need_eof : Response -> bool) (handler : Request -> Response).
Implicit Types (s : Session Request Response).

Abbreviation complete := (complete need_eof).

(** A session waiting for a connection, then started. *)
Definition started : Session Request Response := MetricsServer.start (connectOnRequest handler new_session).

(** The requests held by the parser at each completed read. *)
Definition read_of (c : Completion Request) : option Request := match c with ReadDone _ q => Some q | WriteDone _ => None end.
Definition handled_of (d : Did Request Response) : option Request := match d with Handled q => Some q | _ => None end.
Definition wrote_of (d : Did Request Response) : option Response := match d with Wrote m => Some m | _ => None end.

Record session_inv (cs : list (Completion Request)) s : Prop := MkSessionInv {
  si_request : on_request_ s = Some handler;
  si_parser : parser_ s = true;
  si_pending : pending s = [] \/ pending s = [PRead] \/ exists m, pending s = [PWrite (need_eof m) m] /\ res_ s = Some m;
  si_handled : omap handled_of (did s) = omap read_of cs;
  si_wrote : omap wrote_of (did s) = handler <$> omap read_of cs;
  si_over : pending s = [] -> last (did s) = Some Stopped
}.

Lemma session_step cs s c s' :
  session_inv cs s -> complete s c = Done s' -> session_inv (cs ++ [c]) s'.
Proof.
  intros [H1 H2 H3 H4 H5 H6] Hc. unfold MetricsServer.complete in Hc.
  destruct H3 as [Hp|[Hp|(m & Hp & Hr)]]; rewrite Hp in Hc; [done| |]; destruct c as [ec q|ec]; try done.
  - unfold onRead, handleRequest, processRequest in Hc.
    destruct ec as [[]|]; cbn in Hc; rewrite H1, H2 in Hc; cbn in Hc; injection Hc as <-; (split; cbn;
      [done|done|right; right; eexists; rewrite Hp; done| | |rewrite Hp; done]);
      rewrite !omap_app; cbn; rewrite ?omap_app, ?app_nil_r, ?H4, ?H5, ?fmap_app, <-?(assoc_L (++)); done.
  - injection Hc as <-. unfold onWrite.
    destruct ec as [e|]; [|destruct (need_eof m)]; (split; cbn; rewrite ?Hp; cbn; auto);
      rewrite ?omap_app; cbn; rewrite ?app_nil_r, ?H4, ?H5; try done; try (intros _; by rewrite last_snoc).
Qed.

Lemma session_runs cs s : foldM complete started cs = Done s -> session_inv cs s.
Proof.
  apply (foldM_inv complete (fun cs s => session_inv cs s)).
  - split; cbn; [done|done|by right; left|done|done|done].
  - intros l1 c l2 s1 s2 _. apply session_step.
Qed.

(** A session serves its connection in strict alternation: from its start, at any
    time at most one read or write is pending; the handler was called once per
    completed read, on the requests in order, and each call was followed by the write
    of its response; when nothing is pending any more the socket has been shut down. *)
Theorem session_alternates cs s :
  foldM complete started cs = Done s ->
  (length (pending s) <= 1)%nat
  /\ omap handled_of (did s) = omap read_of cs
  /\ omap wrote_of (did s) = handler <$> omap read_of cs
  /\ (pending s = [] -> last (did s) = Some Stopped).
Proof.
  intros [_ _ H3 H4 H5 H6]%session_runs.
  split_and!; [|done..]. destruct H3 as [->|[->|(m & -> & _)]]; cbn; lia.
Qed.

(** A read that failed is handled like one that succeeded: after the error was
    reported and the socket shut down, the handler is called on what the parser holds
    and its response is written. *)
Theorem failed_read_answered s e held :
  on_request_ s = Some handler -> pending s = [PRead] -> parser_ s = true ->
  exists s', complete s (ReadDone (Some e) held) = Done s'
    /\ did s' = did s ++ (match e with end_of_stream => [] | other_error => [Reported "unknown error occurred"] end)
                  ++ [Stopped; Handled held; Wrote (handler held)]
    /\ pending s' = [PWrite (need_eof (handler held)) (handler held)].
Proof.
  intros H1 Hp H2. unfold MetricsServer.complete. rewrite Hp. unfold onRead, handleRequest, processRequest.
  destruct e; cbn; rewrite H1, H2; cbn; eexists; (split; [done|]); cbn; rewrite Hp, <-!(assoc_L (++)); done.
Qed.

End session.

(** ** Samples *)

Module Samples.

(** A library that numbers the metrics and refuses families without a name. *)
#[local] Instance sample_prometheus : Prometheus := {|
  Registry := nat;
  Family := MetricType * string;
  Metric := MetricType * nat;
  Args := unit;
  double := Z;
  MetricFamily := string;
  make_registry := 0%nat;
  family_type := fst;
  metric_type := fst;
  Register t name _ _ r := if bool_decide (name = ""%string) then None else Some (r, (t, name));
  Add f _ _ r := Some (S r, (f.1, r));
  one := 1;
  Increment _ _ r := r;
  Decrement _ _ r := r;
  SetValue _ _ r := r;
  Observe _ _ r := r
|}.

#[local] Instance sample_prometheus_ok : PrometheusOk sample_prometheus.
Proof. split; intros; cbn in *; [case_bool_decide|]; by simplify_eq/=. Qed.

(** A name registered as a gauge, then as a counter: counters are refused. *)
Lemma metric_type_of_family_witness :
  let '(x, h) := foldl step (MetricsRegistry.createRegistry 0%nat, []) [OFamily Gauge "a" "" ∅; OFamily Counter "a" "" ∅; OMetric Gauge "a" ∅ tt] in
  MetricsRegistry.registerMetric Counter "a" ∅ tt x = Raise "bad cast".
Proof.
  pose proof (metric_type_of_family 0%nat [OFamily Gauge "a" "" ∅; OFamily Counter "a" "" ∅; OMetric Gauge "a" ∅ tt] Counter "a" ∅ tt) as [_ H].
  exact H.
Defined.

(** Requests and responses as numbers; a negative response ends the stream. *)
Definition sample_complete := MetricsServer.complete (Request := Z) (fun m => m <? 0).

Definition sample_session : MetricsServer.Session Z Z := started Z.opp.

Definition sample_events : list (MetricsServer.Completion Z) :=
  [MetricsServer.ReadDone None (-4); MetricsServer.WriteDone None; MetricsServer.ReadDone None 5; MetricsServer.WriteDone None].

Definition sample_end : MetricsServer.Session Z Z :=
  match foldM sample_complete sample_session sample_events with Done s => s | _ => MetricsServer.new_session end.

Lemma sample_runs : foldM sample_complete sample_session sample_events = Done sample_end.
Proof. vm_compute. reflexivity. Qed.

Lemma session_alternates_witness :
  omap wrote_of (MetricsServer.did sample_end) = Z.opp <$> [-4; 5] /\ last (MetricsServer.did sample_end) = Some MetricsServer.Stopped.
Proof.
  destruct (session_alternates (fun m => m <? 0) Z.opp sample_events sample_end sample_runs) as (_ & _ & H1 & H2).
  split; [exact H1|by apply H2].
Defined.

Lemma failed_read_answered_witness :
  exists s', sample_complete sample_session (MetricsServer.ReadDone (Some MetricsServer.end_of_stream) 7) = Done s'
    /\ MetricsServer.did s' = [MetricsServer.Stopped; MetricsServer.Handled 7; MetricsServer.Wrote (-7)]
    /\ MetricsServer.pending s' = [MetricsServer.PWrite true (-7)].
Proof. exact (failed_read_answered (fun m => m <? 0) Z.opp sample_session MetricsServer.end_of_stream 7 eq_refl eq_refl eq_refl). Defined.

End Samples.
End MetricsSpec.
