(* ===== verification/ExposerSpec.v ===== *)
(** * ExposerSpec: the metrics server in the life of the application

    The exposer under the control of the state manager, its accept loop, and the
    watcher of the storage size. *)

From S2P Require Import Prelude MetricsServer MetricsSpec StateManager StateManagerSpec.

Module ExposerSpec.
Import MetricsServer.

Section exposer.
Context {Request Response : Type} (handler : Request -> Response).
Implicit Types (x : Exposer Request Response) (q : list StateManager.Action).

(** ** Under the state manager *)

Section life.
Context (e : nat) (bind : Z -> Bind) (port : Z) (option_error : bool).

(** What an event of the state manager means for the exposer registered as [e]. *)
Definition on_event x (ev : StateManager.Event) : run unit (Exposer Request Response) :=
  match ev with
  | StateManager.RanPrepare n => if decide (n = e) then r ← prepare bind port option_error x; mret r.1 else mret x
  | StateManager.RanLaunch n => if decide (n = e) then r ← launch x; mret r.1 else mret x
  | StateManager.RanShutdown n => if decide (n = e) then mret (shut x) else mret x
  | _ => mret x
  end.

Definition others q : Prop := e ∉ (StateManagerSpec.name_of <$> q).

Lemma until_failure_app q1 q2 :
  StateManagerSpec.until_failure (q1 ++ q2)
  = if forallb StateManagerSpec.succeeds q1 then q1 ++ StateManagerSpec.until_failure q2 else StateManagerSpec.until_failure q1.
Proof.
  induction q1 as [|cb q IH]; cbn; [done|]. destruct (StateManagerSpec.succeeds cb); cbn; [|done]. rewrite IH. by destruct (forallb _ q).
Qed.

Lemma others_until q : others q -> others (StateManagerSpec.until_failure q).
Proof.
  unfold others. induction q as [|cb q IH]; cbn; [done|]. intros [Hn Hq]%not_elem_of_cons.
  destruct (StateManagerSpec.succeeds cb); cbn; apply not_elem_of_cons; split; auto. apply not_elem_of_nil.
Qed.

(** Callbacks of others leave the exposer alone. *)
Lemma skip_others (ev : nat -> StateManager.Event) x q :
  (forall n x, n <> e -> on_event x (ev n) = Done x) -> others q -> foldM on_event x (StateManagerSpec.names ev q) = Done x.
Proof.
  intros Hev. unfold others, StateManagerSpec.names. induction q as [|cb q IH]; cbn; [done|]. intros [Hn Hq]%not_elem_of_cons.
  rewrite Hev by congruence. cbn. by apply IH.
Qed.

(** A stage in which the exposer has one callback [cb]. *)
Lemma stage_effect (ev : nat -> StateManager.Event) x cb q1 q2 :
  (forall n x, n <> e -> on_event x (ev n) = Done x) -> StateManagerSpec.name_of cb = e -> others q1 -> others q2 ->
  foldM on_event x (StateManagerSpec.names ev (StateManagerSpec.until_failure (q1 ++ cb :: q2)))
  = if forallb StateManagerSpec.succeeds q1 then on_event x (ev e) else Done x.
Proof.
  intros Hev Hcb H1 H2. rewrite until_failure_app. destruct (forallb StateManagerSpec.succeeds q1); [|by apply skip_others, others_until].
  unfold StateManagerSpec.names. rewrite fmap_app, foldM_app. fold (StateManagerSpec.names ev q1). rewrite skip_others by done.
  cbn. destruct (StateManagerSpec.succeeds cb); cbn; rewrite Hcb.
  - destruct (on_event x (ev e)) as [x'|w|w|]; cbn; [|done..].
    apply (skip_others ev x'); [done|by apply others_until].
  - by destruct (on_event x (ev e)).
Qed.

Lemma all_effect (ev : nat -> StateManager.Event) x cb q1 q2 :
  (forall n x, n <> e -> on_event x (ev n) = Done x) -> StateManagerSpec.name_of cb = e -> others q1 -> others q2 ->
  foldM on_event x (StateManagerSpec.names ev (q1 ++ cb :: q2)) = on_event x (ev e).
Proof.
  intros Hev Hcb H1 H2. unfold StateManagerSpec.names. rewrite fmap_app, foldM_app. fold (StateManagerSpec.names ev q1).
  rewrite skip_others by done. cbn. rewrite Hcb. destruct (on_event x (ev e)) as [x'|w|w|]; cbn; [|done..]. by apply (skip_others ev x').
Qed.

Lemma skips ev : ev = StateManager.RanPrepare \/ ev = StateManager.RanLaunch \/ ev = StateManager.RanShutdown ->
  forall n x, n <> e -> on_event x (ev n) = Done x.
Proof. intros [->|[->| ->]] n x Hn; cbn; by rewrite decide_False. Qed.

(** How the preparation ends. *)
Lemma prepare_outcome x :
  enabled x = Some true ->
  exists x' ok, prepare bind port option_error x = Done (x', ok) /\ enabled x' = Some true /\ handler_ x' = handler_ x
    /\ thread_ x' = thread_ x /\ (ok = true -> acceptor_ x' = Some true) /\ context_stopped x' = context_stopped x.
Proof.
  intros He. unfold prepare, is_enabled. rewrite He. cbn [require mbind run_bind].
  destruct (acceptOnFreePort _ _ _ _); cbn; [destruct option_error|..]; eexists _, _; split_and!; try done.
Qed.

Lemma launch_outcome x h :
  enabled x = Some true -> handler_ x = Some h -> acceptor_ x = Some true -> 
  exists x', launch x = Done (x', true) /\ thread_ x' = true /\ context_stopped x' = context_stopped x.
Proof.
  intros He Hh Ha. unfold launch, is_enabled, acceptOnce. rewrite He, Ha, Hh. cbn. by eexists.
Qed.

(** An enabled exposer under the control of the state manager, between any other
    callbacks, goes through its life without violating an assertion: it is started only
    after its preparation found a port, even when other callbacks fail; the run of the
    manager, once a shutdown is requested, ends and leaves the exposer stopped, its
    thread joined. *)
Theorem exposer_life {H} (reg : H -> H) hs fuel m p1 p2 l1 l2 s1 s2 ok :
  let x0 := (construct (Response := Response) (Some true) handler reg hs).1.1 in
  StateManager.state_ m = StateManager.Init -> StateManager.events m = [] ->
  StateManager.prepare_ m = p1 ++ StateManager.MkAction e [] ok :: p2 ->
  StateManager.launch_ m = l1 ++ StateManager.MkAction e [] true :: l2 ->
  StateManager.shutdown_ m = s1 ++ StateManager.MkAction e [] true :: s2 ->
  Forall StateManagerSpec.plain (p1 ++ p2 ++ l1 ++ l2 ++ s1 ++ s2) -> others (p1 ++ p2 ++ l1 ++ l2 ++ s1 ++ s2) ->
  (length (StateManager.prepare_ m) + length (StateManager.launch_ m) + length (StateManager.shutdown_ m) <= fuel)%nat ->
  (exists x1, prepare bind port option_error x0 = Done (x1, ok)) ->
  exists m' x', StateManager.run true true fuel m = (m', inl tt)
    /\ foldM on_event x0 (StateManager.events m') = Done x' /\ thread_ x' = false /\ context_stopped x' = true.
Proof.
  intros x0 Hi Hev HP HL HS Hplain Ho Hf [x1 Hx1].
  assert (enabled x0 = Some true /\ handler_ x0 = Some handler) as [He0 Hh0] by done. clearbody x0.
  unfold others in Ho. rewrite !Forall_app in Hplain. rewrite !fmap_app, !not_elem_of_app in Ho. destruct_and!.
  destruct (StateManagerSpec.run_order true fuel m) as (m' & Hrun & _ & Hevs); [done|by left|rewrite HP|rewrite HL|rewrite HS|lia|lia|lia|];
    try (apply Forall_app; split; [done|]; by apply Forall_cons).
  rewrite Hev, HP, HL, HS in Hevs. cbn [app] in Hevs.
  destruct (prepare_outcome x0 He0) as (x1' & ok' & Hx1' & He & Hh & Ht & Ha & _). rewrite Hx1 in Hx1'. injection Hx1' as <- <-.
  assert (exists xl, foldM on_event x0 (StateManagerSpec.names StateManager.RanPrepare (StateManagerSpec.until_failure (p1 ++ StateManager.MkAction e [] ok :: p2))
      ++ (if forallb StateManagerSpec.succeeds (p1 ++ StateManager.MkAction e [] ok :: p2)
          then StateManagerSpec.names StateManager.RanLaunch (StateManagerSpec.until_failure (l1 ++ StateManager.MkAction e [] true :: l2)) else [])) = Done xl) as [xl Hxl].
  { rewrite foldM_app, (stage_effect StateManager.RanPrepare) by (done || apply skips; auto). rewrite forallb_app. cbn [forallb StateManagerSpec.succeeds].
    destruct (forallb StateManagerSpec.succeeds p1); cbn; [|by eauto]. rewrite decide_True by done. rewrite Hx1. cbn.
    destruct ok; cbn; [|by eauto]. destruct (forallb StateManagerSpec.succeeds p2); cbn; [|by eauto].
    rewrite (stage_effect StateManager.RanLaunch) by (done || apply skips; auto). destruct (forallb _ l1); [|by eauto]. cbn.
    rewrite decide_True by done. destruct (launch_outcome x1 handler He (eq_trans Hh Hh0) (Ha eq_refl)) as (x2 & -> & _). cbn. by eauto. }
  exists m', (shut xl). split; [done|]. rewrite Hevs, (assoc_L (++)), foldM_app, Hxl. cbn [mbind run_bind].
  rewrite (all_effect StateManager.RanShutdown) by (done || apply skips; auto). cbn. by rewrite decide_True.
Qed.

End life.

(** ** The accept loop *)

(** The sessions for which a connection was accepted, for the errors of the accepts so
    far: number [i] waits for the [i]-th completion. *)
Definition accepted_session (i : nat) (ecs : list bool) : Session Request Response :=
  match ecs !! i with
  | Some false => MetricsServer.start (connectOnRequest handler new_session)
  | _ => connectOnRequest handler new_session
  end.

Record accept_inv (ecs : list bool) x : Prop := MkAcceptInv {
  ai_handler : handler_ x = Some handler;
  ai_open : acceptor_ x = Some true;
  ai_new : new_session_ x = Some (length ecs);
  ai_accepting : accepting x = [length ecs];
  ai_sessions : sessions x = (fun i => accepted_session i ecs) <$> seq 0 (S (length ecs))
}.

Lemma alter_snoc {A} (f : A -> A) (l : list A) y : alter f (length l) (l ++ [y]) = l ++ [f y].
Proof. induction l as [|z l IH]; cbn; [done|]. by rewrite IH. Qed.

Lemma accepted_snoc i ecs ec : (i < length ecs)%nat -> accepted_session i (ecs ++ [ec]) = accepted_session i ecs.
Proof. intros Hi. unfold accepted_session. by rewrite lookup_app_l. Qed.

Lemma accept_step ecs x ec : accept_inv ecs x -> exists x', on_accept ec x = Done x' /\ accept_inv (ecs ++ [ec]) x'.
Proof.
  intros [H1 H2 H3 H4 H5]. unfold on_accept. rewrite H4, H3. cbn. rewrite H2. unfold acceptOnce. cbn. rewrite H1. eexists. split; [done|].
  assert (length (sessions x) = S (length ecs)) as Hl by (by rewrite H5, length_fmap, length_seq).
  assert ((if ec then sessions x else alter MetricsServer.start (length ecs) (sessions x))
    = (fun i => accepted_session i (ecs ++ [ec])) <$> seq 0 (S (length ecs))) as Hs.
  { rewrite H5, !seq_S, !fmap_app. cbn.
    rewrite (list_fmap_ext (fun i => accepted_session i (ecs ++ [ec])) (fun i => accepted_session i ecs) (seq 0 (length ecs))).
    - assert (forall y, alter MetricsServer.start (length ecs) (((fun i => accepted_session i ecs) <$> seq 0 (length ecs)) ++ [y])
        = ((fun i => accepted_session i ecs) <$> seq 0 (length ecs)) ++ [MetricsServer.start y]) as Ha.
      { intros y. pose proof (alter_snoc MetricsServer.start ((fun i => accepted_session i ecs) <$> seq 0 (length ecs)) y) as Ha.
        by rewrite length_fmap, length_seq in Ha. }
      assert (accepted_session (length ecs) ecs = connectOnRequest handler new_session) as Hc.
      { unfold accepted_session. by rewrite lookup_ge_None_2. }
      assert (accepted_session (length ecs) (ecs ++ [ec]) = if ec then connectOnRequest handler new_session
        else MetricsServer.start (connectOnRequest handler new_session)) as Hd.
      { unfold accepted_session. rewrite list_lookup_middle by done. by destruct ec. }
      rewrite Hd, Hc. destruct ec; [done|apply Ha].
    - intros i j Hj. apply lookup_seq in Hj as [-> Hj]. apply accepted_snoc. lia. }
  split; cbn; rewrite ?Hs, ?length_fmap, ?length_seq, ?length_app; cbn; rewrite ?Nat.add_1_r; try done.
  rewrite (seq_S (length ecs)), fmap_app. cbn [fmap list_fmap]. do 2 f_equal. f_equal. unfold accepted_session.
  rewrite lookup_ge_None_2; [done|]. rewrite length_app. cbn. lia.
Qed.

(** The exposer right after its start. *)
Lemma launch_accepting x x1 :
  handler_ x = Some handler -> sessions x = [] -> accepting x = [] -> launch x = Done (x1, true) -> accept_inv [] x1.
Proof.
  intros Hh Hs Ha. unfold launch. destruct (is_enabled x); cbn [require mbind run_bind]; [|done]. destruct (acceptor_ x) as [[]|] eqn:Hac; [|done..].
  unfold acceptOnce. rewrite Hh. cbn. intros [= <-]. split; cbn; by rewrite ?Hs, ?Ha, ?Hac.
Qed.

(** After a successful start, whatever accepts succeed or fail, the exposer always
    waits for one connection with a session of its own, and the sessions that were
    started are exactly those whose accept succeeded, each started once. *)
Theorem accept_loop x x1 ecs :
  handler_ x = Some handler -> sessions x = [] -> accepting x = [] -> launch x = Done (x1, true) ->
  exists x', foldM (fun x ec => on_accept ec x) x1 ecs = Done x'
    /\ accepting x' = [length ecs] /\ new_session_ x' = Some (length ecs)
    /\ sessions x' = (fun i => accepted_session i ecs) <$> seq 0 (S (length ecs)).
Proof.
  intros Hh Hs Ha Hl. pose proof (launch_accepting x x1 Hh Hs Ha Hl) as H0.
  assert (exists x', foldM (fun x ec => on_accept ec x) x1 ecs = Done x' /\ accept_inv ecs x') as (x' & Hx & [? ? ? ? ?]); [|by exists x'].
  induction ecs as [|ec ecs IH] using rev_ind; cbn; [by eauto|]. destruct IH as (x2 & H2 & Hi).
  rewrite foldM_app, H2. cbn. destruct (accept_step _ _ ec Hi) as (x3 & -> & H3). cbn. by eauto.
Qed.

End exposer.

(** ** The watcher *)

(** The constructor asserts the parameter it has moved from. *)
Lemma watcher_asserts {M} (state_manager : M) : new_watcher (Some state_manager) = Undef.
Proof. done. Qed.

Definition sizes (entries : list (option Z)) : Z := foldr Z.add 0 (omap id entries).

Lemma sum_wraps entries total :
  0 <= total < 2 ^ 64 ->
  foldl (fun total size => match size with Some n => u64 (total + n) | None => total end) total entries = u64 (total + sizes entries).
Proof.
  unfold sizes. revert total. induction entries as [|[n|] entries IH]; intros total Ht; cbn [foldl omap list_omap foldr id].
  - rewrite Z.add_0_r. by rewrite wrap_id.
  - rewrite IH by (apply wrap_range; lia). unfold wrap. rewrite Zplus_mod_idemp_l. f_equal. cbn. lia.
  - by apply IH.
Qed.

(** The measured size of a directory is the sum of the sizes of its entries that
    could be read, modulo 2^64; a gauge that was never set stays unset as long as the
    path is no directory, and the path of the watcher, which is never set, is empty. *)
Theorem storage_measured :
  (forall entries, measure_storage_size (inl true) entries = Done (u64 (sizes entries)))
  /\ (forall rounds, Forall (fun r => r.1 <> inl true) rounds -> Forall (fun g => g = None) (watch None rounds)).
Proof.
  split.
  - intros entries. cbn. rewrite sum_wraps by lia. done.
  - induction rounds as [|[d entries] rounds IH]; intros Hr; cbn; [constructor|]. apply Forall_cons in Hr as [Hd Hr]. cbn in Hd.
    assert (match measure_storage_size d entries with Done n => Some n | _ => None end = None) as ->.
    { destruct d as [[]|]; cbn; done. }
    apply Forall_cons. auto.
Qed.

(** ** Samples *)

Module Samples.

Definition act (n : nat) (ok : bool) : StateManager.Action := StateManager.MkAction n [] ok.

(** The exposer is callback 9, between others, one of which fails to launch. *)
Definition sample_manager : StateManager.Manager := StateManager.MkManager StateManager.Init [act 1 true; act 9 true]
  [act 1 true; act 9 true; act 2 false] [act 9 true; act 2 true] true true
  StateManager.ShuttingDownHandler StateManager.LogRotateHandler false [].

Definition sample_exposer : Exposer Z Z := (construct (Some true) Z.opp (fun l => l ++ [0%nat]) []).1.1.

Lemma exposer_life_witness :
  exists m' x', StateManager.run true true 10 sample_manager = (m', inl tt)
    /\ foldM (on_event 9 (fun _ => Bound) 9615 false) sample_exposer (StateManager.events m') = Done x'
    /\ thread_ x' = false /\ context_stopped x' = true.
Proof.
  refine (exposer_life Z.opp 9 (fun _ => Bound) 9615 false (fun l => l ++ [0%nat]) [] 10 sample_manager [act 1 true] [] [act 1 true] [act 2 false] [] [act 2 true] true
    _ _ _ _ _ _ _ _ _); try reflexivity.
  - repeat constructor.
  - unfold others. cbn. set_solver.
  - cbn. lia.
  - eexists. reflexivity.
Defined.

Definition prepared_exposer : Exposer Z Z := set_acceptor (Some true) sample_exposer.
Definition launched_exposer : Exposer Z Z := MkExposer (Some true) (Some Z.opp) (Some true) (Some 0%nat) [connectOnRequest Z.opp new_session] [0%nat] true false.

Lemma accept_loop_witness :
  exists x', foldM (fun x ec => on_accept ec x) launched_exposer [false; true] = Done x'
    /\ accepting x' = [2%nat] /\ new_session_ x' = Some 2%nat
    /\ sessions x' = [MetricsServer.start (connectOnRequest Z.opp new_session); connectOnRequest Z.opp new_session; connectOnRequest Z.opp new_session].
Proof. exact (accept_loop Z.opp prepared_exposer launched_exposer [false; true] eq_refl eq_refl eq_refl eq_refl). Defined.

End Samples.
End ExposerSpec.
