(* ===== verification/Injector.v ===== *)
(** * Injector: what the application is put together from

    The bindings of [makeApplicationInjector] in [src/src/injector/node_injector.cpp] and
    the parameters of the constructors they lead to.  How the library finds and shares the
    objects is its own affair; what the program decides is the graph it walks, and
    whether there is an order of construction at all. *)

From S2P Require Import Prelude.

Module Injector.

(** ** The graph *)

(** What a constructor can ask for. *)
Inductive Interface : Type :=
| StateManager | Application | SystemClock | SteadyClock | Watchdog | Configuration | LoggingSystem | Handler | Exposer
| Dispatcher | ExposerConfiguration | BufferStorage | SpacedStorage | ChainSpec
| Subscription | SeHolder | SessionConfiguration | ExampleLoader | NetworkingLoader | SynchronizerLoader.

#[export] Instance Interface_eq_dec : EqDecision Interface.
Proof. solve_decision. Defined.

(** What a binding leads to: a class, an object made before, or a callable that asks the
    injector again. *)
Inductive Target : Type :=
| StateManagerImpl | ApplicationImpl | SystemClockImpl | SteadyClockImpl | WatchdogItself | PrometheusHandler | ExposerImpl
| AsyncDispatcher | InMemoryStorage | RocksDb | ChainSpecImpl
| Object_ (i : Interface)
| Callable (asks : list Interface).

Definition bindings : list (Interface * Target) :=
  [(StateManager, StateManagerImpl);
   (Application, ApplicationImpl);
   (SystemClock, SystemClockImpl);
   (SteadyClock, SteadyClockImpl);
   (Watchdog, WatchdogItself);
   (Configuration, Object_ Configuration);
   (LoggingSystem, Object_ LoggingSystem);
   (Handler, PrometheusHandler);
   (Exposer, ExposerImpl);
   (Dispatcher, AsyncDispatcher);
   (ExposerConfiguration, Callable [Configuration]);
   (BufferStorage, InMemoryStorage);
   (SpacedStorage, RocksDb);
   (ChainSpec, ChainSpecImpl)].

(** The parameters of the constructors. *)
Definition parameters (t : Target) : list Interface :=
  match t with
  | StateManagerImpl | PrometheusHandler => [LoggingSystem]
  | ApplicationImpl => [LoggingSystem; Configuration; StateManager; Watchdog; Exposer; SystemClock; SeHolder]
  | ExposerImpl => [LoggingSystem; StateManager; Configuration; Handler; SessionConfiguration]
  | WatchdogItself | RocksDb | ChainSpecImpl => [LoggingSystem; Configuration]
  | SystemClockImpl | SteadyClockImpl | AsyncDispatcher | InMemoryStorage | Object_ _ => []
  | Callable asks => asks
  end.

(** A class that can be made without a binding. *)
Definition concrete (i : Interface) : option (list Interface) :=
  match i with
  | Subscription => Some [Dispatcher]
  | SeHolder => Some [Subscription]
  | SessionConfiguration => Some []
  | ExampleLoader | NetworkingLoader | SynchronizerLoader => Some [LoggingSystem; Subscription]
  | _ => None
  end.

(** What is asked for to make an [i]; nothing when there is neither a binding nor a
    class to make. *)
Definition find_binding (i : Interface) : option Target := '(_, b) ← list_find (fun b => b.1 = i) bindings; Some b.2.

Definition asks_for (i : Interface) : option (list Interface) :=
  match find_binding i with Some t => Some (parameters t) | None => concrete i end.

Definition needs (i j : Interface) : Prop := exists l, asks_for i = Some l /\ j ∈ l.

(** [injectApplication] asks for the application, [register_loader] for one of the
    loaders. *)
Definition roots : list Interface := [Application; ExampleLoader; NetworkingLoader; SynchronizerLoader].

(** ** Walks in the graph *)

(** Everything within [n] constructors of [l]. *)
Fixpoint reach (n : nat) (l : list Interface) : list Interface :=
  match n with
  | O => l
  | S n => reach n (remove_dups (l ++ (l ≫= fun i => default [] (asks_for i))))
  end.

Definition closed (l : list Interface) : bool :=
  forallb (fun i => match asks_for i with Some ps => forallb (fun p => bool_decide (p ∈ l)) ps | None => false end) l.

Lemma reach_needs n l j : j ∈ reach n l -> exists i, i ∈ l /\ rtc needs i j.
Proof.
  revert l. induction n as [|n IH]; cbn; intros l Hj; [by exists j; split; [|apply rtc_refl]|].
  apply IH in Hj as (k & Hk & Hkj). rewrite elem_of_remove_dups, elem_of_app, list_elem_of_bind in Hk.
  destruct Hk as [Hk|(i & Hik & Hi)]; [by exists k|]. exists i. split; [done|].
  destruct (asks_for i) as [ps|] eqn:E; [|by apply elem_of_nil in Hik]. eapply rtc_l; [by exists ps|done].
Qed.

Lemma closed_asks l i : closed l = true -> i ∈ l -> exists ps, asks_for i = Some ps /\ forall p, p ∈ ps -> p ∈ l.
Proof.
  unfold closed. rewrite forallb_forall. intros Hc Hi. specialize (Hc i (proj1 (list_elem_of_In _ _) Hi)).
  destruct (asks_for i) as [ps|]; [|done]. exists ps. split; [done|]. intros p Hp.
  rewrite forallb_forall in Hc. apply (bool_decide_eq_true_1 (p ∈ l)). apply Hc. by apply list_elem_of_In.
Qed.

Lemma closed_stays l i j : closed l = true -> i ∈ l -> rtc needs i j -> j ∈ l.
Proof.
  intros Hc Hi Hij. induction Hij as [|i k j (ps & E & Hk) _ IH]; [done|].
  apply IH. destruct (closed_asks l i Hc Hi) as (ps' & E' & Hps). simplify_eq. by apply Hps.
Qed.

(** The height of an interface above those that need nothing. *)
Definition level (i : Interface) : nat :=
  match i with
  | LoggingSystem | Configuration | SystemClock | SteadyClock | Dispatcher | BufferStorage | SessionConfiguration => 0
  | StateManager | Watchdog | Handler | SpacedStorage | ChainSpec | ExposerConfiguration | Subscription => 1
  | Exposer | SeHolder | ExampleLoader | NetworkingLoader | SynchronizerLoader => 2
  | Application => 3
  end.

Lemma needs_below i j : needs i j -> (level j < level i)%nat.
Proof.
  intros (l & E & Hj). destruct i; vm_compute in E; simplify_eq; rewrite ?elem_of_cons, ?elem_of_nil in Hj;
    destruct_or?; subst; cbn; lia || done.
Qed.

Lemma closed_made l r i : closed l = true -> r ∈ l -> rtc needs r i -> is_Some (asks_for i).
Proof.
  intros Hc Hr Hi. destruct (closed_asks l i Hc (closed_stays l r i Hc Hr Hi)) as (ps & -> & _). by eexists.
Qed.

(** A closed list of things within [n] constructors is what is needed. *)
Lemma needed_exactly n l r i :
  closed l && bool_decide (r ∈ l) && bool_decide (Forall (fun j => j ∈ reach n [r]) l) = true -> rtc needs r i <-> i ∈ l.
Proof.
  rewrite !andb_true_iff, !bool_decide_eq_true, Forall_forall. intros [[Hc Hr] Hn]. split; [by apply closed_stays|].
  intros Hi%Hn. apply reach_needs in Hi as (k & Hk%list_elem_of_singleton & Hki). by subst.
Qed.

Definition injected : list Interface :=
  [Application; LoggingSystem; Configuration; StateManager; Watchdog; Exposer; SystemClock; SeHolder; Handler; SessionConfiguration;
   Subscription; Dispatcher].

(** The node can be put together: constructors never wait for one another in a
    circle, whatever the application or a loader needs, directly or not, has a binding or
    a class to make, and that is exactly [injected] for the application and the logging
    system, the subscriptions and their dispatcher for a loader.  In particular the
    database, the chain specification and the other clock, although bound, are never
    made, and the configuration of the exposer is never asked for. *)
Theorem node_injectable :
  well_founded (flip needs)
  /\ (forall r i, r ∈ roots -> rtc needs r i -> is_Some (asks_for i))
  /\ (forall i, rtc needs Application i <-> i ∈ injected)
  /\ forall r i, r ∈ [ExampleLoader; NetworkingLoader; SynchronizerLoader] ->
       (rtc needs r i <-> i ∈ [r; LoggingSystem; Subscription; Dispatcher]).
Proof.
  split; [|split; [|split]].
  - apply (well_founded_lt_compat _ level). intros i j. apply needs_below.
  - intros r i Hr. apply (closed_made (reach 4 roots)); [by vm_compute|].
    by repeat (apply elem_of_cons in Hr as [->|Hr]; [by apply (bool_decide_eq_true_1 _)|]); apply elem_of_nil in Hr.
  - intros i. by apply (needed_exactly 4).
  - intros r i Hr. apply (needed_exactly 4).
    by repeat (apply elem_of_cons in Hr as [->|Hr]; [by vm_compute|]); apply elem_of_nil in Hr.
Qed.
End Injector.
