(* ===== verification/App.v ===== *)
(** * App: the application from its injection to its end

    [NodeInjector::injectApplication] ([src/src/injector/node_injector.cpp]: which class
    stands for which interface), the constructor and [run] of [ApplicationImpl]
    ([src/src/app/impl/application_impl.cpp]), composed of the state manager, the
    watchdog, the metrics registry and the metrics server.  The theorems follow the
    node through a run for every network it may meet. *)

From S2P Require Import Prelude Utils Configurator ConfiguratorSpec MetricsRegistry MetricsServer MetricsSpec StateManager StateManagerSpec.
From S2P Require Import ExposerSpec Watchdog Modules Loaders LoadersSpec EngineBus Node NodeSpec.

Module App.
Import MetricsRegistry.
Import (hints) StateManager.StateManager MetricsServer.MetricsServer MetricsSpec.MetricsSpec.

Section app.
Context `{C : ConfigEnv} `{P : Prometheus} {PO : PrometheusOk P}.

(** What the library does with the static registry: its families at a moment, their
    text; no further arguments of a gauge; a number as [double]. *)
Context (Collect : Registry -> list MetricFamily) (Serialize : list MetricFamily -> string) (none : Args) (to_double : Z -> double).

(** What the exposer meets: the ports, and whether setting the option fails. *)
Record Net : Type := MkNet { net_bind : Z -> MetricsServer.Bind; option_error : bool }.

(** A request: the state of the static registry when it is handled, and the version of
    HTTP. *)
Definition Request : Type := Registry * Z.

(** All registry objects give the handler the one static registry. *)
Definition static_registry : nat := 0%nat.

Definition answer (collectables : Collectables) (q : Request) : Response :=
  onSessionRequest Serialize (fun _ => Some (Collect q.1)) collectables q.2.

(** The identity of the callbacks of the exposer; [Node.stop_watchdog] is another. *)
Definition exposer : nat := 1%nat.

Abbreviation Exposer := (MetricsServer.Exposer Request Response).

(** What the callbacks of an exposer will answer. *)
Definition prepare_result (net : Net) (port : Z) (x : Exposer) : bool :=
  match MetricsServer.prepare (net_bind net) port (option_error net) x with Done (_, ok) => ok | _ => false end.

Definition launch_result (net : Net) (port : Z) (x : Exposer) : bool :=
  match MetricsServer.prepare (net_bind net) port (option_error net) x with
  | Done (x, _) => match MetricsServer.launch x with Done (_, ok) => ok | _ => false end
  | _ => false
  end.

(** [ApplicationImpl], with the objects it holds. *)
Record Application : Type := MkApplication {
  state_manager_ : StateManager.Manager;
  watchdog_ : Watchdog.Watchdog;
  metrics_exposer_ : Exposer;
  metrics_handler_ : Collectables;
  prometheus : Registry
}.

Definition metrics_port (c : Configurator.Configuration) : Z := Configurator.port (Configurator.endpoint c).

(** [ExposerImpl]'s constructor as it is injected: with the shared state manager. *)
Definition injectExposer (net : Net) (c : Configurator.Configuration) (m : StateManager.Manager) (r : Registry) :
    run unit (Exposer * Collectables * StateManager.Manager) :=
  let registered := registerCollectable (fun _ => Some (Collect r)) static_registry [] in
  let '(x, collectables, control) :=
    MetricsServer.construct (Configurator.enabled c) (answer registered) (fun _ => registered) [] in
  if control : bool then
    match StateManager.takeControl
            (Some (StateManager.MkAction exposer [] (prepare_result net (metrics_port c) x)))
            (Some (StateManager.MkAction exposer [] (launch_result net (metrics_port c) x)))
            (Some (StateManager.MkAction exposer [] true)) m with
    | (m, inl _) => mret (x, collectables, m)
    | (_, inr _) => Raise "take control"
    end
  else mret (x, collectables, m).

(** [injectApplication] and the constructor of [ApplicationImpl]. *)
Definition injectApplication (net : Net) (c : Configurator.Configuration) (r : Registry) : run unit Application :=
  '(x, collectables, m) ← injectExposer net c StateManager.construct.1 r;
  '(reg, gauge) ← GaugeHelper "jam_build_info" "A metric with a constant '1' value labeled by name, version"
     (<["name"%string := Configurator.name_ c]> (<["version"%string := Configurator.version_ c]> ∅)) none r;
  mret (MkApplication m (Watchdog.MkWatchdog [] [] false) x collectables (gauge_set gauge (to_double 1) (registry reg))).

(** [ApplicationImpl::run] at [nowSec]: the gauge with the start time, and the run of the
    state manager, during which the exposer's callbacks take effect; [request]: whether a
    shutdown is requested while the node works.  An exception finds the watchdog thread
    joinable. *)
Definition run_application (net : Net) (c : Configurator.Configuration) (request : bool) (fuel : nat) (nowSec : Z) (app : Application) :
    run unit (Application * Node.Ended) :=
  '(reg, gauge) ← GaugeHelper "jam_process_start_time_seconds" "UNIX timestamp of the moment the process started" ∅ none (prometheus app);
  match Node.app_run request fuel (state_manager_ app) (watchdog_ app) with
  | (_, _, Node.Terminated) => Raise "terminate"
  | (m, w, ended) =>
      x ← foldM (ExposerSpec.on_event exposer (net_bind net) (metrics_port c) (option_error net)) (metrics_exposer_ app) (StateManager.events m);
      mret (MkApplication m w x (metrics_handler_ app) (gauge_set gauge (to_double nowSec) (registry reg)), ended)
  end.

(** ** The exposer's callbacks *)

(** Whether the exposer gets a port: the first of eleven that is not in use is free, and
    the option can be set. *)
Definition serves (net : Net) (port : Z) : bool :=
  match list_find (MetricsSpec.not_in_use (net_bind net)) (MetricsSpec.ports port 11) with
  | Some (_, p) => bool_decide (net_bind net p = MetricsServer.Bound) && negb (option_error net)
  | None => false
  end.

Lemma prepare_serves net port x :
  MetricsServer.enabled x = Some true -> 0 <= port < 65536 -> prepare_result net port x = serves net port.
Proof.
  intros He Hp. unfold prepare_result, MetricsServer.prepare, MetricsServer.is_enabled, serves. rewrite He. cbn [require mbind run_bind].
  rewrite MetricsSpec.accept_ports by (unfold MetricsServer.kDefaultPortTolerance; lia).
  change (Z.to_nat MetricsServer.kDefaultPortTolerance + 1)%nat with 11%nat.
  destruct (list_find _ _) as [[i p]|]; [|done]. case_decide as Hb; [rewrite bool_decide_eq_true_2 by done|by rewrite bool_decide_eq_false_2].
  by destruct (option_error net).
Qed.

Lemma launch_serves net port x h :
  MetricsServer.enabled x = Some true -> MetricsServer.handler_ x = Some h -> prepare_result net port x = true ->
  launch_result net port x = true.
Proof.
  intros He Hh. unfold prepare_result, launch_result.
  destruct (ExposerSpec.prepare_outcome (net_bind net) port (option_error net) x He) as (x1 & ok & -> & He1 & Hh1 & _ & Ha & _).
  intros ->. destruct (ExposerSpec.launch_outcome x1 h He1 (eq_trans Hh1 Hh) (Ha eq_refl)) as (x2 & -> & _). done.
Qed.

(** ** The run *)

Definition metrics_enabled (c : Configurator.Configuration) : bool := bool_decide (Configurator.enabled c = Some true).

(** The run comes to an end: a shutdown is requested, or the metrics server fails to
    prepare, when the state manager shuts down by itself. *)
Definition comes_to_end (net : Net) (c : Configurator.Configuration) (request : bool) : bool :=
  request || (metrics_enabled c && negb (serves net (metrics_port c))).

(** What the state manager executes in a run. *)
Definition life (net : Net) (c : Configurator.Configuration) (request : bool) : list StateManager.Event :=
  (if metrics_enabled c then
     [StateManager.RanPrepare exposer] ++ (if serves net (metrics_port c) then [StateManager.RanLaunch exposer] else [])
   else [])
  ++ (if comes_to_end net c request then
        (if metrics_enabled c then [StateManager.RanShutdown exposer] else []) ++ [StateManager.RanShutdown Node.stop_watchdog]
      else []).

(** The manager after the injection. *)
Definition injected_manager (net : Net) (c : Configurator.Configuration) (x : Exposer) : StateManager.Manager :=
  let m := StateManager.construct.1 in
  let act := StateManager.MkAction exposer [] in
  match Configurator.enabled c with
  | Some true => StateManager.MkManager StateManager.Init [act (prepare_result net (metrics_port c) x)]
                   [act (launch_result net (metrics_port c) x)] [act true] true true
                   StateManager.ShuttingDownHandler StateManager.LogRotateHandler false []
  | _ => m
  end.

Definition new_exposer (c : Configurator.Configuration) : Exposer :=
  (MetricsServer.construct (Configurator.enabled c) (answer [static_registry]) (fun _ : Collectables => [static_registry]) []).1.1.

Lemma injectExposer_eq net c r :
  injectExposer net c StateManager.construct.1 r
  = Done (new_exposer c, match Configurator.enabled c with Some true => [static_registry] | _ => [] end,
          injected_manager net c (new_exposer c)).
Proof. unfold injectExposer, new_exposer, injected_manager. by destruct (Configurator.enabled c) as [[]|]. Qed.

Lemma constructed : StateManager.construct.1
  = StateManager.MkManager StateManager.Init [] [] [] true true StateManager.ShuttingDownHandler StateManager.LogRotateHandler false [].
Proof. done. Qed.

(** The run of the injected manager: the flags of the exposer's two callbacks are what
    its preparation and its start will answer. *)
Lemma injected_flags net c :
  0 <= metrics_port c < 65536 -> Configurator.enabled c = Some true ->
  prepare_result net (metrics_port c) (new_exposer c) = serves net (metrics_port c)
  /\ (serves net (metrics_port c) = true -> launch_result net (metrics_port c) (new_exposer c) = true).
Proof.
  intros Hport Hen.
  assert (MetricsServer.enabled (new_exposer c) = Some true) as Hx by (unfold new_exposer; by rewrite Hen).
  assert (exists h, MetricsServer.handler_ (new_exposer c) = Some h) as [h Hh] by (unfold new_exposer; rewrite Hen; cbn; by eauto).
  pose proof (launch_serves net (metrics_port c) _ h Hx Hh) as Hl. rewrite (prepare_serves net (metrics_port c) _ Hx Hport) in *. done.
Qed.

Lemma injected_run net c request fuel w :
  0 <= metrics_port c < 65536 -> (4 <= fuel)%nat ->
  exists m, Node.app_run request fuel (injected_manager net c (new_exposer c)) w
      = (m, if comes_to_end net c request then Watchdog.stop w else w, if comes_to_end net c request then Node.Returned else Node.Running)
    /\ StateManager.state_ m = (if comes_to_end net c request then StateManager.ReadyToStop else StateManager.Works)
    /\ StateManager.events m = life net c request.
Proof.
  intros Hport Hf. set (m0 := injected_manager net c (new_exposer c)).
  assert (StateManager.state_ m0 = StateManager.Init) as Hi by (subst m0; unfold injected_manager; by destruct (Configurator.enabled c) as [[]|]).
  rewrite NodeSpec.app_run_eq by auto. pose proof (injected_flags net c Hport) as Hfl.
  destruct (comes_to_end net c request) eqn:Hend.
  - destruct (StateManagerSpec.run_order request fuel (NodeSpec.with_stop m0)) as (m & -> & Hs & He); [done|..].
    { subst m0. unfold comes_to_end, metrics_enabled in Hend. apply orb_prop in Hend as [->|Hend]; [by left|right].
      apply andb_prop in Hend as [Hen%bool_decide_eq_true Hn%negb_true_iff]. destruct (Hfl Hen) as [Hp _].
      unfold injected_manager. rewrite Hen. cbn. by rewrite Hp, Hn. }
    1-6: subst m0; unfold injected_manager; destruct (Configurator.enabled c) as [[]|]; rewrite ?constructed; cbn; try lia; repeat constructor.
    exists m. split; [done|]. split; [done|]. rewrite He. subst m0. unfold life, injected_manager. rewrite Hend. unfold metrics_enabled.
    destruct (Configurator.enabled c) as [[]|] eqn:Hen; rewrite ?constructed; cbn; try done.
    destruct (Hfl eq_refl) as [-> Hl]. destruct (serves net (metrics_port c)); cbn; [|done]. by rewrite Hl.
  - apply orb_false_iff in Hend as [-> Hend]. unfold metrics_enabled in Hend.
    destruct (StateManagerSpec.run_waits fuel (NodeSpec.with_stop m0)) as (m & -> & Hs & _ & He); [done|..].
    1-6: subst m0; unfold injected_manager; destruct (Configurator.enabled c) as [[]|]; rewrite ?constructed; cbn; try lia; try by repeat constructor.
    1-2: destruct (Hfl eq_refl) as [Hp Hl]; cbn in Hend; apply negb_false_iff in Hend; rewrite ?Hp, ?Hl; by rewrite ?Hend.
    exists m. split; [done|]. split; [done|]. rewrite He. subst m0. unfold life, injected_manager, comes_to_end, metrics_enabled.
    destruct (Configurator.enabled c) as [[]|] eqn:Hen; rewrite ?constructed; cbn in *; try done.
    apply negb_false_iff in Hend. destruct (Hfl eq_refl) as [-> Hl]. rewrite Hend. cbn. by rewrite Hl.
Qed.

(** The exposer after its part of the run. *)
Lemma exposer_run net c request :
  0 <= metrics_port c < 65536 ->
  exists x, foldM (ExposerSpec.on_event exposer (net_bind net) (metrics_port c) (option_error net)) (new_exposer c) (life net c request) = Done x
    /\ MetricsServer.thread_ x = metrics_enabled c && negb (comes_to_end net c request)
    /\ MetricsServer.context_stopped x = metrics_enabled c && comes_to_end net c request.
Proof.
  intros Hport. unfold life, metrics_enabled.
  destruct (Configurator.enabled c) as [[]|] eqn:Hen; [|unfold new_exposer; rewrite Hen; destruct (comes_to_end _ _ _); cbn; by eexists..].
  assert (MetricsServer.enabled (new_exposer c) = Some true) as Hx by (unfold new_exposer; by rewrite Hen).
  assert (exists h, MetricsServer.handler_ (new_exposer c) = Some h) as [h Hh] by (unfold new_exposer; rewrite Hen; cbn; by eauto).
  pose proof (prepare_serves net (metrics_port c) _ Hx Hport) as Hs. unfold prepare_result in Hs.
  destruct (ExposerSpec.prepare_outcome (net_bind net) (metrics_port c) (option_error net) _ Hx) as (x1 & ok & Hp & He1 & Hh1 & Ht1 & Ha & Hc1).
  rewrite Hp in Hs. rewrite bool_decide_eq_true_2 by done. cbn [app foldM ExposerSpec.on_event]. rewrite decide_True by done.
  rewrite Hp. cbn [mbind run_bind fst]. rewrite <-Hs.
  destruct ok; cbn [app foldM ExposerSpec.on_event mbind run_bind mret run_ret]; rewrite ?decide_True by done.
  - destruct (ExposerSpec.launch_outcome x1 h He1 (eq_trans Hh1 Hh) (Ha eq_refl)) as (x2 & -> & Ht2 & Hcl). cbn.
    destruct (comes_to_end net c request) eqn:Hend; cbn; [by eexists|]. exists x2. split; [done|]. split; [done|].
    by rewrite Hcl, Hc1; unfold new_exposer; rewrite Hen.
  - assert (comes_to_end net c request = true) as -> by
      (unfold comes_to_end, metrics_enabled; rewrite Hen, <-Hs, bool_decide_eq_true_2 by done; by destruct request).
    cbn. by eexists.
Qed.

(** ** The library accepts the two gauges *)

Definition build_info_help : string := "A metric with a constant '1' value labeled by name, version".
Definition start_time_help : string := "UNIX timestamp of the moment the process started".
Definition build_labels (c : Configurator.Configuration) : gmap string string :=
  <["name"%string := Configurator.name_ c]> (<["version"%string := Configurator.version_ c]> ∅).

(** A gauge of this name can be registered and added in the registry [r], which is then
    [r']. *)
Definition gauge_accepted (name help : string) (labels : gmap string string) (r r' : Registry) (g : Metric) : Prop :=
  exists r1 f, Register Gauge name help ∅ r = Some (r1, f) /\ Add f labels none r1 = Some (r', g).

(** Both gauges are accepted, each in the registry it meets: the first in [r], the second
    in what the first has left. *)
Definition accepts (c : Configurator.Configuration) (r : Registry) : Prop :=
  exists r1 g1, gauge_accepted "jam_build_info" build_info_help (build_labels c) r r1 g1
    /\ exists r2 g2, gauge_accepted "jam_process_start_time_seconds" start_time_help ∅ (gauge_set g1 (to_double 1) r1) r2 g2.

Lemma GaugeHelper_accepted name help labels r r' g :
  gauge_accepted name help labels r r' g -> exists x, GaugeHelper name help labels none r = Done (x, g) /\ registry x = r'.
Proof.
  intros (r1 & f & Hr & Ha). unfold GaugeHelper, registerGaugeFamily, registerFamily. cbn [registry createRegistry]. rewrite Hr. cbn.
  unfold registerGaugeMetric, registerMetric. cbn. rewrite lookup_empty, lookup_insert_eq. cbn.
  rewrite bool_decide_eq_true_2 by (by apply Register_type in Hr). cbn. rewrite Ha. cbn. by eauto.
Qed.

(** ** Theorems *)

(** C11: the life of the node, for every configuration, every network and every time,
    as long as the metrics library accepts the two gauges in the registries it is in when
    they are added. The application is injected and run. The run returns exactly when a
    shutdown is requested while the node works, or when metrics are enabled and the
    server gets no port (all eleven are in use, the first that is not cannot be bound, or
    the socket option cannot be set): then the state manager is ready to stop, the
    watchdog is stopped and the metrics server too, its thread joined. Otherwise the node keeps
    working, with the watchdog not stopped, and the server's thread running if metrics
    are enabled. No assertion fails. The server is prepared exactly when metrics are
    enabled, started exactly when in addition a port was bound, and stopped whenever it
    was prepared and the run ends; the watchdog is stopped last. *)
Theorem node_life net c r request fuel nowSec :
  accepts c r -> 0 <= metrics_port c < 65536 -> (4 <= fuel)%nat ->
  let ends := comes_to_end net c request in
  exists app app', injectApplication net c r = Done app
    /\ run_application net c request fuel nowSec app = Done (app', if ends then Node.Returned else Node.Running)
    /\ StateManager.state_ (state_manager_ app') = (if ends then StateManager.ReadyToStop else StateManager.Works)
    /\ StateManager.events (state_manager_ app') = life net c request
    /\ Watchdog.stopped_ (watchdog_ app') = ends
    /\ MetricsServer.thread_ (metrics_exposer_ app') = metrics_enabled c && negb ends
    /\ MetricsServer.context_stopped (metrics_exposer_ app') = metrics_enabled c && ends.
Proof.
  intros (r1 & g1 & H1 & r2 & g2 & H2) Hport Hf ends.
  destruct (GaugeHelper_accepted _ _ _ _ _ _ H1) as (reg & Hg1 & Hr1). rewrite <-Hr1 in H2.
  destruct (GaugeHelper_accepted _ _ _ _ _ _ H2) as (reg' & Hg2 & _).
  destruct (injected_run net c request fuel (Watchdog.MkWatchdog [] [] false) Hport Hf) as (m & Hm & Hs & He).
  destruct (exposer_run net c request Hport) as (x & Hx & Ht & Hc). rewrite <-He in Hx.
  unfold injectApplication. rewrite injectExposer_eq. cbn [mbind run_bind]. fold build_info_help. fold (build_labels c). rewrite Hg1.
  fold ends in Hm, Hs, Ht, Hc. destruct ends; (eexists _, _; split; [reflexivity|]); unfold run_application;
  cbn [prometheus state_manager_ watchdog_ metrics_exposer_ metrics_handler_]; fold start_time_help; rewrite Hg2; cbn [mbind run_bind];
  rewrite Hm, Hx; cbn [mbind run_bind]; (split; [reflexivity|]); done.
Qed.

(** The exit code says nothing about the metrics server: as soon as the modules load and
    the run comes to its end, the node returns success, also when its end is that the
    server found no port; as long as the run has not come to its end there is no exit
    code. *)
Theorem node_exits `{B : EventBus Loaders.chan Loaders.handler} (w : Node.World) net c r modules :
  accepts c r -> 0 <= metrics_port c < 65536 -> (4 <= Node.app_fuel w)%nat ->
  Node.injectApplication w c = (app ← injectApplication net c r; mret (state_manager_ app, watchdog_ app)) ->
  (Modules.get_modules (Configurator.modules_dir_ c) (Node.directory_of w (Configurator.modules_dir_ c)) []).2 = Done modules ->
  Node.run_node w c = if comes_to_end net c (Node.shutdown_requested w)
    then Done (Node.EXIT_SUCCESS, (Node.register_all w modules Loaders.empty_node).1) else Fail tt.
Proof.
  intros (r1 & g1 & H1 & _) Hport Hf Hw Hm. unfold Node.run_node. rewrite Hm. destruct (Node.register_all w modules Loaders.empty_node) as [st n].
  rewrite Hw. unfold injectApplication. rewrite injectExposer_eq. cbn [mbind run_bind]. fold build_info_help. fold (build_labels c).
  destruct (GaugeHelper_accepted _ _ _ _ _ _ H1) as (reg & -> & _). cbn [mbind run_bind mret run_ret fst snd state_manager_ watchdog_].
  destruct (injected_run net c (Node.shutdown_requested w) (Node.app_fuel w) (Watchdog.MkWatchdog [] [] false) Hport Hf) as (m & -> & _).
  by destruct (comes_to_end _ _ _).
Qed.

(** Scraping works. On every connection to the server of an application with metrics
    enabled, every completed read is answered, in order, with the text of all families
    the static registry holds at that moment: the registries of all components, the
    gauges of the application included, reach the reader. *)
Theorem scrape_reports (need_eof : Response -> bool) net c r app cs s :
  Configurator.enabled c = Some true -> injectApplication net c r = Done app ->
  foldM (MetricsServer.complete need_eof) (MetricsSpec.started (answer (metrics_handler_ app))) cs = Done s ->
  omap MetricsSpec.wrote_of (MetricsServer.did s)
  = (fun q => let body := Serialize (Collect q.1) in MkResponse 200 q.2 "text/plain; charset=utf-8" (String.length body) true body)
    <$> omap MetricsSpec.read_of cs.
Proof.
  intros Hen Happ Hs. apply MetricsSpec.session_runs in Hs. rewrite (MetricsSpec.si_wrote _ _ _ _ Hs).
  assert (metrics_handler_ app = [static_registry]) as ->.
  { unfold injectApplication in Happ. rewrite injectExposer_eq, Hen in Happ. cbn [mbind run_bind] in Happ.
    apply bind_Done in Happ as ([reg g] & _ & Happ). by injection Happ as <-. }
  apply list_fmap_ext. intros i q _. unfold answer, onSessionRequest, writeResponse. rewrite MetricsSpec.CollectMetrics_concat. cbn.
  by rewrite app_nil_r.
Qed.

End app.

(** ** Samples *)

Module Samples.
#[local] Existing Instance ConfiguratorSpec.Samples.sample_env.
#[local] Existing Instance MetricsSpec.Samples.sample_prometheus.
#[local] Existing Instance MetricsSpec.Samples.sample_prometheus_ok.
#[local] Instance sample_bus : EventBus Loaders.chan Loaders.handler := EngineBus.engine_bus EngineBus.data_code.

(** All ports from the configured one on are in use, up to the last of them. *)
Definition sample_net (free : Z) : Net :=
  MkNet (fun p => if p =? free then MetricsServer.Bound else MetricsServer.AddressInUse) false.

Definition sample_config : Configurator.Configuration :=
  Configurator.MkConfiguration "1.0" "node" "/jam" "spec.json" "/jam/modules" "db" (2 ^ 30)
    (Configurator.MkEndpoint address_any 9615) (Some true).

Definition sample_collect (_ : Registry) : list MetricFamily := ["families"%string].
Definition sample_text (l : list MetricFamily) : string := String.concat "," l.
Definition sample_double (n : Z) : double := n.
Definition sample_none : Args := tt.

Definition sample_inject (free : Z) := injectApplication sample_collect sample_text sample_none sample_double (sample_net free) sample_config 0%nat.

(** The last of the eleven ports is free, and one further on. *)
Example serves_last : serves (sample_net 9625) 9615 = true /\ serves (sample_net 9626) 9615 = false.
Proof. vm_compute. done. Qed.

Lemma sample_accepts : accepts sample_none sample_double sample_config 0%nat.
Proof.
  eexists _, _. split; [eexists _, _; split; reflexivity|]. eexists _, _. eexists _, _. split; reflexivity.
Qed.

(** No port: the run ends by itself. A port and no request: the node works on. *)
Lemma node_life_witness :
  (exists app app', sample_inject 9626 = Done app
    /\ run_application sample_none sample_double (sample_net 9626) sample_config false 4 1700000000 app = Done (app', Node.Returned)
    /\ StateManager.state_ (state_manager_ app') = StateManager.ReadyToStop
    /\ StateManager.events (state_manager_ app')
       = [StateManager.RanPrepare exposer; StateManager.RanShutdown exposer; StateManager.RanShutdown Node.stop_watchdog]
    /\ Watchdog.stopped_ (watchdog_ app') = true
    /\ MetricsServer.thread_ (metrics_exposer_ app') = false
    /\ MetricsServer.context_stopped (metrics_exposer_ app') = true)
  /\ (exists app app', sample_inject 9625 = Done app
    /\ run_application sample_none sample_double (sample_net 9625) sample_config false 4 1700000000 app = Done (app', Node.Running)
    /\ StateManager.state_ (state_manager_ app') = StateManager.Works
    /\ StateManager.events (state_manager_ app') = [StateManager.RanPrepare exposer; StateManager.RanLaunch exposer]
    /\ Watchdog.stopped_ (watchdog_ app') = false
    /\ MetricsServer.thread_ (metrics_exposer_ app') = true
    /\ MetricsServer.context_stopped (metrics_exposer_ app') = false).
Proof.
  split.
  - apply (node_life sample_collect sample_text sample_none sample_double (sample_net 9626) sample_config 0%nat false 4 1700000000).
    + exact sample_accepts.
    + cbn. lia.
    + lia.
  - apply (node_life sample_collect sample_text sample_none sample_double (sample_net 9625) sample_config 0%nat false 4 1700000000).
    + exact sample_accepts.
    + cbn. lia.
    + lia.
Defined.

Definition sample_world (free : Z) : Node.World := {|
  Node.argc := 3;
  Node.argv1 := "--config";
  Node.parsed_min := None;
  Node.load_file _ := None;
  Node.empty_yaml := ConfiguratorSpec.Samples.YAbsent;
  Node.logging_has_error _ := false;
  Node.parsed_all := None;
  Node.start_dir := "/tmp";
  Node.directory_of _ := Some NodeSpec.Samples.sample_directory;
  Node.address_of n := 4096 * (Z.of_nat n + 1);
  Node.injectApplication _ := (app ← sample_inject free; mret (state_manager_ app, watchdog_ app));
  Node.shutdown_requested := false;
  Node.app_fuel := 4
|}.

Definition sample_modules : list Modules.Module :=
  match (Modules.get_modules "/jam/modules" (Some NodeSpec.Samples.sample_directory) []).2 with Done l => l | _ => [] end.

(** No port is free. *)
Lemma node_exits_witness :
  Node.run_node (sample_world 0) sample_config
  = Done (Node.EXIT_SUCCESS, (Node.register_all (sample_world 0) sample_modules Loaders.empty_node).1).
Proof.
  apply (node_exits sample_collect sample_text sample_none sample_double (sample_world 0) (sample_net 0) sample_config 0%nat sample_modules).
  - exact sample_accepts.
  - cbn. lia.
  - cbn. lia.
  - reflexivity.
  - reflexivity.
Defined.

Definition sample_app : Application :=
  match sample_inject 9615 with
  | Done app => app
  | _ => MkApplication StateManager.construct.1 (Watchdog.MkWatchdog [] [] false) (new_exposer sample_collect sample_text sample_config) [] 0%nat
  end.

Definition sample_reads : list (MetricsServer.Completion Request) :=
  [MetricsServer.ReadDone None (7%nat, 11); MetricsServer.WriteDone None; MetricsServer.ReadDone None (8%nat, 11)].

Definition sample_answer : Request -> Response := answer sample_collect sample_text (metrics_handler_ sample_app).

Definition sample_served : MetricsServer.Session Request Response :=
  match foldM (MetricsServer.complete (fun _ => false)) (MetricsSpec.started sample_answer) sample_reads with
  | Done s => s
  | _ => MetricsServer.new_session
  end.

Lemma scrape_reports_witness :
  omap MetricsSpec.wrote_of (MetricsServer.did sample_served)
  = replicate 2 (MkResponse 200 11 "text/plain; charset=utf-8" 8 true "families").
Proof.
  apply (scrape_reports sample_collect sample_text sample_none sample_double (fun _ => false) (sample_net 9615) sample_config 0%nat
    sample_app sample_reads sample_served).
  - reflexivity.
  - reflexivity.
  - vm_compute. reflexivity.
Defined.

End Samples.
End App.
