(* ===== verification/Serving.v ===== *)
(** * Serving: the metrics server with all its connections

    The accept loop of [src/src/metrics/impl/exposer_impl.cpp] together with the sessions of
    [session_impl.cpp], all on one [io_context]: a completed accept or the completion of
    an operation of one of the sessions comes at a time, in any order. *)

From S2P Require Import Prelude Configurator MetricsRegistry MetricsServer MetricsSpec.
From S2P Require Import ConfiguratorSpec StateManager ExposerSpec App.

Module Serving.
Import MetricsServer.

Section serving.
Context {Request Response : Type} (need_eof : Response -> bool) (handler : Request -> Response).
Implicit Types (x : Exposer Request Response) (s : Session Request Response).

(** ** The events *)

Inductive Event : Type := Accepted (ec : bool) | Completed (i : nat) (c : Completion Request).

Definition set_session x (i : nat) s : Exposer Request Response :=
  MkExposer (enabled x) (handler_ x) (acceptor_ x) (new_session_ x) (<[i := s]> (sessions x)) (accepting x) (thread_ x) (context_stopped x).

(** What the thread of the context runs; an event that nothing waits for is no event. *)
Definition serve x (ev : Event) : run unit (Exposer Request Response) :=
  match ev with
  | Accepted ec => on_accept ec x
  | Completed i c =>
      match sessions x !! i with
      | None => Fail tt
      | Some s => s ← complete need_eof s c; mret (set_session x i s)
      end
  end.

Definition accepts_of (evs : list Event) : list bool := omap (fun ev => match ev with Accepted ec => Some ec | _ => None end) evs.
Definition completions_of (i : nat) (evs : list Event) : list (Completion Request) :=
  omap (fun ev => match ev with Completed j c => if decide (j = i) then Some c else None | _ => None end) evs.

Definition waiting : Session Request Response := connectOnRequest handler new_session.

(** ** The invariant *)

Record serve_inv (evs : list Event) x : Prop := MkServeInv {
  sv_handler : handler_ x = Some handler;
  sv_open : acceptor_ x = Some true;
  sv_new : new_session_ x = Some (length (accepts_of evs));
  sv_accepting : accepting x = [length (accepts_of evs)];
  sv_length : length (sessions x) = S (length (accepts_of evs));
  sv_beyond : forall i, (length (sessions x) <= i)%nat -> completions_of i evs = [];
  sv_sessions : forall i s, sessions x !! i = Some s ->
    match accepts_of evs !! i with
    | Some false => foldM (complete need_eof) (MetricsSpec.started handler) (completions_of i evs) = Done s
    | _ => s = waiting /\ completions_of i evs = []
    end
}.

Lemma accepts_snoc evs ec : accepts_of (evs ++ [Accepted ec]) = accepts_of evs ++ [ec].
Proof. unfold accepts_of. by rewrite omap_app. Qed.

Lemma accepts_same evs i c : accepts_of (evs ++ [Completed i c]) = accepts_of evs.
Proof. unfold accepts_of. by rewrite omap_app, app_nil_r. Qed.

Lemma completions_same i evs ec : completions_of i (evs ++ [Accepted ec]) = completions_of i evs.
Proof. unfold completions_of. by rewrite omap_app, app_nil_r. Qed.

Lemma completions_snoc i j evs c :
  completions_of i (evs ++ [Completed j c]) = completions_of i evs ++ if decide (j = i) then [c] else [].
Proof. unfold completions_of. rewrite omap_app. cbn. by case_decide. Qed.

Lemma accept_preserves evs x ec : serve_inv evs x -> exists x', serve x (Accepted ec) = Done x' /\ serve_inv (evs ++ [Accepted ec]) x'.
Proof.
  intros [H1 H2 H3 H4 H5 H6 H7]. cbn. unfold on_accept. rewrite H4, H3. cbn. rewrite H2. unfold acceptOnce. cbn. rewrite H1.
  eexists. split; [done|].
  set (ss := if ec then sessions x else alter MetricsServer.start (length (accepts_of evs)) (sessions x)).
  assert (length ss = length (sessions x)) as Hl by (subst ss; destruct ec; [done|apply length_alter]).
  split; cbn; fold ss; rewrite ?accepts_snoc, ?length_app, ?Hl, ?H5; cbn; rewrite ?Nat.add_1_r; try done.
  - intros i Hi. rewrite completions_same. apply H6. lia.
  - intros i s Hi. rewrite completions_same. apply lookup_app_Some in Hi as [Hi|[Hle Hi]].
    + assert (i < S (length (accepts_of evs)))%nat as Hb by (apply lookup_lt_Some in Hi; lia).
      destruct (decide (i = length (accepts_of evs))) as [->|Hne].
      * rewrite list_lookup_middle by done. subst ss. destruct ec; [|rewrite list_lookup_alter_eq in Hi; apply fmap_Some in Hi as (s0 & Hi & ->)];
          specialize (H7 _ _ Hi); rewrite lookup_ge_None_2 in H7 by done; destruct H7 as [-> ->]; done.
      * rewrite lookup_app_l by lia. apply H7. subst ss. destruct ec; [done|]. by rewrite list_lookup_alter_ne in Hi.
    + rewrite Hl, H5 in Hle, Hi. rewrite lookup_ge_None_2 by (rewrite length_app; cbn; lia).
      apply list_lookup_singleton_Some in Hi as [Hi <-]. split; [done|]. apply H6. lia.
Qed.

Lemma complete_preserves evs x i c x' :
  serve_inv evs x -> serve x (Completed i c) = Done x' -> serve_inv (evs ++ [Completed i c]) x'.
Proof.
  intros [H1 H2 H3 H4 H5 H6 H7]. cbn. destruct (sessions x !! i) as [s|] eqn:Hi; [|done]. intros (s' & Hc & [= <-])%bind_Done.
  assert (i < length (sessions x))%nat as Hb by by eapply lookup_lt_Some.
  split; cbn; rewrite ?accepts_same, ?length_insert; try done.
  - intros j Hj. rewrite completions_snoc, H6 by done. rewrite decide_False by lia. done.
  - intros j sj Hj. rewrite completions_snoc. apply list_lookup_insert_Some in Hj as [(<- & <- & _)|[Hne Hj]].
    + rewrite decide_True by done. specialize (H7 i s Hi). destruct (accepts_of evs !! i) as [[]|].
      2:{ rewrite foldM_app, H7. cbn. by rewrite Hc. }
      all: by destruct H7 as [-> _].
    + rewrite decide_False by done. rewrite app_nil_r. by apply H7.
Qed.

Lemma serve_start x x1 :
  handler_ x = Some handler -> sessions x = [] -> accepting x = [] -> launch x = Done (x1, true) -> serve_inv [] x1.
Proof.
  intros Hh Hs Ha Hl. destruct (ExposerSpec.launch_accepting handler x x1 Hh Hs Ha Hl) as [H1 H2 H3 H4 H5].
  split; rewrite ?H5; try done. intros [|i] s Hi; cbn in Hi; [|done]. injection Hi as <-. by cbn.
Qed.

Lemma serve_all x1 evs x' : serve_inv [] x1 -> foldM serve x1 evs = Done x' -> serve_inv evs x'.
Proof.
  intros H1. revert x'. induction evs as [|ev evs IH] using rev_ind; intros x'; [by intros [= <-]|].
  rewrite foldM_app. intros (x & Hx & Hs)%bind_Done. specialize (IH x Hx). cbn [foldM] in Hs. apply bind_Done in Hs as (x2 & Hs & [= <-]).
  destruct ev as [ec|i c]; [|by eapply complete_preserves]. destruct (accept_preserves evs x ec IH) as (x3 & H3 & Hi). rewrite Hs in H3. by injection H3 as ->.
Qed.

(** Something an operation waits for. *)
Definition possible x (ev : Event) : Prop :=
  match ev with
  | Accepted _ => accepting x <> []
  | Completed i c =>
      exists s, sessions x !! i = Some s
        /\ match pending s, c with PRead :: _, ReadDone _ _ => True | PWrite _ _ :: _, WriteDone _ => True | _, _ => False end
  end.

Lemma possible_served evs x ev : serve_inv evs x -> possible x ev -> exists x', serve x ev = Done x'.
Proof.
  intros Hi. destruct ev as [ec|i c]; [intros _; by edestruct (accept_preserves evs x ec Hi) as (x' & ? & _); eauto|].
  intros (s & Hs & Hp). cbn. rewrite Hs. pose proof (sv_sessions _ _ Hi i s Hs) as Hsi.
  destruct (accepts_of evs !! i) as [[]|]; [by destruct Hsi as [-> _]| |by destruct Hsi as [-> _]].
  apply MetricsSpec.session_runs in Hsi as [Hr Hpa _ _ _ _]. unfold complete.
  destruct (pending s) as [|[|close m] l], c as [ec q|ec]; try done; [|by eexists].
  unfold onRead, handleRequest, processRequest. destruct ec as [[]|]; cbn; rewrite Hr, Hpa; cbn; by eexists.
Qed.

(** A connection fares as if it were the only one. *)
Lemma served_alone evs x i :
  serve_inv evs x -> accepts_of evs !! i = Some false ->
  exists s, sessions x !! i = Some s /\ foldM (complete need_eof) (MetricsSpec.started handler) (completions_of i evs) = Done s
    /\ omap MetricsSpec.wrote_of (did s) = handler <$> omap MetricsSpec.read_of (completions_of i evs).
Proof.
  intros Hi Ha. assert (i < length (sessions x))%nat as [s Hs]%lookup_lt_is_Some.
  { rewrite (sv_length _ _ Hi). apply lookup_lt_Some in Ha. lia. }
  exists s. split; [done|]. pose proof (sv_sessions _ _ Hi i s Hs) as Hsi. rewrite Ha in Hsi. split; [done|].
  apply MetricsSpec.session_runs in Hsi. apply (MetricsSpec.si_wrote _ _ _ _ Hsi).
Qed.
End serving.

(** ** The server of the application *)

Section app.
Import MetricsRegistry App.
Context `{C : ConfigEnv} `{P : Prometheus} {PO : PrometheusOk P}.
Context (Collect : Registry -> list MetricFamily) (Serialize : list MetricFamily -> string) (none : Args) (to_double : Z -> double).
Context (need_eof : Response -> bool).

(** The text of all metrics, for the version of HTTP of a request. *)
Definition scraped (q : Request) : Response :=
  let body := Serialize (Collect q.1) in MkResponse 200 q.2 "text/plain; charset=utf-8" (String.length body) true body.

Lemma answer_scraped q : answer Collect Serialize [static_registry] q = scraped q.
Proof. unfold answer, onSessionRequest, writeResponse. rewrite MetricsSpec.CollectMetrics_concat. cbn. by rewrite app_nil_r. Qed.

(** C37: the metrics server. Once the exposer of an application with metrics enabled has
    found a port and was started, whatever connections arrive and whatever their reads
    and writes come to, in any order and any number at a time: the exposer always waits
    for exactly one further connection; every accepted connection fares as if it were
    the only one, each of its completed reads being answered in order with the text of
    all metrics of that moment; and no completion that something waits for ever throws or
    fails an assertion. *)
Theorem connections_served net c r app prepared x1 evs x :
  Configurator.enabled c = Some true ->
  injectApplication Collect Serialize none to_double net c r = Done app ->
  prepare (net_bind net) (metrics_port c) (option_error net) (metrics_exposer_ app) = Done (prepared, true) ->
  launch prepared = Done (x1, true) ->
  foldM (serve need_eof) x1 evs = Done x ->
  accepting x = [length (accepts_of evs)]
  /\ (forall i, accepts_of evs !! i = Some false -> exists s, sessions x !! i = Some s
       /\ foldM (complete need_eof) (MetricsSpec.started (answer Collect Serialize (metrics_handler_ app))) (completions_of i evs) = Done s
       /\ omap MetricsSpec.wrote_of (did s) = scraped <$> omap MetricsSpec.read_of (completions_of i evs))
  /\ forall ev, possible x ev -> exists x', serve need_eof x ev = Done x'.
Proof.
  intros Hen Happ Hprep Hl Hx.
  assert (metrics_handler_ app = [static_registry] /\ metrics_exposer_ app = new_exposer Collect Serialize c) as [Hh He].
  { unfold injectApplication in Happ. rewrite injectExposer_eq, Hen in Happ. cbn [mbind run_bind] in Happ.
    apply bind_Done in Happ as ([reg g] & _ & Happ). by injection Happ as <-. }
  assert (serve_inv need_eof (answer Collect Serialize [static_registry]) evs x) as Hi.
  { eapply serve_all; [|exact Hx]. revert Hprep. rewrite He. unfold new_exposer, prepare. rewrite Hen. cbn.
    destruct (acceptOnFreePort _ _ _ _); [|done..]. destruct (option_error net); [done|]. intros [= <-]. by eapply serve_start, Hl. }
  split; [apply (sv_accepting _ _ _ _ Hi)|]. split; [|intros ev; by eapply possible_served].
  intros i Hai. destruct (served_alone _ _ _ _ i Hi Hai) as (s & Hs & Hf & Hw). rewrite Hh. exists s. split; [done|]. split; [done|].
  rewrite Hw. apply list_fmap_ext. intros j q _. apply answer_scraped.
Qed.
End app.

(** ** Samples *)

Module Samples.
Import MetricsRegistry App App.Samples.
#[local] Existing Instance ConfiguratorSpec.Samples.sample_env.
#[local] Existing Instance MetricsSpec.Samples.sample_prometheus.
#[local] Existing Instance MetricsSpec.Samples.sample_prometheus_ok.

Definition idle : MetricsServer.Exposer Request Response := metrics_exposer_ sample_app.
Definition sample_prepared : MetricsServer.Exposer Request Response :=
  match prepare (net_bind (sample_net 9615)) 9615 false idle with Done (x, _) => x | _ => idle end.
Definition sample_launched : MetricsServer.Exposer Request Response := match launch sample_prepared with Done (x, _) => x | _ => idle end.

(** Two connections, one failed accept between them; they read alternately. *)
Definition sample_events : list (Event (Request := Request)) :=
  [Accepted false; Completed 0 (ReadDone None (7%nat, 11)); Accepted true; Accepted false; Completed 2 (ReadDone None (8%nat, 10));
   Completed 0 (WriteDone None); Completed 2 (WriteDone None); Completed 0 (ReadDone (Some end_of_stream) (9%nat, 11))].

Definition sample_serving : MetricsServer.Exposer Request Response :=
  match foldM (serve (fun _ => false)) sample_launched sample_events with Done x => x | _ => idle end.

Lemma connections_served_witness : accepting sample_serving = [3%nat] /\ accepts_of sample_events !! 2%nat = Some false.
Proof.
  split; [|reflexivity].
  refine (proj1 (connections_served sample_collect sample_text sample_none sample_double (fun _ => false) (sample_net 9615) sample_config 0%nat
    sample_app sample_prepared sample_launched sample_events sample_serving eq_refl eq_refl _ _ _)); vm_compute; reflexivity.
Defined.
End Samples.
End Serving.
