(* ===== verification/TestVectors.v ===== *)
(** * TestVectors: the harness of the state transitions

    [src/test-vectors/diff.hpp] (what differs between two values),
    [src/test-vectors/vectors.hpp] (which files are tests and what they are called),
    [src/test-vectors/config-types.hpp] and [src/src/scale/jam_scale.hpp] (vectors
    whose length comes from the configuration, coding with a configuration). *)

From S2P Require Import Prelude.

(** ** Types of values

    The templates of [diff] are instantiated at a type; [den] is the type a
    description stands for. *)

Module Diff.

Inductive Ty : Type :=
| TInt
| TEmpty
| TTagged (t : Ty)
| TOptional (t : Ty)
| TSpan (t : Ty)
| TBytes
| TEnum (names : list (Z * string))
| TVariant (alts : Alts)
| TStruct (members : Members)
with Alts : Type := ANil | ACons (tag : string) (t : Ty) (rest : Alts)
with Members : Type := MNil | MCons (name : string) (t : Ty) (rest : Members).

Fixpoint den (t : Ty) : Type :=
  match t with
  | TInt => Z
  | TEmpty => unit
  | TTagged t => den t
  | TOptional t => option (den t)
  | TSpan t => list (den t)
  | TBytes => list Z
  | TEnum _ => Z
  | TVariant alts => den_alts alts
  | TStruct members => den_members members
  end
with den_alts (a : Alts) : Type :=
  match a with ANil => Empty_set | ACons _ t rest => den t + den_alts rest end
with den_members (m : Members) : Type :=
  match m with MNil => unit | MCons _ t rest => den t * den_members rest end.

(** [operator==] *)
Fixpoint den_eq (t : Ty) : EqDecision (den t) :=
  match t return EqDecision (den t) with
  | TInt => Z.eq_dec
  | TEmpty => unit_eq_dec
  | TTagged t => den_eq t
  | TOptional t => @option_eq_dec _ (den_eq t)
  | TSpan t => @list_eq_dec _ (den_eq t)
  | TBytes => @list_eq_dec _ Z.eq_dec
  | TEnum _ => Z.eq_dec
  | TVariant alts => den_alts_eq alts
  | TStruct members => den_members_eq members
  end
with den_alts_eq (a : Alts) : EqDecision (den_alts a) :=
  match a return EqDecision (den_alts a) with
  | ANil => Empty_set_eq_dec
  | ACons _ t rest => @sum_eq_dec _ (den_eq t) _ (den_alts_eq rest)
  end
with den_members_eq (m : Members) : EqDecision (den_members m) :=
  match m return EqDecision (den_members m) with
  | MNil => unit_eq_dec
  | MCons _ t rest => @prod_eq_dec _ (den_eq t) _ (den_members_eq rest)
  end.

#[global] Existing Instance den_eq.
#[global] Existing Instance den_alts_eq.

(** ** What is printed *)

Inductive Text : Type :=
| Name (s : string)
| NeqInts (a b : Z)
| NeqNames (a b : string)
| NeqEnum (a b : string + Z)       (** a name or a wrong value *)
| Size (n : nat)
| NeqSizes (a b : nat)
| Index (i : nat)
| Minus (b : list Z)
| Plus (b : list Z).

Definition Line : Type := nat * Text.

(** [variant::index] and the tag of the alternative. *)
Fixpoint index (a : Alts) : den_alts a -> nat :=
  match a return den_alts a -> nat with
  | ANil => fun _ => 0%nat
  | ACons _ _ rest => fun v => match v with inl _ => 0%nat | inr v => S (index rest v) end
  end.

Fixpoint tag_at (a : Alts) (i : nat) : string :=
  match a, i with
  | ACons tag _ _, O => tag
  | ACons _ _ rest, S i => tag_at rest i
  | ANil, _ => ""
  end.

(** [get_name] of [diff_e] *)
Definition get_name (names : list (Z * string)) (v : Z) : string + Z :=
  match list_find (fun p => p.1 = v) names with Some (_, p) => inl p.2 | None => inr v end.

Definition opt_name {A} (o : option A) : string := match o with Some _ => "Some" | None => "None" end.

(** The loop over the elements of spans of one size. *)
Fixpoint diff_elements {A} `{EqDecision A} (d : A -> A -> list Line) (indent i : nat) (l1 l2 : list A) : list Line :=
  match l1, l2 with
  | x1 :: l1, x2 :: l2 =>
      (if decide (x1 = x2) then [] else (indent, Index i) :: d x1 x2) ++ diff_elements d indent (S i) l1 l2
  | _, _ => []
  end.

(** [diff]; [diff_v_i] steps through the alternatives, [DIFF_M] through the members. *)
Fixpoint diff (t : Ty) (indent : nat) : den t -> den t -> list Line :=
  match t return den t -> den t -> list Line with
  | TInt => fun v1 v2 => if decide (v1 = v2) then [] else [(indent, NeqInts v1 v2)]
  | TEmpty => fun _ _ => []
  | TTagged t => fun v1 v2 => diff t indent v1 v2
  | TOptional t => fun v1 v2 =>
      if decide (v1 = v2) then []
      else match v1, v2 with
           | Some x1, Some x2 => (indent, Name "Some") :: diff t (S indent) x1 x2
           | None, None => [(indent, Name "None")]
           | _, _ => [(indent, NeqNames (opt_name v1) (opt_name v2))]
           end
  | TSpan t => fun v1 v2 =>
      if decide (v1 = v2) then []
      else if negb (length v1 =? length v2)%nat then [(indent, NeqSizes (length v1) (length v2))]
      else (indent, Size (length v1)) :: diff_elements (diff t (S indent)) indent 0 v1 v2
  | TBytes => fun v1 v2 => if decide (v1 = v2) then [] else [(indent, Minus v1); (indent, Plus v2)]
  | TEnum names => fun v1 v2 => if decide (v1 = v2) then [] else [(indent, NeqEnum (get_name names v1) (get_name names v2))]
  | TVariant alts => fun v1 v2 =>
      if decide (v1 = v2) then []
      else if negb (index alts v1 =? index alts v2)%nat then
        [(indent, NeqNames (tag_at alts (index alts v1)) (tag_at alts (index alts v2)))]
      else (indent, Name (tag_at alts (index alts v1))) :: diff_v_i alts indent v1 v2
  | TStruct members => fun v1 v2 => diff_members members indent v1 v2
  end
with diff_v_i (a : Alts) (indent : nat) : den_alts a -> den_alts a -> list Line :=
  match a return den_alts a -> den_alts a -> list Line with
  | ANil => fun _ _ => []
  | ACons _ t rest => fun v1 v2 =>
      match v1, v2 with
      | inl x1, inl x2 => diff t (S indent) x1 x2
      | inr r1, inr r2 => diff_v_i rest indent r1 r2
      | _, _ => []
      end
  end
with diff_members (m : Members) (indent : nat) : den_members m -> den_members m -> list Line :=
  match m return den_members m -> den_members m -> list Line with
  | MNil => fun _ _ => []
  | MCons name t rest => fun v1 v2 =>
      (if decide (v1.1 = v2.1) then [] else (indent, Name name) :: diff t (S indent) v1.1 v2.1)
      ++ diff_members rest indent v1.2 v2.2
  end.

Definition diff_m (t : Ty) (indent : nat) (v1 v2 : den t) (name : string) : list Line :=
  if decide (v1 = v2) then [] else (indent, Name name) :: diff t (S indent) v1 v2.

(** ** Nothing is printed exactly when there is no difference *)

Scheme Ty_mut := Induction for Ty Sort Prop
  with Alts_mut := Induction for Alts Sort Prop
  with Members_mut := Induction for Members Sort Prop.

(** A line that shows a difference, and not the way to one. *)
Definition leaf (l : Line) : Prop :=
  match l.2 with NeqInts a b => a <> b | NeqNames _ _ | NeqEnum _ _ => True | NeqSizes a b => a <> b | Minus _ => True | _ => False end.

Definition exact (A : Type) (d : A -> A -> list Line) : Prop :=
  forall v1 v2 : A, (v1 = v2 -> d v1 v2 = []) /\ (v1 <> v2 -> Exists leaf (d v1 v2)).

Lemma exact_elements {A} `{EqDecision A} (d : A -> A -> list Line) indent l1 l2 i :
  exact A d -> length l1 = length l2 -> l1 <> l2 -> Exists leaf (diff_elements d indent i l1 l2).
Proof.
  intros Hd. revert l2 i. induction l1 as [|x1 l1 IH]; intros [|x2 l2] i Hl Hn; cbn in *; try done. apply Exists_app.
  destruct (decide (x1 = x2)) as [->|Hx]; [right; apply IH; [lia|congruence]|]. left. apply Exists_cons_tl. by apply Hd.
Qed.

Lemma diff_exact t : forall indent, exact (den t) (diff t indent).
Proof.
  induction t using Ty_mut with
    (P0 := fun a => forall indent v1 v2, index a v1 = index a v2 -> v1 <> v2 -> Exists leaf (diff_v_i a indent v1 v2))
    (P1 := fun m => forall indent, exact (den_members m) (diff_members m indent)); try done; intros indent v1 v2; cbn [diff].
  - destruct (decide (v1 = v2)); [done|]. split; [done|]. intros _. by apply Exists_cons_hd.
  - split; [done|]. by destruct v1, v2.
  - destruct (decide (v1 = v2)) as [->|Hn]; [done|]. split; [done|]. intros _.
    destruct v1 as [x1|], v2 as [x2|]; [|by apply Exists_cons_hd|by apply Exists_cons_hd|done].
    apply Exists_cons_tl, IHt. by intros ->.
  - destruct (decide (v1 = v2)) as [->|Hn]; [done|]. split; [done|]. intros _.
    destruct (length v1 =? length v2)%nat eqn:Hl; cbn; [|apply Nat.eqb_neq in Hl; by apply Exists_cons_hd].
    apply Nat.eqb_eq in Hl. apply Exists_cons_tl. by apply exact_elements.
  - destruct (decide (v1 = v2)); [done|]. split; [done|]. intros _. by apply Exists_cons_hd.
  - destruct (decide (v1 = v2)); [done|]. split; [done|]. intros _. by apply Exists_cons_hd.
  - destruct (decide (v1 = v2)) as [->|Hn]; [done|]. split; [done|]. intros _.
    destruct (index alts v1 =? index alts v2)%nat eqn:Hl; cbn [negb]; [|by apply Exists_cons_hd].
    apply Nat.eqb_eq in Hl. apply Exists_cons_tl. by apply IHt.
  - destruct v1 as [x1|r1], v2 as [x2|r2]; cbn; intros Hi Hn; try done.
    + apply IHt. by intros ->.
    + apply IHt0; [congruence|by intros ->].
  - split; [done|]. by destruct v1, v2.
  - destruct v1 as [x1 r1], v2 as [x2 r2]. cbn [diff_members fst snd]. split.
    + intros [= <- <-]. rewrite decide_True by done. by apply IHt0.
    + intros Hn. apply Exists_app. destruct (decide (x1 = x2)) as [->|Hx]; [right; apply IHt0; by intros ->|].
      left. rewrite decide_False by done. by apply Exists_cons_tl, IHt.
Qed.

(** The comparison of two values of any type the test vectors use (numbers, bytes,
    enumerations, and optionals, sequences, variants and structures of them) prints
    nothing when the values are equal, and otherwise at least one line that shows a
    difference: two distinct numbers, sizes, names or byte strings. *)
Theorem diff_finds t indent v1 v2 :
  (v1 = v2 -> diff t indent v1 v2 = []) /\ (v1 <> v2 -> Exists leaf (diff t indent v1 v2)).
Proof. apply diff_exact. Qed.

Lemma diff_finds_witness :
  let t := TStruct (MCons "a" TInt (MCons "b" (TOptional (TSpan TBytes)) MNil)) in
  Exists leaf (diff t 1 (1, (Some [[1]; [2]], tt)) (1, (Some [[1]; [3]], tt))).
Proof.
  apply (diff_finds (TStruct (MCons "a" TInt (MCons "b" (TOptional (TSpan TBytes)) MNil))) 1 (1, (Some [[1]; [2]], tt)) (1, (Some [[1]; [3]], tt))).
  intros H. discriminate H.
Defined.

End Diff.

(** ** The files of a test suite *)

Module Vectors.

Definition use_ext : string := ".bin".
Definition known_ext (ext : string) : bool := bool_decide (ext ∈ [".bin"; ".json"; ".scale"]%string).

(** The entries of the directory as stems with extensions.  [path_ok] maps a path with
    the extension replaced, given by its stem, to whether the file itself is there. *)
Definition scan (files : list (string * string)) : gmap string bool :=
  foldl (fun path_ok '(stem, ext) =>
    if negb (known_ext ext) then path_ok
    else <[stem := default false (path_ok !! stem) || bool_decide (ext = use_ext)]> path_ok) ∅ files.

(** [list]: the paths of the tests and the paths warned about. *)
Definition list_ (files : list (string * string)) : gset string * gset string :=
  let path_ok := scan files in
  (dom (filter (fun p => p.2 = true) path_ok), dom (filter (fun p => p.2 = false) path_ok)).

(** [getTestLabel]: the directories below the first one, and the stem; the argument is
    the parent directory relative to the vectors. *)
Definition join (l : list string) : string :=
  match l with [] => "" | s :: l => foldl (fun acc x => acc ++ "/" ++ x)%string s l end.

Definition getTestLabel (rel_path : list string) (stem : string) : string := join (drop 1 rel_path ++ [stem]).

Definition isalnum (c : Z) : bool :=
  ((48 <=? c) && (c <=? 57)) || ((65 <=? c) && (c <=? 90)) || ((97 <=? c) && (c <=? 122)).

(** [getTestName], on the codes of the characters: [isalnum] of a negative [char] is
    undefined. *)
Fixpoint getTestName (label : list Z) : run unit (list Z) :=
  match label with
  | [] => mret []
  | c :: label =>
      out ← (if c =? 47 then mret [95; 95]
             else if negb (c <? 128) then Undef
             else if negb (isalnum c) then mret [95] else mret [c]);
      rest ← getTestName label;
      mret (out ++ rest)
  end.

Definition has (files : list (string * string)) (stem ext : string) : Prop := (stem, ext) ∈ files.

Lemma scan_app files f : scan (files ++ [f]) = if negb (known_ext f.2) then scan files
  else <[f.1 := default false (scan files !! f.1) || bool_decide (f.2 = use_ext)]> (scan files).
Proof. unfold scan. rewrite foldl_app. cbn. by destruct f. Qed.

Lemma scan_files files stem :
  match scan files !! stem with
  | Some ok => (exists ext, known_ext ext = true /\ (stem, ext) ∈ files) /\ (ok = true <-> (stem, use_ext) ∈ files)
  | None => forall ext, known_ext ext = true -> (stem, ext) ∉ files
  end.
Proof.
  induction files as [|[st ext] files IH] using rev_ind; [cbn; rewrite lookup_empty; set_solver|].
  rewrite scan_app. cbn [fst snd]. destruct (known_ext ext) eqn:Hk; cbn [negb].
  - destruct (decide (st = stem)) as [->|Hne]; [rewrite lookup_insert_eq|rewrite lookup_insert_ne by done].
    + split; [exists ext; set_solver|]. rewrite orb_true_iff, bool_decide_eq_true, elem_of_app, list_elem_of_singleton.
      destruct (scan files !! stem) as [ok|]; cbn.
      * destruct IH as [_ ->]. naive_solver.
      * specialize (IH use_ext eq_refl). naive_solver.
    + destruct (scan files !! stem) as [ok|].
      * destruct IH as [(e & He & Hin) ->]. split; [exists e; set_solver|]. set_solver.
      * intros e He. specialize (IH e He). set_solver.
  - destruct (scan files !! stem) as [ok|].
    + destruct IH as [(e & He & Hin) ->]. split; [exists e; set_solver|]. rewrite elem_of_app, list_elem_of_singleton.
      split; [by left|]. intros [?|[= -> <-]]; [done|]. discriminate Hk.
    + intros e He. specialize (IH e He). rewrite elem_of_app, list_elem_of_singleton. intros [?|[= <- <-]]; congruence.
Qed.

Lemma list_paths files stem : stem ∈ (list_ files).1 <-> (stem, ".bin"%string) ∈ files.
Proof.
  pose proof (scan_files files stem) as Hs. unfold list_, use_ext in *. cbn [fst snd]. rewrite elem_of_dom. unfold is_Some.
  setoid_rewrite map_lookup_filter_Some. cbn [snd]. destruct (scan files !! stem) as [ok|].
  - destruct Hs as [_ Hok]. rewrite <-Hok. naive_solver.
  - split; [naive_solver|]. intros Hin. by apply Hs in Hin.
Qed.

(** The tests of a directory are exactly its [.bin] files, whatever else lies there
    and in whatever order it is listed; warned about are exactly the names that have a
    [.json] or [.scale] file and no [.bin] file. *)
Theorem list_exact files stem :
  (stem ∈ (list_ files).1 <-> (stem, ".bin"%string) ∈ files)
  /\ (stem ∈ (list_ files).2 <-> ((stem, ".json"%string) ∈ files \/ (stem, ".scale"%string) ∈ files) /\ (stem, ".bin"%string) ∉ files).
Proof.
  split; [apply list_paths|].
  pose proof (scan_files files stem) as Hs. unfold list_, use_ext in *. cbn [fst snd]. rewrite elem_of_dom. unfold is_Some.
  setoid_rewrite map_lookup_filter_Some. cbn [snd]. destruct (scan files !! stem) as [ok|].
  - destruct Hs as [(ext & He & Hin) Hok]. apply bool_decide_eq_true in He.
    assert (ok = false <-> (stem, ".bin"%string) ∉ files) as Hf by (rewrite <-Hok; destruct ok; naive_solver). rewrite <-Hf.
    split; [|naive_solver]. intros (b & [= <-] & ->). split; [|done]. set_unfold in He. destruct_or! He; subst; [|by left|by right].
    exfalso. by apply Hf.
  - split; [naive_solver|]. intros [[Hin|Hin] _]; by apply Hs in Hin.
Qed.

(** The name made of a label with characters below 128 is defined, at most twice as
    long, and consists of letters, digits and underscores only, as the test framework
    requires. *)
Theorem test_name_valid label :
  Forall (fun c => 0 <= c < 128) label ->
  exists name, getTestName label = Done name /\ (length name <= 2 * length label)%nat
    /\ Forall (fun c => isalnum c = true \/ c = 95) name.
Proof.
  induction label as [|c label IH]; intros Hl; cbn [getTestName]; [by exists []|]. apply Forall_cons in Hl as [Hc Hl].
  destruct (IH Hl) as (name & -> & Hlen & Hname).
  destruct (c =? 47); cbn [mbind run_bind mret run_ret]; [|rewrite (proj2 (Z.ltb_lt c 128)) by lia; cbn [negb]; destruct (isalnum c) eqn:Ha; cbn [negb mbind run_bind mret run_ret]];
    eexists; (split; [done|]); cbn; (split; [lia|]); repeat (apply Forall_cons; split; [auto|]); done.
Qed.

Lemma test_name_valid_witness : exists name, getTestName [97; 47; 45; 49] = Done name /\ (length name <= 8)%nat
  /\ Forall (fun c => isalnum c = true \/ c = 95) name.
Proof. apply (test_name_valid [97; 47; 45; 49]). repeat (apply Forall_cons; split; [lia|]). constructor. Defined.

End Vectors.

(** ** Coding with a configuration *)

Module Codec.

(** The coder of the library: what it writes, or an error it throws; what it reads, and
    the bytes left. *)
Definition encoder (T : Type) : Type := T -> run unit (list Z).
Definition decoder (T : Type) : Type := list Z -> run unit (T * list Z).

Definition size_max : Z := 2 ^ 64 - 1.

Section config_vec.
Context {T : Type} (encode_item : encoder T) (decode_item : decoder T) (encode_vector : encoder (list T)) (decode_vector : decoder (list T)).

Fixpoint encode_items (v : list T) : run unit (list Z) :=
  match v with [] => mret [] | x :: v => a ← encode_item x; b ← encode_items v; mret (a ++ b) end.

Fixpoint decode_items (n : nat) (bytes : list Z) : run unit (list T * list Z) :=
  match n with
  | O => mret ([], bytes)
  | S n => '(x, bytes) ← decode_item bytes; '(v, bytes) ← decode_items n bytes; mret (x :: v, bytes)
  end.

(** [n] is the size the configuration gives. *)
Definition encode (n : Z) (v : list T) : run unit (list Z) :=
  if n =? size_max then encode_vector v
  else require (Z.of_nat (length v) =? n);; encode_items v.

Definition decode (n : Z) (bytes : list Z) : run unit (list T * list Z) :=
  if n =? size_max then decode_vector bytes else decode_items (Z.to_nat n) bytes.

End config_vec.

(** [encode_with_config] and [decode_with_config]: system errors become failures; the
    decoder does not look at what is left of the bytes. *)
Definition encode_with_config {T} (e : encoder T) (value : T) : run string (list Z) :=
  match e value with Done out => Done out | Fail _ => Fail "system error"%string | Raise w => Raise w | Undef => Undef end.

Definition decode_with_config {T} (d : decoder T) (bytes : list Z) : run string T :=
  match d bytes with Done (v, _) => Done v | Fail _ => Fail "system error"%string | Raise w => Raise w | Undef => Undef end.

(** A decoder reads back what an encoder wrote. *)
Definition inverse {T} (e : encoder T) (d : decoder T) : Prop :=
  forall x out rest, e x = Done out -> d (out ++ rest) = Done (x, rest).

Section laws.
Context {T : Type} (ei : encoder T) (di : decoder T) (ev : encoder (list T)) (dv : decoder (list T)).

Lemma items_inverse : inverse ei di -> forall v out rest, encode_items ei v = Done out -> decode_items di (length v) (out ++ rest) = Done (v, rest).
Proof.
  intros Hi v. induction v as [|x v IH]; intros out rest He; cbn in *; [by injection He as <-|].
  run_inv. rewrite <-(assoc_L (++)). erewrite Hi by done. cbn. by erewrite IH by done.
Qed.

Lemma items_encoded v : Forall (fun x => exists c, ei x = Done c) v -> exists codes, Forall2 (fun x c => ei x = Done c) v codes /\ encode_items ei v = Done (concat codes).
Proof.
  induction 1 as [|x v [c Hc] Hv (codes & Hf & He)]; [by exists []|]. exists (c :: codes). split; [by constructor|]. cbn. by rewrite Hc, He.
Qed.

(** C40: the coding of a vector whose size comes from the configuration, for items that
    can be encoded and are read back by their decoder. Where the configuration does not
    fix the size (the maximum of [size_t]), encoding and decoding are exactly those of an
    ordinary vector, which code its size too. Where it does and the vector has that size,
    encoding succeeds, the bytes are those of the items one after the other and no size,
    and decoding them, whatever follows, gives the vector back and leaves what follows.
    A vector of another size trips the assertion of the encoder. *)
Theorem config_vec_roundtrip n v rest :
  inverse ei di -> Forall (fun x => exists c, ei x = Done c) v -> 0 <= n <= size_max ->
  (n = size_max -> encode ei ev n v = ev v /\ forall bytes, decode di dv n bytes = dv bytes)
  /\ (n <> size_max -> Z.of_nat (length v) = n ->
      exists codes, Forall2 (fun x c => ei x = Done c) v codes
        /\ encode ei ev n v = Done (concat codes) /\ decode di dv n (concat codes ++ rest) = Done (v, rest))
  /\ (n <> size_max -> Z.of_nat (length v) <> n -> encode ei ev n v = Undef).
Proof.
  intros Hi Hv Hn. unfold encode, decode. split_and!.
  - intros ->. done.
  - intros Hm Hl. rewrite (proj2 (Z.eqb_neq n size_max)) by done. destruct (items_encoded v Hv) as (codes & Hf & He).
    exists codes. split; [done|]. rewrite (proj2 (Z.eqb_eq _ _)) by done. split; [done|].
    replace (Z.to_nat n) with (length v) by lia. by apply items_inverse.
  - intros Hm Hl. by rewrite !(proj2 (Z.eqb_neq _ _)) by done.
Qed.

End laws.

(** Items of one byte; vectors with a one-byte length. *)
Definition byte_encode : encoder Z := fun x => mret [x].
Definition byte_decode : decoder Z := fun bytes => match bytes with [] => Fail tt | x :: r => mret (x, r) end.
Definition short_encode : encoder (list Z) := fun v => mret (Z.of_nat (length v) :: v).
Definition short_decode : decoder (list Z) := fun bytes =>
  match bytes with [] => Fail tt | n :: r => if Z.of_nat (length r) <? n then Fail tt else mret (take (Z.to_nat n) r, drop (Z.to_nat n) r) end.

Lemma config_vec_roundtrip_witness :
  (exists codes, Forall2 (fun x c => byte_encode x = Done c) [5; 6; 7] codes
     /\ encode byte_encode short_encode 3 [5; 6; 7] = Done (concat codes)
     /\ decode byte_decode short_decode 3 (concat codes ++ [9]) = Done ([5; 6; 7], [9]))
  /\ encode byte_encode short_encode size_max [5; 6; 7] = Done [3; 5; 6; 7]
  /\ encode byte_encode short_encode 4 [5; 6; 7] = Undef.
Proof.
  assert (inverse byte_encode byte_decode) as Hi by (by intros x out rest [= <-]).
  assert (Forall (fun x => exists c, byte_encode x = Done c) [5; 6; 7]) as He by (repeat constructor; by eexists).
  split; [|split].
  - apply (config_vec_roundtrip byte_encode byte_decode short_encode short_decode 3 [5; 6; 7] [9] Hi He); unfold size_max; cbn; lia.
  - transitivity (short_encode [5; 6; 7]); [|reflexivity].
    apply (config_vec_roundtrip byte_encode byte_decode short_encode short_decode size_max [5; 6; 7] [9] Hi He); unfold size_max; lia.
  - apply (config_vec_roundtrip byte_encode byte_decode short_encode short_decode 4 [5; 6; 7] [9] Hi He); unfold size_max; cbn; lia.
Defined.

End Codec.
