(* ===== verification/Harness.v ===== *)
(** * Harness: what a passing test vector means

    The macros [GTEST_VECTORS], [GTEST_VECTORS_TEST_TRANSITION] and
    [GTEST_VECTORS_TEST_REENCODE] of [src/test-vectors/vectors.hpp] and the suites
    [Vectors] of [src/test-vectors/*/vectors.hpp].  A test is a function of the file it
    reads; its result is the list of failed assertions and the lines it prints. *)

From S2P Require Import Prelude TestVectors.

Module Harness.

(** ** The suites *)

Inductive Suite : Type := Authorizations | Disputes | History | Safrole.
Inductive Config : Type := config_tiny | config_full | config_default.

#[export] Instance Suite_eq_dec : EqDecision Suite.
Proof. solve_decision. Defined.
#[export] Instance Config_eq_dec : EqDecision Config.
Proof. solve_decision. Defined.

Definition Dir : Type := list string.

(** [Vectors(is_full)]: the configuration and the directory below the vectors. *)
Definition sized (name : string) (is_full : bool) : Config * Dir :=
  (if is_full then config_full else config_tiny, [name; if is_full then "full" else "tiny"]%string).

(** [vectors()] of each suite. *)
Definition authorizations_vectors : list (Config * Dir) := sized "authorizations" <$> [false; true].
Definition disputes_vectors : list (Config * Dir) := sized "disputes" <$> [false; true].
Definition safrole_vectors : list (Config * Dir) := sized "safrole" <$> [false; true].
Definition history_vectors : list (Config * Dir) := [(config_default, ["history"; "data"]%string)].

Definition vectors (s : Suite) : list (Config * Dir) :=
  match s with
  | Authorizations => authorizations_vectors
  | Disputes => disputes_vectors
  | Safrole => safrole_vectors
  | History => history_vectors
  end.

(** The parameters of the tests of a suite, for the files in each directory. *)
Definition params (files : Dir -> list (string * string)) (s : Suite) : list ((Config * Dir) * string) :=
  vectors s ≫= fun v => (fun path => (v, path)) <$> elements (Vectors.list_ (files v.2)).1.

(** ** The tests *)

Inductive Failure : Type := ReadFailed | DecodeFailed | EncodeFailed | StateDiffers | OutputDiffers | ReencodedDiffers.

Record Result : Type := MkResult { failures : list Failure; printed : list Diff.Line }.

(** [ASSERT_OUTCOME_SUCCESS] ends the test. *)
Definition failed (f : Failure) : Result := MkResult [f] [].

Section tests.
(** The types of a state, an input and an output of a suite. *)
Context (State_ Input_ Output_ : Diff.Ty).

Record TestCase : Type := MkTestCase {
  input : Diff.den Input_; pre_state : Diff.den State_; output : Diff.den Output_; post_state : Diff.den State_
}.

Context (encode : Codec.encoder TestCase) (decode : Codec.decoder TestCase).

(** [qtils::readBytes] gives the bytes of the file or an error. *)
Definition test_transition (transition : Diff.den State_ -> Diff.den Input_ -> run unit (Diff.den State_ * Diff.den Output_))
    (file : option (list Z)) : run unit Result :=
  match file with
  | None => mret (failed ReadFailed)
  | Some raw_data =>
      match Codec.decode_with_config decode raw_data with
      | Fail _ => mret (failed DecodeFailed)
      | Raise w => Raise w
      | Undef => Undef
      | Done testcase =>
          '(state, out) ← transition (pre_state testcase) (input testcase);
          let indent := 1%nat in
          mret (MkResult
            ((if decide (state = post_state testcase) then [] else [StateDiffers])
             ++ (if decide (out = output testcase) then [] else [OutputDiffers]))
            ((if decide (state = post_state testcase) then [] else Diff.diff_m State_ indent state (post_state testcase) "state")
             ++ (if decide (out = output testcase) then [] else Diff.diff_m Output_ indent out (output testcase) "output")))
      end
  end.

Definition test_reencode (file : option (list Z)) : run unit Result :=
  match file with
  | None => mret (failed ReadFailed)
  | Some original =>
      match Codec.decode_with_config decode original with
      | Fail _ => mret (failed DecodeFailed)
      | Raise w => Raise w
      | Undef => Undef
      | Done decoded =>
          match Codec.encode_with_config encode decoded with
          | Fail _ => mret (failed EncodeFailed)
          | Raise w => Raise w
          | Undef => Undef
          | Done reencoded => mret (MkResult (if decide (reencoded = original) then [] else [ReencodedDiffers]) [])
          end
      end
  end.

(** A test passes when it ends without a failed assertion. *)
Definition passes (r : run unit Result) : Prop := exists out, r = Done out /\ failures out = [].

(** ** Theorems *)

Lemma decode_config_Done raw testcase : Codec.decode_with_config decode raw = Done testcase <-> exists rest, decode raw = Done (testcase, rest).
Proof. unfold Codec.decode_with_config. destruct (decode raw) as [[v rest]| | |]; naive_solver. Qed.

(** A transition test passes exactly when its file can be read and starts with a test
    case, and the transition from the state before, with the input, gives exactly the
    expected state and output. When the transition ends but the test does not pass, at
    least one printed line shows a difference; a passing test prints nothing. *)
Theorem transition_test_passes transition file :
  (passes (test_transition transition file)
   <-> exists raw testcase rest, file = Some raw /\ decode raw = Done (testcase, rest)
         /\ transition (pre_state testcase) (input testcase) = Done (post_state testcase, output testcase))
  /\ (forall out, test_transition transition file = Done out ->
        if decide (failures out = []) then printed out = []
        else failures out = [ReadFailed] \/ failures out = [DecodeFailed] \/ Exists Diff.leaf (printed out)).
Proof.
  unfold passes, test_transition. destruct file as [raw|]; [|split; [split; [|naive_solver]|]].
  2: { intros (out & [= <-] & H). discriminate H. }
  2: { intros out [= <-]. rewrite decide_False by done. by left. }
  destruct (Codec.decode_with_config decode raw) as [tc|e|e|] eqn:Hd.
  2-4: (split; [split; [by intros (out & [= <-] & ?)|]|];
        [intros (raw' & tc & rest & [= <-] & Ht & _); rewrite (proj2 (decode_config_Done raw tc)) in Hd by eauto; done|]; intros out [= <-]);
        rewrite decide_False by done; by right; left.
  apply decode_config_Done in Hd as [rest Hd].
  destruct (transition (pre_state tc) (input tc)) as [[st o]|e|e|] eqn:Ht; cbn.
  2-4: (split; [split; [by intros (out & ? & _)|intros (raw' & tc' & rest' & [= <-] & Ht' & Hx); rewrite Hd in Ht'; injection Ht' as <- <-; congruence]|done]).
  split.
  - split.
    + intros (out & [= <-] & Hf). cbn in Hf. destruct (decide (st = post_state tc)) as [->|]; [|done].
      destruct (decide (o = output tc)) as [->|]; [|done]. by exists raw, tc, rest.
    + intros (raw' & tc' & rest' & [= <-] & Ht' & Hx). rewrite Hd in Ht'. injection Ht' as <- <-. rewrite Ht in Hx. injection Hx as -> ->.
      eexists. split; [reflexivity|]. cbn. by rewrite !decide_True.
  - intros out [= <-]. cbn. assert (forall t indent (v1 v2 : Diff.den t) name, v1 <> v2 -> Exists Diff.leaf (Diff.diff_m t indent v1 v2 name)) as Hm.
    { intros t indent v1 v2 name Hn. unfold Diff.diff_m. rewrite decide_False by done. apply Exists_cons_tl. by apply Diff.diff_exact. }
    destruct (decide (st = post_state tc)), (decide (o = output tc)); cbn; rewrite ?decide_True, ?decide_False by done; try done;
      right; right; rewrite ?Exists_app; auto.
Qed.

(** A reencoding test passes exactly on the encodings of test cases, for coders that are
    inverse to each other. An encoding followed by further bytes fails it, although the
    transition test takes such a file for the test case it starts with. *)
Theorem reencode_test_passes raw :
  Codec.inverse encode decode ->
  (passes (test_reencode (Some raw)) <-> exists testcase, encode testcase = Done raw)
  /\ forall testcase extra transition, encode testcase = Done raw -> extra <> [] ->
       ~ passes (test_reencode (Some (raw ++ extra)))
       /\ test_transition transition (Some (raw ++ extra)) = test_transition transition (Some raw).
Proof.
  intros Hinv. split.
  - unfold passes, test_reencode. split.
    + intros (out & Hr & Hf). destruct (Codec.decode_with_config decode raw) as [tc|e|e|]; [|by injection Hr as <-|done..].
      unfold Codec.encode_with_config in Hr. destruct (encode tc) as [b|e|e|] eqn:He; [|by injection Hr as <-|done..].
      injection Hr as <-. cbn in Hf. destruct (decide (b = raw)) as [->|]; [by exists tc|done].
    + intros [tc He]. pose proof (Hinv tc raw [] He) as Hd. rewrite app_nil_r in Hd.
      rewrite (proj2 (decode_config_Done raw tc)) by eauto. unfold Codec.encode_with_config. rewrite He.
      eexists. split; [reflexivity|]. cbn. by rewrite decide_True.
  - intros tc extra transition He Hx. pose proof (Hinv tc raw extra He) as Hd. pose proof (Hinv tc raw [] He) as Hd0. rewrite app_nil_r in Hd0.
    unfold passes, test_reencode, test_transition. rewrite (proj2 (decode_config_Done (raw ++ extra) tc)), (proj2 (decode_config_Done raw tc)) by eauto.
    split; [|done]. unfold Codec.encode_with_config. rewrite He. intros (out & [= <-] & Hf). cbn in Hf.
    destruct (decide (raw = raw ++ extra)) as [Heq|]; [|done]. apply (f_equal length) in Heq. rewrite length_app in Heq.
    destruct extra; [done|]. cbn in Heq. lia.
Qed.

End tests.

(** Every test vector is tested: the parameters of a suite are exactly the [.bin] files in
    its directories, each once, with the configuration of its directory. *)
Theorem params_exact files s v path :
  ((v, path) ∈ params files s <-> v ∈ vectors s /\ (path, ".bin"%string) ∈ files v.2) /\ NoDup (params files s).
Proof.
  assert (forall dir path, path ∈ elements (Vectors.list_ (files dir)).1 <-> (path, ".bin"%string) ∈ files dir) as Hl.
  { intros dir p. rewrite elem_of_elements. apply Vectors.list_paths. }
  assert (NoDup (vectors s)) as Hn by (destruct s; apply (bool_decide_unpack _); done).
  unfold params. split.
  - rewrite list_elem_of_bind. setoid_rewrite list_elem_of_fmap. setoid_rewrite Hl. naive_solver.
  - induction Hn as [|v0 l Hv Hn IH]; cbn; [constructor|]. apply NoDup_app. split; [|split; [|done]].
    + apply NoDup_fmap_2; [intros a b [= ->]; done|apply NoDup_elements].
    + intros x Hx Hx'. apply list_elem_of_fmap in Hx as (p & -> & _). apply list_elem_of_bind in Hx' as (v1 & Hx' & Hv1).
      apply list_elem_of_fmap in Hx' as (p' & [= <- <-] & _). done.
Qed.

(** ** Samples *)

Module Samples.

(** Test cases of four numbers of one byte each. *)
Definition sample_encode : Codec.encoder (TestCase Diff.TInt Diff.TInt Diff.TInt) := fun tc =>
  mret [input _ _ _ tc; pre_state _ _ _ tc; output _ _ _ tc; post_state _ _ _ tc].

Definition sample_decode : Codec.decoder (TestCase Diff.TInt Diff.TInt Diff.TInt) := fun bytes =>
  match bytes with
  | i :: pre :: o :: post :: rest => mret (MkTestCase Diff.TInt Diff.TInt Diff.TInt i pre o post, rest)
  | _ => Fail tt
  end.

Lemma sample_inverse : Codec.inverse sample_encode sample_decode.
Proof. intros [i pre o post] out rest [= <-]. done. Qed.

(** A transition that adds the input and gives the old state. *)
Definition sample_transition (state input : Z) : run unit (Z * Z) := mret (state + input, state).

Lemma transition_test_passes_witness :
  passes (test_transition Diff.TInt Diff.TInt Diff.TInt sample_decode sample_transition (Some [2; 5; 5; 7])).
Proof.
  apply (transition_test_passes Diff.TInt Diff.TInt Diff.TInt sample_decode sample_transition (Some [2; 5; 5; 7])).
  eexists _, _, _. split; [reflexivity|]. split; reflexivity.
Defined.

Lemma reencode_test_passes_witness :
  ~ passes (test_reencode Diff.TInt Diff.TInt Diff.TInt sample_encode sample_decode (Some ([2; 5; 5; 7] ++ [0]))).
Proof.
  apply (reencode_test_passes Diff.TInt Diff.TInt Diff.TInt sample_encode sample_decode [2; 5; 5; 7] sample_inverse)
    with (testcase := MkTestCase Diff.TInt Diff.TInt Diff.TInt 2 5 5 7) (transition := sample_transition).
  - reflexivity.
  - discriminate.
Defined.

End Samples.
End Harness.
