(* ===== verification/Diagnostics.v ===== *)
(** * Diagnostics: clocks, profiling and formatting for logs

    [src/src/clock/impl/clock_impl.cpp], [src/src/log/profiling_logger.hpp] and
    [src/src/log/formatters/]. *)

From S2P Require Import Prelude.

Module Diagnostics.

(** ** Clocks *)

(** Time since the epoch of a clock in nanoseconds; [duration_cast] rounds towards zero
    and the count becomes unsigned. *)
Definition nowSec (now : Z) : Z := u64 (Z.quot now 1000000000).
Definition nowMsec (now : Z) : Z := u64 (Z.quot now 1000000).

(** ** [ProfileScope] *)

Record ProfileScope : Type := MkScope { scope : string; done_ : bool; start : Z; took : list Z }.

(** The constructor asserts the parameter [logger] after moving it into the member of
    the same name; what a reference holds after the move, [moved_from], is up to the
    library. *)
Definition new_scope (moved_from : option unit -> option unit) (name : string) (logger : option unit) (now : Z) :
    run unit ProfileScope :=
  require (bool_decide (is_Some (moved_from logger)));; mret (MkScope name false now []).

Definition end_ (now : Z) (s : ProfileScope) : ProfileScope :=
  MkScope (scope s) true (start s) (took s ++ [Z.quot (now - start s) 1000000]).

Definition destroy (now : Z) (s : ProfileScope) : ProfileScope := if done_ s then s else end_ now s.

(** ** Formatters *)

Section formatters.
Context {T : Type} (fmt : T -> string).

(** The format specification must be empty: what is left of the range to parse. *)
Definition parse (ctx : list Z) : run unit (list Z) :=
  match ctx with
  | [] => mret []
  | c :: _ => if negb (c =? 125) then Raise "invalid format" else mret ctx
  end.

Definition format_optional (o : option T) : string := match o with Some v => fmt v | None => "<none>" end.
Definition format_shared (p : option T) : string := match p with Some v => fmt v | None => "<nullptr>" end.
Definition format_unique (p : option T) : string := match p with Some v => fmt v | None => "<nullptr>" end.

(** [expired] and [lock] are two looks at the pointer: what each of them sees. *)
Definition format_weak (expired_sees lock_sees : option T) : run unit string :=
  match expired_sees with
  | None => mret "<expired>"%string
  | Some _ => match lock_sees with Some v => mret (fmt v) | None => Undef end
  end.

Definition format_variant (v : T) : string := fmt v.

End formatters.

(** ** Traced calls *)

(** [TraceFuncCall]; no value returned is [TraceReturnVoid]. *)
Record TraceFuncCall : Type := MkTrace { caller : string; func_name : string; ret : option string; args : list string }.

(** The fold over the arguments, with its flag [first]. *)
Fixpoint write_args (first : bool) (l : list string) : string :=
  match l with
  | [] => ""
  | arg :: l => (if first then "" else ", ") ++ arg ++ write_args false l
  end.

Definition format_trace (v : TraceFuncCall) : string :=
  "call '" ++ func_name v ++ "' from " ++ caller v
  ++ (match args v with [] => "" | _ => ", args: " ++ write_args true (args v) end)
  ++ (match ret v with None => "" | Some r => " -> ret: " ++ r end).

(** ** Properties *)

(** The arguments of a traced call are separated by commas, with none before the first
    and none after the last. *)
Lemma trace_args_separated l : write_args true l = String.concat ", " l.
Proof.
  assert (forall s, (s ++ "" = s)%string) as Hnil by (induction s as [|c s IH]; [done|exact (f_equal (String c) IH)]).
  destruct l as [|a l]; [done|]. revert a. induction l as [|b l IH]; intros a; [apply Hnil|].
  change (String.concat ", " (a :: b :: l)) with (a ++ ", " ++ String.concat ", " (b :: l))%string. by rewrite <-IH.
Qed.

(** The two readings of one moment agree, within the range of the counters. *)
Lemma clock_readings now : 0 <= now < 2 ^ 63 -> nowSec now = nowMsec now / 1000.
Proof.
  intros Hn. unfold nowSec, nowMsec. rewrite !Z.quot_div_nonneg by lia. rewrite !wrap_id.
  - rewrite Z.div_div by lia. f_equal.
  - split; [apply Z.div_pos; lia|]. apply Z.div_lt_upper_bound; lia.
  - split; [apply Z.div_pos; lia|]. apply Z.div_lt_upper_bound; lia.
Qed.

(** A scope reports at least once, at the latest when it is destroyed, and its
    destructor reports only if nothing else did. *)
Lemma scope_reports s now : took (destroy now s) = if done_ s then took s else took s ++ [Z.quot (now - start s) 1000000].
Proof. unfold destroy. by destruct (done_ s). Qed.

(** A pointer whose last owner leaves between the two looks is dereferenced. *)
Lemma format_weak_race {T} (fmt : T -> string) v : format_weak fmt (Some v) None = Undef.
Proof. done. Qed.

End Diagnostics.
